(* ===== verification/_CoqProject ===== *)
-Q . S2P
Prelude.v
Posix.v
SpawnMem.v
SpawnKernel.v
Spawn.v
SpawnStubs.v
SpawnRules.v
SpawnChild.v
SpawnLaws.v
SpawnCorrect.v
SpawnPosix.v
SpawnPosixLaws.v
SpawnPipe.v
Copyfile.v
CopyfileLaws.v
Stdune.v
StduneLaws.v
Rpc.v
FswatchWin.v
FswatchWinLaws.v
FswatchQueue.v
FswatchStubs.v
FswatchCorrect.v
Fsevents.v
FseventsLife.v
Lev.v
LevLaws.v
LevLoop.v
LevConfig.v
Blake3Impl.v
Blake3Portable.v
Blake3Backend.v
Blake3Hasher.v
Blake3Spec.v
Blake3Root.v
Blake3Chunk.v
Blake3Wide.v
Blake3Subtree.v
Blake3Stack.v
Blake3Update.v
Blake3PortableLaws.v
Blake3Neon.v
Blake3NeonLaws.v
Blake3Dispatch.v
Blake3Correct.v
Blake3Stubs.v
Blake3StubsLaws.v
