(* ===== verification/Prelude.v ===== *)
(** * Dune's C runtime support: a verification development

    Dune is written in OCaml and calls C for what OCaml's runtime cannot do.  This library
    models that C code and proves it correct: hashing file contents with BLAKE3, spawning
    processes, copying files, reading directories, clocks, waiting for children, file
    watching on Windows and macOS, and the bindings to the event loop libev.  Paths below
    are relative to the sources.

    ** The parts and how they interact

    The OCaml side of Dune calls each stub through an [external] declaration; the stubs
    are independent of each other.  Digests of the build cache come from
    [blake3_stubs.c], which reads files and feeds a hasher; the hasher ([blake3.c]) splits
    its input into chunks and a binary tree and calls a compression kernel, which
    [blake3_dispatch.c] picks for the CPU: portable C, NEON or assembly.  The scheduler
    starts actions with [spawn_stubs.c], waits for them with [wait4_stubs.c], and learns
    of changed files from [fswatch_win_stubs.c] or [fsevents_stubs.c], or through
    [lev_stubs.c].  Files are promoted and copied with [copyfile_stubs.c].

    ** How the code is modelled

    - [Prelude.v]: machine integers as [Z] with their wrap-around written out, bytes as
      [list Z], and [exec], the outcome of code that can fault ([Fault]: a read or write
      outside an object, of a freed block or of an uninitialised variable) or run out of
      fuel ([Spin]); tactics and the lemmas the other files share.
    - [Posix.v]: system calls.  A stub runs against a list of answers, one for each call,
      and leaves the list of its calls.  A statement for all answers is one for every
      behaviour of the system.  OCaml results are a value or an exception.
    - BLAKE3, [src/ocaml-blake3-mini].  [Blake3Impl.v]: constants, bit counting and
      byte order ([blake3.h], [blake3_impl.h]).  [Blake3Portable.v], [Blake3Neon.v]: the
      kernels, function by function; a NEON vector is a list of four words.
      [Blake3Backend.v]: the interface the hasher uses, a class of operations
      ([Backend]) and a class of their laws ([BackendLaws]); the proofs of the hasher
      are against the interface, and the portable and NEON kernels discharge it, and so
      does the dispatcher where it runs C code only.  [Blake3Hasher.v]: every function of [blake3.c], with arrays that fault out
      of range and uninitialised memory as a parameter.  [Blake3Dispatch.v]: feature
      detection from [cpuid] and [xgetbv], its cache and the choice of kernels.
      [Blake3Stubs.v]: the OCaml primitives.  [Blake3Spec.v] is the specification: the
      tree hash of a message as a function of the compression function.  The proofs are in
      [Blake3Root.v], [Blake3Chunk.v], [Blake3Wide.v], [Blake3Subtree.v],
      [Blake3Stack.v], [Blake3Update.v], [Blake3PortableLaws.v], [Blake3NeonLaws.v],
      [Blake3Correct.v] and [Blake3StubsLaws.v].
    - Spawning, [otherlibs/stdune/src/spawn_stubs.c].  [SpawnMem.v]: the blocks that hold
      arguments and environment.  [SpawnKernel.v]: processes with descriptors, signals,
      masks, groups and directories, and the calls on them, each of which may fail; the
      monad [PM] ends a process with [Gone].  [Spawn.v]: the child between [fork] and
      [execve], the parent and the error pipe.  [SpawnPosix.v]: the variant with
      [posix_spawn].  [SpawnStubs.v]: Landlock, [CreateProcess] on Windows, and the entry
      points for bytecode.  [SpawnPipe.v]: several threads that make pipes and fork, one
      step per system call, around the mutex that protects them.
      [SpawnRules.v] has a rule for each call (a weakest precondition [wp]), and
      [SpawnChild.v], [SpawnLaws.v], [SpawnCorrect.v], [SpawnPosixLaws.v] use them.
    - The rest of stdune, [otherlibs/stdune/src].  [Copyfile.v], [CopyfileLaws.v]:
      [copyfile_stubs.c].  [Stdune.v], [StduneLaws.v]: [dune_clock.h],
      [time_stubs.c], [readdir.c], [wait4_stubs.c], [dune_flock.c], [string_stubs.c],
      [platform_stubs.c] and [signal_stubs.c].
    - [Rpc.v]: [csexp_rpc_stubs.c], [dune_trace_stubs.c], [md5_stubs.c], [xdg_stubs.c],
      [dune_memo_stubs.c] and [subreaper_stubs.c].
    - File watching, [src/dune_scheduler].  [FswatchWin.v], [FswatchWinLaws.v]: the watch
      thread of [fswatch_win_stubs.c] as a step on its watches, handles and outstanding
      reads.  [FswatchQueue.v]: the lock-free list that the watch thread, a wait and a
      shutdown share, one step per shared access.  [FswatchStubs.v]: decoding of the
      buffers, UTF-16 and the primitives.  [FswatchCorrect.v]: the list and the decoding
      together.  [Fsevents.v]: [fsevents_stubs.c], its flags, callback and dispatch queue.
      [FseventsLife.v]: its watchers, streams and queues as memory that finalizers free,
      with each function and callback split where it gives up the lock of the runtime.
    - libev, [src/lev/src].  [Lev.v], [LevLaws.v]: the watchers of [lev_stubs.c] on a
      memory with C blocks, global roots and a collector that moves OCaml values.
      [LevLoop.v]: its loops, and the lock of the runtime in a run: the loop of [ev_run]
      and the waits of the backends ([src/lev/vendor]) with the functions that release
      and take it.  [LevConfig.v]:
      [config.h], as a function from what the compiler says to macros, and what libev
      makes of them.

    ** What the theorems show

    - BLAKE3: for every split of a message into updates, every backend that satisfies the
      laws and every content of uninitialised memory, the hasher does not fault and
      computes the specified tree hash, also for derived keys, after a reset and for any
      part of the output; the stack never exceeds its array.  NEON equals portable, every
      build that runs C code only computes the same digests, and the dispatcher uses only
      kernels that the CPU and the system support.  The stubs hash exactly the contents of a file or
      descriptor, close what they open, and refuse bad ranges.
    - Spawning: whatever calls fail in parent and child, spawning comes back, restores the
      parent's descriptors and signals, and reports the call that failed; the exceptions
      (a child killed because its parent had died, a child that cannot write its report,
      a report that cannot be read) are cases of the theorem.  A child that starts has the
      descriptors, directory, group, signals, restrictions and arguments asked for;
      without failures it does start.  Memory is freed, except where the arguments
      could not be converted.  The [posix_spawn] variant has the same theorem, without
      Landlock and the parent-death signal, which it does not apply, once its two
      initialisations have succeeded; before, it uses uninitialised variables.  On Windows
      every handle is closed once, except when a string cannot be converted.  Where pipes are made without [pipe2], no program that is
      forked meanwhile inherits them; one started with [posix_spawn] may.
    - Copying ends, copies exactly the bytes asked for or raises.  Clocks and file times do
      not overflow before 2116.  Directories, child statuses and string searches are exact
      on every system that has them.
    - Windows file watching: while [malloc] gives memory and the names of directories are
      known, the watch thread follows no dangling pointer and leaks no handle.  In orderly
      use (no wait in progress when a shutdown starts, the thread ends in time, the event
      object can be reset) each packet is delivered exactly once and in order under every
      interleaving; decoding inverts encoding, so that waits return the changes the system
      reported; a shutdown ends the thread and frees everything.  Lemmas show what happens
      otherwise: a lost wake-up, a list lost to [ResetEvent], a read that is not
      restarted, a directory that is taken for watched, a name that is missing, memory that
      is not there, a shutdown during a wait, and one that is not awaited.
    - macOS: the counter of streams is exact under every interleaving and no wake-up is
      lost.  Watchers, streams and queues are used only while they are there under every
      interleaving that keeps to the conditions of [FseventsLife.orderly], which
      [fsevents.ml] does not enforce; lemmas show a fault where each is violated.
    - libev: blocks and roots are held by exactly one watcher, also while it is pending, and
      a callback applies the closure it was created with, wherever the collector has moved
      it; watchers must be neither active nor pending when they are destroyed.  OCaml code
      runs with the lock of the runtime and the system waits without it, and a run is
      otherwise the one of libev without the lock functions.  The configuration enables
      the facilities that are found, but for those whose macros are misspelt.

    ** Bounds and fuel

    Loops that are structural in their data need no fuel.  Otherwise: a loop over system
    calls has one pass per answer and one more ([Posix.loop], proved not to matter);
    [compress_subtree_wide] has 64, the depth of a tree of 2^64 bytes; halving a subtree
    length has 64, its bits; [safe_dup] has 4, since three descriptors are below 3; retries
    of the error pipe have one pass per failing call; copying has one per byte of input and
    one more; searching backwards has one per position and two more; decoding a buffer has
    one per byte and one more; a shutdown on Windows has one step per packet ever pushed
    and six more.  In each case the theorems prove the result [Done] and not
    [Spin].  Message lengths are below 2^64 bytes, as the counters of the code are.

    ** What is not modelled

    The assembly kernels of BLAKE3 are a parameter of which nothing is assumed, so the
    theorems on digests are about builds and CPUs that run the C kernels; the oneTBB
    variant is not built.  The kernel of the operating system, [cpuid], MD5, character
    conversion, libev and the runtime of OCaml are parameters or documented steps: of libev
    the deduction of its configuration, the list of its backends, the arrays of pending
    watchers and the loop of [ev_run] with the waits of its backends are here, while the
    events found and the callbacks called in a pass are arbitrary.  The objects of
    [posix_spawn] that hold actions and attributes are not counted as memory.  The calls of [pthread_setcancelstate] around [fork],
    the address of the Windows clock function that is looked up once, the finalizer of a
    hasher, and debugging output have no effect in the models.  Lines that declare or
    include without code of their own, such as most of [blake3_impl.h], have no
    counterpart.  The rest of libev and the other vendored libraries (LMDB, inotify, SHA,
    notty, bigstringaf, opam) are not part of this library. *)

From Stdlib Require Import ZArith Lia.
From stdpp Require Import base numbers list.

#[global] Open Scope Z_scope.

(** ** Outcomes of C code *)

(** A run of a C function either returns a value, faults (a failed [assert] or
    an access outside the array it is given), or runs out of the loop fuel the
    model gives it.  Totality theorems conclude [Done]. *)
Inductive exec (A : Type) : Type :=
| Done (a : A)
| Fault
| Spin.
Arguments Done {A} a.
Arguments Fault {A}.
Arguments Spin {A}.

Definition exec_bind {A B} (m : exec A) (k : A -> exec B) : exec B :=
  match m with
  | Done a => k a
  | Fault => Fault
  | Spin => Spin
  end.

Declare Scope exec_scope.
Delimit Scope exec_scope with exec.
Notation "'let!' x := m 'in' k" := (exec_bind m (fun x => k))
  (at level 10, x pattern, m at level 100, k at level 200) : exec_scope.
#[global] Open Scope exec_scope.

(** [assert(b)]. *)
Definition c_assert (b : bool) : exec unit := if b then Done tt else Fault.

(** [while (c(s)) s = b(s);] with at most [fuel] iterations. *)
Fixpoint while {St : Type} (fuel : nat) (c : St -> bool) (b : St -> exec St)
  (s : St) : exec St :=
  if c s then
    match fuel with
    | O => Spin
    | S n => let! s' := b s in while n c b s'
    end
  else Done s.

(** ** Machine integers *)

Definition wrap (w z : Z) : Z := z mod 2 ^ w.
Abbreviation u8 := (wrap 8).
Abbreviation u16 := (wrap 16).
Abbreviation u32 := (wrap 32).
Abbreviation u64 := (wrap 64).

(** The value of the low [w] bits as a signed integer. *)
Definition signed (w z : Z) : Z := (z + 2 ^ (w - 1)) mod 2 ^ w - 2 ^ (w - 1).

(** Signed arithmetic at a width: overflow has no meaning in C. *)
Definition signed_exact (w z : Z) : exec Z :=
  if (- 2 ^ (w - 1) <=? z) && (z <? 2 ^ (w - 1)) then Done z else Fault.

(** [z] is a value of the unsigned [w]-bit type. *)
Definition in_width (w z : Z) : Prop := 0 <= z < 2 ^ w.

(** ** Byte arrays *)

Definition zlen {A} (l : list A) : Z := Z.of_nat (length l).
Definition ztake {A} (n : Z) (l : list A) : list A := take (Z.to_nat n) l.
Definition zdrop {A} (n : Z) (l : list A) : list A := drop (Z.to_nat n) l.
Definition zeros (n : Z) : list Z := replicate (Z.to_nat n) 0.

(** [memcpy(tmp, a + off, n)]: the [n] elements read from [a] at [off]. *)
Definition load_range {A} (a : list A) (off n : Z) : exec (list A) :=
  if (0 <=? off) && (0 <=? n) && (off + n <=? zlen a)
  then Done (ztake n (zdrop off a)) else Fault.

(** [memcpy(a + off, bs, length bs)]. *)
Definition store_range {A} (a : list A) (off : Z) (bs : list A) : exec (list A) :=
  if (0 <=? off) && (off + zlen bs <=? zlen a)
  then Done (ztake off a ++ bs ++ zdrop (off + zlen bs) a) else Fault.

(** [strlen]: the bytes before the first NUL. *)
Fixpoint c_string (s : list Z) : list Z :=
  match s with
  | [] => []
  | c :: s => if c =? 0 then [] else c :: c_string s
  end.

(** The value of an integer in memory, least significant byte first, and the
    [n] bytes of a value. *)
Fixpoint le_value (bs : list Z) : Z :=
  match bs with [] => 0 | b :: bs => b + 256 * le_value bs end.
Fixpoint le_bytes (n : nat) (z : Z) : list Z :=
  match n with O => [] | S n => z mod 256 :: le_bytes n (z / 256) end.

(** The element [a[i]] of an array whose length the type fixes. *)
Notation "a .[ i ]" := (nth i a 0) (at level 1, i at level 200, left associativity,
  format "a .[ i ]") : Z_scope.

(** ** Hint databases and tactics *)

(** [len]: lengths of list expressions; [wrap]: words known to be in range. *)
Create HintDb len.
Create HintDb width.

Lemma zlen_app {A} (l k : list A) : zlen (l ++ k) = zlen l + zlen k.
Proof. unfold zlen. rewrite length_app. lia. Qed.

Lemma zlen_cons {A} (x : A) l : zlen (x :: l) = 1 + zlen l.
Proof. unfold zlen. simpl. lia. Qed.

Lemma zlen_nil {A} : zlen (@nil A) = 0.
Proof. reflexivity. Qed.

Lemma zlen_nonneg {A} (l : list A) : 0 <= zlen l.
Proof. unfold zlen. lia. Qed.

Lemma zlen_ztake {A} n (l : list A) : zlen (ztake n l) = Z.max 0 (Z.min n (zlen l)).
Proof. unfold zlen, ztake. rewrite length_take. lia. Qed.

Lemma zlen_zdrop {A} n (l : list A) : zlen (zdrop n l) = Z.min (zlen l) (Z.max 0 (zlen l - n)).
Proof. unfold zlen, zdrop. rewrite length_drop. lia. Qed.

Lemma zlen_zeros n : zlen (zeros n) = Z.max 0 n.
Proof. unfold zlen, zeros. rewrite length_replicate. lia. Qed.

Lemma zlen_map {A B} (f : A -> B) l : zlen (map f l) = zlen l.
Proof. unfold zlen. rewrite length_map. reflexivity. Qed.

Lemma zlen_nil_inv {A} (l : list A) : zlen l = 0 -> l = [].
Proof. unfold zlen. destruct l; simpl; [done | lia]. Qed.

#[export] Hint Rewrite @zlen_app @zlen_cons @zlen_nil @zlen_ztake @zlen_zdrop
  zlen_zeros @zlen_map : len.

(** [len]: rewrite lengths and close the linear goal they give. *)
Ltac pose_lengths :=
  repeat match goal with
  | |- context [zlen ?l] =>
      lazymatch goal with
      | _ : 0 <= zlen l |- _ => fail
      | _ => pose proof (zlen_nonneg l)
      end
  | _ : context [zlen ?l] |- _ =>
      lazymatch goal with
      | _ : 0 <= zlen l |- _ => fail
      | _ => pose proof (zlen_nonneg l)
      end
  end.
Ltac len := autorewrite with len in *; pose_lengths; try lia.

(** *** Slices *)

Section Slices.
Context {A : Type}.
Implicit Types l k : list A.

Lemma ztake_zdrop n l : ztake n l ++ zdrop n l = l.
Proof. apply take_drop. Qed.

Lemma ztake_app_le n l k : n <= zlen l -> ztake n (l ++ k) = ztake n l.
Proof. intros. apply take_app_le. unfold zlen in *. lia. Qed.

Lemma ztake_app_ge n l k : zlen l <= n -> ztake n (l ++ k) = l ++ ztake (n - zlen l) k.
Proof.
  unfold ztake, zlen. intros. rewrite take_app_ge by lia. do 2 f_equal. lia.
Qed.

Lemma zdrop_app_le n l k : n <= zlen l -> zdrop n (l ++ k) = zdrop n l ++ k.
Proof. intros. apply drop_app_le. unfold zlen in *. lia. Qed.

Lemma zdrop_app_ge n l k : zlen l <= n -> zdrop n (l ++ k) = zdrop (n - zlen l) k.
Proof. unfold zdrop, zlen. intros. rewrite drop_app_ge by lia. f_equal. lia. Qed.

Lemma ztake_all n l : zlen l <= n -> ztake n l = l.
Proof. intros. apply take_ge. unfold zlen in *. lia. Qed.

Lemma zdrop_all n l : zlen l <= n -> zdrop n l = [].
Proof. intros. apply drop_ge. unfold zlen in *. lia. Qed.

Lemma ztake_0 n l : n <= 0 -> ztake n l = [].
Proof. intros. unfold ztake. replace (Z.to_nat n) with 0%nat by lia. done. Qed.

Lemma zdrop_0 n l : n <= 0 -> zdrop n l = l.
Proof. intros. unfold zdrop. replace (Z.to_nat n) with 0%nat by lia. done. Qed.

Lemma zdrop_zdrop n m l : 0 <= n -> 0 <= m -> zdrop n (zdrop m l) = zdrop (m + n) l.
Proof. intros. unfold zdrop. rewrite drop_drop. f_equal. lia. Qed.

Lemma ztake_ztake n m l : ztake n (ztake m l) = ztake (Z.min n m) l.
Proof. unfold ztake. rewrite take_take. f_equal. lia. Qed.

Lemma ztake_zdrop_comm n m l : 0 <= n -> 0 <= m ->
  ztake n (zdrop m l) = zdrop m (ztake (m + n) l).
Proof.
  intros. unfold ztake, zdrop. rewrite take_drop_commute. do 2 f_equal. lia.
Qed.

Lemma load_range_ok a off n : 0 <= off -> 0 <= n -> off + n <= zlen a ->
  load_range (A:=A) a off n = Done (ztake n (zdrop off a)).
Proof.
  intros. unfold load_range.
  rewrite !(proj2 (Z.leb_le _ _)) by lia. done.
Qed.

Lemma store_range_ok a off bs : 0 <= off -> off + zlen bs <= zlen a ->
  store_range (A:=A) a off bs = Done (ztake off a ++ bs ++ zdrop (off + zlen bs) a).
Proof.
  intros. unfold store_range.
  rewrite !(proj2 (Z.leb_le _ _)) by lia. done.
Qed.
End Slices.

(** *** Integers in memory *)

Lemma zlen_le_bytes n z : zlen (le_bytes n z) = Z.of_nat n.
Proof. revert z. induction n as [|n IH]; intros z; [done|]. cbn [le_bytes]. rewrite zlen_cons, IH. lia. Qed.
#[export] Hint Rewrite zlen_le_bytes : len.

Lemma le_value_le_bytes n z : 0 <= z < 256 ^ Z.of_nat n -> le_value (le_bytes n z) = z.
Proof.
  revert z. induction n as [|n IH]; intros z Hz; cbn [le_bytes le_value].
  { change (256 ^ Z.of_nat 0) with 1 in Hz. lia. }
  rewrite Nat2Z.inj_succ, Z.pow_succ_r in Hz by lia.
  rewrite IH; [pose proof (Z.div_mod z 256); lia|]. split; [apply Z.div_pos; lia|].
  apply Z.div_lt_upper_bound; lia.
Qed.

(** *** Checking a property of small numbers by computation *)

Lemma forallb_below (f : Z -> bool) n : forallb f (seqZ 0 n) = true ->
  forall i, 0 <= i < n -> f i = true.
Proof.
  intros H i Hi. rewrite forallb_forall in H. apply H. apply list_elem_of_In, elem_of_seqZ. lia.
Qed.

(** *** Loops *)

(** Total correctness of [while]: an invariant and a decreasing measure. *)
Lemma while_total {St : Type} (Inv : St -> Prop) (m : St -> nat) c b :
  (forall s, Inv s -> c s = true ->
     exists s', b s = Done s' /\ Inv s' /\ (m s' < m s)%nat) ->
  forall fuel s, Inv s -> (m s <= fuel)%nat ->
  exists s', while fuel c b s = Done s' /\ Inv s' /\ c s' = false.
Proof.
  intros Hb fuel. induction fuel as [|n IH]; intros s Hs Hm; simpl;
    destruct (c s) eqn:Hc.
  - destruct (Hb s Hs Hc) as (s' & _ & _ & ?). lia.
  - eauto.
  - destruct (Hb s Hs Hc) as (s' & -> & Hs' & ?). simpl. apply IH; [done | lia].
  - eauto.
Qed.

Lemma exec_bind_Done {A B} (m : exec A) (k : A -> exec B) r :
  exec_bind m k = Done r -> exists a, m = Done a /\ k a = Done r.
Proof. destruct m; simpl; [eauto | done | done]. Qed.

(** *** Words *)

Lemma wrap_small w z : 0 <= z < 2 ^ w -> wrap w z = z.
Proof. apply Z.mod_small. Qed.

Lemma wrap_width w z : 0 <= w -> in_width w (wrap w z).
Proof. intros. apply Z.mod_pos_bound. lia. Qed.

Lemma wrap_idem w z : 0 <= w -> wrap w (wrap w z) = wrap w z.
Proof. intros. apply wrap_small, wrap_width. done. Qed.

Lemma signed_small w z : 0 < w -> - 2 ^ (w - 1) <= z < 2 ^ (w - 1) -> signed w z = z.
Proof.
  intros Hw Hz. unfold signed. replace (2 ^ w) with (2 * 2 ^ (w - 1)).
  - rewrite Z.mod_small by lia. lia.
  - rewrite <- Z.pow_succ_r by lia. f_equal. lia.
Qed.

Lemma signed_exact_ok w z : - 2 ^ (w - 1) <= z < 2 ^ (w - 1) -> signed_exact w z = Done z.
Proof.
  intros Hz. unfold signed_exact.
  rewrite (proj2 (Z.leb_le _ _)), (proj2 (Z.ltb_lt _ _)) by lia. done.
Qed.

Lemma in_width_testbit w z : in_width w z -> forall i, w <= i -> Z.testbit z i = false.
Proof.
  intros [? Hlt] i Hi.
  destruct (Z.eq_dec z 0) as [->|]; [apply Z.testbit_0_l|].
  apply Z.bits_above_log2; [done|].
  apply Z.lt_le_trans with w; [|done]. apply Z.log2_lt_pow2; lia.
Qed.

Lemma testbit_in_width w z : 0 <= w -> 0 <= z ->
  (forall i, w <= i -> Z.testbit z i = false) -> in_width w z.
Proof.
  intros Hw Hz Hi. split; [done|].
  destruct (Z.eq_dec z 0) as [->|]; [lia|].
  apply Z.log2_lt_pow2; [lia|].
  destruct (Z.lt_ge_cases (Z.log2 z) w) as [|Hge]; [done|].
  specialize (Hi _ Hge). rewrite Z.bit_log2 in Hi by lia. done.
Qed.

Lemma wrap_testbit w z i : 0 <= w -> Z.testbit (wrap w z) i = (i <? w) && Z.testbit z i.
Proof.
  intros. unfold wrap. destruct (Z.ltb_spec i w).
  - apply Z.mod_pow2_bits_low. lia.
  - apply Z.mod_pow2_bits_high. lia.
Qed.

Lemma in_width_lor w a b : 0 <= w -> in_width w a -> in_width w b -> in_width w (Z.lor a b).
Proof.
  intros Hw Ha Hb. apply testbit_in_width; [done| |].
  - apply Z.lor_nonneg. unfold in_width in *. lia.
  - intros i Hi. rewrite Z.lor_spec, !(in_width_testbit w) by done. done.
Qed.

Lemma in_width_lxor w a b : 0 <= w -> in_width w a -> in_width w b -> in_width w (Z.lxor a b).
Proof.
  intros Hw Ha Hb. apply testbit_in_width; [done| |].
  - apply Z.lxor_nonneg. unfold in_width in *. lia.
  - intros i Hi. rewrite Z.lxor_spec, !(in_width_testbit w) by done. done.
Qed.

Lemma in_width_land w a b : 0 <= w -> in_width w a -> 0 <= b -> in_width w (Z.land a b).
Proof.
  intros Hw Ha Hb. apply testbit_in_width; [done| |].
  - apply Z.land_nonneg. lia.
  - intros i Hi. rewrite Z.land_spec, (in_width_testbit w a) by done. done.
Qed.

(** Masking off the low [n] bits of an [n + k]-bit word. *)
Lemma land_high_mask n k x : 0 <= n -> 0 <= k -> in_width (n + k) x ->
  Z.land x (Z.shiftl (Z.ones k) n) = x / 2 ^ n * 2 ^ n.
Proof.
  intros Hn Hk Hx. rewrite <- Z.shiftr_div_pow2, <- Z.shiftl_mul_pow2 by done.
  apply Z.bits_inj'. intros i Hi. rewrite Z.land_spec, !Z.shiftl_spec by done.
  destruct (Z.lt_ge_cases i n).
  - rewrite !(Z.testbit_neg_r _ (i - n)) by lia. apply andb_false_r.
  - rewrite Z.shiftr_spec by lia. replace (i - n + n) with i by lia.
    destruct (Z.lt_ge_cases i (n + k)).
    + rewrite Z.ones_spec_low by lia. apply andb_true_r.
    + rewrite (in_width_testbit (n + k) x) by done. done.
Qed.

#[export] Hint Resolve wrap_width in_width_lor in_width_lxor in_width_land : width.
#[export] Hint Extern 1 (0 <= _) => lia : width.

(** [unwrap]: drop the wrap-around of every word known to be in range. *)
Ltac unwrap :=
  repeat match goal with
  | |- context [wrap ?w ?z] => rewrite (wrap_small w z) by lia
  | H : context [wrap ?w ?z] |- _ => rewrite (wrap_small w z) in H by lia
  end.
