(* ===== verification/Posix.v ===== *)
(** * System calls and the OCaml runtime, as seen by the stubs

    The operating system is an oracle: a stub runs against a list of answers, one
    for each system call it makes, and leaves behind the list of the calls it made.
    A theorem about all answers is a theorem about every behaviour of the system.
    A stub returns an OCaml value or raises; running out of answers is [Spin]. *)

From Stdlib Require Import ZArith Lia.
From stdpp Require Import base numbers list strings.
From S2P Require Import Prelude.
Local Open Scope Z_scope.

(** ** The oracle *)

Inductive answer :=
| Ret (v : Z)
| Bytes (bs : list Z)
| Errno (e : Z).

Record call := Call { c_name : string; c_args : list Z }.
Record os := { answers : list answer; calls : list call }.

Definition M (A : Type) : Type := os -> exec (A * os).

#[global] Instance M_ret : MRet M := fun A a w => Done (a, w).
#[global] Instance M_bind : MBind M := fun A B k m w =>
  match m w with
  | Done (a, w) => k a w
  | Fault => Fault
  | Spin => Spin
  end.

(** A system call: its answer is the next one. *)
Definition sys (name : string) (args : list Z) : M answer := fun w =>
  match answers w with
  | [] => Spin
  | a :: rest => Done (a, {| answers := rest; calls := calls w ++ [Call name args] |})
  end.

(** Code that makes no system call. *)
Definition lift {A} (e : exec A) : M A := fun w =>
  match e with
  | Done a => Done (a, w)
  | Fault => Fault
  | Spin => Spin
  end.

(** [while (1)]: the body goes on with [inl] and leaves with [inr].  Every pass
    makes a system call, so one pass for each answer is enough. *)
Fixpoint iter {St R} (fuel : nat) (body : St -> M (St + R)) (s : St) : M R := fun w =>
  match fuel with
  | O => Spin
  | S n =>
      match body s w with
      | Done (inl s', w') => iter n body s' w'
      | Done (inr r, w') => Done (r, w')
      | Fault => Fault
      | Spin => Spin
      end
  end.
Definition loop {St R} (body : St -> M (St + R)) (s : St) : M R := fun w =>
  iter (S (length (answers w))) body s w.

(** ** Results of a stub *)

Inductive exn :=
| Unix_error (e : Z) (op : string) (arg : list Z)
| Out_of_memory
| Invalid_argument (msg : string)
| Failure (msg : string)
| Sys_error (msg : string).

Inductive caml (A : Type) :=
| Value (a : A)
| Raise (x : exn).
Arguments Value {A} a.
Arguments Raise {A} x.

(** An OCaml integer keeps 63 bits of an [intnat], which has 64. *)
Definition Val_long (z : Z) : Z := signed 63 z.

Lemma Val_long_small z : 0 <= z < 2 ^ 62 -> Val_long z = z.
Proof. intros Hz. apply signed_small; cbn in *; lia. Qed.

(** ** String literals as bytes *)

Definition bytes_of_string (s : string) : list Z :=
  map (fun c => Z.of_nat (Ascii.nat_of_ascii c)) (String.list_ascii_of_string s).
Definition string_of_bytes (bs : list Z) : string :=
  String.string_of_list_ascii (map (fun b => Ascii.ascii_of_nat (Z.to_nat b)) bs).

(** ** Error numbers *)

Definition ENOENT : Z := 2.
Definition EINTR : Z := 4.
Definition EIO : Z := 5.
Definition EAGAIN : Z := 11.
Definition EWOULDBLOCK : Z := EAGAIN.

(** [caml_unix_check_path]: a path with a NUL byte is refused. *)
Definition check_path (path : list Z) : bool := forallb (fun c => negb (c =? 0)) path.

(** ** Laws *)

Lemma string_of_bytes_of_string s : string_of_bytes (bytes_of_string s) = s.
Proof.
  unfold string_of_bytes, bytes_of_string. rewrite map_map.
  rewrite <- (String.string_of_list_ascii_of_string s) at 2. f_equal.
  induction (String.list_ascii_of_string s) as [|c l IH]; [done|]. cbn [map].
  rewrite IH, Nat2Z.id, Ascii.ascii_nat_embedding. done.
Qed.

Lemma bind_Done {A B} (m : M A) (k : A -> M B) w a w' :
  m w = Done (a, w') -> (m ≫= k) w = k a w'.
Proof. intros H. unfold mbind, M_bind. rewrite H. done. Qed.

Lemma sys_cons name args a rest cs :
  sys name args {| answers := a :: rest; calls := cs |} =
  Done (a, {| answers := rest; calls := cs ++ [Call name args] |}).
Proof. done. Qed.

(** A pass that goes on has consumed an answer. *)
Definition consuming {St R} (body : St -> M (St + R)) : Prop :=
  forall s w s' w', body s w = Done (inl s', w') -> (length (answers w') < length (answers w))%nat.

Lemma iter_fuel {St R} (body : St -> M (St + R)) : consuming body ->
  forall n m s w, (length (answers w) < n)%nat -> (length (answers w) < m)%nat ->
  iter n body s w = iter m body s w.
Proof.
  intros Hb n. induction n as [|n IH]; intros m s w Hn Hm; [lia|].
  destruct m as [|m]; [lia|]. simpl.
  destruct (body s w) as [[[s'|r] w']| |] eqn:E; try done.
  apply Hb in E. apply IH; lia.
Qed.

Lemma loop_next {St R} (body : St -> M (St + R)) s w s' w' : consuming body ->
  body s w = Done (inl s', w') -> loop body s w = loop body s' w'.
Proof.
  intros Hb E. unfold loop at 1. simpl. rewrite E. pose proof (Hb _ _ _ _ E).
  apply iter_fuel; [done|lia|lia].
Qed.

Lemma loop_leave {St R} (body : St -> M (St + R)) s w r w' :
  body s w = Done (inr r, w') -> loop body s w = Done (r, w').
Proof. intros E. unfold loop. simpl. rewrite E. done. Qed.

Lemma sys_Done name args w a w' : sys name args w = Done (a, w') ->
  (length (answers w') < length (answers w))%nat.
Proof. unfold sys. destruct w as [[|x l] cs]; simpl; [done|]. intros [= _ <-]. simpl. lia. Qed.

(** [consumes]: a loop body that starts with a system call and makes no other. *)
Ltac consumes :=
  let s := fresh "s" in let w := fresh "w" in let s' := fresh "s'" in let w' := fresh "w'" in
  let E := fresh "E" in
  intros s w s' w'; unfold mbind, M_bind, mret, M_ret, lift;
  match goal with |- context [sys ?n ?a w] =>
    destruct (sys n a w) as [[? ?]| |] eqn:E; try discriminate; apply sys_Done in E
  end;
  repeat match goal with
  | |- context [match ?x with Done _ => _ | Fault => _ | Spin => _ end] => destruct x; try discriminate
  | |- context [match ?x with Ret _ => _ | Bytes _ => _ | Errno _ => _ end] => destruct x; try discriminate
  | |- context [if ?x then _ else _] => destruct x; try discriminate
  end;
  intros [=]; subst; assumption.

(** The calls a run of one system call leaves behind, and a state of the oracle. *)
Definition log (name : string) (args : list Z) (n : nat) : list call := replicate n (Call name args).
Abbreviation at_ rest cs := {| answers := rest; calls := cs |}.

Lemma log_S cs name args n :
  cs ++ log name args (S n) = (cs ++ [Call name args]) ++ log name args n.
Proof. rewrite <- app_assoc. done. Qed.

Lemma log_snoc cs name args n :
  cs ++ log name args (S n) = (cs ++ log name args n) ++ [Call name args].
Proof. unfold log. rewrite replicate_S_end, app_assoc. done. Qed.

Lemma bind_sys {B} name args (k : answer -> M B) a rest cs :
  (sys name args ≫= k) (at_ (a :: rest) cs) = k a (at_ rest (cs ++ [Call name args])).
Proof. done. Qed.

(** A call retried while it is interrupted. *)
Lemma retry_loop {R} (name : string) (args : list Z) (step : unit -> M (unit + R)) n rest cs :
  (forall rest cs, step tt (at_ (Errno EINTR :: rest) cs) =
     Done (inl tt, at_ rest (cs ++ [Call name args]))) ->
  consuming step ->
  loop step tt (at_ (replicate n (Errno EINTR) ++ rest) cs) =
  loop step tt (at_ rest (cs ++ log name args n)).
Proof.
  intros Hs Hc. revert cs. induction n as [|n IH]; intros cs.
  { simpl. rewrite app_nil_r. done. }
  cbn [replicate app]. rewrite (loop_next _ _ _ _ _ Hc (Hs _ cs)), IH, log_S. done.
Qed.

(** ** What a piece of code may call *)

(** Every run of [m] that returns appends calls that satisfy [P]. *)
Definition emits {A} (P : call -> Prop) (m : M A) : Prop :=
  forall w a w', m w = Done (a, w') ->
  exists new, calls w' = calls w ++ new /\ Forall P new.

Create HintDb emits.

Lemma emits_ret {A} P (a : A) : emits P (mret a).
Proof. intros w b w' [= _ <-]. exists []. rewrite app_nil_r. done. Qed.

Lemma emits_lift {A} P (e : exec A) : emits P (lift e).
Proof.
  intros w b w'. unfold lift. destruct e; try done. intros [= _ <-].
  exists []. rewrite app_nil_r. done.
Qed.

Lemma emits_sys (P : call -> Prop) name args : P (Call name args) -> emits P (sys name args).
Proof.
  intros HP w b w'. unfold sys. destruct (answers w); [done|]. intros [= _ <-].
  exists [Call name args]. split; [done|]. constructor; [done|constructor].
Qed.

Lemma emits_bind {A B} P (m : M A) (k : A -> M B) :
  emits P m -> (forall a, emits P (k a)) -> emits P (m ≫= k).
Proof.
  intros Hm Hk w b w'. unfold mbind, M_bind. destruct (m w) as [[a w1]| |] eqn:E; try done.
  intros Eb. destruct (Hm _ _ _ E) as (n1 & E1 & H1), (Hk a _ _ _ Eb) as (n2 & E2 & H2).
  exists (n1 ++ n2). rewrite app_assoc, <- E1, <- E2. split; [done|]. apply Forall_app. done.
Qed.

Lemma emits_loop {St R} P (body : St -> M (St + R)) s :
  (forall s, emits P (body s)) -> emits P (loop body s).
Proof.
  intros Hb w r w'. unfold loop. generalize (S (length (answers w))) as n. intros n.
  revert s w. induction n as [|n IH]; intros s w; [done|]. simpl.
  destruct (body s w) as [[[s'|r'] w1]| |] eqn:E; try done; destruct (Hb s _ _ _ E) as (n1 & E1 & H1).
  - intros Er. destruct (IH _ _ Er) as (n2 & E2 & H2).
    exists (n1 ++ n2). rewrite app_assoc, <- E1, <- E2. split; [done|]. apply Forall_app. done.
  - intros [= _ <-]. exists n1. done.
Qed.

#[export] Hint Resolve emits_ret emits_lift emits_sys emits_bind emits_loop : emits.

(** [emits_auto]: follow the code, splitting on its branches. *)
Ltac emits_auto :=
  intros;
  repeat first
    [ apply emits_ret | apply emits_lift
    | apply emits_sys; solve [done | simpl; auto]
    | apply emits_bind; [|intros ?]
    | apply emits_loop; intros ?
    | match goal with
      | |- emits _ (match ?x with _ => _ end) => destruct x
      | |- emits _ (if ?x then _ else _) => destruct x
      end ].
