(* ===== verification/SpawnMem.v ===== *)
(** * Argument and environment blocks of a child process

    [alloc_env_list], [alloc_string_array] and [copy_c_string_array] of
    [spawn_stubs.c] build a NULL-terminated array of pointers followed by the strings
    they point to, in one allocation.  The model keeps the block as bytes: pointers
    are eight little-endian bytes, every store is bounds-checked, and sizes wrap at 64
    bits.  [read_strings] is what [execve] reads back through the pointers. *)

From Stdlib Require Import ZArith Lia.
From stdpp Require Import base numbers list.
From S2P Require Import Prelude.
Local Open Scope Z_scope.

Definition sizeof_ptr : Z := 8.

(** A block [malloc] returned: its address and its bytes. *)
Record block := Block { b_addr : Z; b_mem : list Z }.

(** [result[i] = p] and [result[i]]. *)
Definition store_ptr (m : list Z) (i p : Z) : exec (list Z) :=
  store_range m (sizeof_ptr * i) (le_bytes 8 p).
Definition load_ptr (m : list Z) (i : Z) : exec Z :=
  let! bs := load_range m (sizeof_ptr * i) sizeof_ptr in Done (le_value bs).

(** ** [alloc_env_list] *)

Definition env_full_size (v : list (list Z * list Z)) : Z :=
  fold_left (fun full_size '(variable, binding_value) =>
      u64 (full_size + (sizeof_ptr + zlen variable + zlen binding_value + 2)))
    v sizeof_ptr.

Fixpoint env_loop (addr : Z) (v : list (list Z * list Z)) (i ptr : Z) (result : list Z) :
  exec (list Z) :=
  match v with
  | [] => Done result
  | (variable, binding_value) :: v =>
      let! result := store_ptr result i (addr + ptr) in
      let! result := store_range result ptr variable in
      let ptr := ptr + zlen variable in
      let! result := store_range result ptr [61] in
      let ptr := ptr + 1 in
      let! result := store_range result ptr binding_value in
      let ptr := ptr + zlen binding_value in
      let! result := store_range result ptr [0] in
      env_loop addr v (i + 1) (ptr + 1) result
  end.

Definition fill_env_list (result : block) (v : list (list Z * list Z)) : exec block :=
  let count := zlen v in
  let! m := env_loop (b_addr result) v 0 (sizeof_ptr * (count + 1)) (b_mem result) in
  let! m := store_ptr m count 0 in
  Done (Block (b_addr result) m).

(** ** [alloc_string_array] *)

Definition args_full_size (argv0 : list Z) (args : list (list Z)) : Z :=
  fold_left (fun full_size s => u64 (full_size + (zlen s + 1))) args
    (u64 (sizeof_ptr * (zlen args + 2) + zlen argv0 + 1)).

(** An OCaml string is followed by a NUL byte, which the copy includes. *)
Fixpoint args_loop (addr : Z) (args : list (list Z)) (i ptr : Z) (result : list Z) :
  exec (list Z) :=
  match args with
  | [] => Done result
  | s :: args =>
      let len := zlen s + 1 in
      let! result := store_range result ptr (s ++ [0]) in
      let! result := store_ptr result (i + 1) (addr + ptr) in
      args_loop addr args (i + 1) (ptr + len) result
  end.

Definition fill_string_array (result : block) (argv0 : list Z) (args : list (list Z)) :
  exec block :=
  let count := zlen args in
  let ptr := sizeof_ptr * (count + 2) in
  let len := zlen argv0 + 1 in
  let! m := store_range (b_mem result) ptr (argv0 ++ [0]) in
  let! m := store_ptr m 0 (b_addr result + ptr) in
  let! m := args_loop (b_addr result) args 0 (ptr + len) m in
  let! m := store_ptr m (count + 1) 0 in
  Done (Block (b_addr result) m).

(** ** [copy_c_string_array] *)

(** [strings] are C strings: the bytes before their NUL. *)
Definition copy_full_size (strings : list (list Z)) : Z :=
  fold_left (fun full_size s => u64 (full_size + (sizeof_ptr + zlen s + 1))) strings sizeof_ptr.

Fixpoint copy_loop (addr : Z) (strings : list (list Z)) (i ptr : Z) (result : list Z) :
  exec (list Z) :=
  match strings with
  | [] => Done result
  | s :: strings =>
      let len := zlen s + 1 in
      let! result := store_range result ptr (s ++ [0]) in
      let! result := store_ptr result i (addr + ptr) in
      copy_loop addr strings (i + 1) (ptr + len) result
  end.

Definition fill_c_string_array (result : block) (strings : list (list Z)) : exec block :=
  let count := zlen strings in
  let! m := copy_loop (b_addr result) strings 0 (sizeof_ptr * (count + 1)) (b_mem result) in
  let! m := store_ptr m count 0 in
  Done (Block (b_addr result) m).

(** ** Reading a block back *)

(** The C string at [off], which must end inside the block. *)
Definition load_cstr (m : list Z) (off : Z) : exec (list Z) :=
  if (0 <=? off) && existsb (Z.eqb 0) (zdrop off m) then Done (c_string (zdrop off m)) else Fault.

Fixpoint read_from (fuel : nat) (b : block) (i : Z) : exec (list (list Z)) :=
  match fuel with
  | O => Spin
  | S n =>
      let! p := load_ptr (b_mem b) i in
      if p =? 0 then Done [] else
      let! s := load_cstr (b_mem b) (p - b_addr b) in
      let! rest := read_from n b (i + 1) in
      Done (s :: rest)
  end.
(** A block of [n] bytes has fewer than [n] pointers. *)
Definition read_strings (b : block) : exec (list (list Z)) := read_from (length (b_mem b)) b 0.

(** ** The layout *)

(** What [malloc(n)] promises of a block. *)
Definition fresh_block (n : Z) (b : block) : Prop :=
  zlen (b_mem b) = n /\ 0 < b_addr b /\ b_addr b + n < 2 ^ 64.

(** The pointers to consecutive strings, the first at [off]. *)
Fixpoint pointers (addr off : Z) (chunks : list (list Z)) : list Z :=
  match chunks with
  | [] => []
  | c :: chunks => le_bytes 8 (addr + off) ++ pointers addr (off + zlen c) chunks
  end.

Definition layout (addr : Z) (chunks : list (list Z)) : list Z :=
  pointers addr (sizeof_ptr * (zlen chunks + 1)) chunks ++ le_bytes 8 0 ++ concat chunks.

Lemma zlen_pointers addr off chunks : zlen (pointers addr off chunks) = 8 * zlen chunks.
Proof.
  revert off. induction chunks as [|c cs IH]; intros off; [done|].
  cbn [pointers]. rewrite zlen_app, zlen_le_bytes, IH, zlen_cons. lia.
Qed.
#[local] Hint Rewrite zlen_pointers : len.

(** Stores at the boundary of a concatenation. *)
Lemma store_app (A Y bs : list Z) off : off = zlen A -> zlen bs <= zlen Y ->
  store_range (A ++ Y) off bs = Done (A ++ bs ++ zdrop (zlen bs) Y).
Proof.
  intros -> Hle. rewrite store_range_ok by len. f_equal.
  rewrite ztake_app_le, ztake_all, zdrop_app_ge by len. do 3 f_equal. lia.
Qed.

(** The memory between two steps: pointers, free pointers, strings, free bytes. *)
Lemma store_next_ptr (P X R : list Z) i p : 8 * i = zlen P -> 8 <= zlen X ->
  store_ptr (P ++ X ++ R) i p = Done ((P ++ le_bytes 8 p) ++ zdrop 8 X ++ R).
Proof.
  intros Hi HX. unfold store_ptr. rewrite store_app by (unfold sizeof_ptr; len).
  rewrite zlen_le_bytes. change (Z.of_nat 8) with 8.
  rewrite zdrop_app_le, <- !app_assoc by lia. done.
Qed.

Lemma store_next_chunk (P X D Y c : list Z) ptr :
  ptr = zlen P + zlen X + zlen D -> zlen c <= zlen Y ->
  store_range (P ++ X ++ D ++ Y) ptr c = Done (P ++ X ++ (D ++ c) ++ zdrop (zlen c) Y).
Proof.
  intros -> Hc. rewrite !app_assoc. rewrite store_app by len. rewrite <- !app_assoc. done.
Qed.

Definition total (chunks : list (list Z)) : Z := zlen (concat chunks).

Lemma total_cons c cs : total (c :: cs) = zlen c + total cs.
Proof. unfold total. cbn [concat]. rewrite zlen_app. done. Qed.

(** What a copying loop that stands at string [i] leaves behind. *)
Definition packs (loop : Z -> Z -> list Z -> exec (list Z)) (addr : Z) (chunks : list (list Z))
  (shift : Z) : Prop :=
  forall P X D Y i ptr, 8 * (i + shift) = zlen P -> ptr = zlen P + zlen X + zlen D ->
    8 * zlen chunks <= zlen X -> total chunks <= zlen Y ->
    loop i ptr (P ++ X ++ D ++ Y) =
    Done (P ++ (pointers addr ptr chunks ++ zdrop (8 * zlen chunks) X) ++
          (D ++ concat chunks) ++ zdrop (total chunks) Y).

Lemma packs_nil loop addr shift : (forall i ptr m, loop i ptr m = Done m) -> packs loop addr [] shift.
Proof.
  intros Hl P X D Y i ptr _ _ _ _. rewrite Hl. cbn [pointers concat app].
  rewrite app_nil_r, !zdrop_0; done || reflexivity.
Qed.

(** One step of a loop that stores the pointer and the string [c], in either order. *)
Lemma packs_cons loop loop' addr c chunks shift :
  (forall P X D Y i ptr, 8 * (i + shift) = zlen P -> ptr = zlen P + zlen X + zlen D ->
     8 <= zlen X -> zlen c <= zlen Y ->
     loop i ptr (P ++ X ++ D ++ Y) =
     loop' (i + 1) (ptr + zlen c)
       ((P ++ le_bytes 8 (addr + ptr)) ++ zdrop 8 X ++ (D ++ c) ++ zdrop (zlen c) Y)) ->
  packs loop' addr chunks shift -> packs loop addr (c :: chunks) shift.
Proof.
  intros Hs IH P X D Y i ptr Hi Hp HX HY. rewrite zlen_cons in HX. rewrite total_cons in HY.
  pose proof (zlen_nonneg chunks). pose proof (zlen_nonneg (concat chunks)). unfold total in HY.
  pose proof (zlen_nonneg c).
  rewrite Hs by lia. rewrite IH; unfold total in *; [|len..].
  cbn [pointers concat]. rewrite !zdrop_zdrop, zlen_cons, zlen_app by lia. rewrite <- !app_assoc.
  replace (8 + 8 * zlen chunks) with (8 * (1 + zlen chunks)) by lia. done.
Qed.

Definition env_chunk (kv : list Z * list Z) : list Z := kv.1 ++ [61] ++ kv.2 ++ [0].
Definition nul (s : list Z) : list Z := s ++ [0].

Lemma env_loop_packs addr v : packs (env_loop addr v) addr (map env_chunk v) 0.
Proof.
  induction v as [|[k x] v IH]; [apply packs_nil; done|].
  apply (packs_cons _ (env_loop addr v)); [|done].
  intros P X D Y i ptr Hi Hp HX HY. unfold env_chunk in HY. cbn [fst snd] in HY. revert HY. len. intros HY.
  cbn [env_loop]. rewrite store_next_ptr by lia. cbn [exec_bind].
  rewrite store_next_chunk by len. cbn [exec_bind].
  rewrite store_next_chunk by len. cbn [exec_bind].
  rewrite store_next_chunk by len. cbn [exec_bind].
  rewrite store_next_chunk by len. cbn [exec_bind].
  unfold env_chunk; cbn [fst snd]. rewrite !zdrop_zdrop by len. f_equal; [len|].
  rewrite <- !app_assoc. autorewrite with len. done.
Qed.

Lemma args_loop_packs addr args : packs (args_loop addr args) addr (map nul args) 1.
Proof.
  induction args as [|s args IH]; [apply packs_nil; done|].
  apply (packs_cons _ (args_loop addr args)); [|done].
  intros P X D Y i ptr Hi Hp HX HY. unfold nul in *. revert HY. len. intros HY.
  cbn [args_loop]. rewrite store_next_chunk by len. cbn [exec_bind].
  rewrite store_next_ptr by lia. cbn [exec_bind].
  replace (zlen (s ++ [0])) with (zlen s + 1) by len. done.
Qed.

Lemma copy_loop_packs addr strings : packs (copy_loop addr strings) addr (map nul strings) 0.
Proof.
  induction strings as [|s strings IH]; [apply packs_nil; done|].
  apply (packs_cons _ (copy_loop addr strings)); [|done].
  intros P X D Y i ptr Hi Hp HX HY. unfold nul in *. revert HY. len. intros HY.
  cbn [copy_loop]. rewrite store_next_chunk by len. cbn [exec_bind].
  rewrite store_next_ptr by lia. cbn [exec_bind].
  replace (zlen (s ++ [0])) with (zlen s + 1) by len. done.
Qed.

(** A loop over all strings followed by the NULL pointer leaves the layout. *)
Lemma packs_layout loop addr chunks (m : list Z) :
  packs loop addr chunks 0 -> zlen m = 8 * (zlen chunks + 1) + total chunks ->
  (let! m := loop 0 (8 * (zlen chunks + 1)) m in store_ptr m (zlen chunks) 0) =
  Done (layout addr chunks).
Proof.
  intros Hp Hm. pose proof (zlen_nonneg chunks). pose proof (zlen_nonneg (concat chunks)).
  set (n := 8 * (zlen chunks + 1)) in *. unfold total in *.
  replace m with ([] ++ ztake n m ++ [] ++ zdrop n m) by (cbn [app]; apply ztake_zdrop).
  rewrite Hp; unfold total; [|len..]. cbn [exec_bind app].
  rewrite (zdrop_all (zlen (concat chunks)) (zdrop n m)) by len. rewrite app_nil_r, <- app_assoc.
  rewrite store_next_ptr by len. rewrite (zdrop_all 8) by len.
  unfold layout, sizeof_ptr. rewrite <- app_assoc. done.
Qed.

(** *** Sizes *)

(** Adding up without the size wrapping around. *)
Lemma fold_size {A} (f : A -> Z) (l : list A) s :
  (forall x, 0 <= f x) -> 0 <= s -> s + foldr (fun x n => f x + n) 0 l < 2 ^ 64 ->
  fold_left (fun s x => u64 (s + f x)) l s = s + foldr (fun x n => f x + n) 0 l.
Proof.
  intros Hf. revert s. induction l as [|x l IH]; intros s Hs Hlt; cbn [fold_left foldr] in *; [lia|].
  assert (Hrest : 0 <= foldr (fun x n => f x + n) 0 l).
  { clear -Hf. induction l as [|y l IH]; cbn [foldr]; [lia|]. pose proof (Hf y). lia. }
  pose proof (Hf x). rewrite wrap_small by lia. rewrite IH by lia. lia.
Qed.

Lemma sum_chunks {A} (f : A -> Z) (g : A -> list Z) k (l : list A) :
  (forall x, f x = k + zlen (g x)) ->
  foldr (fun x n => f x + n) 0 l = k * zlen l + total (map g l).
Proof.
  intros Hfg. induction l as [|x l IH]; cbn [foldr map]; [unfold total, zlen; simpl; lia|].
  rewrite IH, Hfg, total_cons, zlen_cons. lia.
Qed.

Lemma env_full_size_ok v :
  8 * (zlen v + 1) + total (map env_chunk v) < 2 ^ 64 ->
  env_full_size v = 8 * (zlen v + 1) + total (map env_chunk v).
Proof.
  intros Hlt. unfold env_full_size, sizeof_ptr.
  set (f := fun kv : list Z * list Z => 8 + zlen kv.1 + zlen kv.2 + 2).
  assert (E : foldr (fun x n => f x + n) 0 v = 8 * zlen v + total (map env_chunk v)).
  { apply sum_chunks. intros [k x]. unfold f, env_chunk. cbn [fst snd]. len. }
  transitivity (fold_left (fun s kv => u64 (s + f kv)) v 8).
  { generalize 8 at 2 3. clear. induction v as [|[k x] v IH]; intros s; [done|]. cbn [fold_left]. rewrite IH. done. }
  rewrite fold_size; [lia| |lia|lia]. intros [k x]. unfold f. cbn [fst snd]. len.
Qed.

Lemma args_full_size_ok argv0 args :
  8 * (zlen (argv0 :: args) + 1) + total (map nul (argv0 :: args)) < 2 ^ 64 ->
  args_full_size argv0 args = 8 * (zlen (argv0 :: args) + 1) + total (map nul (argv0 :: args)).
Proof.
  intros Hlt. unfold args_full_size, sizeof_ptr. cbn [map] in *. rewrite total_cons in *.
  assert (E : foldr (fun s n => zlen s + 1 + n) 0 args = 0 * zlen args + total (map nul args)).
  { apply (sum_chunks (fun s => zlen s + 1)). intros s. unfold nul. len. }
  pose proof (zlen_nonneg (concat (map nul args))). pose proof (zlen_nonneg argv0).
  assert (En : zlen (nul argv0) = zlen argv0 + 1) by (unfold nul; len).
  rewrite zlen_cons in *. unfold total in *. pose proof (zlen_nonneg args).
  rewrite (wrap_small 64 (8 * _ + _ + _)) by lia. rewrite fold_size; [lia|intros s; len|lia|lia].
Qed.

Lemma copy_full_size_ok strings :
  8 * (zlen strings + 1) + total (map nul strings) < 2 ^ 64 ->
  copy_full_size strings = 8 * (zlen strings + 1) + total (map nul strings).
Proof.
  intros Hlt. unfold copy_full_size, sizeof_ptr.
  pose proof (sum_chunks (fun s => 8 + zlen s + 1) nul 8 strings) as E.
  rewrite fold_size; [|intros s; len|lia|]; rewrite E by (intros s; unfold nul; len); lia.
Qed.

(** *** The three blocks *)

Lemma fill_env_list_ok b v :
  zlen (b_mem b) = 8 * (zlen v + 1) + total (map env_chunk v) ->
  fill_env_list b v = Done (Block (b_addr b) (layout (b_addr b) (map env_chunk v))).
Proof.
  intros Hm. unfold fill_env_list, sizeof_ptr.
  pose proof (packs_layout _ _ _ (b_mem b) (env_loop_packs (b_addr b) v)) as E.
  rewrite zlen_map in E. specialize (E Hm).
  destruct (env_loop _ _ _ _ _); try done. cbn [exec_bind] in *. rewrite E. done.
Qed.

Lemma fill_c_string_array_ok b strings :
  zlen (b_mem b) = 8 * (zlen strings + 1) + total (map nul strings) ->
  fill_c_string_array b strings = Done (Block (b_addr b) (layout (b_addr b) (map nul strings))).
Proof.
  intros Hm. unfold fill_c_string_array, sizeof_ptr.
  pose proof (packs_layout _ _ _ (b_mem b) (copy_loop_packs (b_addr b) strings)) as E.
  rewrite zlen_map in E. specialize (E Hm).
  destruct (copy_loop _ _ _ _ _); try done. cbn [exec_bind] in *. rewrite E. done.
Qed.

(** The array of arguments is the copying loop with [argv0] as its first string. *)
Lemma fill_string_array_ok b argv0 args :
  let chunks := map nul (argv0 :: args) in
  zlen (b_mem b) = 8 * (zlen chunks + 1) + total chunks ->
  fill_string_array b argv0 args = Done (Block (b_addr b) (layout (b_addr b) chunks)).
Proof.
  intros chunks Hm. unfold fill_string_array, sizeof_ptr.
  set (loop := fun i ptr m =>
    let! m := store_range m ptr (nul argv0) in
    let! m := store_ptr m i (b_addr b + ptr) in
    args_loop (b_addr b) args (i + 1 - 1) (ptr + zlen (nul argv0)) m).
  assert (Hl : packs loop (b_addr b) chunks 0).
  { apply (packs_cons _ (fun i => args_loop (b_addr b) args (i - 1))).
    - intros P X D Y i ptr Hi Hp HX HY. unfold loop.
      rewrite store_next_chunk by done. cbn [exec_bind]. rewrite store_next_ptr by lia. done.
    - intros P X D Y i ptr Hi Hp HX HY. apply (args_loop_packs (b_addr b) args); done || lia. }
  pose proof (packs_layout _ _ _ (b_mem b) Hl Hm) as E. revert E. clear Hl Hm.
  assert (Hc : zlen chunks = zlen args + 1) by (unfold chunks; len).
  unfold loop. clear loop. clearbody chunks. rewrite Hc. unfold nul.
  replace (zlen args + 1 + 1) with (zlen args + 2) by lia.
  change (0 + 1 - 1) with 0. replace (zlen (argv0 ++ [0])) with (zlen argv0 + 1) by len.
  destruct (store_range _ _ _) as [m1| |]; cbn [exec_bind]; try done.
  destruct (store_ptr m1 _ _) as [m2| |]; cbn [exec_bind]; try done.
  destruct (args_loop _ _ _ _ _) as [m3| |]; cbn [exec_bind]; try done.
  intros ->. done.
Qed.

(** *** Reading the layout back *)

Lemma load_app (A B : list Z) i n : 0 <= n -> i = zlen A -> n <= zlen B ->
  load_range (A ++ B) i n = Done (ztake n B).
Proof.
  intros Hn -> HB. rewrite load_range_ok by len. f_equal. rewrite zdrop_app_ge by lia.
  rewrite zdrop_0 by lia. done.
Qed.

Lemma load_ptr_at (A R : list Z) i p : 8 * i = zlen A -> 0 <= p < 2 ^ 64 ->
  load_ptr (A ++ le_bytes 8 p ++ R) i = Done p.
Proof.
  intros Hi Hp. unfold load_ptr, sizeof_ptr. rewrite load_app by len. cbn [exec_bind].
  rewrite ztake_app_le, ztake_all by len. rewrite le_value_le_bytes by done. done.
Qed.

Lemma existsb_nul (c R : list Z) : existsb (Z.eqb 0) ((c ++ [0]) ++ R) = true.
Proof. rewrite !existsb_app. cbn. rewrite orb_true_r. done. Qed.

Lemma c_string_app (c R : list Z) : c_string ((c ++ [0]) ++ R) = c_string c.
Proof.
  induction c as [|x c IH]; [done|]. cbn [app c_string]. rewrite <- IH. done.
Qed.

Lemma load_cstr_at (A c R : list Z) off : off = zlen A ->
  load_cstr (A ++ (c ++ [0]) ++ R) off = Done (c_string c).
Proof.
  intros ->. unfold load_cstr. rewrite zdrop_app_ge, zdrop_0 by lia.
  rewrite existsb_nul, c_string_app. rewrite (proj2 (Z.leb_le 0 _)) by len. done.
Qed.

(** Reading from pointer [i], with [T] the pointers before it and [D] the strings. *)
Lemma read_from_layout addr ss : forall fuel T D i off,
  0 < addr -> 8 * i = zlen T -> off = zlen T + 8 * (zlen ss + 1) + zlen D ->
  addr + off + total (map nul ss) < 2 ^ 64 -> (length ss < fuel)%nat ->
  read_from fuel (Block addr (T ++ (pointers addr off (map nul ss) ++ le_bytes 8 0) ++ D ++
    concat (map nul ss))) i = Done (map c_string ss).
Proof.
  induction ss as [|s ss IH]; intros fuel T D i off Ha Hi Ho Hlt Hf;
    (destruct fuel as [|fuel]; [simpl in Hf; lia|]).
  { cbn [map pointers concat app read_from b_mem]. rewrite load_ptr_at by lia. done. }
  cbn [map pointers concat read_from b_mem b_addr] in *. rewrite total_cons, zlen_cons in *.
  pose proof (zlen_nonneg (concat (map nul ss))). pose proof (zlen_nonneg (nul s)).
  pose proof (zlen_nonneg T). pose proof (zlen_nonneg D). pose proof (zlen_nonneg ss). unfold total in *.
  rewrite <- !app_assoc. rewrite load_ptr_at by lia. cbn [exec_bind].
  rewrite (proj2 (Z.eqb_neq (addr + off) 0)) by lia.
  replace (addr + off - addr) with off by lia.
  assert (Ec : load_cstr (T ++ le_bytes 8 (addr + off) ++ pointers addr (off + zlen (nul s)) (map nul ss) ++
    le_bytes 8 0 ++ D ++ nul s ++ concat (map nul ss)) off = Done (c_string s)).
  { rewrite !app_assoc. rewrite <- (app_assoc _ (nul s)). apply load_cstr_at. len. }
  rewrite Ec. cbn [exec_bind].
  specialize (IH fuel (T ++ le_bytes 8 (addr + off)) (D ++ nul s) (i + 1) (off + zlen (nul s))).
  rewrite <- !app_assoc in IH. rewrite IH; [done|done|len|len|lia|simpl in Hf; lia].
Qed.

Lemma read_layout addr ss :
  0 < addr -> addr + (8 * (zlen ss + 1) + total (map nul ss)) < 2 ^ 64 ->
  read_strings (Block addr (layout addr (map nul ss))) = Done (map c_string ss).
Proof.
  intros Ha Hlt. unfold read_strings, layout, sizeof_ptr. cbn [b_mem]. rewrite zlen_map.
  set (off := 8 * (zlen ss + 1)) in *.
  assert (Hl : (length ss < length (pointers addr off (map nul ss) ++ le_bytes 8 0 ++
    concat (map nul ss)))%nat).
  { rewrite !length_app. pose proof (zlen_pointers addr off (map nul ss)) as E. rewrite zlen_map in E.
    unfold zlen in E. change (length (le_bytes 8 0)) with 8%nat. lia. }
  pose proof (fun n => read_from_layout addr ss n [] [] 0 off Ha eq_refl) as E.
  cbn [app] in E. rewrite <- app_assoc in E. apply E; [unfold off; len|lia|exact Hl].
Qed.
