(* ===== verification/SpawnKernel.v ===== *)
(** * Processes, descriptors and signals

    The part of POSIX that [spawn_stubs.c] uses, as a state machine: a process has a
    descriptor table (a descriptor names an open file description and carries
    [FD_CLOEXEC]), a working directory, a process group, a signal mask, the sets of
    signals with a handler and of ignored signals, and on Linux a parent-death signal and Landlock domains.
    A call that can fail asks an oracle: [None] lets it do what POSIX says, [Some e]
    makes it fail with [errno = e]; when the oracle's list is exhausted every call
    succeeds.  A theorem about every list is a theorem about every failure the system
    can produce.  Closing an open descriptor always works. *)

From Stdlib Require Import ZArith Lia.
From stdpp Require Import base numbers list strings gmap.
From S2P Require Import Prelude Posix.
Local Open Scope Z_scope.

(** ** State *)

Record fdesc := Fdesc { ofd : Z; cloexec : bool }.

Record proc := Proc {
  p_fds : gmap Z fdesc;
  p_cwd : Z;
  p_pid : Z;
  p_ppid : Z;
  p_pgid : Z;
  p_mask : gset Z;
  p_pending : gset Z;
  p_caught : gset Z;
  p_ignored : gset Z;
  p_pdeath : Z;
  p_nnp : bool;
  p_domains : list Z }.

(** The record a child writes on the error pipe. *)
Inductive error_arg := NOTHING | CWD | PROG.
Record subprocess_failure_t :=
  Failed { f_error : Z; f_function : list Z; f_arg : error_arg }.

(** A running process: its state, the oracle, [errno], the calls that failed so far with
    their error, the records written to each open file description, the number of the
    next open file description, the blocks allocated and not freed, and the children
    waited for. *)
Record kst := K {
  k_proc : proc;
  k_faults : list (option Z);
  k_errno : Z;
  k_errs : list (string * Z);
  k_written : list (Z * subprocess_failure_t);
  k_next : Z;
  k_live : gset Z;
  k_reaped : list Z }.

Inductive ending :=
| Exit (code : Z)
| Kill (signal : Z)
| Exec (prog : list Z) (argv env : list (list Z)).

(** A run goes on, ends the process, breaks a rule of C, or runs out of fuel (or waits
    for ever). *)
Inductive run (A : Type) :=
| Go (a : A) (k : kst)
| Gone (e : ending) (k : kst)
| Broken
| Stuck.
Arguments Go {A} a k.
Arguments Gone {A} e k.
Arguments Broken {A}.
Arguments Stuck {A}.

Definition PM (A : Type) : Type := kst -> run A.

#[global] Instance PM_ret : MRet PM := fun A a k => Go a k.
#[global] Instance PM_bind : MBind PM := fun A B f m k =>
  match m k with
  | Go a k => f a k
  | Gone e k => Gone e k
  | Broken => Broken
  | Stuck => Stuck
  end.

Definition plift {A} (e : exec A) : PM A := fun k =>
  match e with Done a => Go a k | Fault => Broken | Spin => Stuck end.

Definition stop {A} (e : ending) : PM A := fun k => Gone e k.

(** ** Setters *)

Definition with_fds f p := Proc (f (p_fds p)) (p_cwd p) (p_pid p) (p_ppid p) (p_pgid p) (p_mask p)
  (p_pending p) (p_caught p) (p_ignored p) (p_pdeath p) (p_nnp p) (p_domains p).
Definition with_cwd d p := Proc (p_fds p) d (p_pid p) (p_ppid p) (p_pgid p) (p_mask p)
  (p_pending p) (p_caught p) (p_ignored p) (p_pdeath p) (p_nnp p) (p_domains p).
Definition with_pgid g p := Proc (p_fds p) (p_cwd p) (p_pid p) (p_ppid p) g (p_mask p)
  (p_pending p) (p_caught p) (p_ignored p) (p_pdeath p) (p_nnp p) (p_domains p).
Definition with_mask m p := Proc (p_fds p) (p_cwd p) (p_pid p) (p_ppid p) (p_pgid p) m
  (p_pending p) (p_caught p) (p_ignored p) (p_pdeath p) (p_nnp p) (p_domains p).
Definition with_pending s p := Proc (p_fds p) (p_cwd p) (p_pid p) (p_ppid p) (p_pgid p) (p_mask p)
  s (p_caught p) (p_ignored p) (p_pdeath p) (p_nnp p) (p_domains p).
Definition with_caught s p := Proc (p_fds p) (p_cwd p) (p_pid p) (p_ppid p) (p_pgid p) (p_mask p)
  (p_pending p) s (p_ignored p) (p_pdeath p) (p_nnp p) (p_domains p).
Definition with_ignored s p := Proc (p_fds p) (p_cwd p) (p_pid p) (p_ppid p) (p_pgid p) (p_mask p)
  (p_pending p) (p_caught p) s (p_pdeath p) (p_nnp p) (p_domains p).
Definition with_pdeath s p := Proc (p_fds p) (p_cwd p) (p_pid p) (p_ppid p) (p_pgid p) (p_mask p)
  (p_pending p) (p_caught p) (p_ignored p) s (p_nnp p) (p_domains p).
Definition with_nnp b p := Proc (p_fds p) (p_cwd p) (p_pid p) (p_ppid p) (p_pgid p) (p_mask p)
  (p_pending p) (p_caught p) (p_ignored p) (p_pdeath p) b (p_domains p).
Definition with_domains d p := Proc (p_fds p) (p_cwd p) (p_pid p) (p_ppid p) (p_pgid p) (p_mask p)
  (p_pending p) (p_caught p) (p_ignored p) (p_pdeath p) (p_nnp p) d.

Definition upd (f : proc -> proc) (k : kst) : kst :=
  K (f (k_proc k)) (k_faults k) (k_errno k) (k_errs k) (k_written k) (k_next k) (k_live k) (k_reaped k).
Definition with_written w (k : kst) : kst :=
  K (k_proc k) (k_faults k) (k_errno k) (k_errs k) w (k_next k) (k_live k) (k_reaped k).
Definition with_next n (k : kst) : kst :=
  K (k_proc k) (k_faults k) (k_errno k) (k_errs k) (k_written k) n (k_live k) (k_reaped k).
Definition with_live l (k : kst) : kst :=
  K (k_proc k) (k_faults k) (k_errno k) (k_errs k) (k_written k) (k_next k) l (k_reaped k).

Definition with_reaped l (k : kst) : kst :=
  K (k_proc k) (k_faults k) (k_errno k) (k_errs k) (k_written k) (k_next k) (k_live k) l.
Definition with_errno e (k : kst) : kst :=
  K (k_proc k) (k_faults k) e (k_errs k) (k_written k) (k_next k) (k_live k) (k_reaped k).

Definition get : PM kst := fun k => Go k k.
Definition modify (f : proc -> proc) : PM unit := fun k => Go tt (upd f k).

(** ** Failing *)

Definition EBADF : Z := 9.
Definition EINVAL : Z := 22.
Definition ENOSYS : Z := 38.

(** A call returns [-1] with [errno] set, and the log says so. *)
Definition fail (name : string) (e : Z) : PM Z := fun k =>
  Go (-1) (K (k_proc k) (k_faults k) e (k_errs k ++ [(name, e)]) (k_written k) (k_next k) (k_live k) (k_reaped k)).

(** A call the oracle may refuse. *)
Definition may_fail (name : string) (m : PM Z) : PM Z := fun k =>
  match k_faults k with
  | Some e :: rest => fail name e (K (k_proc k) rest (k_errno k) (k_errs k) (k_written k)
                                     (k_next k) (k_live k) (k_reaped k))
  | None :: rest => m (K (k_proc k) rest (k_errno k) (k_errs k) (k_written k) (k_next k) (k_live k) (k_reaped k))
  | [] => m k
  end.

(** ** Descriptors *)

(** The lowest free descriptor. *)
Definition lowest (m : gmap Z fdesc) : Z :=
  default 0 (head (filter (fun i => m !! i = None) (seqZ 0 (Z.of_nat (size m) + 1)))).

Definition dup (fd : Z) : PM Z :=
  may_fail "dup" (
    k ← get;
    match p_fds (k_proc k) !! fd with
    | None => fail "dup" EBADF
    | Some d =>
        let new_fd := lowest (p_fds (k_proc k)) in
        _ ← modify (with_fds <[new_fd := Fdesc (ofd d) false]>);
        mret new_fd
    end).

Definition dup2 (old new : Z) : PM Z :=
  may_fail "dup2" (
    k ← get;
    match p_fds (k_proc k) !! old with
    | None => fail "dup2" EBADF
    | Some d =>
        if old =? new then mret new
        else _ ← modify (with_fds <[new := Fdesc (ofd d) false]>); mret new
    end).

Definition close (fd : Z) : PM Z :=
  k ← get;
  match p_fds (k_proc k) !! fd with
  | None => fail "close" EBADF
  | Some _ => _ ← modify (with_fds (delete fd)); mret 0
  end.

(** A new pipe: two open file descriptions with consecutive numbers, the read end
    first; the writers of the read end [n] are the descriptors of [n + 1]. *)
Definition pipe_with (ce : bool) : PM (Z * (Z * Z)) :=
  r ← may_fail "pipe" (mret 0);
  if r =? -1 then mret (-1, (-1, -1)) else
  fun k =>
    let m := p_fds (k_proc k) in
    let r := lowest m in
    let m := <[r := Fdesc (k_next k) ce]> m in
    let w := lowest m in
    let m := <[w := Fdesc (k_next k + 1) ce]> m in
    Go (0, (r, w)) (with_next (k_next k + 2) (upd (with_fds (fun _ => m)) k)).
(** [pipe2(fd, O_CLOEXEC)] and [pipe(fd)]. *)
Definition pipe2_cloexec := pipe_with true.
Definition pipe := pipe_with false.

(** [fcntl(fd, F_GETFD)] and [fcntl(fd, F_SETFD, flags)]; [FD_CLOEXEC] is [1]. *)
Definition fcntl_getfd (fd : Z) : PM Z :=
  may_fail "fcntl" (
    k ← get;
    match p_fds (k_proc k) !! fd with
    | None => fail "fcntl" EBADF
    | Some d => mret (Z.b2z (cloexec d))
    end).
Definition fcntl_setfd (fd flags : Z) : PM Z :=
  may_fail "fcntl" (
    k ← get;
    match p_fds (k_proc k) !! fd with
    | None => fail "fcntl" EBADF
    | Some d => _ ← modify (with_fds <[fd := Fdesc (ofd d) (Z.odd flags)]>); mret 0
    end).

(** [write(fd, &failure, sizeof(failure))]: the record is smaller than [PIPE_BUF], so it
    is written whole. *)
Definition write_failure (fd : Z) (f : subprocess_failure_t) : PM Z :=
  may_fail "write" (fun k =>
    match p_fds (k_proc k) !! fd with
    | None => fail "write" EBADF k
    | Some d => Go 40 (with_written (k_written k ++ [(ofd d, f)]) k)
    end).

(** ** Signals *)

Definition NSIG : Z := 65.
Definition SIGKILL : Z := 9.
Definition SIGSTOP : Z := 19.
Definition unblockable : gset Z := {[SIGKILL; SIGSTOP]}.
Definition full_set : gset Z := list_to_set (seqZ 1 64).

Section Signals.
(** Whether the default action of a signal ends the process. *)
Context (terminates : Z -> bool).

(** A pending signal that is not blocked and has no handler ends the process. *)
Definition deadly (p : proc) : list Z :=
  filter (fun s => terminates s = true)
    (elements (p_pending p ∖ p_mask p ∖ p_caught p ∖ p_ignored p)).
Definition deliver : PM unit := fun k =>
  match deadly (k_proc k) with
  | [] => Go tt k
  | s :: _ => Gone (Kill s) k
  end.

Definition set_mask (m : gset Z) : PM unit :=
  _ ← modify (with_mask (m ∖ unblockable)); deliver.

(** [kill(getpid(), signal)]. *)
Definition kill_self (signal : Z) : PM Z :=
  may_fail "kill" (
    k ← get;
    _ ← modify (with_pending ({[signal]} ∪ p_pending (k_proc k)));
    _ ← deliver;
    mret 0).

(** [sigaction(signal, SIG_DFL)]; errors are ignored. *)
Definition set_default (signal : Z) : PM unit :=
  modify (fun p => with_caught (p_caught p ∖ {[signal]}) (with_ignored (p_ignored p ∖ {[signal]}) p)).
End Signals.

(** ** Process attributes *)

Definition setpgid_self (pgid : Z) : PM Z :=
  may_fail "setpgid" (
    k ← get;
    _ ← modify (with_pgid (if pgid =? 0 then p_pid (k_proc k) else pgid));
    mret 0).

Section Directories.
(** The directory a path leads to from a working directory, and the one an open file
    description stands for. *)
Context (resolve : Z -> list Z -> Z) (dir_of : Z -> Z).

Definition chdir (name : string) (path : list Z) : PM Z :=
  may_fail name (
    k ← get;
    _ ← modify (with_cwd (resolve (p_cwd (k_proc k)) path));
    mret 0).

Definition fchdir (name : string) (fd : Z) : PM Z :=
  may_fail name (
    k ← get;
    match p_fds (k_proc k) !! fd with
    | None => fail name EBADF
    | Some d => _ ← modify (with_cwd (dir_of (ofd d))); mret 0
    end).
End Directories.

Definition prctl_pdeathsig (signal : Z) : PM Z :=
  may_fail "prctl" (_ ← modify (with_pdeath signal); mret 0).
Definition prctl_no_new_privs : PM Z :=
  may_fail "prctl" (_ ← modify (with_nnp true); mret 0).

(** The ruleset becomes one more domain of the process. *)
Definition landlock_restrict_self (fd : Z) : PM Z :=
  may_fail "landlock_restrict_self" (
    k ← get;
    match p_fds (k_proc k) !! fd with
    | None => fail "landlock_restrict_self" EBADF
    | Some d => _ ← modify (with_domains (ofd d :: p_domains (k_proc k))); mret 0
    end).

(** ** [execve] *)

(** Descriptors marked [FD_CLOEXEC] are closed, handlers go back to the default,
    ignored signals stay ignored. *)
Definition image (p : proc) : proc :=
  with_caught ∅ (with_fds (filter (fun '(_, d) => cloexec d = false)) p).

Definition execve (prog : list Z) (argv env : list (list Z)) : PM Z :=
  may_fail "execve" (_ ← modify image; stop (Exec prog argv env)).

(** ** Memory *)

(** [malloc]: the number of a new block, or NULL when the oracle says so. *)
Definition malloc : PM (option Z) :=
  r ← may_fail "malloc" (mret 0);
  if r =? -1 then mret None else
  fun k => let id := fresh (k_live k) in
           Go (Some id) (with_live ({[id]} ∪ k_live k) k).

(** [free]: of a live block. *)
Definition free (id : Z) : PM unit := fun k =>
  if decide (id ∈ k_live k) then Go tt (with_live (k_live k ∖ {[id]}) k) else Broken.
