(* ===== verification/Spawn.v ===== *)
(** * Spawning a process

    [spawn_stubs.c]: the code the child runs between [fork] and [execve], the parent's
    side with the error pipe, and the conversion of the OCaml arguments.  The processes are those of [SpawnKernel], the argument blocks those of
    [SpawnMem].  What differs between platforms is a [Platform]. *)

From Stdlib Require Import ZArith Lia.
From stdpp Require Import base numbers list strings gmap.
From S2P Require Import Prelude Posix SpawnMem SpawnKernel.
Local Open Scope Z_scope.

(** Preprocessor symbols, and what the stubs take from the system and the runtime;
    [spoil] is what becomes of [errno] in functions that succeed, which C leaves open. *)
Class Platform := {
  linux : bool;
  has_landlock : bool;
  has_pipe2 : bool;
  terminates : Z -> bool;
  spoil : Z -> Z;
  resolve : Z -> list Z -> Z;
  dir_of : Z -> Z;
  caml_convert_signal_number : Z -> Z;
  environ : list (list Z);
  heap : Z -> Z -> block }.

(** What is assumed of them: [malloc] gives a block of the size asked for at an address
    that is not NULL. *)
Class PlatformLaws (PF : Platform) : Prop := {
  heap_fresh id n : 0 <= n < 2 ^ 63 -> fresh_block n (heap id n) }.

(** ** The OCaml arguments *)

Inductive working_dir := Inherit | Path (path : list Z) | Fd (fd : Z).

Record spawn_args := {
  v_env : option (list (list Z * list Z));
  v_cwd : working_dir;
  v_prog : list Z;
  v_argv0 : list Z;
  v_args : list (list Z);
  v_stdin : Z;
  v_stdout : Z;
  v_stderr : Z;
  v_use_vfork : bool;
  v_setpgid : option Z;
  v_sigprocmask : option (Z * list Z);
  v_landlock_fd : option Z;
  v_pdeathsig : Z }.

(** Pointers of [struct spawn_info] carry the number of their block. *)
Inductive cwd_kind := INHERIT | PATH (path : list Z) (id : Z) | FD (fd : Z).

Record spawn_info := {
  si_env : block;
  si_env_id : Z;
  si_cwd : cwd_kind;
  si_prog : list Z;
  si_prog_id : Z;
  si_argv : block;
  si_argv_id : Z;
  std_fds : list Z;
  set_pgid : bool;
  pgid : Z;
  landlock_fd : Z;
  pdeathsig : Z;
  parent_pid : Z;
  child_sigmask : gset Z }.

Notation "x ←! m ; k" := (m ≫= fun r => match r with Raise e => mret (Raise e) | Value x => k end)
  (at level 20, m at level 100, k at level 200) : stdpp_scope.

Section Spawn.
Context {PF : Platform}.

(** ** Pipes *)

Definition set_errno (e : Z) : PM unit := fun k => Go tt (with_errno e k).
Definition spoil_errno : PM unit := fun k => Go tt (with_errno (spoil (k_errno k)) k).

(** [fcntl(fd, F_SETFD, fcntl(fd, F_GETFD) | FD_CLOEXEC)], [-1] on failure. *)
Definition add_cloexec (fd : Z) : PM Z :=
  retcode ← fcntl_getfd fd;
  if retcode =? -1 then mret (-1) else fcntl_setfd fd (Z.lor retcode 1).

Fixpoint cloexec_all (fds : list Z) (fd : Z * Z) : PM Z :=
  match fds with
  | [] => mret 0
  | f :: fds =>
      r ← add_cloexec f;
      if r =? -1 then
        k ← get;
        let error := k_errno k in
        _ ← close fd.1;
        _ ← close fd.2;
        _ ← spoil_errno;
        _ ← set_errno error;
        mret (-1)
      else cloexec_all fds fd
  end.

Definition safe_pipe : PM (Z * (Z * Z)) :=
  if has_pipe2 then pipe2_cloexec
  else
    '(ret, fd) ← pipe;
    if ret =? -1 then mret (-1, fd) else
    ret ← cloexec_all [fd.1; fd.2] fd;
    mret (ret, fd).

Definition dune_spawn_pipe : PM (caml (Z * Z)) :=
  '(ret, fd) ← safe_pipe;
  if ret =? -1 then
    k ← get;
    mret (Raise (Unix_error (k_errno k) (if has_pipe2 then "safe_pipe" else "pipe") []))
  else mret (Value fd).

(** ** Code executed in the child *)

Definition set_error (error : Z) (function : string) (arg : error_arg) :
  exec subprocess_failure_t :=
  let name := bytes_of_string function in
  let! _ := c_assert (zlen name + 1 <=? 32) in
  Done (Failed error (name ++ zeros (32 - zlen name)) arg).

Definition subprocess_failure {A} (failure_fd : Z) (function : string) (arg : error_arg) : PM A :=
  k ← get;
  failure ← plift (set_error (k_errno k) function arg);
  _ ← set_mask terminates full_set;
  _ ← write_failure failure_fd failure;
  stop (Exit 127).

(** The recursion holds one more of the descriptors 0, 1 and 2 at each level. *)
Fixpoint safe_dup_rec (fuel : nat) (fd : Z) : PM Z :=
  match fuel with
  | O => fun _ => Stuck
  | S n =>
      new_fd ← dup fd;
      if (new_fd =? -1) || (3 <=? new_fd) then mret new_fd
      else
        result ← safe_dup_rec n fd;
        _ ← close new_fd;
        mret result
  end.
Definition safe_dup : Z -> PM Z := safe_dup_rec 4.

Definition safe_dup_failure_fd (failure_fd fd : Z) : PM Z :=
  new_fd ← safe_dup fd;
  if new_fd =? -1 then subprocess_failure failure_fd "dup" NOTHING else mret new_fd.

(** A call whose failure the child reports. *)
Definition or_report (failure_fd : Z) (function : string) (arg : error_arg) (m : PM Z) : PM unit :=
  r ← m;
  if r =? -1 then subprocess_failure failure_fd function arg else mret tt.

Definition reset_signal_to_default (signal : Z) : PM unit := set_default signal.

Definition set_parent_death_signal (failure_fd : Z) (info : spawn_info) : PM unit :=
  if negb linux || (pdeathsig info =? 0) then mret tt else
  _ ← reset_signal_to_default (pdeathsig info);
  _ ← or_report failure_fd "prctl" NOTHING (prctl_pdeathsig (pdeathsig info));
  k ← get;
  if negb (p_ppid (k_proc k) =? parent_pid info) then
    or_report failure_fd "kill" NOTHING (kill_self terminates (pdeathsig info))
  else mret tt.

Definition apply_landlock (failure_fd : Z) (info : spawn_info) : PM unit :=
  if landlock_fd info =? -1 then mret tt else
  if has_landlock then
    _ ← or_report failure_fd "prctl" NOTHING prctl_no_new_privs;
    _ ← or_report failure_fd "landlock_restrict_self" NOTHING
          (landlock_restrict_self (landlock_fd info));
    _ ← close (landlock_fd info);
    mret tt
  else
    _ ← fail "landlock_restrict_self" ENOSYS;
    subprocess_failure failure_fd "landlock_restrict_self" NOTHING.

Definition change_pgid (failure_fd : Z) (info : spawn_info) : PM unit :=
  if set_pgid info then or_report failure_fd "setpgid" NOTHING (setpgid_self (pgid info))
  else mret tt.

Fixpoint reset_signals (signals : list Z) : PM unit :=
  match signals with
  | [] => mret tt
  | i :: signals => _ ← reset_signal_to_default i; reset_signals signals
  end.

Definition change_dir (failure_fd : Z) (info : spawn_info) : PM unit :=
  match si_cwd info with
  | INHERIT => mret tt
  | PATH path _ => or_report failure_fd "chdir" CWD (chdir resolve "chdir" path)
  | FD fd =>
      _ ← or_report failure_fd "fchdir" NOTHING (fchdir dir_of "fchdir" fd);
      _ ← close fd;
      mret tt
  end.

Fixpoint dup_all (failure_fd : Z) (fds : list Z) : PM (list Z) :=
  match fds with
  | [] => mret []
  | fd :: fds =>
      tmp ← safe_dup_failure_fd failure_fd fd;
      tmps ← dup_all failure_fd fds;
      mret (tmp :: tmps)
  end.

Fixpoint close_all (fds : list Z) : PM unit :=
  match fds with
  | [] => mret tt
  | fd :: fds => _ ← close fd; close_all fds
  end.

(** [fd] counts from 0 as the temporary descriptors are installed. *)
Fixpoint install (failure_fd : Z) (fd : Z) (tmps : list Z) : PM unit :=
  match tmps with
  | [] => mret tt
  | tmp :: tmps =>
      _ ← or_report failure_fd "dup2" NOTHING (dup2 tmp fd);
      _ ← close tmp;
      install failure_fd (fd + 1) tmps
  end.

(** [execve] reads the arguments through the pointers of their blocks. *)
Definition exec_program (info : spawn_info) : PM Z :=
  argv ← plift (read_strings (si_argv info));
  env ← plift (read_strings (si_env info));
  execve (si_prog info) argv env.

Definition subprocess (failure_fd : Z) (info : spawn_info) : PM unit :=
  _ ← set_parent_death_signal failure_fd info;
  _ ← change_pgid failure_fd info;
  _ ← reset_signals (seqZ 1 (NSIG - 1));
  _ ← change_dir failure_fd info;
  tmp_fds ← dup_all failure_fd (std_fds info);
  _ ← close_all (std_fds info);
  _ ← install failure_fd 0 tmp_fds;
  _ ← apply_landlock failure_fd info;
  _ ← set_mask terminates (child_sigmask info);
  _ ← exec_program info;
  subprocess_failure failure_fd "execve" PROG.

(** ** Conversion of the arguments *)

Definition strdup (s : list Z) : PM (caml (list Z * Z)) :=
  r ← malloc;
  match r with
  | None => mret (Raise Out_of_memory)
  | Some id => mret (Value (c_string s, id))
  end.

(** Allocate a block and fill it. *)
Definition alloc_block (size : Z) (fill : block -> exec block) : PM (caml (block * Z)) :=
  r ← malloc;
  match r with
  | None => mret (Raise Out_of_memory)
  | Some id =>
      result ← plift (fill (heap id size));
      mret (Value (result, id))
  end.

Definition alloc_env_list (v : list (list Z * list Z)) : PM (caml (block * Z)) :=
  alloc_block (env_full_size v) (fun b => fill_env_list b v).
Definition alloc_string_array (argv0 : list Z) (args : list (list Z)) : PM (caml (block * Z)) :=
  alloc_block (args_full_size argv0 args) (fun b => fill_string_array b argv0 args).
Definition copy_c_string_array (strings : list (list Z)) : PM (caml (block * Z)) :=
  alloc_block (copy_full_size strings) (fun b => fill_c_string_array b strings).

(** [sigaddset] and [sigdelset] refuse numbers that are not signals. *)
Definition is_signal (s : Z) : bool := (1 <=? s) && (s <? NSIG).
Definition sigaddset (m : gset Z) (s : Z) : gset Z := if is_signal s then {[s]} ∪ m else m.
Definition sigdelset (m : gset Z) (s : Z) : gset Z := if is_signal s then m ∖ {[s]} else m.

Definition CAML_SIG_SETMASK : Z := 0.
Definition CAML_SIG_BLOCK : Z := 1.
Definition CAML_SIG_UNBLOCK : Z := 2.

Definition init_sigmask (current : gset Z) (v_sigprocmask : option (Z * list Z)) :
  caml (gset Z) :=
  match v_sigprocmask with
  | None => Value ∅
  | Some (command, signals) =>
      let signals := map caml_convert_signal_number signals in
      if command =? CAML_SIG_SETMASK then Value (fold_left sigaddset signals ∅)
      else if command =? CAML_SIG_BLOCK then Value (fold_left sigaddset signals current)
      else if command =? CAML_SIG_UNBLOCK then Value (fold_left sigdelset signals current)
      else Raise (Failure "Unknown sigprocmask action")
  end.

Definition init_cwd (v_cwd : working_dir) : PM (caml cwd_kind) :=
  match v_cwd with
  | Inherit => mret (Value INHERIT)
  | Path path => p ←! strdup path; mret (Value (PATH p.1 p.2))
  | Fd fd => mret (Value (FD fd))
  end.

Definition init_spawn_info (v : spawn_args) : PM (caml spawn_info) :=
  cwd ←! init_cwd (v_cwd v);
  prog ←! strdup (v_prog v);
  argv ←! alloc_string_array (v_argv0 v) (v_args v);
  env ←! match v_env v with
         | Some l => alloc_env_list l
         | None => copy_c_string_array environ
         end;
  k ← get;
  sigmask ←! mret (init_sigmask (p_mask (k_proc k)) (v_sigprocmask v));
  mret (Value {|
    si_env := env.1; si_env_id := env.2;
    si_cwd := cwd;
    si_prog := prog.1; si_prog_id := prog.2;
    si_argv := argv.1; si_argv_id := argv.2;
    std_fds := [v_stdin v; v_stdout v; v_stderr v];
    set_pgid := match v_setpgid v with Some _ => true | None => false end;
    pgid := default 0 (v_setpgid v);
    landlock_fd := default (-1) (v_landlock_fd v);
    pdeathsig :=
      if linux then
        if v_pdeathsig v =? 0 then 0 else caml_convert_signal_number (v_pdeathsig v)
      else 0;
    parent_pid := if linux then p_pid (k_proc k) else 0;
    child_sigmask := sigmask |}).

Definition free_spawn_info (info : spawn_info) : PM unit :=
  _ ← match si_cwd info with PATH _ id => free id | _ => mret tt end;
  _ ← free (si_prog_id info);
  _ ← free (si_argv_id info);
  free (si_env_id info).

(** ** Parent code *)

(** What the environment decides about the child: its process number, the parent it
    sees (another one when the parent has died), and the failures of its calls. *)
Record fate := { c_pid : Z; c_ppid : Z; c_faults : list (option Z) }.

(** The state of a new child. *)
Definition forked (c : fate) (k : kst) : kst :=
  let p := k_proc k in
  K (Proc (p_fds p) (p_cwd p) (c_pid c) (c_ppid c) (p_pgid p) (p_mask p) ∅ (p_caught p)
       (p_ignored p) 0 (p_nnp p) (p_domains p))
    (c_faults c) (k_errno k) [] [] (k_next k) (k_live k) [].

(** How far a child has come, as far as its parent can tell. *)
Definition child_run : Type := run unit.

(** The child keeps the write end of the pipe [n] open: it is still running. *)
Definition holds (n : Z) (k : kst) : bool :=
  existsb (fun '(_, d) => ofd d =? n) (map_to_list (p_fds (k_proc k))).
Definition child_holds (n : Z) (c : child_run) : bool :=
  match c with
  | Go _ k | Gone (Exec _ _ _) k => holds n k
  | _ => false
  end.
Definition child_written (n : Z) (c : child_run) : list subprocess_failure_t :=
  match c with
  | Go _ k | Gone _ k => map snd (filter (fun '(m, _) => m = n) (k_written k))
  | _ => []
  end.

Definition sizeof_failure : Z := 40.

(** [read] on the error pipe: a record, the end of the file when nobody can write any
    more, or waiting for ever. *)
Definition read_failure (fd : Z) (c : child_run) : PM (Z * option subprocess_failure_t) :=
  r ← may_fail "read" (k ← get;
                       match p_fds (k_proc k) !! fd with
                       | None => fail "read" EBADF
                       | Some d => mret (ofd d)
                       end);
  if r =? -1 then mret (-1, None) else fun k =>
  match child_written (r + 1) c with
  | f :: _ => Go (sizeof_failure, Some f) k
  | [] => if holds (r + 1) k || child_holds (r + 1) c then Stuck else Go (0, None) k
  end.

(** [do res = read(...); while (res == -1 && errno == EINTR);] *)
Fixpoint read_retry (fuel : nat) (fd : Z) (c : child_run) : PM (Z * option subprocess_failure_t) :=
  match fuel with
  | O => fun _ => Stuck
  | S n =>
      '(res, f) ← read_failure fd c;
      k ← get;
      if (res =? -1) && (k_errno k =? EINTR) then read_retry n fd c else mret (res, f)
  end.
Definition read_loop (fd : Z) (c : child_run) : PM (Z * option subprocess_failure_t) :=
  fun k => read_retry (S (length (k_faults k))) fd c k.

Definition waitpid (pid : Z) : PM unit := fun k => Go tt (with_reaped (k_reaped k ++ [pid]) k).

(** The failure the parent reports, if any: [fork] failed (there is no child), or the
    child sent a record, or reading it failed. *)
Definition await_child (fd ret errno_after_forking : Z) (c : option child_run) :
  PM (option subprocess_failure_t) :=
  match c with
  | None =>
      failure ← plift (set_error errno_after_forking "vfork" NOTHING);
      mret (Some failure)
  | Some c =>
      '(res, f) ← read_loop fd c;
      if res =? 0 then mret None else
      k ← get;
      failure ← if res =? sizeof_failure then plift (match f with Some f => Done f | None => Fault end)
                else plift (set_error (if res =? -1 then k_errno k else EINVAL) "read" NOTHING);
      _ ← waitpid ret;
      mret (Some failure)
  end.

Definition cwd_field (v_cwd : working_dir) : exec (list Z) :=
  match v_cwd with Path path => Done path | _ => Fault end.

Definition raise_subprocess_failure (failure : subprocess_failure_t) (v : spawn_args) : exec exn :=
  let! arg := match f_arg failure with
              | NOTHING => Done []
              | CWD => cwd_field (v_cwd v)
              | PROG => Done (v_prog v)
              end in
  let! _ := c_assert (existsb (Z.eqb 0) (f_function failure)) in
  Done (Unix_error (f_error failure) (string_of_bytes (c_string (f_function failure))) arg).

(** The child's side of the call to [fork]. *)
Definition child_side (pipe : Z * Z) (info : spawn_info) : PM unit :=
  _ ← close pipe.1;
  subprocess pipe.2 info.

(** [leave_safe_pipe_section] and [caml_leave_blocking_section], as far as this process can
    tell. *)
Definition leave_sections : PM unit := spoil_errno.

(** The parent after [fork]: it frees the arguments, waits for the child's record, and
    restores its descriptors and signals. *)
Definition after_fork (v : spawn_args) (info : spawn_info) (result_pipe : Z * Z)
  (saved_procmask : gset Z) (ret errno_after_forking : Z) (child : option child_run) :
  PM (caml Z * option child_run) :=
  _ ← leave_sections;
  _ ← free_spawn_info info;
  _ ← close result_pipe.2;
  failure ← await_child result_pipe.1 ret errno_after_forking child;
  _ ← close result_pipe.1;
  _ ← set_mask terminates saved_procmask;
  match failure with
  | Some failure =>
      x ← plift (raise_subprocess_failure failure v);
      mret (Raise x, child)
  | None => mret (Value ret, child)
  end.

(** [vfork] shares the memory but not the descriptors or signals of the parent: both
    kinds of fork start the child in [forked].  The result comes with the run of the
    child, if there is one. *)
Definition dune_spawn_unix (c : fate) (v : spawn_args) : PM (caml Z * option child_run) :=
  r ← init_spawn_info v;
  match r with
  | Raise x => mret (Raise x, None)
  | Value info =>
  '(r, result_pipe) ← safe_pipe;
  if r =? -1 then
    k ← get;
    let error := k_errno k in
    _ ← leave_sections;
    _ ← free_spawn_info info;
    mret (Raise (Unix_error error "pipe" []), None)
  else
  k ← get;
  let saved_procmask := p_mask (k_proc k) in
  _ ← set_mask terminates full_set;
  ret ← may_fail "fork" (mret (c_pid c));
  k ← get;
  let child := if ret =? -1 then None else Some (child_side result_pipe info (forked c k)) in
  after_fork v info result_pipe saved_procmask ret (k_errno k) child
  end.
End Spawn.
