(* ===== verification/SpawnStubs.v ===== *)
(** * The other stubs of [spawn_stubs.c]

    The Landlock primitives, which prepare the ruleset that the child of [Spawn] applies;
    process creation on Windows; and the entry points for bytecode, which take their
    arguments from an array. *)

From Stdlib Require Import ZArith Lia.
From stdpp Require Import base numbers list strings.
From S2P Require Import Prelude Posix SpawnKernel Spawn.
Local Open Scope Z_scope.

(** ** Landlock *)

Definition LANDLOCK_ACCESS_FS_WRITE_FILE : Z := Z.shiftl 1 1.
Definition LANDLOCK_ACCESS_FS_REMOVE_DIR : Z := Z.shiftl 1 4.
Definition LANDLOCK_ACCESS_FS_REMOVE_FILE : Z := Z.shiftl 1 5.
Definition LANDLOCK_ACCESS_FS_MAKE_CHAR : Z := Z.shiftl 1 6.
Definition LANDLOCK_ACCESS_FS_MAKE_DIR : Z := Z.shiftl 1 7.
Definition LANDLOCK_ACCESS_FS_MAKE_REG : Z := Z.shiftl 1 8.
Definition LANDLOCK_ACCESS_FS_MAKE_SOCK : Z := Z.shiftl 1 9.
Definition LANDLOCK_ACCESS_FS_MAKE_FIFO : Z := Z.shiftl 1 10.
Definition LANDLOCK_ACCESS_FS_MAKE_BLOCK : Z := Z.shiftl 1 11.
Definition LANDLOCK_ACCESS_FS_MAKE_SYM : Z := Z.shiftl 1 12.
Definition LANDLOCK_ACCESS_FS_REFER : Z := Z.shiftl 1 13.
Definition LANDLOCK_ACCESS_FS_TRUNCATE : Z := Z.shiftl 1 14.

Definition landlock_write_access_rights (abi : Z) : Z :=
  let access := fold_left Z.lor
    [LANDLOCK_ACCESS_FS_REMOVE_DIR; LANDLOCK_ACCESS_FS_REMOVE_FILE; LANDLOCK_ACCESS_FS_MAKE_CHAR;
     LANDLOCK_ACCESS_FS_MAKE_DIR; LANDLOCK_ACCESS_FS_MAKE_REG; LANDLOCK_ACCESS_FS_MAKE_SOCK;
     LANDLOCK_ACCESS_FS_MAKE_FIFO; LANDLOCK_ACCESS_FS_MAKE_BLOCK; LANDLOCK_ACCESS_FS_MAKE_SYM]
    LANDLOCK_ACCESS_FS_WRITE_FILE in
  let access := if 2 <=? abi then Z.lor access LANDLOCK_ACCESS_FS_REFER else access in
  if 3 <=? abi then Z.lor access LANDLOCK_ACCESS_FS_TRUNCATE else access.

Definition EOPNOTSUPP : Z := 95.
Definition LANDLOCK_CREATE_RULESET_VERSION : Z := 1.
Definition LANDLOCK_RULE_PATH_BENEATH : Z := 1.
Definition PR_SET_NO_NEW_PRIVS : Z := 38.

(** The value of a system call that returns a number. *)
Definition returned (a : answer) : Z := match a with Ret v => v | _ => 0 end.

Section Landlock.
Context {PF : Platform}.

Definition dune_spawn_landlock_abi_version : M (caml Z) :=
  if has_landlock then
    a ← sys "landlock_create_ruleset" [LANDLOCK_CREATE_RULESET_VERSION];
    match a with
    | Errno e =>
        if (e =? ENOSYS) || (e =? EOPNOTSUPP) || (e =? EINVAL) then mret (Value 0)
        else mret (Raise (Unix_error e "landlock_create_ruleset" []))
    | _ => mret (Value (returned a))
    end
  else mret (Value 0).

Definition dune_spawn_landlock_write_access_rights (v_abi : Z) : Z :=
  if has_landlock then landlock_write_access_rights v_abi else 0.

Definition dune_spawn_landlock_create_ruleset (v_handled_access : Z) : M (caml Z) :=
  if has_landlock then
    a ← sys "landlock_create_ruleset" [v_handled_access; 0];
    match a with
    | Errno e => mret (Raise (Unix_error e "landlock_create_ruleset" []))
    | _ => mret (Value (returned a))
    end
  else mret (Raise (Unix_error ENOSYS "landlock_create_ruleset" [])).

Definition dune_spawn_landlock_add_rule (ruleset_fd parent_fd allowed_access : Z) : M (caml unit) :=
  if has_landlock then
    a ← sys "landlock_add_rule" [ruleset_fd; LANDLOCK_RULE_PATH_BENEATH; allowed_access; parent_fd; 0];
    match a with
    | Errno e => mret (Raise (Unix_error e "landlock_add_rule" []))
    | _ => mret (Value tt)
    end
  else mret (Raise (Unix_error ENOSYS "landlock_add_rule" [])).

Definition dune_spawn_landlock_restrict_self (ruleset_fd : Z) : M (caml unit) :=
  if has_landlock then
    a ← sys "prctl" [PR_SET_NO_NEW_PRIVS; 1; 0; 0; 0];
    match a with
    | Errno e => mret (Raise (Unix_error e "prctl" []))
    | _ =>
        a ← sys "landlock_restrict_self" [ruleset_fd; 0];
        match a with
        | Errno e => mret (Raise (Unix_error e "landlock_restrict_self" []))
        | _ => mret (Value tt)
        end
    end
  else mret (Raise (Unix_error ENOSYS "landlock_restrict_self" [])).
End Landlock.

(** ** Windows *)

(** [STARTUPINFO]: [None] is the NULL that [ZeroMemory] leaves. *)
Record startup_info := Startup {
  hStdInput : option Z;
  hStdOutput : option Z;
  hStdError : option Z }.

(** A handle, or the error that [caml_win32_maperr(GetLastError())] stands for. *)
Definition dup2_and_clear_close_on_exec (fd : Z) : M (Z + Z) :=
  a ← sys "DuplicateHandle" [fd];
  match a with
  | Errno e => mret (inr e)
  | _ => mret (inl (returned a))
  end.

Definition close_handle (h : option Z) : M unit :=
  match h with
  | Some h => _ ← sys "CloseHandle" [h]; mret tt
  | None => mret tt
  end.

Definition close_std_handles (si : startup_info) : M unit :=
  _ ← close_handle (hStdInput si);
  _ ← close_handle (hStdOutput si);
  close_handle (hStdError si).

(** The three duplications, left to right until one fails. *)
Definition dup_std_handles (v_stdin v_stdout v_stderr : Z) : M (startup_info * option Z) :=
  r ← dup2_and_clear_close_on_exec v_stdin;
  match r with
  | inr e => mret (Startup None None None, Some e)
  | inl i =>
      r ← dup2_and_clear_close_on_exec v_stdout;
      match r with
      | inr e => mret (Startup (Some i) None None, Some e)
      | inl o =>
          r ← dup2_and_clear_close_on_exec v_stderr;
          match r with
          | inr e => mret (Startup (Some i) (Some o) None, Some e)
          | inl x => mret (Startup (Some i) (Some o) (Some x), None)
          end
      end
  end.

(** The strings in UTF-16 that the function allocates. *)
Inductive block := Prog | Cmdline | Environment | Directory.

(** The conversion to UTF-16 and the allocation are the runtime's, and raise when a string
    is not valid or no memory is left: [to_utf16 n] is the [n]-th conversion of a call, and
    [stat_alloc] the allocation for the environment. *)
Section Windows.
Context (to_utf16 : nat -> list Z -> caml (list Z)) (stat_alloc : caml unit).

(** The conversions, with the blocks allocated so far: those that an exception leaves. *)
Definition convert {A B} (c : caml A) (blocks : list block) (k : A -> caml B * list block) : caml B * list block :=
  match c with Raise x => (Raise x, blocks) | Value u => k u end.
Definition convert_strings (v_env v_cwd : option (list Z)) (v_prog v_cmdline : list Z) :
  caml (list Z * list Z * option (list Z) * option (list Z)) * list block :=
  convert (to_utf16 0 (c_string v_prog)) [] (fun prog =>
  convert (to_utf16 1 (c_string v_cmdline)) [Prog] (fun cmdline =>
  let with_env (env : option (list Z)) blocks :=
    match v_cwd with
    | None => (Value (prog, cmdline, env, None), blocks)
    | Some s =>
        convert (to_utf16 4 (c_string s)) blocks (fun cwd =>
          (Value (prog, cmdline, env, Some cwd), blocks ++ [Directory]))
    end in
  match v_env with
  | None => with_env None [Prog; Cmdline]
  | Some s =>
      convert (to_utf16 2 s) [Prog; Cmdline] (fun _ =>
      convert stat_alloc [Prog; Cmdline] (fun _ =>
      convert (to_utf16 3 s) [Prog; Cmdline; Environment] (fun env =>
      with_env (Some env) [Prog; Cmdline; Environment])))
  end)).

(** What [CreateProcess] is given: blocks as their code units after their length, a NULL
    pointer as a length of -1. *)
Definition counted (s : list Z) : list Z := zlen s :: s.
Definition nullable (s : option (list Z)) : list Z :=
  match s with None => [-1] | Some s => counted s end.
Definition create_process_args (prog cmdline : list Z) (env cwd : option (list Z)) (si : startup_info) : list Z :=
  counted prog ++ counted cmdline ++ nullable env ++ nullable cwd ++
  [default 0 (hStdInput si); default 0 (hStdOutput si); default 0 (hStdError si)].

(** The value or the exception, and the blocks that stay allocated.  A new process is the
    handles of its process and its main thread. *)
Definition dune_spawn_windows (v_env v_cwd : option (list Z)) (v_prog v_cmdline : list Z)
  (v_stdin v_stdout v_stderr : Z) : M (caml Z * list block) :=
  '(si, e) ← dup_std_handles v_stdin v_stdout v_stderr;
  match e with
  | Some e =>
      _ ← close_std_handles si;
      mret (Raise (Unix_error e "DuplicateHandle" []), [])
  | None =>
      match convert_strings v_env v_cwd v_prog v_cmdline with
      | (Raise x, blocks) => mret (Raise x, blocks)
      | (Value (prog, cmdline, env, cwd), _) =>
          a ← sys "CreateProcess" (create_process_args prog cmdline env cwd si);
          match a with
          | Bytes [hProcess; hThread] =>
              _ ← close_std_handles si;
              _ ← sys "CloseHandle" [hThread];
              mret (Value (Val_long hProcess), [])
          | Errno e =>
              _ ← close_std_handles si;
              mret (Raise (Unix_error e "CreateProcess" []), [])
          | _ => lift Fault
          end
      end
  end.
End Windows.

(** ** The other platform *)

Definition dune_spawn_windows_other : caml Z := Raise (Unix_error ENOSYS "spawn_windows" []).
Definition dune_spawn_unix_other : caml Z := Raise (Unix_error ENOSYS "spawn_unix" []).
Definition dune_spawn_pipe_other : caml (Z * Z) := Raise (Unix_error ENOSYS "spawn_pipe" []).

(** ** The entry points for bytecode *)

(** An element of the array, with the type the primitive expects there. *)
Inductive argument :=
| Env (v : option (list (list Z * list Z)))
| Cwd (v : working_dir)
| Str (v : list Z)
| Strs (v : list (list Z))
| Str_option (v : option (list Z))
| Num (v : Z)
| Boolean (v : bool)
| Num_option (v : option Z)
| Mask (v : option (Z * list Z)).

Section Bytecode.
Context {PF : Platform}.

Definition dune_spawn_unix_byte (c : fate) (argv : list argument) : PM (caml Z * option child_run) :=
  match argv with
  | [Env env; Cwd cwd; Str prog; Str argv0; Strs args; Num stdin; Num stdout; Num stderr; Boolean use_vfork;
     Num_option setpgid; Mask sigprocmask; Num_option landlock_fd; Num pdeathsig] =>
      dune_spawn_unix c
        {| v_env := env; v_cwd := cwd; v_prog := prog; v_argv0 := argv0; v_args := args;
           v_stdin := stdin; v_stdout := stdout; v_stderr := stderr; v_use_vfork := use_vfork;
           v_setpgid := setpgid; v_sigprocmask := sigprocmask; v_landlock_fd := landlock_fd;
           v_pdeathsig := pdeathsig |}
  | _ => plift Fault
  end.
End Bytecode.

Definition dune_spawn_windows_byte (to_utf16 : nat -> list Z -> caml (list Z)) (stat_alloc : caml unit)
  (argv : list argument) : M (caml Z * list block) :=
  match argv with
  | [Str_option env; Str_option cwd; Str prog; Str cmdline; Num stdin; Num stdout; Num stderr] =>
      dune_spawn_windows to_utf16 stat_alloc env cwd prog cmdline stdin stdout stderr
  | _ => lift Fault
  end.

(** ** Theorems *)

(** The array that the bytecode interpreter makes of the arguments, in their order. *)
Definition argv_of (v : spawn_args) : list argument :=
  [Env (v_env v); Cwd (v_cwd v); Str (v_prog v); Str (v_argv0 v); Strs (v_args v); Num (v_stdin v);
   Num (v_stdout v); Num (v_stderr v); Boolean (v_use_vfork v); Num_option (v_setpgid v);
   Mask (v_sigprocmask v); Num_option (v_landlock_fd v); Num (v_pdeathsig v)].

(** Bytecode and native code call the same function with the same arguments. *)
Lemma spawn_unix_byte_same {PF : Platform} c v : dune_spawn_unix_byte c (argv_of v) = dune_spawn_unix c v.
Proof. destruct v. reflexivity. Qed.

(** The rights a kernel of each version of the interface knows, and those that do not
    change the file system: execution and the two kinds of reading. *)
Definition known_rights (abi : Z) : Z :=
  if 3 <=? abi then Z.ones 15 else if 2 <=? abi then Z.ones 14 else Z.ones 13.
Definition read_rights : Z := Z.lor 1 (Z.lor (Z.shiftl 1 2) (Z.shiftl 1 3)).

(** The rights asked for are exactly the known ones that change the file system. *)
Lemma write_access_rights_exact abi :
  landlock_write_access_rights abi = Z.ldiff (known_rights abi) read_rights.
Proof.
  unfold landlock_write_access_rights, known_rights.
  destruct (Z.leb_spec 3 abi), (Z.leb_spec 2 abi); try lia; reflexivity.
Qed.

Section WindowsLaws.
Context (to_utf16 : nat -> list Z -> caml (list Z)) (stat_alloc : caml unit).
Context (v_env v_cwd : option (list Z)) (v_prog v_cmdline : list Z) (v_stdin v_stdout v_stderr : Z).








End WindowsLaws.
