(* ===== verification/SpawnRules.v ===== *)
(** * Reasoning about processes

    A weakest precondition for the process monad of [SpawnKernel], with one
    postcondition for a run that goes on and one for a run that ends the process; a run
    that breaks a rule of C or gets stuck satisfies nothing.  One rule for each call. *)

From Stdlib Require Import ZArith Lia.
From stdpp Require Import base numbers list strings gmap.
From S2P Require Import Prelude Posix SpawnKernel.
Local Open Scope Z_scope.

Definition wp {A} (m : PM A) (Q : A -> kst -> Prop) (E : ending -> kst -> Prop) (k : kst) : Prop :=
  match m k with
  | Go a k' => Q a k'
  | Gone e k' => E e k'
  | Broken | Stuck => False
  end.

Section Structural.
Context {A B : Type}.
Implicit Types (Q : A -> kst -> Prop) (R : B -> kst -> Prop) (E : ending -> kst -> Prop).

Lemma wp_ret (a : A) Q E k : Q a k -> wp (mret a) Q E k.
Proof. done. Qed.

Lemma wp_bind (m : PM A) (f : A -> PM B) R E k :
  wp m (fun a k' => wp (f a) R E k') E k -> wp (m ≫= f) R E k.
Proof. unfold wp, mbind, PM_bind. destruct (m k); done. Qed.

Lemma wp_mono (m : PM A) Q Q' E E' k : wp m Q E k ->
  (forall a k', Q a k' -> Q' a k') -> (forall e k', E e k' -> E' e k') -> wp m Q' E' k.
Proof. unfold wp. destruct (m k); naive_solver. Qed.

Lemma wp_plift (e : exec A) a Q E k : e = Done a -> Q a k -> wp (plift e) Q E k.
Proof. intros ->. done. Qed.

Lemma wp_stop e Q E k : E e k -> wp (stop e) Q E k.
Proof. done. Qed.

Lemma wp_get (f : kst -> PM B) R E k : wp (f k) R E k -> wp (get ≫= f) R E k.
Proof. done. Qed.
End Structural.

(** [k'] is [k] with its process changed by [f] and the oracle consulted. *)
Record steps (k : kst) (f : proc -> proc) (k' : kst) : Prop := {
  st_proc : k_proc k' = f (k_proc k);
  st_written : k_written k' = k_written k;
  st_next : k_next k' = k_next k;
  st_live : k_live k' = k_live k;
  st_reaped : k_reaped k' = k_reaped k;
  st_faults : k_faults k' <> [] -> k_faults k <> [] }.
Abbreviation quiet k k' := (steps k (fun p => p) k').

(** The call [name] has failed, because of [why], and done nothing else. *)
Definition fails (why : Prop) (name : string) (k k' : kst) : Prop :=
  quiet k k' /\ last (k_errs k') = Some (name, k_errno k') /\ why.
(** The oracle can make a call fail; so can a closed descriptor. *)
Definition refused (k : kst) : Prop := k_faults k <> [].
Definition refused_fd (fd : Z) (k : kst) : Prop := k_faults k <> [] \/ p_fds (k_proc k) !! fd = None.

Lemma steps_refl k : quiet k k.
Proof. done. Qed.

Lemma steps_trans k1 f k2 g k3 : steps k1 f k2 -> steps k2 g k3 -> steps k1 (fun p => g (f p)) k3.
Proof. intros [A1 A2 A3 A4 A5 A6] [B1 B2 B3 B4 B5 B6]. split; try congruence. auto. Qed.

Lemma steps_upd k f : steps k f (upd f k).
Proof. done. Qed.

Lemma quiet_steps k1 k2 g k3 : quiet k1 k2 -> steps k2 g k3 -> steps k1 g k3.
Proof. intros H1 H2. exact (steps_trans _ _ _ _ _ H1 H2). Qed.

Lemma quiet_fails (why why' : Prop) name k1 k2 k3 : (why -> why') ->
  quiet k1 k2 -> fails why name k2 k3 -> fails why' name k1 k3.
Proof. intros Hw H1 (H2 & H3 & H4). split; [|auto]. exact (quiet_steps _ _ _ _ H1 H2). Qed.

Lemma wp_fail name e Q E k : (forall k', fails True name k k' -> Q (-1) k') -> wp (fail name e) Q E k.
Proof. intros H. unfold wp, fail. apply H. split; [done|]. cbn. rewrite last_snoc. done. Qed.

(** ** Calls that may fail *)

Lemma wp_may_fail name m Q E k :
  (forall k', quiet k k' -> k_errs k' = k_errs k -> wp m Q E k') ->
  (forall k', fails (refused k) name k k' -> Q (-1) k') ->
  wp (may_fail name m) Q E k.
Proof.
  intros Hm Hf. unfold may_fail, wp. destruct (k_faults k) as [|[e|] rest] eqn:Ek.
  - apply Hm; done.
  - unfold fail. apply Hf. split; [split; cbn; congruence|]. cbn. rewrite last_snoc.
    split; [done|]. unfold refused. congruence.
  - apply Hm; [split; cbn; congruence|done].
Qed.

(** A call that changes the process when it succeeds. *)
Lemma wp_modify f (g : PM Z) Q E k :
  wp g Q E (upd f k) -> wp (_ ← modify f; g) Q E k.
Proof. done. Qed.

Section Calls.
Implicit Types (Q : Z -> kst -> Prop) (E : ending -> kst -> Prop).

(** A call on an open descriptor [fd] that changes the process by [f]. *)
Lemma wp_fd_call name fd (f : proc -> fdesc -> proc -> proc) (r : proc -> fdesc -> Z) Q E k :
  (forall k', fails (refused_fd fd k) name k k' -> Q (-1) k') ->
  (forall d k', p_fds (k_proc k) !! fd = Some d -> steps k (f (k_proc k) d) k' ->
     Q (r (k_proc k) d) k') ->
  wp (may_fail name (
        k ← get;
        match p_fds (k_proc k) !! fd with
        | None => fail name EBADF
        | Some d => _ ← modify (f (k_proc k) d); mret (r (k_proc k) d)
        end)) Q E k.
Proof.
  intros Hf Hs. apply wp_may_fail.
  2: { intros k' (H1 & H2 & H3). apply Hf. split; [done|]. split; [done|]. left. done. }
  intros k' Hk _. apply wp_get.
  rewrite (st_proc _ _ _ Hk). destruct (p_fds (k_proc k) !! fd) as [d|] eqn:Ed.
  - apply wp_modify, wp_ret, Hs; [done|]. apply (quiet_steps _ _ _ _ Hk), steps_upd.
  - apply wp_fail. intros k'' H. apply Hf. refine (quiet_fails _ _ _ _ _ _ _ Hk H). intros _. right. done.
Qed.

(** A call that changes the process by [f]. *)
Lemma wp_call name (f : proc -> proc -> proc) Q E k :
  (forall k', fails (refused k) name k k' -> Q (-1) k') ->
  (forall k', steps k (f (k_proc k)) k' -> Q 0 k') ->
  wp (may_fail name (k ← get; _ ← modify (f (k_proc k)); mret 0)) Q E k.
Proof.
  intros Hf Hs. apply wp_may_fail; [|done]. intros k' Hk _. apply wp_get, wp_modify, wp_ret, Hs.
  rewrite (st_proc _ _ _ Hk). apply (quiet_steps _ _ _ _ Hk), steps_upd.
Qed.

Lemma wp_dup fd Q E k :
  (forall k', fails (refused_fd fd k) "dup" k k' -> Q (-1) k') ->
  (forall d k', p_fds (k_proc k) !! fd = Some d ->
     steps k (with_fds <[lowest (p_fds (k_proc k)) := Fdesc (ofd d) false]>) k' ->
     Q (lowest (p_fds (k_proc k))) k') ->
  wp (dup fd) Q E k.
Proof.
  apply (wp_fd_call "dup" fd
    (fun p d => with_fds <[lowest (p_fds p) := Fdesc (ofd d) false]>) (fun p _ => lowest (p_fds p))).
Qed.

Lemma wp_dup2 old new Q E k : old <> new ->
  (forall k', fails (refused_fd old k) "dup2" k k' -> Q (-1) k') ->
  (forall d k', p_fds (k_proc k) !! old = Some d ->
     steps k (with_fds <[new := Fdesc (ofd d) false]>) k' -> Q new k') ->
  wp (dup2 old new) Q E k.
Proof.
  intros Hne. unfold dup2. rewrite (proj2 (Z.eqb_neq _ _) Hne).
  apply (wp_fd_call "dup2" old (fun p d => with_fds <[new := Fdesc (ofd d) false]>) (fun _ _ => new)).
Qed.

(** Closing: the descriptor is closed afterwards, whether or not it was open. *)
Lemma wp_close fd Q E k :
  (forall r k', steps k (with_fds (delete fd)) k' -> Q r k') -> wp (close fd) Q E k.
Proof.
  intros Hs. unfold close. apply wp_get. destruct (p_fds (k_proc k) !! fd) as [d|] eqn:Ed.
  - apply wp_modify, wp_ret, Hs, steps_upd.
  - apply wp_fail. intros k' [[Hp Hw Hn Hl Hr Hfa] _]. apply Hs. split; try done. rewrite Hp.
    unfold with_fds. rewrite delete_id by done. destruct (k_proc k). done.
Qed.

(** Closing an open descriptor leaves the log of failures alone. *)
Lemma wp_close_open fd d Q E k : p_fds (k_proc k) !! fd = Some d ->
  (forall k', steps k (with_fds (delete fd)) k' -> k_errs k' = k_errs k ->
     k_errno k' = k_errno k -> Q 0 k') -> wp (close fd) Q E k.
Proof.
  intros Hd Hs. unfold close. apply wp_get. rewrite Hd.
  apply wp_modify, wp_ret, Hs; [apply steps_upd|done|done].
Qed.

Lemma wp_fcntl_getfd fd Q E k :
  (forall k', fails (refused_fd fd k) "fcntl" k k' -> Q (-1) k') ->
  (forall d k', p_fds (k_proc k) !! fd = Some d -> quiet k k' -> Q (Z.b2z (cloexec d)) k') ->
  wp (fcntl_getfd fd) Q E k.
Proof.
  intros Hf Hs. apply wp_may_fail.
  2: { intros k' (H1 & H2 & H3). apply Hf. split; [done|]. split; [done|]. left. done. }
  intros k' Hk _. apply wp_get.
  rewrite (st_proc _ _ _ Hk). destruct (p_fds (k_proc k) !! fd) as [d|] eqn:Ed.
  - apply wp_ret. eauto.
  - apply wp_fail. intros k'' H. apply Hf. refine (quiet_fails _ _ _ _ _ _ _ Hk H). intros _. right. done.
Qed.

Lemma wp_fcntl_setfd fd flags Q E k :
  (forall k', fails (refused_fd fd k) "fcntl" k k' -> Q (-1) k') ->
  (forall d k', p_fds (k_proc k) !! fd = Some d ->
     steps k (with_fds <[fd := Fdesc (ofd d) (Z.odd flags)]>) k' -> Q 0 k') ->
  wp (fcntl_setfd fd flags) Q E k.
Proof.
  apply (wp_fd_call "fcntl" fd (fun p d => with_fds <[fd := Fdesc (ofd d) (Z.odd flags)]>)
    (fun _ _ => 0)).
Qed.

Lemma wp_setpgid_self pgid Q E k :
  (forall k', fails (refused k) "setpgid" k k' -> Q (-1) k') ->
  (forall k', steps k (with_pgid (if pgid =? 0 then p_pid (k_proc k) else pgid)) k' -> Q 0 k') ->
  wp (setpgid_self pgid) Q E k.
Proof. apply (wp_call "setpgid" (fun p => with_pgid (if pgid =? 0 then p_pid p else pgid))). Qed.

Lemma wp_chdir resolve name path Q E k :
  (forall k', fails (refused k) name k k' -> Q (-1) k') ->
  (forall k', steps k (with_cwd (resolve (p_cwd (k_proc k)) path)) k' -> Q 0 k') ->
  wp (chdir resolve name path) Q E k.
Proof. apply (wp_call name (fun p => with_cwd (resolve (p_cwd p) path))). Qed.

Lemma wp_fchdir dir_of name fd Q E k :
  (forall k', fails (refused_fd fd k) name k k' -> Q (-1) k') ->
  (forall d k', p_fds (k_proc k) !! fd = Some d -> steps k (with_cwd (dir_of (ofd d))) k' -> Q 0 k') ->
  wp (fchdir dir_of name fd) Q E k.
Proof. apply (wp_fd_call name fd (fun _ d => with_cwd (dir_of (ofd d))) (fun _ _ => 0)). Qed.

Lemma wp_landlock_restrict_self fd Q E k :
  (forall k', fails (refused_fd fd k) "landlock_restrict_self" k k' -> Q (-1) k') ->
  (forall d k', p_fds (k_proc k) !! fd = Some d ->
     steps k (with_domains (ofd d :: p_domains (k_proc k))) k' -> Q 0 k') ->
  wp (landlock_restrict_self fd) Q E k.
Proof.
  apply (wp_fd_call "landlock_restrict_self" fd (fun p d => with_domains (ofd d :: p_domains p))
    (fun _ _ => 0)).
Qed.

Lemma wp_prctl_pdeathsig s Q E k :
  (forall k', fails (refused k) "prctl" k k' -> Q (-1) k') ->
  (forall k', steps k (with_pdeath s) k' -> Q 0 k') -> wp (prctl_pdeathsig s) Q E k.
Proof. apply (wp_call "prctl" (fun _ => with_pdeath s)). Qed.

Lemma wp_prctl_no_new_privs Q E k :
  (forall k', fails (refused k) "prctl" k k' -> Q (-1) k') ->
  (forall k', steps k (with_nnp true) k' -> Q 0 k') -> wp prctl_no_new_privs Q E k.
Proof. apply (wp_call "prctl" (fun _ => with_nnp true)). Qed.

Lemma wp_execve prog argv env Q E k :
  (forall k', fails (refused k) "execve" k k' -> Q (-1) k') ->
  (forall k', steps k image k' -> E (Exec prog argv env) k') -> wp (execve prog argv env) Q E k.
Proof.
  intros Hf Hs. apply wp_may_fail; [|done]. intros k' Hk _. apply wp_modify, wp_stop, Hs.
  apply (quiet_steps _ _ _ _ Hk), steps_upd.
Qed.

(** Writing a record to an open descriptor: it is written, or the call has failed. *)
Lemma wp_write_failure fd d f Q E k :
  p_fds (k_proc k) !! fd = Some d ->
  (forall k', fails (refused k) "write" k k' -> Q (-1) k') ->
  (forall k', k_proc k' = k_proc k -> k_errs k' = k_errs k ->
     k_written k' = k_written k ++ [(ofd d, f)] -> Q 40 k') ->
  wp (write_failure fd f) Q E k.
Proof.
  intros Hd Hf Hs. apply wp_may_fail; [|done]. intros k' Hk He. unfold wp.
  rewrite (st_proc _ _ _ Hk), Hd. apply Hs; [apply Hk|done|cbn; rewrite (st_written _ _ _ Hk); done].
Qed.
End Calls.

(** ** The lowest free descriptor *)

Lemma lowest_free m : m !! lowest m = None /\ 0 <= lowest m.
Proof.
  unfold lowest. set (l := seqZ 0 (Z.of_nat (size m) + 1)).
  destruct (filter (fun i => m !! i = None) l) as [|x xs] eqn:El.
  - exfalso.
    assert (Hsub : list_to_set l ⊆ dom m).
    { intros i Hi. apply elem_of_list_to_set in Hi. apply elem_of_dom.
      destruct (m !! i) eqn:E; [eauto|].
      assert (Hin : i ∈ filter (fun i => m !! i = None) l) by (apply list_elem_of_filter; done).
      rewrite El in Hin. apply not_elem_of_nil in Hin. done. }
    apply subseteq_size in Hsub. rewrite size_list_to_set, size_dom in Hsub by apply NoDup_seqZ.
    unfold l in Hsub. rewrite length_seqZ in Hsub. lia.
  - assert (Hin : x ∈ filter (fun i => m !! i = None) l) by (rewrite El; left).
    apply list_elem_of_filter in Hin as [? Hin]. apply elem_of_seqZ in Hin. cbn. split; [done|lia].
Qed.
