(* ===== verification/SpawnChild.v ===== *)
(** * The child between [fork] and [execve]

    Each phase of [subprocess] either goes on or ends the child with a record on the
    error pipe; a child that reaches [execve] has the descriptors, directory, group,
    signals and restrictions that were asked for. *)

From Stdlib Require Import ZArith Lia.
From stdpp Require Import base numbers list strings gmap.
From S2P Require Import Prelude Posix SpawnMem SpawnKernel SpawnRules Spawn.
Local Open Scope Z_scope.

(** ** What a child reports *)

(** The argument that goes with a failing call. *)
Definition arg_of (name : string) : error_arg :=
  if decide (name = "chdir"%string) then CWD
  else if decide (name = "execve"%string) then PROG else NOTHING.

(** Names that fit the record and can be read back as C strings. *)
Definition fits (name : string) : bool :=
  (zlen (bytes_of_string name) + 1 <=? 32) && forallb (fun c => negb (c =? 0)) (bytes_of_string name).

(** The record on the pipe [n] is about the call that failed last, one of [names]; or
    writing it is what failed last. *)
Definition reported (n : Z) (names : string -> Prop) (k : kst) : Prop :=
  (exists name err f, set_error err name (arg_of name) = Done f /\ fits name = true /\ names name /\
     last (k_errs k) = Some (name, err) /\ k_written k = [(n, f)]) \/
  (exists err, last (k_errs k) = Some ("write"%string, err) /\ k_written k = []).

(** ** The state of a child *)

(** [w] is the only descriptor of the pipe [n], and it closes on [execve]. *)
Definition pipe_ok (w n : Z) (p : proc) : Prop :=
  p_fds p !! w = Some (Fdesc n true) /\
  forall fd d, p_fds p !! fd = Some d -> ofd d = n -> fd = w.

(** No signal is about to end the process. *)
Definition calm `{Platform} (p : proc) : Prop :=
  forall s, s ∈ p_pending p -> terminates s = true -> s ∈ p_mask p.

Record ready `{Platform} (bad : Prop) (w n : Z) (k : kst) : Prop := {
  r_pipe : pipe_ok w n (k_proc k);
  r_calm : calm (k_proc k);
  r_mask : p_mask (k_proc k) = full_set ∖ unblockable;
  r_written : k_written k = [];
  r_luck : k_faults k <> [] -> bad }.

Section Child.
Context {PF : Platform}.
(** [bad] is a reason for the child to fail, [names] the calls that can fail. *)
Context (w n : Z) (bad : Prop) (names : string -> Prop) (E : ending -> kst -> Prop).
Hypothesis HE : forall k, bad -> reported n names k -> E (Exit 127) k.
Hypothesis Hnames : forall name, name <> "chdir"%string -> names name.

Lemma ready_steps k f k' : ready bad w n k -> steps k f k' -> pipe_ok w n (f (k_proc k)) ->
  p_mask (f (k_proc k)) = p_mask (k_proc k) -> p_pending (f (k_proc k)) = p_pending (k_proc k) ->
  ready bad w n k'.
Proof.
  intros [Hp Hc Hm Hw Hl] [Sp Sw _ _ _ Sf] Hp' Hm' Hs'. split; rewrite ?Sp; try congruence; [|auto].
  intros s. rewrite Hs', Hm'. apply Hc.
Qed.

Lemma ready_quiet k k' : ready bad w n k -> quiet k k' -> ready bad w n k'.
Proof. intros Hr Hq. apply (ready_steps _ _ _ Hr Hq); [apply Hr|done|done]. Qed.

(** A failure of a call in a [ready] state has a reason. *)
Lemma oracle_bad name k k' : ready bad w n k -> fails (refused k) name k k' -> fails bad name k k'.
Proof. intros Hr (H1 & H2 & H3). split; [done|]. split; [done|]. apply (r_luck _ _ _ _ Hr H3). Qed.

Lemma closed_bad fd name k k' : ready bad w n k -> (p_fds (k_proc k) !! fd = None -> bad) ->
  fails (refused_fd fd k) name k k' -> fails bad name k k'.
Proof.
  intros Hr Hc (H1 & H2 & H3). split; [done|]. split; [done|].
  destruct H3; [apply (r_luck _ _ _ _ Hr)|]; auto.
Qed.

(** [failing]: the branch of a rule where the call has failed. *)
Ltac failing :=
  let k' := fresh "k" in let H := fresh "H" in
  intros k' H; left; split; [reflexivity|];
  first [ eapply oracle_bad; [|exact H]; assumption
        | eapply closed_bad; [| |exact H]; [assumption|] ].

(** [deliver] ends a process only when a deadly signal is pending. *)
Lemma wp_deliver Q k : calm (k_proc k) -> Q tt k -> wp (deliver terminates) Q E k.
Proof.
  clear HE Hnames. intros Hc HQ. unfold wp, deliver.
  destruct (deadly terminates (k_proc k)) as [|s l] eqn:Ed; [done|exfalso].
  assert (Hin : s ∈ deadly terminates (k_proc k)) by (rewrite Ed; left).
  unfold deadly in Hin. apply list_elem_of_filter in Hin as [Ht Hin]. apply elem_of_elements in Hin.
  specialize (Hc s). set_solver.
Qed.

Lemma set_error_fits err name arg : fits name = true -> exists f, set_error err name arg = Done f.
Proof. unfold set_error, fits. intros [-> _]%andb_prop. cbn. eauto. Qed.

(** No signal ends the process once all signals are blocked. *)
Definition blockable (p : proc) : Prop :=
  forall s, s ∈ p_pending p -> terminates s = true -> s ∈ full_set ∖ unblockable.

Lemma ready_blockable k : ready bad w n k -> blockable (k_proc k).
Proof. intros Hr s Hs Ht. rewrite <- (r_mask _ _ _ _ Hr). apply (r_calm _ _ _ _ Hr); done. Qed.

Lemma wp_subprocess_failure {A} name (Q : A -> kst -> Prop) k f :
  bad -> fits name = true -> names name -> pipe_ok w n (k_proc k) -> blockable (k_proc k) -> k_written k = [] ->
  last (k_errs k) = Some (name, k_errno k) ->
  set_error (k_errno k) name (arg_of name) = Done f ->
  wp (subprocess_failure w name (arg_of name)) Q E k.
Proof.
  intros Hbad Hfit Hnm [Hp Hu] Hb Hw Hl Hf. unfold subprocess_failure. apply wp_get, wp_bind.
  apply (wp_plift _ _ _ _ _ Hf). apply wp_bind. unfold set_mask.
  apply wp_bind. unfold modify, wp at 1. apply wp_deliver; [exact Hb|].
  apply wp_bind. apply (wp_write_failure _ (Fdesc n true)); [done| |].
  - intros k' ([_ Hw' _ _ _ _] & Hl' & _). apply wp_stop, HE; [done|]. right. exists (k_errno k').
    rewrite Hw'. done.
  - intros k' _ He Hw'. apply wp_stop, HE; [done|]. left. exists name, (k_errno k), f.
    rewrite He, Hw'. cbn in *. rewrite Hw. done.
Qed.

Lemma wp_report {A} name (Q : A -> kst -> Prop) k k' f :
  ready bad w n k -> fits name = true -> names name -> fails bad name k k' ->
  set_error (k_errno k') name (arg_of name) = Done f ->
  wp (subprocess_failure w name (arg_of name)) Q E k'.
Proof.
  intros Hr Hfit Hnm (Hq & Hl & Hbad) Hf. pose proof (ready_quiet _ _ Hr Hq) as Hr'.
  apply (wp_subprocess_failure _ _ _ f); [done|done|done|apply Hr'|apply ready_blockable, Hr'|apply Hr'|done|done].
Qed.

Lemma wp_or_report name arg m Q k :
  ready bad w n k -> fits name = true -> names name -> arg = arg_of name ->
  wp m (fun r k' => (r = -1 /\ fails bad name k k') \/ (r <> -1 /\ Q tt k')) E k ->
  wp (or_report w name arg m) Q E k.
Proof.
  intros Hr Hfit Hnm -> Hm. apply wp_bind. apply (wp_mono _ _ _ _ _ _ Hm); [|done].
  intros r k' [[-> Hfl]|[Hr' HQ]].
  - rewrite Z.eqb_refl. destruct (set_error_fits (k_errno k') name (arg_of name) Hfit) as [f Hf].
    exact (wp_report _ _ _ _ _ Hr Hfit Hnm Hfl Hf).
  - rewrite (proj2 (Z.eqb_neq _ _) Hr'). apply wp_ret. done.
Qed.

(** ** The phases *)

Lemma wp_reset_signals l Q k :
  (forall k', steps k (fun p => with_caught (p_caught p ∖ list_to_set l)
                         (with_ignored (p_ignored p ∖ list_to_set l) p)) k' -> Q tt k') ->
  wp (reset_signals l) Q E k.
Proof.
  revert k. induction l as [|i l IH]; intros k HQ.
  - apply wp_ret, HQ. split; try done. destruct (k_proc k). cbn.
    rewrite !difference_empty_L. done.
  - cbn [reset_signals]. unfold reset_signal_to_default, set_default. apply wp_bind.
    unfold modify, wp at 1. apply IH. intros k' [Hp Hw Hn Hl Hr Hfa]. apply HQ. split; try done.
    rewrite Hp. cbn. rewrite !difference_difference_l_L. done.
Qed.

Lemma wp_change_pgid info Q k : ready bad w n k ->
  (forall k', ready bad w n k' ->
     steps k (fun p => with_pgid (if set_pgid info
                                  then if pgid info =? 0 then p_pid p else pgid info
                                  else p_pgid p) p) k' -> Q tt k') ->
  wp (change_pgid w info) Q E k.
Proof.
  intros Hr HQ. unfold change_pgid. destruct (set_pgid info).
  - apply wp_or_report; [done|done|apply Hnames; done|done|]. apply wp_setpgid_self; [failing|].
    intros k' Hs. right. split; [done|]. apply HQ.
    + apply (ready_steps _ _ _ Hr Hs); [apply Hr|done|done].
    + destruct Hs. split; done.
  - apply wp_ret, HQ; [done|]. split; try done. destruct (k_proc k). done.
Qed.

(** The directory the child is to run in. *)
Definition cwd_target (info : spawn_info) (p : proc) : Z :=
  match si_cwd info with
  | INHERIT => p_cwd p
  | PATH path _ => resolve (p_cwd p) path
  | FD fd => match p_fds p !! fd with Some d => dir_of (ofd d) | None => p_cwd p end
  end.
Definition cwd_fd (info : spawn_info) : option Z :=
  match si_cwd info with FD fd => Some fd | _ => None end.
Definition delete_opt (fd : option Z) (m : gmap Z fdesc) : gmap Z fdesc :=
  match fd with Some fd => delete fd m | None => m end.

Lemma pipe_ok_delete p fd : fd <> w -> pipe_ok w n p -> pipe_ok w n (with_fds (delete fd) p).
Proof.
  intros Hne [Hp Hu]. split; cbn; [rewrite lookup_delete_ne by done; done|].
  intros fd' d Hd. apply lookup_delete_Some in Hd as [_ Hd]. eauto.
Qed.

Lemma wp_change_dir info Q k : ready bad w n k -> cwd_fd info <> Some w ->
  (forall fd, cwd_fd info = Some fd -> p_fds (k_proc k) !! fd = None -> bad) ->
  (forall path id, si_cwd info = PATH path id -> names "chdir"%string) ->
  (forall k', ready bad w n k' ->
     steps k (fun p => with_cwd (cwd_target info p) (with_fds (delete_opt (cwd_fd info)) p)) k' ->
     Q tt k') ->
  wp (change_dir w info) Q E k.
Proof.
  intros Hr Hne Hbad Hdir HQ. unfold change_dir, cwd_target, cwd_fd in *. destruct (si_cwd info) as [|path id|fd].
  - apply wp_ret, HQ; [done|]. split; try done. destruct (k_proc k). done.
  - apply wp_or_report; [done|done|eauto|done|]. apply wp_chdir; [failing|].
    intros k' Hs. right. split; [done|]. apply HQ.
    + apply (ready_steps _ _ _ Hr Hs); [apply Hr|done|done].
    + destruct Hs. split; done.
  - apply wp_bind, wp_or_report; [done|done|apply Hnames; done|done|]. apply wp_fchdir; [failing; exact (Hbad _ eq_refl)|].
    intros d k1 Hd Hs. right. split; [done|]. apply wp_bind, wp_close. intros r k2 Hs2. apply wp_ret.
    pose proof (steps_trans _ _ _ _ _ Hs Hs2) as Ht. apply HQ.
    + apply (ready_steps _ _ _ Hr Ht); [|done|done].
      apply (pipe_ok_delete (with_cwd _ _)); [congruence|]. apply Hr.
    + destruct Ht as [Hp ? ? ? ? ?]. split; try done. rewrite Hp, Hd. done.
Qed.

(** The parent-death signal. *)
Definition orphan (info : spawn_info) (p : proc) : Prop :=
  linux = true /\ pdeathsig info <> 0 /\ p_ppid p <> parent_pid info.
Definition death_signal (info : spawn_info) (old : Z) : Z :=
  if linux && negb (pdeathsig info =? 0) then pdeathsig info else old.

Lemma kill_self_ok s Q k :
  calm (k_proc k) -> s ∉ p_caught (k_proc k) -> s ∉ p_ignored (k_proc k) ->
  (forall k', k_written k' = k_written k -> E (Kill s) k') ->
  (forall k', fails (refused k) "kill" k k' -> Q (-1) k') ->
  (forall k', calm (k_proc k') -> steps k (with_pending ({[s]} ∪ p_pending (k_proc k))) k' -> Q 0 k') ->
  wp (kill_self terminates s) Q E k.
Proof.
  intros Hc Hca Hig HK Hf Hs. apply wp_may_fail; [|done]. intros k1 Hq _. apply wp_get.
  apply wp_bind. unfold modify, wp at 1. apply wp_bind.
  set (k2 := upd _ k1).
  assert (Hst : steps k (with_pending ({[s]} ∪ p_pending (k_proc k))) k2).
  { rewrite <- (st_proc _ _ _ Hq). apply (quiet_steps _ _ _ _ Hq), steps_upd. }
  unfold wp, deliver. destruct (deadly terminates (k_proc k2)) as [|x l] eqn:Ed.
  - apply Hs; [|done]. intros x Hx Ht. rewrite (st_proc _ _ _ Hst) in Hx, Ed |- *. cbn in Hx |- *.
    apply elem_of_union in Hx as [Hx|Hx]; [|exact (Hc x Hx Ht)].
    apply elem_of_singleton in Hx as ->.
    destruct (decide (s ∈ p_mask (k_proc k))) as [|Hn]; [done|exfalso].
    assert (Hin : s ∈ deadly terminates (with_pending ({[s]} ∪ p_pending (k_proc k)) (k_proc k))).
    { unfold deadly. apply list_elem_of_filter. split; [done|]. apply elem_of_elements. cbn. set_solver. }
    rewrite Ed in Hin. apply not_elem_of_nil in Hin. done.
  - assert (Hin : x ∈ deadly terminates (k_proc k2)) by (rewrite Ed; left).
    rewrite (st_proc _ _ _ Hst) in Hin. unfold deadly in Hin.
    apply list_elem_of_filter in Hin as [Ht Hin]. apply elem_of_elements in Hin. cbn in Hin.
    destruct (decide (x = s)) as [->|Hne]; [apply HK, Hst|exfalso].
    specialize (Hc x). set_solver.
Qed.

Lemma wp_set_parent_death_signal info Q k : ready bad w n k ->
  (orphan info (k_proc k) -> forall k', k_written k' = [] -> E (Kill (pdeathsig info)) k') ->
  (forall k' pend ca ig, ready bad w n k' ->
     pend = p_pending (k_proc k) \/
       (orphan info (k_proc k) /\ pend = {[pdeathsig info]} ∪ p_pending (k_proc k)) ->
     ca ⊆ p_caught (k_proc k) -> ig ⊆ p_ignored (k_proc k) ->
     steps k (fun p => with_pending pend (with_pdeath (death_signal info (p_pdeath p))
                         (with_caught ca (with_ignored ig p)))) k' -> Q tt k') ->
  wp (set_parent_death_signal w info) Q E k.
Proof.
  intros Hr HK HQ. unfold set_parent_death_signal, death_signal, orphan in *.
  destruct linux; cbn [negb orb andb] in *; [destruct (Z.eqb_spec (pdeathsig info) 0) as [E0|E0]; cbn [negb]|].
  1,3: apply wp_ret, (HQ _ (p_pending (k_proc k)) (p_caught (k_proc k)) (p_ignored (k_proc k)));
    try done; [by left|]; split; try done; destruct (k_proc k); done.
  set (s := pdeathsig info) in *. unfold reset_signal_to_default, set_default.
  apply wp_bind. unfold modify, wp at 1.
  match goal with |- wp _ _ _ (upd ?f k) => set (f1 := f); set (k1 := upd f1 k) end.
  assert (Hs1 : steps k f1 k1) by apply steps_upd.
  assert (Hr1 : ready bad w n k1) by (apply (ready_steps _ _ _ Hr Hs1); [apply Hr|done|done]).
  apply wp_bind, wp_or_report; [done|done|apply Hnames; done|done|]. apply wp_prctl_pdeathsig; [failing|].
  intros k2 Hs2. right. split; [done|]. apply wp_get.
  pose proof (steps_trans _ _ _ _ _ Hs1 Hs2) as Hs12.
  assert (Hr2 : ready bad w n k2) by (apply (ready_steps _ _ _ Hr1 Hs2); [apply Hr1|done|done]).
  assert (Epp : p_ppid (k_proc k2) = p_ppid (k_proc k)) by (rewrite (st_proc _ _ _ Hs12); done).
  assert (Epe : p_pending (k_proc k2) = p_pending (k_proc k)) by (rewrite (st_proc _ _ _ Hs12); done).
  rewrite Epp. destruct (Z.eqb_spec (p_ppid (k_proc k)) (parent_pid info)) as [Ep|Ep]; cbn [negb].
  - apply wp_ret, (HQ _ (p_pending (k_proc k)) (p_caught (k_proc k) ∖ {[s]})
      (p_ignored (k_proc k) ∖ {[s]})); [done|by left|set_solver|set_solver|].
    destruct Hs12 as [Hp ? ? ? ? ?]. split; try done.
  - apply wp_or_report; [done|done|apply Hnames; done|done|]. apply kill_self_ok; [apply Hr2| | | | |].
    1,2: rewrite (st_proc _ _ _ Hs12); cbn; set_solver.
    { intros k' Hwr. apply HK; [done|]. rewrite Hwr. apply Hr2. }
    { failing. }
    intros k3 Hc3 Hs3. right. split; [done|].
    pose proof (steps_trans _ _ _ _ _ Hs12 Hs3) as Hs. rewrite Epe in Hs.
    apply (HQ _ ({[s]} ∪ p_pending (k_proc k)) (p_caught (k_proc k) ∖ {[s]}) (p_ignored (k_proc k) ∖ {[s]})).
    + split; [|done| | |]; rewrite ?(st_proc _ _ _ Hs), ?(st_written _ _ _ Hs); try apply Hr.
      intros Hfa. apply (r_luck _ _ _ _ Hr), (st_faults _ _ _ Hs Hfa).
    + right. done.
    + set_solver.
    + set_solver.
    + destruct Hs as [Hp ? ? ? ? ?]. split; done.
Qed.

(** *** Redirections *)

(** The free descriptors below 3, which bound the recursion of [safe_dup]. *)
Definition low (m : gmap Z fdesc) : nat := length (filter (fun i => m !! i = None) [0; 1; 2]).

Lemma low_insert m r d : 0 <= r < 3 -> m !! r = None -> (low (<[r := d]> m) < low m)%nat.
Proof.
  intros Hr Hm. unfold low.
  assert (Hin : r = 0 \/ r = 1 \/ r = 2) by lia. rewrite !filter_cons, !filter_nil.
  destruct Hin as [->|[->| ->]];
    repeat first [rewrite lookup_insert_eq | rewrite (lookup_insert_ne m) by done];
    repeat case_decide; try done; cbn [length]; lia.
Qed.

Lemma insert_delete_fresh p r d : p_fds p !! r = None ->
  with_fds (delete r) (with_fds <[r := d]> p) = p.
Proof. intros Hn. destruct p as [m]. unfold with_fds. cbn in *. rewrite delete_insert_id by done. done. Qed.

Lemma safe_dup_rec_ok fuel fd : forall Q k, (low (p_fds (k_proc k)) < fuel)%nat ->
  (forall k', fails (refused_fd fd k) "dup" k k' -> Q (-1) k') ->
  (forall d r k', p_fds (k_proc k) !! fd = Some d -> 3 <= r -> p_fds (k_proc k) !! r = None ->
     steps k (with_fds <[r := Fdesc (ofd d) false]>) k' -> Q r k') ->
  wp (safe_dup_rec fuel fd) Q E k.
Proof.
  induction fuel as [|fuel IH]; intros Q k Hlow Hf Hs; [lia|]. cbn [safe_dup_rec].
  set (m := p_fds (k_proc k)) in *. pose proof (lowest_free m) as [Hfree Hpos].
  apply wp_bind, wp_dup; [intros k' Hk; cbn; apply wp_ret; auto|].
  intros d k1 Hd Hs1. fold m in Hd, Hs1 |- *. rewrite (proj2 (Z.eqb_neq (lowest m) (-1))) by lia. cbn [orb].
  destruct (Z.leb_spec 3 (lowest m)) as [Hge|Hlt]; [apply wp_ret; eauto|].
  set (r0 := lowest m) in *.
  assert (Em1 : p_fds (k_proc k1) = <[r0 := Fdesc (ofd d) false]> m) by (rewrite (st_proc _ _ _ Hs1); done).
  apply wp_bind, IH.
  - rewrite Em1. pose proof (low_insert m r0 (Fdesc (ofd d) false) ltac:(lia) Hfree). lia.
  - intros k2 (Hq2 & Hl2 & Hw2).
    assert (Em2 : p_fds (k_proc k2) !! r0 = Some (Fdesc (ofd d) false))
      by (rewrite (st_proc _ _ _ Hq2), Em1; apply lookup_insert_eq).
    apply wp_bind, (wp_close_open _ _ _ _ _ Em2). intros k3 Hs3 He3 Hn3. apply wp_ret, Hf.
    pose proof (steps_trans _ _ _ _ _ (steps_trans _ _ _ _ _ Hs1 Hq2) Hs3) as [Hp ? ? ? ? Hfa].
    split; [split; try done; rewrite Hp; apply insert_delete_fresh; done|]. split; [congruence|].
    destruct Hw2 as [Hw2|Hw2]; [left; exact (st_faults _ _ _ Hs1 Hw2)|right].
    rewrite Em1 in Hw2. apply lookup_insert_None in Hw2 as [? _]. done.
  - intros d2 r k2 Hd2 Hr Hn Hs2. rewrite Em1 in Hd2, Hn.
    assert (Hne : r <> r0) by (intros ->; rewrite lookup_insert_eq in Hn; done).
    rewrite lookup_insert_ne in Hn by done.
    assert (Em2 : p_fds (k_proc k2) !! r0 = Some (Fdesc (ofd d) false)).
    { rewrite (st_proc _ _ _ Hs2). cbn. rewrite Em1, lookup_insert_ne by done. apply lookup_insert_eq. }
    apply wp_bind, (wp_close_open _ _ _ _ _ Em2). intros k3 Hs3 _ _. apply wp_ret.
    assert (Ed2 : ofd d2 = ofd d).
    { destruct (decide (fd = r0)) as [->|Hfd]; [rewrite lookup_insert_eq in Hd2; naive_solver|].
      rewrite lookup_insert_ne in Hd2 by done. congruence. }
    apply (Hs d); [done|done|done|].
    pose proof (steps_trans _ _ _ _ _ (steps_trans _ _ _ _ _ Hs1 Hs2) Hs3) as [Hp ? ? ? ? Hfa].
    split; try done. rewrite Hp, Ed2. subst m. destruct (k_proc k) as [m]. unfold with_fds. cbn in *.
    f_equal. rewrite insert_insert_ne by done. apply delete_insert_id.
    rewrite lookup_insert_ne by done. done.
Qed.

Lemma safe_dup_ok fd Q k :
  (forall k', fails (refused_fd fd k) "dup" k k' -> Q (-1) k') ->
  (forall d r k', p_fds (k_proc k) !! fd = Some d -> 3 <= r -> p_fds (k_proc k) !! r = None ->
     steps k (with_fds <[r := Fdesc (ofd d) false]>) k' -> Q r k') ->
  wp (safe_dup fd) Q E k.
Proof.
  apply safe_dup_rec_ok. unfold low. pose proof (length_filter (fun i => p_fds (k_proc k) !! i = None) [0; 1; 2]).
  cbn in *. lia.
Qed.

Lemma pipe_ok_insert p fd d : fd <> w -> ofd d <> n -> pipe_ok w n p ->
  pipe_ok w n (with_fds <[fd := d]> p).
Proof.
  intros Hne Ho [Hp Hu]. split; cbn; [rewrite lookup_insert_ne by done; done|].
  intros fd' d'. destruct (decide (fd = fd')) as [->|Hfd].
  - rewrite lookup_insert_eq. intros [= ->]. done.
  - rewrite lookup_insert_ne by done. apply Hu.
Qed.

Lemma wp_dup_std fd Q k : ready bad w n k -> fd <> w ->
  (p_fds (k_proc k) !! fd = None -> bad) ->
  (forall t d k', ready bad w n k' -> p_fds (k_proc k) !! fd = Some d -> ofd d <> n -> 3 <= t ->
     p_fds (k_proc k) !! t = None -> steps k (with_fds <[t := Fdesc (ofd d) false]>) k' -> Q t k') ->
  wp (safe_dup_failure_fd w fd) Q E k.
Proof.
  intros Hr Hne Hbad HQ. apply wp_bind, safe_dup_ok.
  - intros k' Hfl. apply (closed_bad _ _ _ _ Hr Hbad) in Hfl. rewrite Z.eqb_refl.
    destruct (set_error_fits (k_errno k') "dup" (arg_of "dup") eq_refl) as [f Hf].
    exact (wp_report "dup" _ _ _ _ Hr eq_refl (Hnames "dup" ltac:(done)) Hfl Hf).
  - intros d t k' Hd Ht Hn Hs. rewrite (proj2 (Z.eqb_neq t (-1))) by lia. apply wp_ret.
    destruct (r_pipe _ _ _ _ Hr) as [Hw Hu].
    assert (Ho : ofd d <> n) by (intros Ho; apply Hne; eauto).
    apply (HQ t d); try done. apply (ready_steps _ _ _ Hr Hs); [|done|done].
    apply pipe_ok_insert; [congruence|done|apply Hr].
Qed.

Lemma wp_close_ready fd Q k : ready bad w n k -> fd <> w ->
  (forall r k', ready bad w n k' -> steps k (with_fds (delete fd)) k' -> Q r k') ->
  wp (close fd) Q E k.
Proof.
  intros Hr Hne HQ. apply wp_close. intros r k' Hs. apply HQ; [|done].
  apply (ready_steps _ _ _ Hr Hs); [|done|done]. apply pipe_ok_delete; [done|apply Hr].
Qed.

(** One redirection: the temporary descriptor becomes [fd]. *)
Lemma wp_install_cons fd t tmps d Q k : ready bad w n k -> 0 <= fd -> fd <> w -> t <> w -> t <> fd ->
  p_fds (k_proc k) !! t = Some d -> ofd d <> n ->
  (forall k', ready bad w n k' ->
     steps k (with_fds (fun m => delete t (<[fd := Fdesc (ofd d) false]> m))) k' ->
     wp (install w (fd + 1) tmps) Q E k') ->
  wp (install w fd (t :: tmps)) Q E k.
Proof.
  intros Hr H0 Hf Ht Hne Hd Ho HQ. cbn [install].
  apply wp_bind, wp_or_report; [done|done|apply Hnames; done|done|]. apply wp_dup2; [done|failing; intros ?; congruence|].
  intros d' k1 Hd' Hs1. rewrite Hd in Hd'. injection Hd' as <-. right. split; [lia|].
  assert (Hr1 : ready bad w n k1).
  { apply (ready_steps _ _ _ Hr Hs1); [|done|done]. apply pipe_ok_insert; [done|done|apply Hr]. }
  apply wp_bind, wp_close_ready; [done|done|]. intros r k2 Hr2 Hs2. apply HQ; [done|].
  exact (steps_trans _ _ _ _ _ Hs1 Hs2).
Qed.

(** [wp_next]: go to the next call. *)
Ltac wp_next :=
  repeat (cbv beta; lazymatch goal with
          | |- wp (mbind _ _) _ _ _ => apply wp_bind
          | |- wp (mret _) _ _ _ => apply wp_ret
          end).

(** The table after the redirections of [a], [b] and [c]. *)
Definition std_table (m : gmap Z fdesc) (a b c : Z) (da db dc : fdesc) (fd : Z) : option fdesc :=
  if decide (fd = 0) then Some (Fdesc (ofd da) false)
  else if decide (fd = 1) then Some (Fdesc (ofd db) false)
  else if decide (fd = 2) then Some (Fdesc (ofd dc) false)
  else if decide (fd = a \/ fd = b \/ fd = c) then None
  else m !! fd.

Definition redirected (m : gmap Z fdesc) (a b c t0 t1 t2 : Z) (da db dc : fdesc) : gmap Z fdesc :=
  let m := <[t2 := Fdesc (ofd dc) false]> (<[t1 := Fdesc (ofd db) false]> (<[t0 := Fdesc (ofd da) false]> m)) in
  let m := delete c (delete b (delete a m)) in
  let m := delete t0 (<[0 := Fdesc (ofd da) false]> m) in
  let m := delete t1 (<[1 := Fdesc (ofd db) false]> m) in
  delete t2 (<[2 := Fdesc (ofd dc) false]> m).

Lemma redirected_lookup m a b c t0 t1 t2 da db dc fd :
  3 <= t0 -> 3 <= t1 -> 3 <= t2 -> m !! t0 = None -> m !! t1 = None -> m !! t2 = None ->
  redirected m a b c t0 t1 t2 da db dc !! fd = std_table m a b c da db dc fd.
Proof.
  intros H0 H1 H2 N0 N1 N2. unfold redirected, std_table.
  repeat first [rewrite lookup_delete | rewrite lookup_insert].
  repeat case_decide; subst; try lia; try done; try tauto; congruence.
Qed.

Lemma wp_redirect a b c (f : PM unit) Q k : ready bad w n k -> 3 <= w ->
  a <> w -> b <> w -> c <> w ->
  is_Some (p_fds (k_proc k) !! a) -> is_Some (p_fds (k_proc k) !! b) ->
  is_Some (p_fds (k_proc k) !! c) ->
  (forall k' m da db dc, ready bad w n k' ->
     p_fds (k_proc k) !! a = Some da -> p_fds (k_proc k) !! b = Some db ->
     p_fds (k_proc k) !! c = Some dc ->
     (forall fd, m !! fd = std_table (p_fds (k_proc k)) a b c da db dc fd) ->
     steps k (with_fds (fun _ => m)) k' -> wp f Q E k') ->
  wp (tmp_fds ← dup_all w [a; b; c]; _ ← close_all [a; b; c]; _ ← install w 0 tmp_fds; f) Q E k.
Proof.
  intros Hr Hw Ha Hb Hc [da' Ea] [db' Eb] [dc' Ec] HQ. cbn [dup_all close_all]. set (m := p_fds (k_proc k)) in *.
  wp_next. apply wp_dup_std; [done|done|intros ?; unfold m in *; congruence|]. intros t0 da k1 R1 Da Oa T0 N0 S1.
  wp_next. apply wp_dup_std; [done|done| |].
  { rewrite (st_proc _ _ _ S1). cbn. rewrite lookup_insert_None. intros [? _]. unfold m in *. congruence. }
  intros t1 db k2 R2 Db Ob T1 N1 S2.
  wp_next. apply wp_dup_std; [done|done| |].
  { rewrite (st_proc _ _ _ S2). cbn. rewrite lookup_insert_None, (st_proc _ _ _ S1). cbn.
    rewrite lookup_insert_None. intros [[? _] _]. unfold m in *. congruence. }
  intros t2 dc k3 R3 Dc Oc T2 N2 S3.
  wp_next. apply wp_close_ready; [done|done|]. intros ? k4 R4 S4.
  wp_next. apply wp_close_ready; [done|done|]. intros ? k5 R5 S5.
  wp_next. apply wp_close_ready; [done|done|]. intros ? k6 R6 S6.
  pose proof (steps_trans _ _ _ _ _ S1 S2) as S12. pose proof (steps_trans _ _ _ _ _ S12 S3) as S13.
  pose proof (steps_trans _ _ _ _ _ S4 (steps_trans _ _ _ _ _ S5 S6)) as S46.
  pose proof (steps_trans _ _ _ _ _ S13 S46) as S16. clear S2 S3 S4 S5 S6 S46.
  fold m in Da, N0. rewrite (st_proc _ _ _ S1) in Db, N1. rewrite (st_proc _ _ _ S12) in Dc, N2.
  cbn in Db, N1, Dc, N2. fold m in Db, N1, Dc, N2.
  assert (Hne1 : t1 <> t0) by (intros ->; rewrite lookup_insert_eq in N1; done).
  assert (Hne2 : t2 <> t1) by (intros ->; rewrite lookup_insert_eq in N2; done).
  rewrite lookup_insert_ne in N1, N2 by done.
  assert (Hne3 : t2 <> t0) by (intros ->; rewrite lookup_insert_eq in N2; done).
  rewrite lookup_insert_ne in N2 by done.
  rewrite lookup_insert_ne in Db by congruence. rewrite !lookup_insert_ne in Dc by congruence.
  destruct (r_pipe _ _ _ _ R6) as [Pw _]. destruct (r_pipe _ _ _ _ Hr) as [Pw0 _]. fold m in Pw0.
  assert (L0 : p_fds (k_proc k6) !! t0 = Some (Fdesc (ofd da) false)).
  { rewrite (st_proc _ _ _ S16). cbn. fold m. rewrite !lookup_delete_ne by congruence.
    rewrite !lookup_insert_ne by done. apply lookup_insert_eq. }
  assert (L1 : p_fds (k_proc k6) !! t1 = Some (Fdesc (ofd db) false)).
  { rewrite (st_proc _ _ _ S16). cbn. fold m. rewrite !lookup_delete_ne by congruence.
    rewrite lookup_insert_ne by done. apply lookup_insert_eq. }
  assert (L2 : p_fds (k_proc k6) !! t2 = Some (Fdesc (ofd dc) false)).
  { rewrite (st_proc _ _ _ S16). cbn. fold m. rewrite !lookup_delete_ne by congruence.
    apply lookup_insert_eq. }
  apply wp_bind, wp_install_cons with (d := Fdesc (ofd da) false); try done || congruence || lia.
  intros k7 R7 S7. apply wp_install_cons with (d := Fdesc (ofd db) false); try done || congruence || lia.
  { rewrite (st_proc _ _ _ S7). cbn. rewrite lookup_delete_ne, lookup_insert_ne by done || lia. done. }
  intros k8 R8 S8. apply wp_install_cons with (d := Fdesc (ofd dc) false); try done || congruence || lia.
  { rewrite (st_proc _ _ _ S8). cbn. rewrite (st_proc _ _ _ S7). cbn.
    rewrite !lookup_delete_ne, !lookup_insert_ne, lookup_delete_ne, lookup_insert_ne by done || lia. done. }
  intros k9 R9 S9. apply wp_ret.
  pose proof (steps_trans _ _ _ _ _ S7 (steps_trans _ _ _ _ _ S8 S9)) as S79.
  pose proof (steps_trans _ _ _ _ _ S16 S79) as S. clear S1 S12 S13 S16 S7 S8 S9 S79.
  apply (HQ _ (redirected m a b c t0 t1 t2 da db dc) da db dc); try done.
  - intros fd. apply redirected_lookup; done.
  - destruct S as [Sp ? ? ? ? ?]. split; [rewrite Sp; reflexivity|done..].
Qed.

(** *** Landlock, the signal mask and [execve] *)

(** The restrictions of the child. *)
Definition landlocked (info : spawn_info) (p : proc) : proc :=
  if landlock_fd info =? -1 then p
  else match p_fds p !! landlock_fd info with
       | Some d => with_fds (delete (landlock_fd info))
                     (with_domains (ofd d :: p_domains p) (with_nnp true p))
       | None => p
       end.

Lemma wp_apply_landlock info Q k : ready bad w n k -> landlock_fd info <> w ->
  (landlock_fd info <> -1 -> has_landlock = false \/ p_fds (k_proc k) !! landlock_fd info = None -> bad) ->
  (forall k', ready bad w n k' ->
     (landlock_fd info <> -1 -> is_Some (p_fds (k_proc k) !! landlock_fd info)) ->
     steps k (landlocked info) k' -> Q tt k') ->
  wp (apply_landlock w info) Q E k.
Proof.
  intros Hr Hne Hbad HQ. unfold apply_landlock, landlocked in *.
  destruct (Z.eqb_spec (landlock_fd info) (-1)); [apply wp_ret, HQ; done|]. destruct has_landlock.
  - apply wp_bind, wp_or_report; [done|done|apply Hnames; done|done|]. apply wp_prctl_no_new_privs; [failing|].
    intros k1 S1. right. split; [done|].
    assert (R1 : ready bad w n k1) by (apply (ready_steps _ _ _ Hr S1); [apply Hr|done|done]).
    apply wp_bind, wp_or_report; [done|done|apply Hnames; done|done|]. apply wp_landlock_restrict_self.
    { failing. rewrite (st_proc _ _ _ S1). auto. }
    intros d k2 Hd S2. right. split; [done|].
    assert (R2 : ready bad w n k2) by (apply (ready_steps _ _ _ R1 S2); [apply R1|done|done]).
    apply wp_bind, wp_close_ready; [done|done|]. intros r k3 R3 S3. apply wp_ret.
    rewrite (st_proc _ _ _ S1) in Hd. cbn in Hd. apply HQ; [done|rewrite Hd; eauto|].
    pose proof (steps_trans _ _ _ _ _ S1 (steps_trans _ _ _ _ _ S2 S3)) as [Sp ? ? ? ? ?].
    split; try done. rewrite Sp, Hd, (st_proc _ _ _ S1). done.
  - apply wp_bind, wp_fail. intros k' (Hq & Hl & _).
    assert (Hfl : fails bad "landlock_restrict_self" k k') by (split; [done|]; split; [done|]; auto).
    destruct (set_error_fits (k_errno k') "landlock_restrict_self" NOTHING eq_refl) as [f Hf].
    exact (wp_report "landlock_restrict_self" _ _ _ _ Hr eq_refl
      (Hnames "landlock_restrict_self" ltac:(done)) Hfl Hf).
Qed.

Lemma wp_set_mask m Q k :
  (forall s k', s ∈ p_pending (k_proc k) -> k_written k' = k_written k -> E (Kill s) k') ->
  (forall k', steps k (with_mask (m ∖ unblockable)) k' -> Q tt k') ->
  wp (set_mask terminates m) Q E k.
Proof.
  intros HK HQ. unfold set_mask. apply wp_bind. unfold modify, wp at 1, wp, deliver.
  destruct (deadly terminates _) as [|s l] eqn:Ed; [apply HQ, steps_upd|]. apply HK; [|done].
  assert (Hin : s ∈ deadly terminates (with_mask (m ∖ unblockable) (k_proc k))).
  { cbn [k_proc upd] in Ed. rewrite Ed. left. }
  unfold deadly in Hin. apply list_elem_of_filter in Hin as [_ Hin]. apply elem_of_elements in Hin.
  cbn in Hin. set_solver.
Qed.

(** The end of [subprocess]: the new program, or a record about [execve]. *)
Lemma wp_exec info argv env (Q : unit -> kst -> Prop) k : ready bad w n k ->
  read_strings (si_argv info) = Done argv -> read_strings (si_env info) = Done env ->
  (forall s k', s ∈ p_pending (k_proc k) -> k_written k' = [] -> E (Kill s) k') ->
  (forall k', steps k (fun p => image (with_mask (child_sigmask info ∖ unblockable) p)) k' ->
     E (Exec (si_prog info) argv env) k') ->
  wp (_ ← set_mask terminates (child_sigmask info); _ ← exec_program info;
      subprocess_failure w "execve" PROG) Q E k.
Proof.
  intros Hr Ha He HK HX. apply wp_bind, wp_set_mask.
  { intros s k' Hs Hwr. apply HK; [done|]. rewrite Hwr. apply Hr. } intros k1 S1.
  apply wp_bind. unfold exec_program. apply wp_bind, (wp_plift _ _ _ _ _ Ha).
  apply wp_bind, (wp_plift _ _ _ _ _ He). apply wp_execve.
  - intros k2 (Q2 & L2 & F2). pose proof (steps_trans _ _ _ _ _ S1 Q2) as S2.
    destruct (set_error_fits (k_errno k2) "execve" PROG eq_refl) as [f Hf].
    apply (wp_subprocess_failure "execve" _ _ f); try done; [|apply Hnames; done| | |].
    + apply (r_luck _ _ _ _ Hr), (st_faults _ _ _ S1 F2).
    + rewrite (st_proc _ _ _ S2). apply Hr.
    + pose proof (ready_blockable _ Hr) as Hb. intros s. rewrite (st_proc _ _ _ S2). apply Hb.
    + rewrite (st_written _ _ _ S2). apply Hr.
  - intros k2 S2. apply HX. exact (steps_trans _ _ _ _ _ S1 S2).
Qed.
End Child.

(** ** The whole child *)

Definition landlock_opt (info : spawn_info) : option Z :=
  if landlock_fd info =? -1 then None else Some (landlock_fd info).

(** Descriptors above 2 that the child closes itself. *)
Definition closed_in_child (info : spawn_info) (fd : Z) : Prop :=
  fd ∈ std_fds info \/ cwd_fd info = Some fd \/ landlock_opt info = Some fd.

(** What the new program finds, [p0] being the process it was forked from. *)
Record child_image `{Platform} (info : spawn_info) (p0 p : proc) : Prop := {
  ci_std : forall i fd, std_fds info !! i = Some fd ->
    exists d, p_fds p0 !! fd = Some d /\ p_fds p !! Z.of_nat i = Some (Fdesc (ofd d) false);
  ci_rest : forall fd, ~ 0 <= fd < 3 ->
    p_fds p !! fd = (d ← p_fds p0 !! fd;
                     if decide (closed_in_child info fd \/ cloexec d = true) then None else Some d);
  ci_cwd : p_cwd p = cwd_target info p0;
  ci_pgid : p_pgid p = if set_pgid info then if pgid info =? 0 then p_pid p0 else pgid info
                       else p_pgid p0;
  ci_mask : p_mask p = child_sigmask info ∖ unblockable;
  ci_handlers : p_caught p = ∅;
  ci_ignored : p_ignored p ## full_set;
  ci_pdeath : p_pdeath p = death_signal info (p_pdeath p0);
  ci_landlock : match landlock_opt info with
                | None => p_domains p = p_domains p0
                | Some l => exists d, p_fds p0 !! l = Some d /\ p_domains p = ofd d :: p_domains p0 /\
                              p_nnp p = true
                end }.

#[global] Instance closed_in_child_dec info fd : Decision (closed_in_child info fd).
Proof. unfold closed_in_child. apply _. Defined.

(** The descriptors a child needs to be told apart. *)
Record good_fds (w : Z) (info : spawn_info) (m : gmap Z fdesc) : Prop := {
  g_std : exists a b c, std_fds info = [a; b; c];
  g_open : forall fd, fd ∈ std_fds info -> is_Some (m !! fd);
  g_cwd : forall fd, cwd_fd info = Some fd -> is_Some (m !! fd) /\ fd ∉ std_fds info /\ fd <> w;
  g_landlock : forall fd, landlock_opt info = Some fd -> is_Some (m !! fd) /\ 3 <= fd /\ fd <> w;
  g_write : 3 <= w /\ w ∉ std_fds info }.

Section Whole.
Context {PF : Platform}.
Context (w n : Z) (info : spawn_info).

(** A reason to fail: the system refuses a call, or a ruleset is to be applied on a
    system without Landlock or is among the descriptors closed before. *)
Definition child_bad (k : kst) : Prop :=
  k_faults k <> [] \/
  exists l, landlock_opt info = Some l /\
    (has_landlock = false \/ l ∈ std_fds info \/ cwd_fd info = Some l).

(** [chdir] is only called with a path. *)
Definition child_names (name : string) : Prop :=
  name = "chdir"%string -> exists path id, si_cwd info = PATH path id.

(** How a child that was forked in the state [k0] may end. *)
Definition child_end (k0 : kst) (argv env : list (list Z)) (e : ending) (k : kst) : Prop :=
  let p0 := k_proc k0 in
  match e with
  | Exit code => code = 127 /\ child_bad k0 /\ reported n child_names k
  | Kill s => s = pdeathsig info /\ orphan info p0 /\ k_written k = []
  | Exec prog av ev => prog = si_prog info /\ av = argv /\ ev = env /\ k_written k = [] /\
                       child_image info p0 (k_proc k)
  end.

Lemma image_lookup p fd : p_fds (image p) !! fd =
  (d ← p_fds p !! fd; if decide (cloexec d = true) then None else Some d).
Proof.
  cbn. rewrite map_lookup_filter. destruct (p_fds p !! fd) as [[o []]|]; cbn; done.
Qed.

Lemma landlocked_fds p fd : landlock_opt info <> Some fd ->
  p_fds (landlocked info p) !! fd = p_fds p !! fd.
Proof.
  unfold landlock_opt, landlocked. destruct (landlock_fd info =? -1); [done|]. intros Hne.
  destruct (p_fds p !! landlock_fd info); [|done]. cbn. apply lookup_delete_ne. congruence.
Qed.

Lemma landlocked_keeps p :
  p_pending (landlocked info p) = p_pending p /\ p_cwd (landlocked info p) = p_cwd p /\
  p_pgid (landlocked info p) = p_pgid p /\ p_ignored (landlocked info p) = p_ignored p /\
  p_pdeath (landlocked info p) = p_pdeath p.
Proof.
  unfold landlocked. destruct (landlock_fd info =? -1); [done|].
  destruct (p_fds p !! landlock_fd info); done.
Qed.

(** The image of a process [p] whose standard descriptors have been redirected. *)
Lemma child_image_intro p0 p a b c da db dc :
  std_fds info = [a; b; c] ->
  p_fds p0 !! a = Some da -> p_fds p0 !! b = Some db -> p_fds p0 !! c = Some dc ->
  (forall fd, p_fds p !! fd = std_table (delete_opt (cwd_fd info) (p_fds p0)) a b c da db dc fd) ->
  p_cwd p = cwd_target info p0 ->
  p_pgid p = (if set_pgid info then if pgid info =? 0 then p_pid p0 else pgid info else p_pgid p0) ->
  p_ignored p ## full_set -> p_pdeath p = death_signal info (p_pdeath p0) ->
  p_domains p = p_domains p0 ->
  (forall fd, landlock_opt info = Some fd -> 3 <= fd) ->
  (forall l, landlock_opt info = Some l -> is_Some (p_fds p !! l)) ->
  child_image info p0 (image (with_mask (child_sigmask info ∖ unblockable) (landlocked info p))).
Proof.
  intros Estd Ea Eb Ec Hm Hcwd Hpg Hig Hpd Hdo Hl3 Hlo.
  destruct (landlocked_keeps p) as (_ & Lc & Lg & Li & Ld).
  assert (Hout : forall l, landlock_opt info = Some l -> p_fds p !! l = p_fds p0 !! l).
  { intros l Hl. pose proof (Hl3 l Hl). destruct (Hlo l Hl) as [d Hd]. rewrite Hm in Hd |- *.
    unfold std_table in *. repeat case_decide; try lia; try done.
    unfold delete_opt in *. destruct (cwd_fd info); [|done]. apply lookup_delete_Some in Hd as [? Hd].
    rewrite lookup_delete_ne by done. done. }
  split; cbn [p_cwd p_pgid p_mask p_caught p_ignored p_pdeath image with_mask with_caught with_fds];
    try (rewrite Li; done); try congruence || done.
  - intros i fd Hi. rewrite Estd in Hi.
    assert (Hne : landlock_opt info <> Some (Z.of_nat i)).
    { intros Hl. pose proof (Hl3 _ Hl). assert (i < 3)%nat by (apply lookup_lt_Some in Hi; simpl in Hi; lia). lia. }
    destruct i as [|[|[|i]]]; [change (Some a = Some fd) in Hi|change (Some b = Some fd) in Hi|
      change (Some c = Some fd) in Hi|done]; injection Hi as <-; eexists; (split; [eassumption|]); rewrite image_lookup; cbn [with_mask p_fds];
      rewrite landlocked_fds by done; rewrite Hm; done.
  - intros fd Hfd. rewrite image_lookup. cbn [with_mask p_fds].
    destruct (decide (landlock_opt info = Some fd)) as [Hl|Hl].
    + assert (E1 : p_fds (landlocked info p) !! fd = None).
      { pose proof (Hlo fd Hl) as [d Hd]. unfold landlock_opt in Hl. unfold landlocked.
        destruct (landlock_fd info =? -1); [done|]. injection Hl as ->. rewrite Hd. cbn.
        apply lookup_delete_eq. }
      rewrite E1. destruct (p_fds p0 !! fd); [|done]. cbn. rewrite decide_True; [done|].
      left. right. right. done.
    + rewrite landlocked_fds by done. rewrite Hm. unfold std_table.
      do 3 (rewrite decide_False by lia). unfold closed_in_child. rewrite Estd.
      destruct (decide (fd = a \/ fd = b \/ fd = c)) as [Hs|Hs].
      * cbn. destruct (p_fds p0 !! fd); [|done]. cbn. rewrite decide_True; [done|].
        left. left. apply list_elem_of_In. simpl. naive_solver.
      * assert (Hn : fd ∉ [a; b; c]) by (rewrite list_elem_of_In; simpl; naive_solver).
        unfold delete_opt. destruct (cwd_fd info) as [fd'|];
          [destruct (decide (fd' = fd)) as [->|Hc]; [rewrite lookup_delete_eq|rewrite lookup_delete_ne by done]|].
        -- destruct (p_fds p0 !! fd); [|done]. cbn. rewrite decide_True; [done|]. left. right. left. done.
        -- destruct (p_fds p0 !! fd) as [[o ce]|]; [|done]. cbn. apply decide_ext. naive_solver.
        -- destruct (p_fds p0 !! fd) as [[o ce]|]; [|done]. cbn. apply decide_ext. naive_solver.
  - unfold landlock_opt, landlocked in *. destruct (landlock_fd info =? -1); [done|].
    destruct (Hlo _ eq_refl) as [d Hd]. rewrite Hd. exists d.
    split; [rewrite <- (Hout _ eq_refl); done|]. cbn. rewrite Hdo. done.
Qed.

Lemma subprocess_ok argv env k :
  ready (child_bad k) w n k -> good_fds w info (p_fds (k_proc k)) -> p_pending (k_proc k) = ∅ ->
  read_strings (si_argv info) = Done argv -> read_strings (si_env info) = Done env ->
  wp (subprocess w info) (fun _ _ => False) (child_end k argv env) k.
Proof.
  intros Hr [(a & b & c & Estd) Hopen Hcwd Hll [Hw3 Hws]] Hpend Ha He.
  assert (HE : forall k', child_bad k -> reported n child_names k' -> child_end k argv env (Exit 127) k') by done.
  assert (HN : forall name, name <> "chdir"%string -> child_names name) by (intros name Hn Hc; done).
  rewrite Estd in Hopen, Hcwd, Hws. unfold subprocess. rewrite Estd.
  apply wp_bind, (wp_set_parent_death_signal w n _ _ _ HE HN); [done|done|].
  intros k1 pend ca ig R1 Hpe Hca Hig S1.
  apply wp_bind, (wp_change_pgid w n _ _ _ HE HN); [done|]. intros k2 R2 S2.
  apply wp_bind, wp_reset_signals. intros k3 S3.
  pose proof (steps_trans _ _ _ _ _ S1 (steps_trans _ _ _ _ _ S2 S3)) as S13.
  assert (R3 : ready (child_bad k) w n k3) by (apply (ready_steps _ _ _ _ _ _ R2 S3); [apply R2|done|done]).
  apply wp_bind, (wp_change_dir w n _ _ _ HE HN); [done| | |intros path id Hpath _; eauto|].
  { intros Hc. apply (Hcwd w) in Hc as (_ & _ & Hc). done. }
  { intros fd Hc. apply Hcwd in Hc as [[d Hd] _]. rewrite (st_proc _ _ _ S13). cbn. congruence. }
  intros k4 R4 S4. pose proof (steps_trans _ _ _ _ _ S13 S4) as S14.
  assert (M4 : p_fds (k_proc k4) = delete_opt (cwd_fd info) (p_fds (k_proc k)))
    by (rewrite (st_proc _ _ _ S14); done).
  assert (Hstill : forall fd, fd ∈ [a; b; c] -> p_fds (k_proc k4) !! fd = p_fds (k_proc k) !! fd).
  { intros fd Hfd. rewrite M4. unfold delete_opt. destruct (cwd_fd info) as [fd'|]; [|done].
    apply lookup_delete_ne. intros ->. destruct (Hcwd fd eq_refl) as (_ & ? & _). done. }
  assert (Ia : a ∈ [a; b; c]) by (apply list_elem_of_In; simpl; auto).
  assert (Ib : b ∈ [a; b; c]) by (apply list_elem_of_In; simpl; auto).
  assert (Ic : c ∈ [a; b; c]) by (apply list_elem_of_In; simpl; auto).
  apply (wp_redirect w n _ _ _ HE HN); [done|done|congruence|congruence|congruence| | | |].
  1-3: rewrite Hstill by done; apply Hopen; done.
  intros k5 m da db dc R5 Da Db Dc Hm S5.
  rewrite Hstill in Da, Db, Dc by done.
  apply wp_bind, (wp_apply_landlock w n _ _ _ HE HN); [done| | |].
  { intros Hl. unfold landlock_opt in Hll. destruct (Z.eqb_spec (landlock_fd info) (-1)); [lia|].
    destruct (Hll _ eq_refl) as (_ & _ & ?). done. }
  { intros Hl Hno. right. exists (landlock_fd info). unfold landlock_opt in Hll |- *.
    rewrite (proj2 (Z.eqb_neq _ _) Hl) in Hll |- *. split; [done|].
    destruct (Hll _ eq_refl) as ([d Hd] & H3 & _). destruct Hno as [Hno|Hno]; [left; done|right].
    rewrite (st_proc _ _ _ S5) in Hno. cbn in Hno. rewrite Hm, M4 in Hno. rewrite Estd.
    unfold std_table in Hno. do 3 (rewrite decide_False in Hno by lia).
    case_decide as Hs; [left; destruct Hs as [->|[->| ->]]; done|right].
    unfold delete_opt in Hno. destruct (cwd_fd info) as [fd|]; [|congruence].
    apply lookup_delete_None in Hno as [->|?]; [done|congruence]. }
  intros k6 R6 Hlo S6. pose proof (steps_trans _ _ _ _ _ S14 (steps_trans _ _ _ _ _ S5 S6)) as S16.
  assert (Hpe6 : p_pending (k_proc k6) = pend).
  { rewrite (st_proc _ _ _ S16). apply landlocked_keeps. }
  apply (wp_exec w n _ _ _ HE HN info argv env); [done|done|done| |].
  - intros s k'. rewrite Hpe6. intros Hs Hwr. rewrite Hpend in Hpe.
    destruct Hpe as [->|[Ho ->]]; [apply elem_of_empty in Hs; done|].
    rewrite union_empty_r_L in Hs. apply elem_of_singleton in Hs as ->. done.
  - intros k7 S7. split; [done|]. split; [done|]. split; [done|].
    split; [rewrite (st_written _ _ _ S7); apply R6|].
    rewrite (st_proc _ _ _ S7). rewrite (st_proc _ _ _ S6).
    pose proof (steps_trans _ _ _ _ _ S14 S5) as S15.
    assert (Hig5 : p_ignored (k_proc k5) ## full_set).
    { rewrite (st_proc _ _ _ S15). cbn [p_ignored with_fds with_cwd with_caught with_ignored].
      apply disjoint_difference_l1. done. }
    apply (child_image_intro _ _ a b c da db dc); try done.
    1: intros fd; rewrite (st_proc _ _ _ S5); cbn [with_fds p_fds]; rewrite Hm, M4; done.
    1-4: rewrite (st_proc _ _ _ S15); done.
    { intros l Hl. apply Hll. done. }
    intros l. unfold landlock_opt. destruct (Z.eqb_spec (landlock_fd info) (-1)); [done|].
    intros [= <-]. apply Hlo. done.
Qed.
End Whole.
