(* ===== verification/SpawnLaws.v ===== *)
(** * The parent's side of spawning

    Conversion of the arguments, the error pipe, and the theorems about
    [dune_spawn_unix]. *)

From Stdlib Require Import ZArith Lia.
From stdpp Require Import base numbers list strings gmap.
From S2P Require Import Prelude Posix SpawnMem SpawnKernel SpawnRules Spawn SpawnChild.
Local Open Scope Z_scope.

(** The parent never ends. *)
Definition never (e : ending) (k : kst) : Prop := False.

(** ** Memory *)

(** Only the allocated blocks change. *)
Record allocs (k : kst) (l : gset Z) (k' : kst) : Prop := {
  al_proc : k_proc k' = k_proc k;
  al_written : k_written k' = k_written k;
  al_next : k_next k' = k_next k;
  al_live : k_live k' = l;
  al_reaped : k_reaped k' = k_reaped k;
  al_faults : k_faults k' <> [] -> k_faults k <> [] }.

Lemma allocs_trans k1 l1 k2 l2 k3 : allocs k1 l1 k2 -> allocs k2 l2 k3 -> allocs k1 l2 k3.
Proof. intros [A1 A2 A3 A4 A5 A6] [B1 B2 B3 B4 B5 B6]. split; try congruence. auto. Qed.

Lemma allocs_refl k : allocs k (k_live k) k.
Proof. done. Qed.

Lemma wp_malloc Q E k :
  (forall k', k_faults k <> [] -> allocs k (k_live k) k' -> Q None k') ->
  (forall id k', id ∉ k_live k -> allocs k ({[id]} ∪ k_live k) k' -> Q (Some id) k') ->
  wp malloc Q E k.
Proof.
  intros Hn Hs. unfold malloc. apply wp_bind, wp_may_fail.
  - intros k' [A1 A2 A3 A4 A5 A6] _. apply wp_ret. unfold wp. apply Hs; [rewrite A4; apply is_fresh|].
    split; cbn; try congruence; auto.
  - intros k' ([A1 A2 A3 A4 A5 A6] & _ & Hf). apply wp_ret, Hn; [done|]. split; done.
Qed.

Lemma wp_free id Q E k : id ∈ k_live k ->
  (forall k', allocs k (k_live k ∖ {[id]}) k' -> k_errs k' = k_errs k -> Q tt k') -> wp (free id) Q E k.
Proof. intros Hid HQ. unfold wp, free. rewrite decide_True by done. apply HQ; done. Qed.

Section Parent.
Context {PF : Platform} {PL : PlatformLaws PF}.

Lemma wp_strdup s Q E k :
  (forall k', k_faults k <> [] -> allocs k (k_live k) k' -> Q (Raise Out_of_memory) k') ->
  (forall id k', id ∉ k_live k -> allocs k ({[id]} ∪ k_live k) k' -> Q (Value (c_string s, id)) k') ->
  wp (strdup s) Q E k.
Proof. intros Hn Hs. apply wp_bind, wp_malloc; intros; apply wp_ret; auto. Qed.

(** The size of a block for the strings [ss], and that it is one. *)
Definition size_of (ss : list (list Z)) : Z := 8 * (zlen ss + 1) + total (map nul ss).

Lemma wp_alloc_block size fill ss Q E k :
  size = size_of ss -> 0 <= size < 2 ^ 63 ->
  (forall b, zlen (b_mem b) = size_of ss ->
     fill b = Done (Block (b_addr b) (layout (b_addr b) (map nul ss)))) ->
  (forall k', k_faults k <> [] -> allocs k (k_live k) k' -> Q (Raise Out_of_memory) k') ->
  (forall b id k', id ∉ k_live k -> allocs k ({[id]} ∪ k_live k) k' ->
     read_strings b = Done (map c_string ss) -> Q (Value (b, id)) k') ->
  wp (alloc_block size fill) Q E k.
Proof.
  intros Hsz Hlt Hfill Hn Hs. apply wp_bind, wp_malloc; [intros; apply wp_ret; auto|].
  intros id k' Hid Ha. destruct (heap_fresh id size Hlt) as (Hm & Hp & Hb).
  apply wp_bind. eapply wp_plift; [apply Hfill; congruence|]. apply wp_ret, Hs; [done|done|].
  unfold size_of in Hsz. apply read_layout; [done|lia].
Qed.

Definition env_string (kv : list Z * list Z) : list Z := kv.1 ++ [61] ++ kv.2.

Lemma env_chunks v : map env_chunk v = map nul (map env_string v).
Proof.
  induction v as [|[a b] v IH]; [done|]. cbn [map]. rewrite IH. f_equal.
  unfold env_chunk, nul, env_string. cbn [fst snd]. rewrite <- !app_assoc. done.
Qed.

Lemma size_of_nonneg ss : 0 <= size_of ss.
Proof. unfold size_of, total. len. Qed.

(** The strings of the child. *)
Definition argv_of (v : spawn_args) : list (list Z) := map c_string (v_argv0 v :: v_args v).
Definition env_strings (v : spawn_args) : list (list Z) :=
  match v_env v with Some l => map env_string l | None => environ end.
Definition env_of (v : spawn_args) : list (list Z) := map c_string (env_strings v).

(** The arguments fit in memory. *)
Definition fits_memory (v : spawn_args) : Prop :=
  size_of (v_argv0 v :: v_args v) < 2 ^ 63 /\ size_of (env_strings v) < 2 ^ 63.

Lemma wp_alloc_argv v Q E k : fits_memory v ->
  (forall k', k_faults k <> [] -> allocs k (k_live k) k' -> Q (Raise Out_of_memory) k') ->
  (forall b id k', id ∉ k_live k -> allocs k ({[id]} ∪ k_live k) k' ->
     read_strings b = Done (argv_of v) -> Q (Value (b, id)) k') ->
  wp (alloc_string_array (v_argv0 v) (v_args v)) Q E k.
Proof.
  intros [Hf _]. pose proof (size_of_nonneg (v_argv0 v :: v_args v)).
  assert (Es : args_full_size (v_argv0 v) (v_args v) = size_of (v_argv0 v :: v_args v))
    by (apply args_full_size_ok; unfold size_of in Hf; lia).
  apply wp_alloc_block; [done|lia|]. intros b Hb. apply fill_string_array_ok.
  rewrite Hb. unfold size_of. rewrite zlen_map. done.
Qed.

Lemma wp_alloc_env v Q E k : fits_memory v ->
  (forall k', k_faults k <> [] -> allocs k (k_live k) k' -> Q (Raise Out_of_memory) k') ->
  (forall b id k', id ∉ k_live k -> allocs k ({[id]} ∪ k_live k) k' ->
     read_strings b = Done (env_of v) -> Q (Value (b, id)) k') ->
  wp match v_env v with
     | Some l => alloc_env_list l
     | None => copy_c_string_array environ
     end Q E k.
Proof.
  intros [_ Hf]. unfold env_of. pose proof (size_of_nonneg (env_strings v)).
  unfold env_strings in *. destruct (v_env v) as [l|].
  - assert (El : 8 * (zlen l + 1) + total (map env_chunk l) = size_of (map env_string l))
      by (unfold size_of; rewrite env_chunks, zlen_map; done).
    assert (Es : env_full_size l = size_of (map env_string l)) by (rewrite <- El; apply env_full_size_ok; lia).
    apply wp_alloc_block; [done|lia|]. intros b Hb. rewrite <- env_chunks. apply fill_env_list_ok. lia.
  - assert (Es : copy_full_size environ = size_of environ)
      by (apply copy_full_size_ok; unfold size_of in Hf; lia).
    apply wp_alloc_block; [done|lia|]. intros b Hb. apply fill_c_string_array_ok. done.
Qed.

(** ** The converted arguments *)

Definition ids (info : spawn_info) : list Z :=
  match si_cwd info with PATH _ id => [id] | _ => [] end ++
  [si_prog_id info; si_argv_id info; si_env_id info].

(** [info] says what [v] asks for, in a process [p]. *)
Record describes (v : spawn_args) (p : proc) (info : spawn_info) : Prop := {
  d_std : std_fds info = [v_stdin v; v_stdout v; v_stderr v];
  d_prog : si_prog info = c_string (v_prog v);
  d_argv : read_strings (si_argv info) = Done (argv_of v);
  d_env : read_strings (si_env info) = Done (env_of v);
  d_cwd : match v_cwd v with
          | Inherit => si_cwd info = INHERIT
          | Path path => exists id, si_cwd info = PATH (c_string path) id
          | Fd fd => si_cwd info = FD fd
          end;
  d_pgid : (set_pgid info, pgid info) =
           match v_setpgid v with Some g => (true, g) | None => (false, 0) end;
  d_landlock : landlock_fd info = default (-1) (v_landlock_fd v);
  d_death : pdeathsig info =
            if linux && negb (v_pdeathsig v =? 0) then caml_convert_signal_number (v_pdeathsig v) else 0;
  d_parent : linux = true -> parent_pid info = p_pid p;
  d_mask : init_sigmask (p_mask p) (v_sigprocmask v) = Value (child_sigmask info) }.

(** Blocks allocated one after the other. *)
Record owns (l : list Z) (k k' : kst) : Prop := {
  o_nodup : NoDup l;
  o_new : forall id, id ∈ l -> id ∉ k_live k;
  o_allocs : allocs k (list_to_set l ∪ k_live k) k' }.

Lemma owns_nil k : owns [] k k.
Proof.
  split; [constructor|intros id Hid; apply not_elem_of_nil in Hid; done|].
  rewrite list_to_set_nil, union_empty_l_L. done.
Qed.

Lemma owns_snoc l id k k1 k2 : owns l k k1 -> id ∉ k_live k1 ->
  allocs k1 ({[id]} ∪ k_live k1) k2 -> owns (l ++ [id]) k k2.
Proof.
  intros [Hn Hf Ha] Hid Ha2. rewrite (al_live _ _ _ Ha) in Hid, Ha2.
  apply not_elem_of_union in Hid as [Hl Hk]. rewrite elem_of_list_to_set in Hl. split.
  - apply NoDup_app. split; [done|]. split; [|apply NoDup_singleton].
    intros x Hx Hx'. apply list_elem_of_singleton in Hx' as ->. done.
  - intros x Hx. apply elem_of_app in Hx as [Hx|Hx]; [auto|].
    apply list_elem_of_singleton in Hx as ->. done.
  - replace (list_to_set (l ++ [id]) ∪ k_live k) with ({[id]} ∪ (list_to_set l ∪ k_live k)).
    { exact (allocs_trans _ _ _ _ _ Ha Ha2). }
    clear. apply set_eq. intros x. rewrite !elem_of_union, !elem_of_list_to_set, elem_of_app,
      list_elem_of_singleton, elem_of_singleton. tauto.
Qed.

Lemma owns_fresh l id k k1 : owns l k k1 -> id ∉ k_live k1 -> id ∉ l.
Proof. intros [_ _ Ha] Hid Hl. apply Hid. rewrite (al_live _ _ _ Ha). set_solver. Qed.

(** Freeing them all. *)
Fixpoint free_all (l : list Z) : PM unit :=
  match l with [] => mret tt | id :: l => _ ← free id; free_all l end.

Lemma wp_free_all l Q E k (live : gset Z) : NoDup l -> k_live k = list_to_set l ∪ live ->
  (forall id, id ∈ l -> id ∉ live) ->
  (forall k', allocs k live k' -> k_errs k' = k_errs k -> Q tt k') -> wp (free_all l) Q E k.
Proof.
  revert k. induction l as [|id l IH]; intros k Hn Hl Hf HQ.
  - apply wp_ret, HQ; [|done]. rewrite list_to_set_nil, union_empty_l_L in Hl. rewrite <- Hl. done.
  - apply NoDup_cons in Hn as [Hid Hn]. apply wp_bind, wp_free; [rewrite Hl; set_solver|].
    intros k1 Ha He. assert (El : k_live k1 = list_to_set l ∪ live).
    { rewrite (al_live _ _ _ Ha), Hl. specialize (Hf id (list_elem_of_here _ _)). set_solver. }
    apply IH; [done|done|set_solver|]. intros k2 Ha2 He2. apply HQ; [|congruence]. exact (allocs_trans _ _ _ _ _ Ha Ha2).
Qed.

Lemma free_spawn_info_all info k : free_spawn_info info k = free_all (ids info) k.
Proof.
  unfold free_spawn_info, ids, free_all, mbind, PM_bind, mret, PM_ret.
  destruct (si_cwd info) as [|path id|fd]; cbn [app]; repeat case_match;
    repeat match goal with u : unit |- _ => destruct u end; congruence.
Qed.

(** ** [init_spawn_info] *)

Lemma wp_init_cwd v Q E k :
  (forall k', k_faults k <> [] -> allocs k (k_live k) k' -> Q (Raise Out_of_memory) k') ->
  (forall cwd k',
     match v with
     | Inherit => cwd = INHERIT
     | Path path => exists id, cwd = PATH (c_string path) id
     | Fd fd => cwd = FD fd
     end ->
     owns (match cwd with PATH _ id => [id] | _ => [] end) k k' -> Q (Value cwd) k') ->
  wp (init_cwd v) Q E k.
Proof.
  intros Hn Hs. destruct v as [|path|fd].
  - apply wp_ret, Hs; [done|]. apply owns_nil.
  - apply wp_bind, wp_strdup; [intros; apply wp_ret; auto|]. intros id k' Hid Ha.
    apply wp_ret, Hs; [cbn; eauto|]. apply (owns_snoc [] id k k); [apply owns_nil|done|done].
  - apply wp_ret, Hs; [done|]. apply owns_nil.
Qed.

(** Why converting the arguments fails, and the blocks that stay allocated: those made
    before the allocation that failed, or all of them. *)
Definition init_fails (v : spawn_args) (k : kst) (x : exn) : Prop :=
  (x = Out_of_memory /\ k_faults k <> []) \/ init_sigmask (p_mask (k_proc k)) (v_sigprocmask v) = Raise x.
Definition blocks_of (v : spawn_args) : nat := match v_cwd v with Path _ => 4 | _ => 3 end.
Definition init_leaks (v : spawn_args) (x : exn) (k k' : kst) : Prop :=
  exists blocks, owns blocks k k' /\
    match x with
    | Out_of_memory => (length blocks < blocks_of v)%nat
    | _ => length blocks = blocks_of v
    end.

Lemma owns_allocs l k k1 k' : owns l k k1 -> allocs k1 (k_live k1) k' -> owns l k k'.
Proof. intros [H1 H2 H3] Ha. split; [done|done|]. rewrite <- (al_live _ _ _ H3). exact (allocs_trans _ _ _ _ _ H3 Ha). Qed.

Lemma init_sigmask_raise m v x : init_sigmask m v = Raise x -> x <> Out_of_memory.
Proof. unfold init_sigmask. destruct v as [[c l]|]; [|done]. repeat case_match; congruence. Qed.

Lemma wp_init_spawn_info v Q E k : fits_memory v ->
  (forall x k', init_fails v k x -> init_leaks v x k k' -> Q (Raise x) k') ->
  (forall info k', describes v (k_proc k) info -> owns (ids info) k k' -> Q (Value info) k') ->
  wp (init_spawn_info v) Q E k.
Proof.
  intros Hfit Hf Hs. unfold init_spawn_info.
  assert (Hoom : forall l k1 k', (length l < blocks_of v)%nat -> owns l k k1 -> k_faults k1 <> [] ->
    allocs k1 (k_live k1) k' -> Q (Raise Out_of_memory) k').
  { intros l k1 k' Hl Ho Hfa Ha. apply Hf.
    - left. split; [done|]. apply (al_faults _ _ _ (o_allocs _ _ _ Ho) Hfa).
    - exists l. split; [exact (owns_allocs _ _ _ _ Ho Ha)|done]. }
  apply wp_bind, wp_init_cwd.
  { intros; apply wp_ret; apply (Hoom [] k); [unfold blocks_of; destruct (v_cwd v); cbn; lia|apply owns_nil|done|done]. }
  intros cwd k1 Hcwd O1. set (l1 := match cwd with PATH _ id => [id] | _ => [] end) in *.
  assert (Hl1 : (length l1 + 3 = blocks_of v)%nat)
    by (unfold l1, blocks_of; destruct (v_cwd v); [subst cwd|destruct Hcwd as [? ->]|subst cwd]; done).
  apply wp_bind, wp_strdup; [intros; apply wp_ret; eapply Hoom; eauto; lia|].
  intros pid k2 F2 A2. pose proof (owns_snoc _ _ _ _ _ O1 F2 A2) as O2.
  apply wp_bind, wp_alloc_argv; [done|intros; apply wp_ret; eapply Hoom; eauto; rewrite length_app; cbn; lia|].
  intros argv aid k3 F3 A3 Ra. pose proof (owns_snoc _ _ _ _ _ O2 F3 A3) as O3.
  apply wp_bind, wp_alloc_env; [done|intros; apply wp_ret; eapply Hoom; eauto; rewrite !length_app; cbn; lia|].
  intros env eid k4 F4 A4 Re. pose proof (owns_snoc _ _ _ _ _ O3 F4 A4) as O4.
  apply wp_get, wp_bind, wp_ret. pose proof O4 as [On Of Oa]. rewrite (al_proc _ _ _ Oa).
  destruct (init_sigmask (p_mask (k_proc k)) (v_sigprocmask v)) as [m|x] eqn:Em.
  2: { apply wp_ret, Hf; [right; done|]. exists (((l1 ++ [pid]) ++ [aid]) ++ [eid]). split; [done|].
       pose proof (init_sigmask_raise _ _ _ Em). rewrite !length_app. cbn. destruct x; try done; lia. }
  apply wp_ret, Hs.
  - split; try done; cbn.
    + destruct (v_setpgid v); done.
    + destruct linux; [|done]. destruct (v_pdeathsig v =? 0); done.
    + intros ->. done.
  - unfold ids. clear Hl1. subst l1. cbn [si_cwd si_prog_id si_argv_id si_env_id fst snd]. rewrite <- !app_assoc in *.
    split; done.
Qed.

(** ** Pipes *)

(** The process may change, its memory, records and children do not. *)
Record frame (k k' : kst) : Prop := {
  fr_written : k_written k' = k_written k;
  fr_live : k_live k' = k_live k;
  fr_reaped : k_reaped k' = k_reaped k;
  fr_faults : k_faults k' <> [] -> k_faults k <> [] }.

Lemma frame_trans k1 k2 k3 : frame k1 k2 -> frame k2 k3 -> frame k1 k3.
Proof. intros [A1 A2 A3 A4] [B1 B2 B3 B4]. split; try congruence. auto. Qed.

Lemma steps_frame k f k' : steps k f k' -> frame k k'.
Proof. intros [A1 A2 A3 A4 A5 A6]. done. Qed.

Definition same (k k' : kst) : Prop := k_proc k' = k_proc k /\ frame k k'.

Lemma quiet_same k k' : quiet k k' -> same k k'.
Proof. intros H. split; [apply H|]. exact (steps_frame _ _ _ H). Qed.

Lemma same_trans k1 k2 k3 : same k1 k2 -> same k2 k3 -> same k1 k3.
Proof. intros [A1 A2] [B1 B2]. split; [congruence|]. exact (frame_trans _ _ _ A2 B2). Qed.

(** The last call that failed is one of [names], and [errno] is its error. *)
Definition blamed (names : list string) (k : kst) : Prop :=
  exists name, name ∈ names /\ last (k_errs k) = Some (name, k_errno k).

(** A new pipe with the ends [r] and [w]. *)
Record opened (ce : bool) (k : kst) (r w : Z) (k' : kst) : Prop := {
  op_proc : k_proc k' = with_fds (fun m => <[w := Fdesc (k_next k + 1) ce]>
                                           (<[r := Fdesc (k_next k) ce]> m)) (k_proc k);
  op_r : p_fds (k_proc k) !! r = None /\ 0 <= r;
  op_w : p_fds (k_proc k) !! w = None /\ 0 <= w /\ w <> r;
  op_frame : frame k k' }.

Lemma wp_pipe_with ce Q E k :
  (forall k' fd, k_faults k <> [] -> same k k' -> blamed ["pipe"] k' -> Q (-1, fd) k') ->
  (forall r w k', opened ce k r w k' -> Q (0, (r, w)) k') ->
  wp (pipe_with ce) Q E k.
Proof.
  intros Hf Hs. apply wp_bind, wp_may_fail.
  - intros k1 S1 _. apply wp_ret. unfold wp. cbn [Z.eqb].
    rewrite (st_proc _ _ _ S1), (st_next _ _ _ S1). set (m := p_fds (k_proc k)). apply Hs.
    pose proof (lowest_free m) as [Hr Hr0].
    pose proof (lowest_free (<[lowest m := Fdesc (k_next k) ce]> m)) as [Hw Hw0].
    apply lookup_insert_None in Hw as [Hw Hne].
    split; [cbn; rewrite (st_proc _ _ _ S1); done|done|done|]. destruct S1. done.
  - intros k1 (S1 & Hl & Hr). apply wp_ret, Hf; [done|by apply quiet_same|]. exists "pipe"%string. split; [left|done].
Qed.

Lemma wp_add_cloexec fd d Q E k : p_fds (k_proc k) !! fd = Some d ->
  (forall k', k_faults k <> [] -> same k k' -> blamed ["fcntl"] k' -> Q (-1) k') ->
  (forall k', steps k (with_fds <[fd := Fdesc (ofd d) true]>) k' -> Q 0 k') ->
  wp (add_cloexec fd) Q E k.
Proof.
  intros Hd Hf Hs. apply wp_bind, wp_fcntl_getfd.
  - intros k1 (S1 & Hl & [Hr|Hr]); [|congruence]. apply wp_ret, Hf; [done|by apply quiet_same|].
    exists "fcntl"%string. split; [left|done].
  - intros d' k1 Hd' S1. rewrite Hd in Hd'. injection Hd' as <-.
    assert (Eb : (Z.b2z (cloexec d) =? -1) = false) by (destruct (cloexec d); done). rewrite Eb.
    apply wp_fcntl_setfd.
    + intros k2 (S2 & Hl & [Hr|Hr]).
      * apply Hf; [exact (st_faults _ _ _ S1 Hr)| |exists "fcntl"%string; split; [left|done]].
        apply (same_trans _ k1); apply quiet_same; done.
      * rewrite (st_proc _ _ _ S1) in Hr. congruence.
    + intros d' k2 Hd' S2. rewrite (st_proc _ _ _ S1), Hd in Hd'. injection Hd' as <-.
      apply Hs. replace true with (Z.odd (Z.lor (Z.b2z (cloexec d)) 1)) by (destruct (cloexec d); done).
      exact (steps_trans _ _ _ _ _ S1 S2).
Qed.

(** A state that differs from [k0] by two new descriptors goes back by closing them. *)
Lemma undo_pipe k0 k r w (dr dw : fdesc) Q E error :
  p_fds (k_proc k0) !! r = None -> p_fds (k_proc k0) !! w = None -> w <> r ->
  k_proc k = with_fds (fun m => <[w := dw]> (<[r := dr]> m)) (k_proc k0) -> frame k0 k ->
  (forall k', same k0 k' -> k_errs k' = k_errs k -> k_errno k' = error -> Q (-1) k') ->
  wp (_ ← close r; _ ← close w; _ ← spoil_errno; _ ← set_errno error; mret (-1)) Q E k.
Proof.
  intros Hr Hw Hne Hp Hfr HQ. apply wp_bind, (wp_close_open _ dr).
  { rewrite Hp. cbn. rewrite lookup_insert_ne by done. apply lookup_insert_eq. }
  intros k1 S1 L1 _. apply wp_bind, (wp_close_open _ dw).
  { rewrite (st_proc _ _ _ S1), Hp. cbn. rewrite lookup_delete_ne by done. apply lookup_insert_eq. }
  intros k2 S2 L2 _. pose proof (steps_trans _ _ _ _ _ S1 S2) as S12.
  apply HQ; [|cbn; congruence|done]. split; [|destruct (frame_trans _ _ _ Hfr (steps_frame _ _ _ S12)); done].
  cbn. rewrite (st_proc _ _ _ S12), Hp. destruct (k_proc k0). unfold with_fds.
  cbn in *. f_equal. apply map_eq. intros i. rewrite !lookup_delete, !lookup_insert.
  repeat case_decide; congruence.
Qed.

Lemma wp_safe_pipe Q E k :
  (forall k' fd, k_faults k <> [] -> same k k' -> blamed ["pipe"; "fcntl"] k' -> Q (-1, fd) k') ->
  (forall r w k', opened true k r w k' -> Q (0, (r, w)) k') ->
  wp safe_pipe Q E k.
Proof.
  clear PL. intros Hf Hs. unfold safe_pipe. assert (Hf' : forall k' fd names, (forall name, name ∈ names -> name ∈ ["pipe"; "fcntl"]%string) ->
    k_faults k <> [] -> same k k' -> blamed names k' -> Q (-1, fd) k').
  { intros k' fd names Hn H1 H2 (name & H3 & H4). apply Hf; [done|done|]. exists name. auto. }
  destruct has_pipe2; [apply wp_pipe_with; [|done]; intros; apply (Hf' _ _ ["pipe"%string]); set_solver|].
  apply wp_bind, wp_pipe_with; [intros; apply wp_ret, (Hf' _ _ ["pipe"%string]); set_solver|].
  intros r w k1 [Op [Hr Hr0] (Hw & Hw0 & Hne) Ofr]. cbn [Z.eqb fst snd cloexec_all].
  set (n := k_next k) in *.
  apply wp_bind, wp_bind. apply (wp_add_cloexec r (Fdesc n false)).
  { rewrite Op. cbn. rewrite lookup_insert_ne by done. apply lookup_insert_eq. }
  { intros k2 Hfa [Hp2 Hf2] (name & Hn & Hl). apply wp_get.
    apply (undo_pipe k _ _ _ (Fdesc n false) (Fdesc (n + 1) false)); try done; [congruence| |].
    - exact (frame_trans _ _ _ Ofr Hf2).
    - intros k' Hk' L' E'. apply wp_ret. apply (Hf' _ _ ["fcntl"%string]); [set_solver|apply (fr_faults _ _ Ofr Hfa)|done|].
      exists name. rewrite L', E'. done. }
  intros k2 S2. pose proof (frame_trans _ _ _ Ofr (steps_frame _ _ _ S2)) as Hf2.
  assert (P2 : k_proc k2 = with_fds (fun m => <[w := Fdesc (n + 1) false]> (<[r := Fdesc n true]> m)) (k_proc k)).
  { rewrite (st_proc _ _ _ S2), Op. unfold with_fds. cbn. f_equal.
    rewrite insert_insert_ne by done. rewrite insert_insert_eq. done. }
  apply wp_bind, (wp_add_cloexec w (Fdesc (n + 1) false)).
  { rewrite P2. apply lookup_insert_eq. }
  { intros k3 Hfa [Hp3 Hf3] (name & Hn & Hl). apply wp_get.
    apply (undo_pipe k _ _ _ (Fdesc n true) (Fdesc (n + 1) false)); try done; [congruence| |].
    - exact (frame_trans _ _ _ Hf2 Hf3).
    - intros k' Hk' L' E'. apply wp_ret. apply (Hf' _ _ ["fcntl"%string]); [set_solver|apply (fr_faults _ _ Hf2 Hfa)|done|].
      exists name. rewrite L', E'. done. }
  intros k3 S3. apply wp_ret, wp_ret, Hs. split; [|done|done|].
  - rewrite (st_proc _ _ _ S3), P2. unfold with_fds. cbn. f_equal. rewrite insert_insert_eq. done.
  - exact (frame_trans _ _ _ Hf2 (steps_frame _ _ _ S3)).
Qed.

(** ** The child, seen from its parent *)

(** A running process with its standard descriptors open. *)
Record good_parent (k : kst) : Prop := {
  gp_std : forall fd, 0 <= fd < 3 -> is_Some (p_fds (k_proc k) !! fd);
  gp_ofd : forall fd d, p_fds (k_proc k) !! fd = Some d -> 0 <= ofd d < k_next k;
  gp_next : 0 <= k_next k;
  gp_mask : p_mask (k_proc k) ## unblockable;
  gp_calm : forall s, s ∈ p_pending (k_proc k) -> terminates s = true ->
              s ∈ p_mask (k_proc k) /\ s ∈ full_set }.

(** The descriptors among the arguments are open; the directory is not a standard
    descriptor, nor is the ruleset. *)
Record good_args (v : spawn_args) (m : gmap Z fdesc) : Prop := {
  ga_open : forall fd, fd ∈ [v_stdin v; v_stdout v; v_stderr v] -> is_Some (m !! fd);
  ga_cwd : forall fd, v_cwd v = Fd fd -> is_Some (m !! fd) /\ fd ∉ [v_stdin v; v_stdout v; v_stderr v];
  ga_landlock : forall fd, v_landlock_fd v = Some fd -> is_Some (m !! fd) /\ 3 <= fd }.

Lemma cwd_fd_of v p info fd : describes v p info -> cwd_fd info = Some fd -> v_cwd v = Fd fd.
Proof.
  intros Hd. pose proof (d_cwd _ _ _ Hd) as Hc. unfold cwd_fd.
  destruct (v_cwd v) as [|path|fd']; [rewrite Hc|destruct Hc as [id ->]|rewrite Hc]; congruence.
Qed.

Lemma landlock_opt_of v p info fd : describes v p info -> landlock_opt info = Some fd ->
  v_landlock_fd v = Some fd.
Proof.
  intros Hd. unfold landlock_opt. rewrite (d_landlock _ _ _ Hd).
  destruct (v_landlock_fd v) as [l|]; cbn; [|done]. destruct (l =? -1); congruence.
Qed.

Section ChildSide.
Context (v : spawn_args) (info : spawn_info) (pd p0 p1 : proc) (n w : Z).
Context (Hd : describes v pd info) (Ha : good_args v (p_fds p0)).
Context (Hw : p_fds p0 !! w = None) (Hw3 : 3 <= w).
(** [p1] is [p0] with the write end of the pipe open. *)
Context (E1 : p_fds p1 = <[w := Fdesc n true]> (p_fds p0)).
Context (E2 : p_cwd p1 = p_cwd p0) (E3 : p_pid p1 = p_pid p0) (E4 : p_pgid p1 = p_pgid p0).
Context (E5 : p_pdeath p1 = p_pdeath p0) (E6 : p_domains p1 = p_domains p0).

Lemma open_both fd : is_Some (p_fds p0 !! fd) -> p_fds p1 !! fd = p_fds p0 !! fd.
Proof. intros [d Hfd]. rewrite E1. apply lookup_insert_ne. congruence. Qed.

Lemma good_fds_of : good_fds w info (p_fds p1).
Proof.
  destruct Ha as [Ho Hc Hl]. split.
  - rewrite (d_std _ _ _ Hd). eauto.
  - intros fd Hfd. rewrite (d_std _ _ _ Hd) in Hfd. rewrite open_both by auto. auto.
  - intros fd Hfd. apply (cwd_fd_of _ _ _ _ Hd) in Hfd. apply Hc in Hfd as [Hs Hn].
    rewrite open_both, (d_std _ _ _ Hd) by done. destruct Hs. split; [eauto|]. split; [done|congruence].
  - intros fd Hfd. apply (landlock_opt_of _ _ _ _ Hd) in Hfd. apply Hl in Hfd as [Hs Hn].
    rewrite open_both by done. destruct Hs. split; [eauto|]. split; [done|congruence].
  - split; [done|]. rewrite (d_std _ _ _ Hd). intros Hin. destruct (Ho w Hin). congruence.
Qed.

Lemma image_of p : child_image info p1 p -> child_image info p0 p.
Proof.
  destruct Ha as [Ho Hc Hl]. intros [C1 C2 C3 C4 C5 C6 C7 C8 C9].
  split; [| | |rewrite C4, E3, E4; done|done|done|done|rewrite C8, E5; done|].
  - intros i fd Hi. destruct (C1 i fd Hi) as (d & Hfd & Hp). exists d. split; [|done].
    rewrite <- open_both; [done|]. apply Ho. rewrite <- (d_std _ _ _ Hd).
    apply list_elem_of_lookup. eauto.
  - intros fd Hfd. rewrite (C2 fd Hfd), E1. destruct (decide (fd = w)) as [->|Hf].
    + rewrite lookup_insert_eq, Hw. cbn. rewrite decide_True by auto. done.
    + rewrite lookup_insert_ne by done. done.
  - rewrite C3. unfold cwd_target. rewrite E2. destruct (si_cwd info) as [|path id|fd] eqn:Ec; try done.
    rewrite open_both; [done|]. apply Hc. apply (cwd_fd_of _ _ _ _ Hd). unfold cwd_fd. rewrite Ec. done.
  - clear C1 C2. destruct (landlock_opt info) as [l|] eqn:El; [|congruence]. destruct C9 as (d & Hl' & Hdo & Hn).
    exists d. rewrite <- E6. split; [|done]. rewrite <- open_both; [done|]. apply Hl.
    exact (landlock_opt_of _ _ _ _ Hd El).
Qed.

(** A started program does not hold the pipe. *)
Lemma image_no_pipe p : (forall fd d, p_fds p0 !! fd = Some d -> ofd d <> n) ->
  child_image info p0 p -> forall fd d, p_fds p !! fd = Some d -> ofd d <> n.
Proof.
  intros Hn [C1 C2 _ _ _ _ _ _ _] fd d Hfd.
  destruct (decide (0 <= fd < 3)) as [Hf|Hf].
  - assert (Hi : exists fd', std_fds info !! Z.to_nat fd = Some fd').
    { rewrite (d_std _ _ _ Hd). apply lookup_lt_is_Some. simpl. lia. }
    destruct Hi as [fd' Hi]. destruct (C1 _ _ Hi) as (d' & Hd' & Hp).
    rewrite Z2Nat.id, Hfd in Hp by lia. injection Hp as ->. cbn. eauto.
  - rewrite (C2 fd Hf) in Hfd. destruct (p_fds p0 !! fd) as [d'|] eqn:Ed; [|done].
    cbn in Hfd. case_decide; [done|]. injection Hfd as ->. eauto.
Qed.
End ChildSide.
End Parent.
