(* ===== verification/SpawnCorrect.v ===== *)
(** * Spawning is correct

    The child and the parent put together: what [dune_spawn_unix] returns in each case of
    what happened to the child and to the parent's own calls ([spawned]), and that the
    parent is left as it was. *)

From Stdlib Require Import ZArith Lia.
From stdpp Require Import base numbers list strings gmap.
From S2P Require Import Prelude Posix SpawnMem SpawnKernel SpawnRules Spawn SpawnChild SpawnLaws.
Local Open Scope Z_scope.

Section Correct.
Context {PF : Platform} {PL : PlatformLaws PF}.

(** ** Running the child *)

(** [chdir] can only fail when a path was given. *)
Definition may_name (v : spawn_args) (name : string) : Prop :=
  name = "chdir"%string -> exists path, v_cwd v = Path path.

Lemma reported_mono n (names names' : string -> Prop) k : (forall name, names name -> names' name) ->
  reported n names k -> reported n names' k.
Proof.
  intros Hn [(name & err & f & H1 & H2 & H3 & H4)|H]; [left|right; done]. exists name, err, f. auto.
Qed.

(** How the child of a process in state [k0] ends, [n] being its error pipe. *)
Definition child_fate (c : fate) (v : spawn_args) (k0 : kst) (n : Z) (e : ending) (k : kst) : Prop :=
  exists info, describes v (k_proc k0) info /\
  match e with
  | Exit code => code = 127 /\ reported n (may_name v) k /\
      (c_faults c <> [] \/
       exists l, v_landlock_fd v = Some l /\
         (has_landlock = false \/ l ∈ [v_stdin v; v_stdout v; v_stderr v] \/ v_cwd v = Fd l))
  | Kill s => s = pdeathsig info /\ s <> 0 /\ linux = true /\ c_ppid c <> p_pid (k_proc k0) /\ k_written k = []
  | Exec prog argv env => prog = c_string (v_prog v) /\ argv = argv_of v /\ env = env_of v /\
      k_written k = [] /\ child_image info (k_proc (forked c k0)) (k_proc k)
  end.

(** [k] is [k0] with the ends [r] and [w] of a pipe open and all signals blocked. *)
Record forking (k0 : kst) (r w : Z) (k : kst) : Prop := {
  fk_fds : p_fds (k_proc k) = <[w := Fdesc (k_next k0 + 1) true]> (<[r := Fdesc (k_next k0) true]> (p_fds (k_proc k0)));
  fk_r : p_fds (k_proc k0) !! r = None /\ 0 <= r;
  fk_w : p_fds (k_proc k0) !! w = None /\ 0 <= w /\ w <> r;
  fk_mask : p_mask (k_proc k) = full_set ∖ unblockable;
  fk_cwd : p_cwd (k_proc k) = p_cwd (k_proc k0);
  fk_pgid : p_pgid (k_proc k) = p_pgid (k_proc k0);
  fk_nnp : p_domains (k_proc k) = p_domains (k_proc k0) }.

Lemma child_side_ok c v k0 r w k info :
  good_parent k0 -> good_args v (p_fds (k_proc k0)) -> describes v (k_proc k0) info ->
  forking k0 r w k ->
  wp (child_side (r, w) info) (fun _ _ => False) (child_fate c v k0 (k_next k0 + 1)) (forked c k).
Proof.
  intros Hp Ha Hd [F1 [Hr Hr0] (Hw & Hw0 & Hne) F2 F3 F4 F5]. set (n := k_next k0 + 1) in *.
  set (p0 := k_proc (forked c k0)).
  assert (Hw3 : 3 <= w).
  { destruct (decide (3 <= w)); [done|]. destruct (gp_std _ Hp w ltac:(lia)). congruence. }
  unfold child_side. apply wp_bind, wp_close. intros r1 k1 S1. cbn [fst snd].
  assert (Hd' : describes v (k_proc k0) info) by done.
  assert (E1 : p_fds (k_proc k1) = <[w := Fdesc n true]> (p_fds p0)).
  { rewrite (st_proc _ _ _ S1). cbn. rewrite F1. rewrite delete_insert_ne by done.
    rewrite delete_insert_id by done. done. }
  assert (G : good_fds w info (p_fds (k_proc k1))).
  { apply (good_fds_of v info (k_proc k0) (k_proc k0) (k_proc k1) n w); done. }
  assert (R : ready (child_bad info k1) w n k1).
  { split.
    - split; rewrite E1; [apply lookup_insert_eq|]. intros fd d.
      destruct (decide (fd = w)) as [->|Hf]; [done|]. rewrite lookup_insert_ne by done.
      intros Hfd Ho. destruct (gp_ofd _ Hp fd d Hfd). lia.
    - intros s. rewrite (st_proc _ _ _ S1). cbn. intros Hs. apply elem_of_empty in Hs. done.
    - rewrite (st_proc _ _ _ S1). done.
    - rewrite (st_written _ _ _ S1). done.
    - intros Hf. left. done. }
  pose proof (subprocess_ok w n info (argv_of v) (env_of v) k1 R G) as Hsub.
  apply (wp_mono _ _ _ _ _ _ (Hsub ltac:(rewrite (st_proc _ _ _ S1); done) (d_argv _ _ _ Hd) (d_env _ _ _ Hd)));
    [done|].
  intros e k2. unfold child_end. intros He. exists info. split; [done|]. destruct e as [code|s|prog argv env].
  - destruct He as (-> & Hbad & Hrep). split; [done|]. split.
    { revert Hrep. apply reported_mono. intros name Hn Hc. destruct (Hn Hc) as (path & id & Hp').
      pose proof (d_cwd _ _ _ Hd) as Hcw. rewrite Hp' in Hcw. destruct (v_cwd v); naive_solver. }
    destruct Hbad as [Hf|(l & Hl & Hc)]; [left; exact (st_faults _ _ _ S1 Hf)|right].
    exists l. split; [exact (landlock_opt_of _ _ _ _ Hd Hl)|]. rewrite <- (d_std _ _ _ Hd).
    destruct Hc as [Hc|[Hc|Hc]]; [auto|auto|]. right. right. exact (cwd_fd_of _ _ _ _ Hd Hc).
  - destruct He as (-> & (Hlin & Hs & Hpp) & Hwr). rewrite (st_proc _ _ _ S1) in Hpp. cbn in Hpp.
    rewrite (d_parent _ _ _ Hd Hlin) in Hpp. done.
  - destruct He as (-> & -> & -> & Hwr & Him). rewrite (d_prog _ _ _ Hd).
    repeat (split; [done|]).
    apply (image_of v info (k_proc k0) (k_proc (forked c k0)) (k_proc k1) n w); try done;
      try (rewrite (st_proc _ _ _ S1); cbn; congruence).
Qed.

(** ** Reading the error pipe *)

(** What is on the pipe, when nobody can write to it any more. *)
Definition pipe_answer (n : Z) (c : child_run) : Z * option subprocess_failure_t :=
  match child_written n c with
  | f :: _ => (sizeof_failure, Some f)
  | [] => (0, None)
  end.

Lemma wp_read_failure fd d c Q k : p_fds (k_proc k) !! fd = Some d -> 0 <= ofd d ->
  holds (ofd d + 1) k = false -> child_holds (ofd d + 1) c = false ->
  (forall k', quiet k k' -> (length (k_faults k') <= length (k_faults k))%nat ->
     Q (pipe_answer (ofd d + 1) c) k') ->
  (forall k', quiet k k' -> (length (k_faults k') < length (k_faults k))%nat -> blamed ["read"] k' -> Q (-1, None) k') ->
  wp (read_failure fd c) Q never k.
Proof.
  intros Hd Ho Hh Hch HQ HF.
  assert (Hgo : forall k', quiet k k' -> (length (k_faults k') <= length (k_faults k))%nat ->
    wp (fun k => match child_written (ofd d + 1) c with
                 | f :: _ => Go (sizeof_failure, Some f) k
                 | [] => if holds (ofd d + 1) k || child_holds (ofd d + 1) c then Stuck else Go (0, None) k
                 end) Q never k').
  { intros k' Hq Hl. specialize (HQ k' Hq Hl). unfold wp, pipe_answer in *.
    destruct (child_written (ofd d + 1) c); [|done].
    assert (Eh : holds (ofd d + 1) k' = false) by (unfold holds; rewrite (st_proc _ _ _ Hq); done).
    rewrite Eh, Hch. done. }
  unfold read_failure, may_fail, fail, get, mbind, PM_bind, wp in *.
  destruct (k_faults k) as [|[e|] rest] eqn:Ef.
  - rewrite Hd. unfold mret, PM_ret. rewrite (proj2 (Z.eqb_neq (ofd d) (-1))) by lia.
    apply Hgo; [done|rewrite Ef; done].
  - apply HF; [split; cbn; congruence|cbn; lia|]. exists "read"%string. split; [left|]. cbn. by rewrite last_snoc.
  - cbn [k_proc]. rewrite Hd. unfold mret, PM_ret. rewrite (proj2 (Z.eqb_neq (ofd d) (-1))) by lia.
    apply Hgo; [split; cbn; congruence|cbn; lia].
Qed.

Lemma wp_read_loop fd d c Q k : p_fds (k_proc k) !! fd = Some d -> 0 <= ofd d ->
  holds (ofd d + 1) k = false -> child_holds (ofd d + 1) c = false ->
  (forall k', same k k' -> Q (pipe_answer (ofd d + 1) c) k') ->
  (forall k', same k k' -> k_faults k <> [] -> blamed ["read"] k' -> k_errno k' <> EINTR -> Q (-1, None) k') ->
  wp (read_loop fd c) Q never k.
Proof.
  intros Hd Ho Hh Hch HQ HF. unfold read_loop.
  assert (Hind : forall fuel k1, same k k1 -> (length (k_faults k1) < fuel)%nat ->
    wp (read_retry fuel fd c) Q never k1).
  { induction fuel as [|fuel IH]; intros k1 H1 Hl; [lia|]. cbn [read_retry]. pose proof H1 as [P1 Fr1].
    apply wp_bind, (wp_read_failure _ d); rewrite ?P1; try done.
    - unfold holds in *. rewrite P1. done.
    - intros k2 H2 _. unfold pipe_answer in *. pose proof (same_trans _ _ _ H1 (quiet_same _ _ H2)) as H12.
      specialize (HQ k2 H12). destruct (child_written (ofd d + 1) c); cbn; apply wp_get, wp_ret; done.
    - intros k2 H2 Hl2 Hb2. pose proof (same_trans _ _ _ H1 (quiet_same _ _ H2)) as H12. cbn [Z.eqb andb].
      apply wp_get. change (-1 =? -1) with true. cbn [andb].
      destruct (Z.eqb_spec (k_errno k2) EINTR); [apply IH; [done|lia]|]. apply wp_ret, HF; [done| |done|done].
      apply (fr_faults _ _ Fr1). intros E0. rewrite E0 in Hl2. simpl in Hl2. lia. }
  unfold wp. apply Hind; [split; done|lia].
Qed.

(** ** The result *)

(** The third argument of the exception that goes with a failing call. *)
Definition argument (v : spawn_args) (name : string) : list Z :=
  match arg_of name, v_cwd v with
  | CWD, Path path => path
  | PROG, _ => v_prog v
  | _, _ => []
  end.

Lemma c_string_id (s t : list Z) : forallb (fun c => negb (c =? 0)) s = true ->
  c_string (s ++ 0 :: t) = s.
Proof.
  induction s as [|c s IH]; cbn [forallb app c_string]; [done|]. intros [Hc Hs]%andb_prop.
  destruct (c =? 0); [done|]. rewrite IH; done.
Qed.

Lemma raise_ok v err name f : set_error err name (arg_of name) = Done f -> fits name = true ->
  may_name v name ->
  raise_subprocess_failure f v = Done (Unix_error err name (argument v name)).
Proof.
  unfold set_error, fits. intros Hf [Hl Hz]%andb_prop Hn. rewrite Hl in Hf. cbn in Hf.
  injection Hf as <-. apply Z.leb_le in Hl.
  assert (Ez : exists t, zeros (32 - zlen (bytes_of_string name)) = 0 :: t).
  { unfold zeros. destruct (Z.to_nat (32 - zlen (bytes_of_string name))) eqn:En; [lia|]. cbn. eauto. }
  destruct Ez as [t Ez]. unfold raise_subprocess_failure. cbn [f_arg f_function f_error]. rewrite Ez.
  rewrite c_string_id, existsb_app, string_of_bytes_of_string by done. cbn [existsb].
  rewrite orb_true_r. unfold argument, may_name, arg_of in *.
  destruct (decide (name = "chdir"%string)) as [Hc|Hc]; [|destruct (decide (name = "execve"%string)); done].
  destruct (Hn Hc) as [path Hp]. rewrite Hp. done.
Qed.

(** What [dune_spawn_unix] returns, the child it started, the children it waited for, and
    the log of the calls of the parent that failed:
    - the arguments could not be converted, the pipe not be made or the child not be
      created: there is no child, and the exception has the error of the call that failed;
    - the child runs the program: its number is returned;
    - the child has ended because its parent had died, or could not report its failure:
      its number is returned all the same;
    - a call of the child has failed: the exception names it, and the child has been
      waited for;
    - reading the report has failed: the exception has that error, whatever the child does,
      and the child has been waited for. *)
Inductive spawned (c : fate) (v : spawn_args) (k0 : kst) (log : list (string * Z)) :
  caml Z -> option child_run -> list Z -> Prop :=
| Sp_init x : init_fails v k0 x -> spawned c v k0 log (Raise x) None []
| Sp_pipe name e : k_faults k0 <> [] -> name ∈ ["pipe"; "fcntl"]%string -> last log = Some (name, e) ->
    spawned c v k0 log (Raise (Unix_error e "pipe" [])) None []
| Sp_fork e : k_faults k0 <> [] -> last log = Some ("fork"%string, e) ->
    spawned c v k0 log (Raise (Unix_error e "vfork" [])) None []
| Sp_started prog argv env k :
    child_fate c v k0 (k_next k0 + 1) (Exec prog argv env) k ->
    spawned c v k0 log (Value (c_pid c)) (Some (Gone (Exec prog argv env) k)) []
| Sp_killed s k :
    child_fate c v k0 (k_next k0 + 1) (Kill s) k ->
    spawned c v k0 log (Value (c_pid c)) (Some (Gone (Kill s) k)) []
| Sp_failed code k name err :
    child_fate c v k0 (k_next k0 + 1) (Exit code) k -> last (k_errs k) = Some (name, err) ->
    spawned c v k0 log (Raise (Unix_error err name (argument v name))) (Some (Gone (Exit code) k)) [c_pid c]
| Sp_lost code k err :
    child_fate c v k0 (k_next k0 + 1) (Exit code) k -> last (k_errs k) = Some ("write"%string, err) ->
    spawned c v k0 log (Value (c_pid c)) (Some (Gone (Exit code) k)) []
| Sp_read e en k :
    child_fate c v k0 (k_next k0 + 1) en k -> k_faults k0 <> [] -> last log = Some ("read"%string, e) -> e <> EINTR ->
    spawned c v k0 log (Raise (Unix_error e "read" [])) (Some (Gone en k)) [c_pid c].

Lemma wp_set_mask_calm m Q E k :
  (forall s, s ∈ p_pending (k_proc k) -> terminates s = true -> s ∈ m ∖ unblockable) ->
  (forall k', steps k (with_mask (m ∖ unblockable)) k' -> k_errs k' = k_errs k -> Q tt k') ->
  wp (set_mask terminates m) Q E k.
Proof.
  intros Hc HQ. unfold set_mask. apply wp_bind. unfold modify, wp at 1.
  apply wp_deliver; [exact Hc|]. apply HQ; [apply steps_upd|done].
Qed.

(** The state in which the parent waits: only the read end of the pipe is open. *)
Record waiting (k0 : kst) (r : Z) (k : kst) : Prop := {
  wt_proc : k_proc k = with_mask (full_set ∖ unblockable)
              (with_fds <[r := Fdesc (k_next k0) true]> (k_proc k0));
  wt_r : p_fds (k_proc k0) !! r = None;
  wt_live : k_live k = k_live k0;
  wt_reaped : k_reaped k = k_reaped k0;
  wt_faults : k_faults k <> [] -> k_faults k0 <> [] }.

Lemma holds_false n k : (forall fd d, p_fds (k_proc k) !! fd = Some d -> ofd d <> n) ->
  holds n k = false.
Proof.
  intros Hn. unfold holds. apply Is_true_false_1. intros Hh%Is_true_true_1. apply existsb_exists in Hh as ([fd d] & Hin & Ho).
  apply list_elem_of_In, elem_of_map_to_list in Hin. apply Z.eqb_eq in Ho. exact (Hn _ _ Hin Ho).
Qed.

(** The error pipe has no writer left: the parent's end is closed, and a started program
    does not have one. *)
Lemma no_writers c v k0 r k e kc : good_parent k0 -> waiting k0 r k ->
  child_fate c v k0 (k_next k0 + 1) e kc ->
  holds (k_next k0 + 1) k = false /\ child_holds (k_next k0 + 1) (Gone e kc) = false.
Proof.
  intros Hp [Wp Wr _ _ _] (info & Hd & He). split.
  - apply holds_false. intros fd d. rewrite Wp. cbn.
    destruct (decide (fd = r)) as [->|Hf]; [rewrite lookup_insert_eq; intros [= <-]; cbn; lia|].
    rewrite lookup_insert_ne by done. intros Hfd. pose proof (gp_ofd _ Hp _ _ Hfd). lia.
  - destruct e as [code|s|prog argv env]; [done|done|]. destruct He as (_ & _ & _ & _ & Him). cbn.
    apply holds_false. apply (image_no_pipe v info (k_proc k0) (k_proc (forked c k0))); [done| |done].
    intros fd d Hfd. pose proof (gp_ofd _ Hp fd d Hfd). lia.
Qed.

(** What the parent makes of the child. *)
Lemma wp_await c v k0 r k e kc en Q : good_parent k0 -> waiting k0 r k ->
  child_fate c v k0 (k_next k0 + 1) e kc ->
  (forall k', same k k' -> (forall log, spawned c v k0 log (Value (c_pid c)) (Some (Gone e kc)) []) -> Q None k') ->
  (forall f x k', k_proc k' = k_proc k -> k_live k' = k_live k -> k_reaped k' = k_reaped k ++ [c_pid c] ->
     raise_subprocess_failure f v = Done x ->
     spawned c v k0 (k_errs k') (Raise x) (Some (Gone e kc)) [c_pid c] -> Q (Some f) k') ->
  wp (await_child r (c_pid c) en (Some (Gone e kc))) Q never k.
Proof.
  intros Hp Hw He HN HS. destruct (no_writers _ _ _ _ _ _ _ Hp Hw He) as [Hh Hch].
  assert (Hr : p_fds (k_proc k) !! r = Some (Fdesc (k_next k0) true)).
  { rewrite (wt_proc _ _ _ Hw). apply lookup_insert_eq. }
  pose proof (gp_next _ Hp) as Hn0.
  unfold await_child. apply wp_bind, (wp_read_loop _ (Fdesc (k_next k0) true)); try done; cbn [ofd].
  - intros k1 H1. unfold pipe_answer.
    destruct (child_written (k_next k0 + 1) (Gone e kc)) as [|f l] eqn:Ew.
    + apply wp_ret, HN; [done|]. intros log. cbn in Ew. destruct e as [code|s|prog argv env].
      * pose proof He as (info & Hd & -> & Hrep & _).
        destruct Hrep as [(name & err & f & _ & _ & _ & _ & Hwr)|(err & Hl & _)].
        -- rewrite Hwr in Ew. cbn in Ew. rewrite decide_True in Ew by done. done.
        -- exact (Sp_lost _ _ _ _ _ _ _ He Hl).
      * exact (Sp_killed _ _ _ _ _ _ He).
      * exact (Sp_started _ _ _ _ _ _ _ _ He).
    + cbn [Z.eqb sizeof_failure]. apply wp_get, wp_bind. change (40 =? 40) with true. cbv iota.
      eapply wp_plift; [reflexivity|]. apply wp_bind. unfold waitpid, wp at 1. apply wp_ret.
      cbn in Ew. pose proof He as (info & Hd & Hen). destruct e as [code|s|prog argv env].
      * destruct Hen as (-> & Hrep & _).
        destruct Hrep as [(name & err & f' & Hse & Hfit & Hnm & Hl & Hwr)|(err & Hl & Hwr)].
        2: { rewrite Hwr in Ew. done. }
        rewrite Hwr in Ew. cbn in Ew. rewrite decide_True in Ew by done. injection Ew as <- _.
        destruct H1 as [P1 [F1 F2 F3 F4]].
        apply (HS f' (Unix_error err name (argument v name))); cbn; try congruence.
        -- apply raise_ok; done.
        -- exact (Sp_failed _ _ _ _ _ _ _ _ He Hl).
      * destruct Hen as (_ & _ & _ & _ & Hwr). rewrite Hwr in Ew. done.
      * destruct Hen as (_ & _ & _ & Hwr & _). rewrite Hwr in Ew. done.
  - intros k1 [P1 [F1 F2 F3 F4]] Hfa (name & ->%list_elem_of_singleton & Hlast) Hne. cbn [Z.eqb]. cbv iota. apply wp_get.
    change (-1 =? -1) with true. change (-1 =? sizeof_failure) with false. cbv iota.
    destruct (set_error_fits (k_errno k1) "read" (arg_of "read") eq_refl) as [f Hf].
    apply wp_bind. eapply wp_plift; [exact Hf|]. apply wp_bind. unfold waitpid, wp at 1. apply wp_ret.
    apply (HS f (Unix_error (k_errno k1) "read" (argument v "read"))); cbn; try congruence.
    + apply raise_ok; done.
    + apply (Sp_read _ _ _ _ _ _ _ He); [exact (wt_faults _ _ _ Hw Hfa)|exact Hlast|exact Hne].
Qed.

(** The end of [dune_spawn_unix] brings the parent back to where it was. *)
Lemma wp_leave k0 r k Q (f : PM (caml Z * option child_run)) : good_parent k0 ->
  p_fds (k_proc k0) !! r = None ->
  k_proc k = with_mask (full_set ∖ unblockable)
              (with_fds <[r := Fdesc (k_next k0) true]> (k_proc k0)) ->
  (forall k', k_proc k' = k_proc k0 -> k_live k' = k_live k -> k_reaped k' = k_reaped k -> k_errs k' = k_errs k ->
     wp f Q never k') ->
  wp (_ ← close r; _ ← set_mask terminates (p_mask (k_proc k0)); f) Q never k.
Proof.
  intros Hp Hr Hk HQ. apply wp_bind, (wp_close_open _ (Fdesc (k_next k0) true)).
  { rewrite Hk. apply lookup_insert_eq. }
  intros k1 S1 L1 _. apply wp_bind, wp_set_mask_calm.
  - intros s. rewrite (st_proc _ _ _ S1), Hk. cbn. intros Hs Ht.
    destruct (gp_calm _ Hp s Hs Ht) as [Hm _]. pose proof (gp_mask _ Hp) as Hd. set_solver.
  - intros k2 S2 L2. pose proof (steps_trans _ _ _ _ _ S1 S2) as [Sp Sw Sn Sl Sr Sf]. apply HQ; [|done|done|congruence].
    rewrite Sp, Hk. pose proof (gp_mask _ Hp) as Hd. destruct (k_proc k0) as [m]. unfold with_fds, with_mask.
    cbn in *. rewrite delete_insert_id by done. f_equal. apply set_eq. set_solver.
Qed.

(** Everything about [dune_spawn_unix] at once: it returns; the result is what happened;
    the parent's process is unchanged and its memory is freed, except when converting the
    arguments failed, which leaves the blocks allocated so far. *)
Definition spawn_spec (c : fate) (v : spawn_args) (k0 : kst) (res : caml Z * option child_run) (k : kst) : Prop :=
  exists waited, spawned c v k0 (k_errs k) res.1 res.2 waited /\
    k_proc k = k_proc k0 /\ k_reaped k = k_reaped k0 ++ waited /\
    (k_live k = k_live k0 \/ exists x, res.1 = Raise x /\ init_fails v k0 x /\ init_leaks v x k0 k).

Lemma wp_gone {A} (m : PM A) E k : wp m (fun _ _ => False) E k ->
  exists e k', m k = Gone e k' /\ E e k'.
Proof. unfold wp. destruct (m k); try done. eauto. Qed.

(** The parent right after [fork]. *)
Lemma wp_after_fork c v info k0 r w k ret : good_parent k0 -> good_args v (p_fds (k_proc k0)) ->
  describes v (k_proc k0) info -> 0 < c_pid c ->
  k_proc k = with_mask (full_set ∖ unblockable)
    (with_fds (fun m => <[w := Fdesc (k_next k0 + 1) true]> (<[r := Fdesc (k_next k0) true]> m)) (k_proc k0)) ->
  p_fds (k_proc k0) !! r = None /\ 0 <= r -> p_fds (k_proc k0) !! w = None /\ 0 <= w /\ w <> r ->
  NoDup (ids info) -> (forall id, id ∈ ids info -> id ∉ k_live k0) ->
  k_live k = list_to_set (ids info) ∪ k_live k0 ->
  k_reaped k = k_reaped k0 -> (k_faults k <> [] -> k_faults k0 <> []) ->
  (ret = -1 /\ k_faults k0 <> [] /\ last (k_errs k) = Some ("fork"%string, k_errno k)) \/ ret = c_pid c ->
  wp (after_fork v info (r, w) (p_mask (k_proc k0)) ret (k_errno k)
        (if ret =? -1 then None else Some (child_side (r, w) info (forked c k))))
    (spawn_spec c v k0) never k.
Proof.
  intros Hp Ha Hd Hpid Pk Hr Hw Hn Hf Hl Hre Hfa Hret. unfold after_fork. cbn [fst snd].
  apply wp_bind, wp_bind. unfold wp. rewrite free_spawn_info_all.
  apply (wp_free_all _ _ _ _ (k_live k0)); [done|done|done|]. intros k1 [A1 A2 A3 A4 A5 A6] L1. cbn in A1, A2, A3, A5, L1.
  apply wp_bind, (wp_close_open _ (Fdesc (k_next k0 + 1) true)).
  { rewrite A1, Pk. apply lookup_insert_eq. }
  intros k2 [B1 B2 B3 B4 B5 B6] L2 _.
  assert (P2 : k_proc k2 = with_mask (full_set ∖ unblockable)
              (with_fds <[r := Fdesc (k_next k0) true]> (k_proc k0))).
  { rewrite B1, A1, Pk. unfold with_fds, with_mask. cbn. f_equal. apply delete_insert_id.
    rewrite lookup_insert_ne by (intros ->; apply Hw; done). apply Hw. }
  assert (Wt : waiting k0 r k2) by (split; [done|apply Hr|congruence|congruence|auto]).
  assert (Hleave : forall failure child res waited k', k_proc k' = k_proc k2 -> k_live k' = k_live k2 ->
    k_reaped k' = k_reaped k2 ++ waited -> spawned c v k0 (k_errs k') res child waited ->
    match failure with
    | Some f => exists x, raise_subprocess_failure f v = Done x /\ res = Raise x
    | None => res = Value ret
    end ->
    wp (_ ← close r; _ ← set_mask terminates (p_mask (k_proc k0));
        match failure with
        | Some failure => x ← plift (raise_subprocess_failure failure v); mret (Raise x, child)
        | None => mret (Value ret, child)
        end) (spawn_spec c v k0) never k').
  { intros failure child res waited k' C1 C2 C3 Hsp Hfail. apply (wp_leave k0); [done|apply Hr|congruence|].
    intros k3 D1 D2 D3 D4. rewrite <- D4 in Hsp. assert (Hspec : spawn_spec c v k0 (res, child) k3).
    { exists waited. split; [done|]. split; [done|]. split; [congruence|]. left. congruence. }
    destruct failure as [f|]; [|subst; apply wp_ret; done]. destruct Hfail as (x & Hx & ->).
    apply wp_bind, (wp_plift _ _ _ _ _ Hx), wp_ret. done. }
  apply wp_bind. destruct Hret as [(-> & Hfk & Hlast)| ->].
  - destruct (set_error_fits (k_errno k) "vfork" (arg_of "vfork") eq_refl) as [f Hf'].
    change (-1 =? -1) with true. cbv iota. unfold await_child. apply wp_bind, (wp_plift _ _ _ _ _ Hf'), wp_ret.
    apply (Hleave (Some f) None (Raise (Unix_error (k_errno k) "vfork" [])) []); try done.
    + rewrite app_nil_r. done.
    + apply Sp_fork; [done|]. rewrite L2, L1. done.
    + exists (Unix_error (k_errno k) "vfork" (argument v "vfork")).
      split; [apply raise_ok; done|done].
  - rewrite (proj2 (Z.eqb_neq (c_pid c) (-1))) by lia.
    assert (Fk : forking k0 r w k) by (split; try done; rewrite Pk; done).
    destruct (wp_gone _ _ _ (child_side_ok c v k0 r w k info Hp Ha Hd Fk)) as (e & kc & -> & Hfate).
    apply (wp_await c v k0 r _ e kc); [done|done|done| |].
    + intros k' [C1 [C2 C3 C4 C5]] Hsp. apply (Hleave None _ (Value (c_pid c)) []); try done.
      rewrite app_nil_r. done.
    + intros f x k' C1 C2 C3 Hx Hsp. apply (Hleave (Some f) _ (Raise x) [c_pid c]); try done. eauto.
Qed.

Lemma wp_spawn c v k0 : good_parent k0 -> good_args v (p_fds (k_proc k0)) -> fits_memory v ->
  0 < c_pid c -> wp (dune_spawn_unix c v) (spawn_spec c v k0) never k0.
Proof.
  intros Hp Ha Hfit Hpid. unfold dune_spawn_unix.
  apply wp_bind, wp_init_spawn_info; [done| |].
  { intros x k1 Hx Hlk. apply wp_ret. pose proof Hlk as (blocks & [_ _ [P1 _ _ _ R1 _]] & _). exists [].
    rewrite app_nil_r. cbn. eauto 10 using Sp_init. }
  intros info k1 Hd Ho. pose proof Ho as [On Of [A1 A2 A3 A4 A5 A6]].
  assert (Hown : forall k, k_live k = k_live k1 -> forall Q,
    (forall k', allocs k (k_live k0) k' -> k_errs k' = k_errs k -> Q tt k') -> wp (free_spawn_info info) Q never k).
  { intros k Hl Q HQ. unfold wp. rewrite free_spawn_info_all.
    apply (wp_free_all _ _ _ _ (k_live k0)); [done|congruence|done|done]. }
  apply wp_bind, wp_safe_pipe.
  { intros k2 fd Hfa [P2 [F1 F2 F3 F4]] (name & Hname & Hlast). cbn [Z.eqb]. change (-1 =? -1) with true. cbv iota.
    apply wp_get, wp_bind, wp_bind, Hown; [done|]. intros k3 [B1 B2 B3 B4 B5 B6] L3. cbn in B1, B4, B5, L3. apply wp_ret.
    exists []. rewrite app_nil_r. cbn. split; [apply (Sp_pipe _ _ _ _ name); [auto|done|by rewrite L3]|]. split; [congruence|]. split; [congruence|].
    left. done. }
  intros r w k2 [Op [Hr Hr0] (Hw & Hw0 & Hne) [F1 F2 F3 F4]]. cbn [Z.eqb]. cbv iota.
  rewrite A1 in Op, Hr, Hw. rewrite A3 in Op. apply wp_get.
  apply wp_bind, wp_set_mask_calm.
  { intros s. rewrite Op. cbn. intros Hs Ht. destruct (gp_calm _ Hp s Hs Ht) as [Hm Hfs].
    apply elem_of_difference. split; [done|]. intros Hu. exact (gp_mask _ Hp s Hm Hu). }
  intros k3 S3 _. pose proof (st_proc _ _ _ S3) as P3. rewrite Op in P3.
  assert (Hsaved : p_mask (k_proc k2) = p_mask (k_proc k0)) by (rewrite Op; done). rewrite Hsaved.
  pose proof (steps_frame _ _ _ S3) as [G1 G2 G3 G4].
  apply wp_bind, wp_may_fail; [intros k4 Q4 _; apply wp_ret|intros k4 (Q4 & Hlast & Hfa)];
    pose proof Q4 as [Q1 Q2 Q3 Q5 Q6 Q7]; apply wp_get; cbv zeta;
    apply (wp_after_fork c v info k0); try done; try congruence; auto.
  left. split; [done|]. unfold refused in Hfa. auto.
Qed.
End Correct.

(** ** A system to try the theorems on *)

Definition sample_platform : Platform := {|
  linux := true; has_landlock := true; has_pipe2 := true;
  terminates := fun _ => true; spoil := fun _ => 0;
  resolve := fun d path => 100 * d + zlen path;
  dir_of := fun n => n;
  caml_convert_signal_number := Z.opp;
  environ := [[65; 61; 98]];
  heap := fun _ n => Block 4096 (zeros n) |}.

Lemma sample_laws : PlatformLaws sample_platform.
Proof.
  split. intros id n Hn. unfold fresh_block, heap, sample_platform. cbn [b_mem b_addr].
  rewrite zlen_zeros. lia.
Qed.

(** A process with the standard descriptors, a file and a ruleset open. *)
Definition sample_process : proc :=
  Proc (list_to_map [(0, Fdesc 0 false); (1, Fdesc 1 false); (2, Fdesc 2 false); (3, Fdesc 7 true);
                     (5, Fdesc 8 true)])
    1 42 1 42 ∅ ∅ {[2]} {[13]} 0 false [].
Definition sample_state : kst := K sample_process [] 0 [] [] 10 ∅ [].

(** Run [/x a] in the directory [d] with its output and its errors in the file. *)
Definition sample_args : spawn_args := {|
  v_env := Some [([75], [118])]; v_cwd := Path [100]; v_prog := [47; 120]; v_argv0 := [120];
  v_args := [[97]]; v_stdin := 0; v_stdout := 3; v_stderr := 3; v_use_vfork := true;
  v_setpgid := Some 0; v_sigprocmask := None; v_landlock_fd := Some 5; v_pdeathsig := -9 |}.
Definition sample_fate : fate := {| c_pid := 43; c_ppid := 42; c_faults := [] |}.

Lemma sample_parent : good_parent (PF := sample_platform) sample_state.
Proof.
  split.
  - intros fd Hfd. assert (Hc : fd = 0 \/ fd = 1 \/ fd = 2) by lia.
    destruct Hc as [->|[->| ->]]; vm_compute; eauto.
  - intros fd d Hfd. apply elem_of_list_to_map_2 in Hfd. cbn. set_unfold in Hfd.
    repeat destruct Hfd as [[= -> ->]|Hfd]; cbn; try lia; done.
  - done.
  - set_solver.
  - intros s Hs. apply elem_of_empty in Hs. done.
Qed.

Lemma sample_good_args : good_args sample_args (p_fds sample_process).
Proof.
  split.
  - intros fd Hfd. set_unfold in Hfd. destruct Hfd as [->|[->|[->|Hfd]]]; vm_compute; try eauto. done.
  - done.
  - intros fd [= <-]. split; [vm_compute; eauto|done].
Qed.

Lemma sample_fits : fits_memory (PF := sample_platform) sample_args.
Proof. split; vm_compute; done. Qed.

Lemma c_string_clean s : Forall (fun c => c <> 0) s -> c_string s = s.
Proof.
  intros Hs. induction Hs as [|c s Hc Hs IH]; [done|]. cbn.
  rewrite (proj2 (Z.eqb_neq _ _) Hc), IH. done.
Qed.

(** ** The theorems *)



(** C11.  When no call fails, the parent is alive, the signal command is known and the
    ruleset can be used, the program runs: with its arguments and environment, the three
    files as descriptors 0, 1 and 2 even when they are swapped or shared, the other
    descriptors closed on [execve] or inherited, no handler and no ignored signal left. *)
Theorem spawn_starts {PF : Platform} {PL : PlatformLaws PF} (c : fate) (v : spawn_args) (k0 : kst)
  (mask : gset Z) :
  good_parent k0 -> good_args v (p_fds (k_proc k0)) -> fits_memory v -> 0 < c_pid c ->
  k_faults k0 = [] -> c_faults c = [] -> c_ppid c = p_pid (k_proc k0) ->
  init_sigmask (p_mask (k_proc k0)) (v_sigprocmask v) = Value mask ->
  (forall l, v_landlock_fd v = Some l ->
     has_landlock = true /\ l ∉ [v_stdin v; v_stdout v; v_stderr v] /\ v_cwd v <> Fd l) ->
  exists info kc k,
    dune_spawn_unix c v k0 =
      Go (Value (c_pid c), Some (Gone (Exec (c_string (v_prog v)) (argv_of v) (env_of v)) kc)) k /\
    describes v (k_proc k0) info /\ child_image info (k_proc (forked c k0)) (k_proc kc) /\
    k_proc k = k_proc k0 /\ k_live k = k_live k0.
Proof.
  intros Hp Ha Hf Hc F1 F2 Hpp Hm Hl. pose proof (wp_spawn c v k0 Hp Ha Hf Hc) as Hw. unfold wp in Hw.
  destruct (dune_spawn_unix c v k0) as [[res child] k| | |]; try done.
  assert (Hnf : forall x, ~ init_fails v k0 x) by (intros x [[_ ?]|Hx]; [done|congruence]).
  destruct Hw as (waited & Hs & Hk & _ & Hlive). cbn [fst snd] in Hs, Hlive.
  assert (Hlv : k_live k = k_live k0) by (destruct Hlive as [?|(x & _ & Hx & _)]; [done|destruct (Hnf x Hx)]).
  destruct Hs as [x Hx|name e Hx|e Hx|prog argv env kc He|s kc He|code kc name err He _|code kc err He _|e en kc He Hx];
    try congruence; [destruct (Hnf x Hx)|..]; destruct He as (info & Hd & He).
  - destruct He as (-> & -> & -> & _ & Him). exists info, kc, k. done.
  - destruct He as (_ & _ & _ & Hpp' & _). done.
  - destruct He as (_ & _ & [?|(l & Hvl & Hbad)]); [done|]. destruct (Hl l Hvl) as (? & ? & ?).
    destruct Hbad as [?|[?|?]]; [congruence|done|done].
  - destruct He as (_ & _ & [?|(l & Hvl & Hbad)]); [done|]. destruct (Hl l Hvl) as (? & ? & ?).
    destruct Hbad as [?|[?|?]]; [congruence|done|done].
Qed.

Lemma spawn_starts_witness :
  exists info kc k,
    dune_spawn_unix (PF := sample_platform) sample_fate sample_args sample_state =
      Go (Value 43, Some (Gone (Exec [47; 120] [[120]; [97]] [[75; 61; 118]]) kc)) k /\
    describes (PF := sample_platform) sample_args sample_process info /\
    child_image (H := sample_platform) info (k_proc (forked sample_fate sample_state)) (k_proc kc) /\
    k_proc k = sample_process /\ k_live k = ∅.
Proof.
  apply (spawn_starts (PF := sample_platform) (PL := sample_laws) sample_fate sample_args sample_state ∅
    sample_parent sample_good_args sample_fits); try reflexivity.
  intros l [= <-]. split; [reflexivity|]. split; [vm_compute; intros Hin; set_solver|discriminate].
Defined.

(** C24.  [safe_dup] always returns: it gives the file a descriptor that was free and is at
    least 3, without [FD_CLOEXEC], or [-1]; either way the descriptors below 3 it had to
    take on the way are closed again. *)
Theorem safe_dup_correct (k : kst) (fd : Z) :
  exists r k', safe_dup fd k = Go r k' /\
    ((r = -1 /\ k_proc k' = k_proc k) \/
     (3 <= r /\ p_fds (k_proc k) !! r = None /\
      exists d, p_fds (k_proc k) !! fd = Some d /\
        k_proc k' = with_fds <[r := Fdesc (ofd d) false]> (k_proc k))).
Proof.
  assert (Hw : wp (safe_dup fd) (fun r k' =>
    (r = -1 /\ k_proc k' = k_proc k) \/
    (3 <= r /\ p_fds (k_proc k) !! r = None /\
     exists d, p_fds (k_proc k) !! fd = Some d /\
       k_proc k' = with_fds <[r := Fdesc (ofd d) false]> (k_proc k))) never k).
  { apply safe_dup_ok.
    - intros k' (Hq & _). left. split; [done|apply Hq].
    - intros d r k' Hd Hr Hn Hs. right. split; [done|]. split; [done|]. exists d. split; [done|apply Hs]. }
  unfold wp in Hw. destruct (safe_dup fd k); try done. eauto.
Qed.

(** C25.  A new pipe has two fresh descriptors, both closed on [execve], whether the system
    has [pipe2] or the flag is set afterwards; when that fails both are closed again. *)
Theorem spawn_pipe_correct {PF : Platform} (k : kst) :
  exists res k', dune_spawn_pipe k = Go res k' /\
    match res with
    | Value (r, w) => opened true k r w k'
    | Raise x => k_proc k' = k_proc k /\ exists e op, x = Unix_error e op []
    end.
Proof.
  assert (Hw : wp dune_spawn_pipe (fun res k' =>
    match res with
    | Value (r, w) => opened true k r w k'
    | Raise x => k_proc k' = k_proc k /\ exists e op, x = Unix_error e op []
    end) never k).
  { apply wp_bind, wp_safe_pipe.
    - intros k' fd _ [Hk _] _. apply wp_get, wp_ret. eauto.
    - intros r w k' Ho. apply wp_ret. done. }
  unfold wp in Hw. destruct (dune_spawn_pipe k); try done. eauto.
Qed.

(** C21.  The blocks built for [execve] can be read back: through the pointers one finds the
    program name and the arguments, or the variables with their values, or a copy of the
    environment, each up to its first NUL byte, and then NULL; all stores are inside the
    block. *)
Theorem exec_blocks_roundtrip (b : block) (argv0 : list Z) (args : list (list Z))
  (vars : list (list Z * list Z)) (strings : list (list Z)) :
  (fresh_block (args_full_size argv0 args) b -> size_of (argv0 :: args) < 2 ^ 64 ->
     (let! b := fill_string_array b argv0 args in read_strings b) =
     Done (map c_string (argv0 :: args))) /\
  (fresh_block (env_full_size vars) b -> size_of (map env_string vars) < 2 ^ 64 ->
     (let! b := fill_env_list b vars in read_strings b) =
     Done (map (fun kv => c_string (kv.1 ++ [61] ++ kv.2)) vars)) /\
  (fresh_block (copy_full_size strings) b -> size_of strings < 2 ^ 64 ->
     Forall (Forall (fun c => c <> 0)) strings ->
     (let! b := fill_c_string_array b strings in read_strings b) = Done strings).
Proof.
  split; [|split].
  - intros (Hm & Hp & Hb) Hlt. rewrite args_full_size_ok in Hm, Hb by done.
    rewrite fill_string_array_ok by (rewrite zlen_map; done). apply read_layout; done.
  - intros (Hm & Hp & Hb) Hlt. assert (El := env_full_size_ok vars). rewrite env_chunks in El.
    unfold size_of in Hlt. rewrite zlen_map in Hlt. rewrite El in Hm, Hb by done.
    rewrite fill_env_list_ok by (rewrite env_chunks; done). rewrite env_chunks. cbn [exec_bind].
    rewrite read_layout, map_map by (rewrite ?zlen_map; done). done.
  - intros (Hm & Hp & Hb) Hlt Hnz. rewrite copy_full_size_ok in Hm, Hb by done.
    rewrite fill_c_string_array_ok by done. cbn [exec_bind]. rewrite read_layout by done. f_equal.
    transitivity (map id strings); [|apply map_id]. apply map_ext_in. intros s Hs%list_elem_of_In.
    rewrite Forall_forall in Hnz. apply c_string_clean. auto.
Qed.

Lemma exec_blocks_roundtrip_witness :
  (let! b := fill_string_array (Block 4096 (zeros 28)) [120] [[97]] in read_strings b) =
    Done [[120]; [97]] /\
  (let! b := fill_env_list (Block 4096 (zeros 21)) [([75; 86], [120])] in read_strings b) =
    Done [[75; 86; 61; 120]].
Proof.
  split.
  - apply (exec_blocks_roundtrip (Block 4096 (zeros 28)) [120] [[97]] [] []); vm_compute; repeat split; done.
  - apply (exec_blocks_roundtrip (Block 4096 (zeros 21)) [] [] [([75; 86], [120])] []);
      vm_compute; repeat split; done.
Defined.
