(* ===== verification/SpawnPosix.v ===== *)
(** * Spawning with [posix_spawn]

    The variant of [dune_spawn_unix] that [spawn_stubs.c] compiles on macOS.  File actions
    and attributes are collected and applied by the system in the child; the objects that
    hold them are not modelled as memory.  Variables that
    are not initialised yet are [None]; reading one breaks a rule of C. *)

From Stdlib Require Import ZArith Lia.
From stdpp Require Import base numbers list strings gmap.
From S2P Require Import Prelude Posix SpawnMem SpawnKernel SpawnRules Spawn SpawnChild SpawnLaws.
Local Open Scope Z_scope.

(** ** The calls *)

(** A call that returns an error number, [0] on success. *)
Definition posix_call (name : string) : PM Z := fun k =>
  match k_faults k with
  | Some e :: rest =>
      Go e (K (k_proc k) rest (k_errno k) (k_errs k ++ [(name, e)]) (k_written k) (k_next k)
              (k_live k) (k_reaped k))
  | None :: rest =>
      Go 0 (K (k_proc k) rest (k_errno k) (k_errs k) (k_written k) (k_next k) (k_live k) (k_reaped k))
  | [] => Go 0 k
  end.

Inductive action := ADup2 (fd newfd : Z) | AClose (fd : Z).

Definition run_action (a : action) : PM unit :=
  match a with
  | ADup2 fd newfd =>
      r ← dup2 fd newfd;
      if r =? -1 then stop (Exit 127) else mret tt
  | AClose fd => _ ← close fd; mret tt
  end.

Fixpoint run_actions (l : list action) : PM unit :=
  match l with
  | [] => mret tt
  | a :: l => _ ← run_action a; run_actions l
  end.

Section PosixSpawn.
Context {PF : Platform}.

Definition uninitialised {A} (x : option A) : PM A := fun k =>
  match x with Some a => Go a k | None => Broken end.

(** The child: attributes, then file actions, then the program. *)
Definition posix_child (info : spawn_info) (actions : list action) : PM unit :=
  _ ← (if set_pgid info
       then k ← get; modify (with_pgid (if pgid info =? 0 then p_pid (k_proc k) else pgid info))
       else mret tt);
  _ ← modify (with_mask (child_sigmask info ∖ unblockable));
  _ ← run_actions actions;
  argv ← plift (read_strings (si_argv info));
  env ← plift (read_strings (si_env info));
  _ ← modify image;
  stop (Exec (si_prog info) argv env).

(** [posix_spawn]: an error number and no child, or a child. *)
Definition posix_spawn (c : fate) (info : spawn_info) (actions : list action) :
  PM (Z * option child_run) :=
  e ← posix_call "posix_spawn";
  if negb (e =? 0) then mret (e, None)
  else fun k => Go (0, Some (posix_child info actions
         (K (k_proc (forked c k)) [] (k_errno k) [] [] (k_next k) (k_live k) []))) k.

(** [__pthread_fchdir(-1)]: back to the directory of the process. *)
Definition pthread_reset_dir (process_cwd : Z) : PM unit := modify (with_cwd process_cwd).

(** ** The stub *)

(** The local variables that the label [cleanup] reads. *)
Record locals := Locals {
  l_tmp_fds : list Z;
  l_info : option spawn_info;
  l_error : option Z;
  l_function : option string;
  l_arg : list Z;
  l_pid : Z;
  l_child : option child_run }.

Definition failed (l : locals) (error : option Z) (function : string) (arg : list Z) : locals :=
  Locals (l_tmp_fds l) (l_info l) error (Some function) arg (l_pid l) (l_child l).
Definition with_tmp (l : locals) (tmp_fd : Z) : locals :=
  Locals (l_tmp_fds l ++ [tmp_fd]) (l_info l) (l_error l) (l_function l) (l_arg l) (l_pid l) (l_child l).

(** [e_error = call; if (e_error) { e_function = name; goto cleanup; }]: [inl] jumps. *)
Definition check (name : string) (l : locals) (k : locals -> PM (locals + locals)) :
  PM (locals + locals) :=
  e ← posix_call name;
  if negb (e =? 0) then mret (inl (failed l (Some e) name [])) else k l.

(** The loop over the standard descriptors; the actions are collected. *)
Fixpoint add_actions (fd : Z) (std : list Z) (actions : list action) (l : locals) :
  PM ((locals + locals) * list action) :=
  match std with
  | [] => mret (inr l, actions)
  | s :: std =>
      tmp_fd ← safe_dup s;
      let l := with_tmp l tmp_fd in
      if tmp_fd =? -1 then
        k ← get; mret (inl (failed l (Some (k_errno k)) "dup" []), actions)
      else
        e ← posix_call "posix_spawn_file_actions_adddup2";
        if negb (e =? 0) then
          mret (inl (failed l (Some e) "posix_spawn_file_actions_adddup2" []), actions)
        else
          e ← posix_call "posix_spawn_file_actions_addclose";
          if negb (e =? 0) then
            mret (inl (failed l (Some e) "posix_spawn_file_actions_addclose" []), actions)
          else add_actions (fd + 1) std (actions ++ [ADup2 tmp_fd fd; AClose tmp_fd]) l
  end.

Definition enter_dir (info : spawn_info) (v : spawn_args) (l : locals) : PM (locals + locals) :=
  match si_cwd info with
  | INHERIT => mret (inr l)
  | PATH path _ =>
      r ← chdir resolve "__pthread_chdir" path;
      if r =? -1 then
        k ← get;
        arg ← plift (cwd_field (v_cwd v));
        mret (inl (failed l (Some (k_errno k)) "__pthread_chdir" arg))
      else mret (inr l)
  | FD fd =>
      r ← fchdir dir_of "__pthread_fchdir" fd;
      if r =? -1 then
        k ← get; mret (inl (failed l (Some (k_errno k)) "__pthread_fchdir" []))
      else mret (inr l)
  end.

(** The attributes. *)
Definition set_attributes (info : spawn_info) (l : locals) : PM (locals + locals) :=
  check "posix_spawnattr_setflags" l (fun l =>
  check "posix_spawnattr_setsigmask" l (fun l =>
  if set_pgid info then check "posix_spawnattr_setpgroup" l (fun l => mret (inr l))
  else mret (inr l))).

(** The file actions, the directory and [posix_spawn]. *)
Definition launch (c : fate) (v : spawn_args) (info : spawn_info) (l : locals) :
  PM (locals + locals) :=
  '(r, actions) ← add_actions 0 (std_fds info) [] l;
  match r with
  | inl l => mret (inl l)
  | inr l =>
  k ← get;
  let process_cwd := p_cwd (k_proc k) in
  r ← enter_dir info v l;
  match r with
  | inl l => mret (inl l)
  | inr l =>
  '(e, child) ← posix_spawn c info actions;
  _ ← match si_cwd info with INHERIT => mret tt | _ => pthread_reset_dir process_cwd end;
  if negb (e =? 0) then mret (inl (failed l (Some e) "posix_spawn" []))
  else mret (inr (Locals (l_tmp_fds l) (l_info l) (Some 0) (l_function l) (l_arg l) (c_pid c) child))
  end
  end.

(** From the initialised [info] to the label [cleanup]. *)
Definition posix_body (c : fate) (v : spawn_args) (info : spawn_info) (l : locals) :
  PM (locals + locals) :=
  r ← set_attributes info l;
  match r with
  | inl l => mret (inl l)
  | inr l => launch c v info l
  end.

Fixpoint close_tmp (fds : list Z) : PM unit :=
  match fds with
  | [] => mret tt
  | fd :: fds =>
      _ ← (if 2 <? fd then _ ← close fd; mret tt else mret tt);
      close_tmp fds
  end.

(** The label [cleanup], reached on every path. *)
Definition cleanup (l : locals) : PM (caml Z * option child_run) :=
  _ ← close_tmp (l_tmp_fds l);
  info ← uninitialised (l_info l);
  _ ← free_spawn_info info;
  match l_function l with
  | Some e_function =>
      e_error ← uninitialised (l_error l);
      mret (Raise (Unix_error e_error e_function (l_arg l)), l_child l)
  | None => mret (Value (l_pid l), l_child l)
  end.

Definition dune_spawn_unix_posix (c : fate) (v : spawn_args) : PM (caml Z * option child_run) :=
  let l := Locals [] None None None [] 0 None in
  e ← posix_call "posix_spawn_file_actions_init";
  if negb (e =? 0) then cleanup (failed l None "posix_spawn_file_actions_init" []) else
  e ← posix_call "posix_spawnattr_init";
  if negb (e =? 0) then cleanup (failed l None "posix_spawnattr_init" []) else
  r ← init_spawn_info v;
  match r with
  | Raise x => mret (Raise x, None)
  | Value info =>
      r ← posix_body c v info (Locals [] (Some info) None None [] 0 None);
      match r with inl l | inr l => cleanup l end
  end.
End PosixSpawn.
