(* ===== verification/SpawnPosixLaws.v ===== *)
(** * [posix_spawn] gives the child what was asked for

    Once the arguments are converted, the temporary descriptors are closed, the directory
    is restored and the memory is freed on every path; an exception means that there is no
    child.  A Landlock ruleset and a parent-death signal are not applied. *)

From Stdlib Require Import ZArith Lia.
From stdpp Require Import base numbers list strings gmap.
From S2P Require Import Prelude Posix SpawnMem SpawnKernel SpawnRules Spawn SpawnChild SpawnLaws SpawnPosix SpawnCorrect.
Local Open Scope Z_scope.

Lemma wp_posix_call name Q E k :
  (forall e k', quiet k k' -> (e <> 0 -> last (k_errs k') = Some (name, e)) -> Q e k') -> wp (posix_call name) Q E k.
Proof.
  intros HQ. unfold wp, posix_call. destruct (k_faults k) as [|[e|] rest] eqn:Ef; apply HQ;
    try (split; cbn; congruence); intros He; [done|cbn; by rewrite last_snoc|done].
Qed.

(** [k] is [k0] with the temporary descriptors [tmps] open; [-1] stands for a failed
    [dup]. *)
Record held (k0 : kst) (tmps : list Z) (k : kst) : Prop := {
  h_proc : k_proc k = with_fds (fun _ => p_fds (k_proc k)) (k_proc k0);
  h_out : forall fd, fd ∉ tmps \/ fd < 3 -> p_fds (k_proc k) !! fd = p_fds (k_proc k0) !! fd;
  h_tmp : forall t, t ∈ tmps -> t = -1 \/ (3 <= t /\ p_fds (k_proc k0) !! t = None);
  h_open : forall t, t ∈ tmps -> 2 < t -> is_Some (p_fds (k_proc k) !! t);
  h_nodup : NoDup (filter (fun t => 2 < t) tmps);
  h_frame : frame k0 k }.

Lemma held_quiet k0 tmps k k' : held k0 tmps k -> quiet k k' -> held k0 tmps k'.
Proof.
  intros [H1 H2 H3 Ho Hn H4] Hq. split; rewrite ?(st_proc _ _ _ Hq); try done.
  exact (frame_trans _ _ _ H4 (steps_frame _ _ _ Hq)).
Qed.

Lemma held_fail k0 tmps k k' : held k0 tmps k -> quiet k k' -> held k0 (tmps ++ [-1]) k'.
Proof.
  intros [H1 H2 H3 Ho Hn H4] Hq. split; rewrite ?(st_proc _ _ _ Hq); try done.
  - intros fd Hfd. apply H2. rewrite not_elem_of_app in Hfd. tauto.
  - intros t. rewrite elem_of_app, list_elem_of_singleton. naive_solver.
  - intros t. rewrite elem_of_app, list_elem_of_singleton. intros [?| ->]; [auto|lia].
  - rewrite filter_app, filter_cons_False, filter_nil, app_nil_r by lia. done.
  - exact (frame_trans _ _ _ H4 (steps_frame _ _ _ Hq)).
Qed.

Lemma held_dup k0 tmps k t d k' : held k0 tmps k -> 3 <= t -> p_fds (k_proc k0) !! t = None ->
  p_fds (k_proc k) !! t = None -> steps k (with_fds <[t := d]>) k' -> held k0 (tmps ++ [t]) k'.
Proof.
  intros [H1 H2 H3 Ho Hd H4] Ht Hn Hk Hs. split.
  - rewrite (st_proc _ _ _ Hs), H1. done.
  - intros fd Hfd. rewrite (st_proc _ _ _ Hs). cbn. rewrite not_elem_of_app, not_elem_of_cons in Hfd.
    rewrite lookup_insert_ne by (destruct Hfd; [naive_solver|lia]). apply H2. tauto.
  - intros t'. rewrite elem_of_app, list_elem_of_singleton. intros [Ht'| ->]; auto.
  - intros t' Ht' H2'. rewrite (st_proc _ _ _ Hs). cbn. destruct (decide (t' = t)) as [->|Hne];
      [rewrite lookup_insert_eq; eauto|rewrite lookup_insert_ne by done; set_solver].
  - rewrite filter_app, filter_cons_True, filter_nil by lia. apply NoDup_app. split; [done|]. split; [|apply NoDup_singleton].
    intros x [Hx Hin]%list_elem_of_filter ->%list_elem_of_singleton. destruct (Ho t Hin Hx). congruence.
  - exact (frame_trans _ _ _ H4 (steps_frame _ _ _ Hs)).
Qed.

Lemma held_nil k : held k [] k.
Proof. split; [by destruct (k_proc k)|done|intros t []%not_elem_of_nil..|constructor|done]. Qed.

(** [safe_dup] keeps clear of the descriptors held. *)
Lemma wp_hold k0 tmps s Q E k : held k0 tmps k ->
  (forall k', held k0 (tmps ++ [-1]) k' -> last (k_errs k') = Some ("dup"%string, k_errno k') -> Q (-1) k') ->
  (forall t d k', p_fds (k_proc k) !! s = Some d -> p_fds (k_proc k) !! t = None -> 3 <= t ->
     p_fds (k_proc k) !! t = None -> held k0 (tmps ++ [t]) k' ->
     steps k (with_fds <[t := Fdesc (ofd d) false]>) k' -> Q t k') ->
  wp (safe_dup s) Q E k.
Proof.
  intros Hh Hf Hs. apply safe_dup_ok.
  - intros k' (Hq & Hl & _). apply Hf; [|done]. exact (held_fail _ _ _ _ Hh Hq).
  - intros d t k' Hd Ht Hn Hst. apply (Hs t d); try done. apply (held_dup _ _ _ _ _ _ Hh Ht) in Hst; [done| |done].
    destruct (decide (t ∈ tmps)) as [Hin|Hin].
    + destruct (h_tmp _ _ _ Hh t Hin) as [?|[_ ?]]; [lia|done].
    + rewrite <- (h_out _ _ _ Hh t); [done|auto].
Qed.

(** Closing the temporary descriptors. *)
Lemma wp_close_tmp tmps Q E k :
  (forall t, t ∈ tmps -> 2 < t -> is_Some (p_fds (k_proc k) !! t)) -> NoDup (filter (fun t => 2 < t) tmps) ->
  (forall k', (forall fd, p_fds (k_proc k') !! fd =
                 if decide (fd ∈ tmps /\ 2 < fd) then None else p_fds (k_proc k) !! fd) ->
     k_proc k' = with_fds (fun _ => p_fds (k_proc k')) (k_proc k) -> frame k k' -> k_errs k' = k_errs k -> Q tt k') ->
  wp (close_tmp tmps) Q E k.
Proof.
  revert k. induction tmps as [|t tmps IH]; intros k Ho Hn HQ; cbn [close_tmp].
  - apply wp_ret, HQ; [|destruct (k_proc k); done|done|done].
    intros fd. rewrite decide_False; [done|]. intros [Hin _]. apply not_elem_of_nil in Hin. done.
  - apply wp_bind. destruct (Z.ltb_spec 2 t).
    + rewrite filter_cons_True in Hn by done. apply NoDup_cons in Hn as [Ht Hn].
      destruct (Ho t) as [d Hd]; [left|done|].
      apply wp_bind, (wp_close_open _ d); [done|]. intros k1 S1 L1 _. apply wp_ret, IH; [|done|].
      { intros t' Ht' H2. rewrite (st_proc _ _ _ S1). cbn. rewrite lookup_delete_ne.
        - apply Ho; [by right|done].
        - intros <-. apply Ht, list_elem_of_filter. done. }
      intros k2 H2 P2 F2 L2. apply HQ; [| | |congruence].
      * intros fd. rewrite H2, (st_proc _ _ _ S1). cbn. rewrite lookup_delete.
        destruct (decide (t = fd)) as [->|Hne].
        -- rewrite (decide_True (P := fd ∈ fd :: tmps /\ 2 < fd)) by (split; [left|done]).
           destruct (decide _); done.
        -- apply decide_ext. rewrite elem_of_cons. naive_solver.
      * rewrite P2, (st_proc _ _ _ S1). done.
      * exact (frame_trans _ _ _ (steps_frame _ _ _ S1) F2).
    + rewrite filter_cons_False in Hn by lia. apply wp_ret, IH; [intros; apply Ho; [by right|done]|done|].
      intros k2 H2 P2 F2 L2. apply HQ; [|done|done|done].
      intros fd. rewrite H2. apply decide_ext. rewrite elem_of_cons. split; [tauto|].
      intros [[->|?] ?]; [lia|done].
Qed.

Lemma held_close k0 tmps k Q E : held k0 tmps k ->
  (forall k', same k0 k' -> k_errs k' = k_errs k -> Q tt k') -> wp (close_tmp tmps) Q E k.
Proof.
  intros [H1 H2 H3 Ho Hn H4] HQ. apply wp_close_tmp; [done|done|]. intros k' Hl Hp Hf He. apply HQ; [|done]. split.
  - rewrite Hp, H1. assert (E0 : p_fds (k_proc k') = p_fds (k_proc k0)).
    { apply map_eq. intros fd. rewrite Hl. case_decide as Hd.
      - destruct Hd as [Hin Hgt]. destruct (H3 fd Hin) as [?|[_ ?]]; [lia|done].
      - apply H2. destruct (decide (fd ∈ tmps)); [right|left; done]. destruct (decide (2 < fd)); [tauto|lia]. }
    rewrite E0. destruct (k_proc k0). done.
  - exact (frame_trans _ _ _ H4 Hf).
Qed.

Section Posix.
Context {PF : Platform} {PL : PlatformLaws PF}.

(** ** Up to [posix_spawn] *)

(** The third argument of the exception. *)
Definition posix_argument (v : spawn_args) (f : string) : list Z :=
  match v_cwd v with
  | Path path => if decide (f = "__pthread_chdir"%string) then path else []
  | _ => []
  end.

(** The locals when the code stands in state [k], [k0] being the state after the arguments
    were converted; [jumped] when it has jumped to the label. *)
Definition steady (k0 : kst) (info : spawn_info) (l : locals) (k : kst) : Prop :=
  held k0 (l_tmp_fds l) k /\ l_info l = Some info /\ l_child l = None /\ l_function l = None.
Definition jumped (v : spawn_args) (k0 : kst) (info : spawn_info) (l : locals) (k : kst) : Prop :=
  held k0 (l_tmp_fds l) k /\ l_info l = Some info /\ l_child l = None /\
  exists f e, l_function l = Some f /\ l_error l = Some e /\ l_arg l = posix_argument v f /\
    last (k_errs k) = Some (f, e).

Lemma steady_quiet k0 info l k k' : steady k0 info l k -> quiet k k' -> steady k0 info l k'.
Proof. intros (H1 & H2) Hq. split; [|done]. exact (held_quiet _ _ _ _ H1 Hq). Qed.

Lemma steady_failed v k0 info l k error function arg : steady k0 info l k ->
  arg = posix_argument v function -> last (k_errs k) = Some (function, error) ->
  jumped v k0 info (failed l (Some error) function arg) k.
Proof. intros (H1 & H2 & H3 & H4) Ha Hl. unfold jumped. cbn. eauto 10. Qed.
Lemma no_argument v f : f <> "__pthread_chdir"%string -> [] = posix_argument v f.
Proof. intros Hf. unfold posix_argument. destruct (v_cwd v); [done|by rewrite decide_False|done]. Qed.

Lemma wp_check v k0 info name l f Q k : steady k0 info l k -> name <> "__pthread_chdir"%string ->
  (forall l' k', jumped v k0 info l' k' -> Q (inl l') k') ->
  (forall k', quiet k k' -> steady k0 info l k' -> wp (f l) Q never k') ->
  wp (check name l f) Q never k.
Proof.
  intros Hs Hn Hj Hf. apply wp_bind, wp_posix_call. intros e k1 Q1 L1.
  pose proof (steady_quiet _ _ _ _ _ Hs Q1) as Hs1.
  destruct (Z.eqb_spec e 0); cbn [negb]; [auto|]. apply wp_ret, Hj, steady_failed; auto using no_argument.
Qed.

Lemma wp_add_action v k0 info fd s std actions l Q k : steady k0 info l k ->
  (forall l' k' acts, jumped v k0 info l' k' -> Q (inl l', acts) k') ->
  (forall t d k', p_fds (k_proc k) !! s = Some d -> 3 <= t -> p_fds (k_proc k) !! t = None ->
     steady k0 info (with_tmp l t) k' ->
     steps k (with_fds <[t := Fdesc (ofd d) false]>) k' ->
     wp (add_actions (fd + 1) std (actions ++ [ADup2 t fd; AClose t]) (with_tmp l t)) Q never k') ->
  wp (add_actions fd (s :: std) actions l) Q never k.
Proof.
  intros (Hh & Hi & Hc & Hn) Hj Hs. cbn [add_actions]. apply wp_bind, (wp_hold _ _ _ _ _ _ Hh).
  - intros k1 H1 L1. rewrite Z.eqb_refl. apply wp_get, wp_ret, Hj, steady_failed; [done|by apply no_argument|done].
  - intros t d k1 Hd _ Ht Hf H1 S1. rewrite (proj2 (Z.eqb_neq t (-1))) by lia.
    assert (St1 : steady k0 info (with_tmp l t) k1) by done.
    apply wp_bind, wp_posix_call. intros e2 k2 Q2 L2. pose proof (steady_quiet _ _ _ _ _ St1 Q2) as St2.
    destruct (Z.eqb_spec e2 0); cbn [negb]; [|apply wp_ret, Hj, steady_failed; [done|by apply no_argument|auto]].
    apply wp_bind, wp_posix_call. intros e3 k3 Q3 L3. pose proof (steady_quiet _ _ _ _ _ St2 Q3) as St3.
    destruct (Z.eqb_spec e3 0); cbn [negb]; [|apply wp_ret, Hj, steady_failed; [done|by apply no_argument|auto]].
    apply (Hs t d); try done.
    exact (steps_trans _ _ _ _ _ S1 (steps_trans _ _ _ _ _ Q2 Q3)).
Qed.

(** The directory of the thread while the child is created. *)
Lemma wp_enter_dir k0 info v l Q k : steady k0 info l k ->
  (forall path id, si_cwd info = PATH path id -> exists p, v_cwd v = Path p) ->
  (forall l' k', jumped v k0 info l' k' -> Q (inl l') k') ->
  (forall k' cwd, cwd = cwd_target info (k_proc k) -> steps k (with_cwd cwd) k' -> Q (inr l) k') ->
  wp (enter_dir info v l) Q never k.
Proof.
  intros Hs Hv Hj HQ. unfold enter_dir, cwd_target in *. destruct (si_cwd info) as [|path id|fd].
  - apply wp_ret, (HQ _ (p_cwd (k_proc k))); [done|]. split; try done. destruct (k_proc k). done.
  - apply wp_bind, wp_chdir.
    + intros k1 (Q1 & L1 & _). rewrite Z.eqb_refl. apply wp_get. destruct (Hv path id eq_refl) as [p Hp].
      apply wp_bind. eapply wp_plift; [unfold cwd_field; rewrite Hp; reflexivity|].
      apply wp_ret, Hj, steady_failed; [exact (steady_quiet _ _ _ _ _ Hs Q1)| |done].
      unfold posix_argument. by rewrite Hp.
    + intros k1 S1. apply wp_ret. exact (HQ _ _ eq_refl S1).
  - apply wp_bind, wp_fchdir.
    + intros k1 (Q1 & L1 & _). rewrite Z.eqb_refl. apply wp_get, wp_ret, Hj, steady_failed;
        [exact (steady_quiet _ _ _ _ _ Hs Q1)|by apply no_argument|done].
    + intros d k1 Hd S1. apply wp_ret, (HQ _ (dir_of (ofd d))); [rewrite Hd; done|done].
Qed.

(** ** The child *)

(** A redirection in the child; nothing fails there. *)
Lemma wp_redirection t fd d rest Q E k : k_faults k = [] -> p_fds (k_proc k) !! t = Some d -> t <> fd ->
  0 <= fd ->
  (forall k', k_faults k' = [] ->
     steps k (with_fds (fun m => delete t (<[fd := Fdesc (ofd d) false]> m))) k' ->
     wp (run_actions rest) Q E k') ->
  wp (run_actions (ADup2 t fd :: AClose t :: rest)) Q E k.
Proof.
  intros Hf Hd Hne H0 HQ. cbn [run_actions run_action].
  apply wp_bind, wp_bind, wp_dup2; [done| |].
  - intros k1 (_ & _ & [?|?]); congruence.
  - intros d' k1 Hd' S1. rewrite Hd in Hd'. injection Hd' as <-.
    rewrite (proj2 (Z.eqb_neq fd (-1))) by lia. apply wp_ret, wp_bind, wp_bind, wp_close.
    intros r k2 S2. apply wp_ret. pose proof (steps_trans _ _ _ _ _ S1 S2) as S12. apply HQ; [|done].
    destruct (k_faults k2) eqn:E2; [done|]. destruct (st_faults _ _ _ S12); [congruence|done].
Qed.

(** What the new program finds.  Its Landlock domains are those of the parent and it has no
    parent-death signal, whatever was asked for: this variant does not use these
    arguments.  Signals the parent ignores stay ignored. *)
Record posix_image (v : spawn_args) (info : spawn_info) (p0 p : proc) : Prop := {
  pi_std : forall i fd, std_fds info !! i = Some fd ->
    exists d, p_fds p0 !! fd = Some d /\ p_fds p !! Z.of_nat i = Some (Fdesc (ofd d) false);
  pi_rest : forall fd, ~ 0 <= fd < 3 ->
    p_fds p !! fd = (d ← p_fds p0 !! fd; if decide (cloexec d = true) then None else Some d);
  pi_cwd : p_cwd p = cwd_target info p0;
  pi_pgid : p_pgid p = if set_pgid info then if pgid info =? 0 then p_pid p else pgid info
                       else p_pgid p0;
  pi_mask : p_mask p = child_sigmask info ∖ unblockable;
  pi_handlers : p_caught p = ∅;
  pi_ignored : p_ignored p = p_ignored p0;
  pi_landlock : p_domains p = p_domains p0 /\ p_nnp p = p_nnp p0;
  pi_pdeath : p_pdeath p = 0 }.

(** The table of the child before [execve]. *)
Definition posix_table (m : gmap Z fdesc) (t0 t1 t2 : Z) (da db dc : fdesc) : gmap Z fdesc :=
  let m := <[t2 := Fdesc (ofd dc) false]> (<[t1 := Fdesc (ofd db) false]> (<[t0 := Fdesc (ofd da) false]> m)) in
  let m := delete t0 (<[0 := Fdesc (ofd da) false]> m) in
  let m := delete t1 (<[1 := Fdesc (ofd db) false]> m) in
  delete t2 (<[2 := Fdesc (ofd dc) false]> m).

Lemma posix_table_lookup m t0 t1 t2 da db dc fd :
  3 <= t0 -> 3 <= t1 -> 3 <= t2 -> m !! t0 = None -> m !! t1 = None -> m !! t2 = None ->
  posix_table m t0 t1 t2 da db dc !! fd =
  if decide (fd = 0) then Some (Fdesc (ofd da) false)
  else if decide (fd = 1) then Some (Fdesc (ofd db) false)
  else if decide (fd = 2) then Some (Fdesc (ofd dc) false)
  else m !! fd.
Proof.
  intros H0 H1 H2 N0 N1 N2. unfold posix_table.
  repeat first [rewrite lookup_delete | rewrite lookup_insert].
  repeat case_decide; subst; try lia; try done; congruence.
Qed.

Definition redirections (t0 t1 t2 : Z) : list action :=
  [ADup2 t0 0; AClose t0; ADup2 t1 1; AClose t1; ADup2 t2 2; AClose t2].

Lemma posix_child_ok info m t0 t1 t2 da db dc argv env k : k_faults k = [] ->
  3 <= t0 -> 3 <= t1 -> 3 <= t2 -> t1 <> t0 -> t2 <> t0 -> t2 <> t1 ->
  p_fds (k_proc k) = <[t2 := Fdesc (ofd dc) false]> (<[t1 := Fdesc (ofd db) false]>
                       (<[t0 := Fdesc (ofd da) false]> m)) ->
  read_strings (si_argv info) = Done argv -> read_strings (si_env info) = Done env ->
  wp (posix_child info (redirections t0 t1 t2)) (fun _ _ => False)
    (fun e k' => e = Exec (si_prog info) argv env /\
       k_proc k' = image (with_fds (fun _ => posix_table m t0 t1 t2 da db dc)
         (with_mask (child_sigmask info ∖ unblockable)
           (with_pgid (if set_pgid info then if pgid info =? 0 then p_pid (k_proc k) else pgid info
                       else p_pgid (k_proc k)) (k_proc k))))) k.
Proof.
  intros Hf T0 T1 T2 N1 N2 N3 Hm Ha He. unfold posix_child.
  set (g := if set_pgid info then if pgid info =? 0 then p_pid (k_proc k) else pgid info
            else p_pgid (k_proc k)).
  apply wp_bind. apply (wp_mono _ (fun _ k' => k' = upd (with_pgid g) k) _ never _).
  { unfold g. destruct (set_pgid info); [done|]. unfold wp, mret, PM_ret. destruct k as [p]. destruct p. done. }
  2: done.
  intros _ k1 ->. apply wp_bind. unfold modify at 1, wp at 1. set (k1 := upd _ (upd _ k)).
  assert (M1 : p_fds (k_proc k1) = p_fds (k_proc k)) by done. apply wp_bind. unfold redirections.
  apply (wp_redirection _ _ (Fdesc (ofd da) false)); [done| |lia|done|].
  { rewrite M1, Hm, !lookup_insert_ne by done. apply lookup_insert_eq. }
  intros k2 F2 S2. apply (wp_redirection _ _ (Fdesc (ofd db) false)); [done| |lia|done|].
  { rewrite (st_proc _ _ _ S2). cbn. rewrite Hm. rewrite lookup_delete_ne, !lookup_insert_ne by lia.
    apply lookup_insert_eq. }
  intros k3 F3 S3. apply (wp_redirection _ _ (Fdesc (ofd dc) false)); [done| |lia|done|].
  { rewrite (st_proc _ _ _ S3). cbn. rewrite (st_proc _ _ _ S2). cbn. rewrite Hm.
    rewrite lookup_delete_ne, lookup_insert_ne, lookup_delete_ne, lookup_insert_ne by lia.
    apply lookup_insert_eq. }
  intros k4 F4 S4. apply wp_ret. pose proof (steps_trans _ _ _ _ _ S2 (steps_trans _ _ _ _ _ S3 S4)) as S24.
  apply wp_bind, (wp_plift _ _ _ _ _ Ha). apply wp_bind, (wp_plift _ _ _ _ _ He).
  apply wp_bind. unfold modify, wp at 1. apply wp_stop. split; [done|]. cbn [upd k_proc].
  rewrite (st_proc _ _ _ S24). cbn [k1 upd k_proc]. unfold posix_table. rewrite <- Hm. done.
Qed.

Lemma posix_image_intro v info p0 cwd pid ppid a b c t0 t1 t2 da db dc g :
  std_fds info = [a; b; c] ->
  p_fds p0 !! a = Some da -> p_fds p0 !! b = Some db -> p_fds p0 !! c = Some dc ->
  3 <= t0 -> 3 <= t1 -> 3 <= t2 ->
  p_fds p0 !! t0 = None -> p_fds p0 !! t1 = None -> p_fds p0 !! t2 = None ->
  cwd = cwd_target info p0 ->
  g = (if set_pgid info then if pgid info =? 0 then pid else pgid info else p_pgid p0) ->
  posix_image v info p0
    (image (with_fds (fun _ => posix_table (p_fds p0) t0 t1 t2 da db dc)
      (with_mask (child_sigmask info ∖ unblockable)
        (Proc (p_fds p0) cwd pid ppid g (p_mask p0) ∅ (p_caught p0) (p_ignored p0) 0 (p_nnp p0) (p_domains p0))))).
Proof.
  intros Estd Ha Hb Hc T0 T1 T2 N0 N1 N2 Hcwd Hg. split; try done.
  - intros i fd Hi. rewrite Estd in Hi.
    destruct i as [|[|[|i]]]; [change (Some a = Some fd) in Hi|change (Some b = Some fd) in Hi|
      change (Some c = Some fd) in Hi|done]; injection Hi as <-; eexists; (split; [eassumption|]);
      rewrite image_lookup; cbn [with_fds p_fds]; rewrite posix_table_lookup by done; done.
  - intros fd Hfd. rewrite image_lookup. cbn [with_fds p_fds]. rewrite posix_table_lookup by done.
    do 3 (rewrite decide_False by lia). done.
Qed.

(** The state after the body on success. *)
Definition launched (c : fate) (v : spawn_args) (k0 : kst) (info : spawn_info) (l : locals) (k : kst) : Prop :=
  held k0 (l_tmp_fds l) k /\ l_info l = Some info /\ l_function l = None /\ l_pid l = c_pid c /\
  exists kc, l_child l = Some (Gone (Exec (c_string (v_prog v)) (argv_of v) (env_of v)) kc) /\
    posix_image v info (k_proc k0) (k_proc kc).

Lemma wp_launch c v pd info k0 l Q k : describes v pd info -> good_args v (p_fds (k_proc k0)) ->
  steady k0 info l k -> l_tmp_fds l = [] ->
  (forall l k, jumped v k0 info l k -> Q (inl l) k) ->
  (forall l k, launched c v k0 info l k -> Q (inr l) k) ->
  wp (launch c v info l) Q never k.
Proof.
  intros Hd Ha Hst Htmp Hj HQ. unfold launch. rewrite (d_std _ _ _ Hd). apply wp_bind.
  pose proof Hst as (Hh0 & _). rewrite Htmp in Hh0.
  assert (Heq : p_fds (k_proc k) = p_fds (k_proc k0)).
  { apply map_eq. intros fd. apply (h_out _ _ _ Hh0). left. apply not_elem_of_nil. }
  destruct Ha as [Ho Hcd _]. set (m := p_fds (k_proc k0)) in *.
  apply (wp_add_action v k0 info); [done|intros; apply wp_ret; auto|]. intros t0 da k1 Da T0 N0 St1 S1.
  apply (wp_add_action v k0 info); [done|intros; apply wp_ret; auto|]. intros t1 db k2 Db T1 N1 St2 S2.
  apply (wp_add_action v k0 info); [done|intros; apply wp_ret; auto|]. intros t2 dc k3 Dc T2 N2 St3 S3.
  cbn [add_actions app]. apply wp_ret. apply wp_get, wp_bind.
  rewrite Heq in Da, N0.
  assert (M1 : p_fds (k_proc k1) = <[t0 := Fdesc (ofd da) false]> m) by (rewrite (st_proc _ _ _ S1); cbn; congruence).
  assert (M2 : p_fds (k_proc k2) = <[t1 := Fdesc (ofd db) false]> (<[t0 := Fdesc (ofd da) false]> m))
    by (rewrite (st_proc _ _ _ S2); cbn; congruence).
  assert (M3 : p_fds (k_proc k3) = <[t2 := Fdesc (ofd dc) false]> (<[t1 := Fdesc (ofd db) false]>
    (<[t0 := Fdesc (ofd da) false]> m))) by (rewrite (st_proc _ _ _ S3); cbn; congruence).
  rewrite M1 in Db, N1. rewrite M2 in Dc, N2.
  apply lookup_insert_None in N1 as [N1 Hne1]. apply lookup_insert_None in N2 as [N2 Hne2].
  apply lookup_insert_None in N2 as [N2 Hne3].
  destruct (Ho (v_stdout v)) as [db' Eb]; [apply list_elem_of_In; simpl; auto|].
  destruct (Ho (v_stderr v)) as [dc' Ec]; [apply list_elem_of_In; simpl; auto|].
  rewrite lookup_insert_ne in Db by congruence. rewrite !lookup_insert_ne in Dc by congruence.
  destruct St3 as (H3 & I3 & C3 & F3). pose proof (h_proc _ _ _ H3) as P3.
  assert (Hcwd3 : cwd_target info (k_proc k3) = cwd_target info (k_proc k0)).
  { assert (Ec3 : p_cwd (k_proc k3) = p_cwd (k_proc k0)) by (rewrite P3; done). unfold cwd_target. rewrite Ec3.
    destruct (si_cwd info) as [|path id|fd] eqn:Ecw; try done.
    assert (Hfd : v_cwd v = Fd fd) by (apply (cwd_fd_of _ _ _ _ Hd); unfold cwd_fd; rewrite Ecw; done).
    destruct (Hcd fd Hfd) as [[d Hdd] _]. rewrite M3, !lookup_insert_ne by congruence. done. }
  apply (wp_enter_dir k0 info); [done| |intros; apply wp_ret; auto|].
  { intros path id Hpath. pose proof (d_cwd _ _ _ Hd) as Hc. rewrite Hpath in Hc.
    destruct (v_cwd v); [done|eauto|done]. }
  intros k4 cwd Hcwd S4. rewrite Hcwd3 in Hcwd. apply wp_bind. unfold posix_spawn.
  apply wp_bind, wp_posix_call. intros e k5 Q5 L5. pose proof (steps_trans _ _ _ _ _ S4 Q5) as S5.
  set (l3 := with_tmp (with_tmp (with_tmp l t0) t1) t2) in *.
  assert (Hreset : forall k6 (f : PM (locals + locals)), k_proc k6 = k_proc k5 -> frame k5 k6 ->
    (forall k7, held k0 (l_tmp_fds l3) k7 -> k_errs k7 = k_errs k6 -> wp f Q never k7) ->
    wp (_ ← match si_cwd info with INHERIT => mret tt | _ => pthread_reset_dir (p_cwd (k_proc k3)) end; f)
      Q never k6).
  { intros k6 f P6 F6 Hf. rewrite (st_proc _ _ _ S5) in P6.
    assert (Hk : forall k7, k_proc k7 = k_proc k3 -> frame k6 k7 -> k_errs k7 = k_errs k6 -> wp f Q never k7).
    { intros k7 P7 F7 L7. apply Hf; [|done]. destruct H3 as [A1 A2 A3 A5 A6 A4]. split; rewrite ?P7; try done.
      pose proof (frame_trans _ _ _ (steps_frame _ _ _ S5) (frame_trans _ _ _ F6 F7)) as F37.
      exact (frame_trans _ _ _ A4 F37). }
    apply wp_bind. destruct (si_cwd info) eqn:Ecw.
    - apply wp_ret, Hk; [|done|done]. rewrite P6, Hcwd. rewrite <- Hcwd3. unfold cwd_target. rewrite Ecw.
      destruct (k_proc k3). done.
    - unfold pthread_reset_dir, modify, wp at 1. apply Hk; [|done|done]. cbn. rewrite P6. destruct (k_proc k3). done.
    - unfold pthread_reset_dir, modify, wp at 1. apply Hk; [|done|done]. cbn. rewrite P6. destruct (k_proc k3). done. }
  destruct (e =? 0) eqn:Ee; cbn [negb].
  2: { apply wp_ret, Hreset; [done|done|]. intros k7 H7 L7. rewrite Ee. apply Z.eqb_neq in Ee.
       apply wp_ret, Hj, steady_failed; [done|by apply no_argument|]. rewrite L7. auto. }
  unfold wp at 1. apply Hreset; [done|done|]. intros k7 H7 _. apply wp_ret, HQ.
  change [ADup2 t0 0; AClose t0; ADup2 t1 (0 + 1); AClose t1; ADup2 t2 (0 + 1 + 1); AClose t2]
    with (redirections t0 t1 t2).
  match goal with |- context [posix_child info _ ?kk] => set (kc0 := kk) end.
  destruct (wp_gone _ _ _ (posix_child_ok info m t0 t1 t2 da db dc (argv_of v) (env_of v) kc0 eq_refl T0 T1 T2
    ltac:(congruence) ltac:(congruence) ltac:(congruence)
    ltac:(cbn; rewrite (st_proc _ _ _ S5); exact M3) (d_argv _ _ _ Hd) (d_env _ _ _ Hd))) as (en & kc & -> & -> & Hkc).
  split; [done|]. split; [done|]. split; [done|]. split; [done|].
  exists kc. rewrite (d_prog _ _ _ Hd). split; [done|]. rewrite Hkc. cbn [kc0 k_proc forked].
  rewrite (st_proc _ _ _ S5), P3.
  apply (posix_image_intro v info (k_proc k0) cwd (c_pid c) (c_ppid c) (v_stdin v) (v_stdout v) (v_stderr v));
    try done. apply (d_std _ _ _ Hd).
Qed.

Lemma wp_set_attributes v k0 info l Q k : steady k0 info l k ->
  (forall l' k', jumped v k0 info l' k' -> Q (inl l') k') ->
  (forall k', steady k0 info l k' -> Q (inr l) k') -> wp (set_attributes info l) Q never k.
Proof.
  intros Hst Hj HQ. unfold set_attributes. apply (wp_check v k0 info); [done|done|done|]. intros k1 _ H1.
  apply (wp_check v k0 info); [done|done|done|]. intros k2 _ H2.
  destruct (set_pgid info); [|apply wp_ret; auto]. apply (wp_check v k0 info); [done|done|done|].
  intros k3 _ H3. apply wp_ret. auto.
Qed.

(** ** The label [cleanup] *)

Lemma wp_cleanup info k00 k0 l Q k : owns (ids info) k00 k0 -> held k0 (l_tmp_fds l) k ->
  l_info l = Some info ->
  (forall k', k_proc k' = k_proc k0 -> k_live k' = k_live k00 ->
     match l_function l with
     | Some f => forall e, l_error l = Some e -> k_errs k' = k_errs k -> Q (Raise (Unix_error e f (l_arg l)), l_child l) k'
     | None => Q (Value (l_pid l), l_child l) k'
     end) ->
  (is_Some (l_function l) -> is_Some (l_error l)) ->
  wp (cleanup l) Q never k.
Proof.
  intros [On Of Oa] Hh Hi HQ He. unfold cleanup. apply wp_bind, (held_close k0); [done|].
  intros k1 [P1 [F1 F2 F3 F4]] L1. apply wp_bind. unfold uninitialised at 1, wp at 1. rewrite Hi.
  apply wp_bind. unfold wp at 1. rewrite free_spawn_info_all.
  apply (wp_free_all _ _ _ _ (k_live k00)); [done|rewrite F2; apply Oa|done|].
  intros k2 [A1 A2 A3 A4 A5 A6] L2. specialize (HQ k2 ltac:(congruence) A4).
  destruct (l_function l) as [f|]; [|apply wp_ret; done]. destruct He as [e He]; [eauto|].
  apply wp_bind. unfold uninitialised, wp at 1. rewrite He. apply wp_ret, HQ; [done|congruence].
Qed.

Lemma posix_call_ok name k rest : k_faults k = rest -> Forall (eq None) (take 1 rest) ->
  exists k', posix_call name k = Go 0 k' /\ quiet k k' /\ k_faults k' = drop 1 rest.
Proof.
  intros Hf Hn. unfold posix_call. rewrite Hf. destruct rest as [|x rest]; [exists k; done|].
  apply Forall_cons in Hn as [<- _]. eexists. split; [done|]. split; [split; cbn; congruence|done].
Qed.

Lemma quiet_owns l k k1 k2 : quiet k k1 -> owns l k1 k2 -> owns l k k2.
Proof.
  intros [A1 A2 A3 A4 A5 A6] [H1 H2 [B1 B2 B3 B4 B5 B6]]. rewrite A4 in *.
  split; [done|done|]. split; try congruence. auto.
Qed.

(** What the stub returns, and in what state. *)
Definition posix_spec (c : fate) (v : spawn_args) (k0 : kst) (res : caml Z * option child_run) (k : kst) : Prop :=
  k_proc k = k_proc k0 /\
  ((exists x, res = (Raise x, None) /\ init_fails v k0 x /\ init_leaks v x k0 k) \/
   (k_live k = k_live k0 /\
    match res.1 with
    | Raise x => res.2 = None /\ exists e f, x = Unix_error e f (posix_argument v f) /\ last (k_errs k) = Some (f, e)
    | Value pid => pid = c_pid c /\ exists info kc, describes v (k_proc k0) info /\
        res.2 = Some (Gone (Exec (c_string (v_prog v)) (argv_of v) (env_of v)) kc) /\
        posix_image v info (k_proc k0) (k_proc kc)
    end)).

Lemma wp_posix c v k0 : good_args v (p_fds (k_proc k0)) -> fits_memory v ->
  Forall (eq None) (take 2 (k_faults k0)) ->
  wp (dune_spawn_unix_posix c v) (posix_spec c v k0) never k0.
Proof.
  intros Ha Hfit Hlucky. unfold dune_spawn_unix_posix.
  destruct (posix_call_ok "posix_spawn_file_actions_init" k0 _ eq_refl) as (k1 & E1 & Q1 & F1).
  { destruct (k_faults k0) as [|x l]; [done|]. apply Forall_cons in Hlucky as [Hx _]. constructor; done. }
  destruct (posix_call_ok "posix_spawnattr_init" k1 _ F1) as (k2 & E2 & Q2 & F2).
  { destruct (k_faults k0) as [|x [|y l]]; try done. apply Forall_cons in Hlucky as [_ Hy].
    apply Forall_cons in Hy as [Hy _]. constructor; done. }
  apply wp_bind. unfold wp at 1. rewrite E1. apply wp_bind. unfold wp at 1. rewrite E2. cbn [Z.eqb negb].
  pose proof (steps_trans _ _ _ _ _ Q1 Q2) as Q12. pose proof (st_proc _ _ _ Q12) as P2.
  apply wp_bind, wp_init_spawn_info; [done| |].
  { intros x k3 Hx (blocks & Ho & Hlen). apply wp_ret. pose proof (quiet_owns _ _ _ _ Q12 Ho) as Ho0.
    split; [apply (o_allocs _ _ _ Ho0)|]. left. exists x. split; [done|]. split; [|exists blocks; done].
    destruct Hx as [[-> Hx]|Hx]; [left|right; congruence]. split; [done|exact (st_faults _ _ _ Q12 Hx)]. }
  intros info k3 Hd Ho. rewrite P2 in Hd. assert (P3 : k_proc k3 = k_proc k0) by (rewrite (al_proc _ _ _ (o_allocs _ _ _ Ho)); done).
  assert (Hs0 : steady k3 info (Locals [] (Some info) None None [] 0 None) k3).
  { split; [|done]. apply held_nil. }
  assert (Hjump : forall l k, jumped v k3 info l k -> wp (cleanup l) (posix_spec c v k0) never k).
  { intros l k (Hh & Hi & Hc & f & e & Hf & He & Harg & Hlast). apply (wp_cleanup info k2 k3); [done..| |by rewrite He].
    intros k' Pk Lk. rewrite Hf. intros e' [= <-]%(eq_trans (eq_sym He)) Hk'. split; [congruence|]. right.
    split; [rewrite Lk; apply (st_live _ _ _ Q12)|]. split; [done|]. exists e, f. rewrite Harg, Hk'. done. }
  apply wp_bind. unfold posix_body. apply wp_bind, (wp_set_attributes v k3 info); [done| |].
  { intros l k Hj. apply wp_ret. auto. }
  intros k4 H4. apply (wp_launch c v (k_proc k0) info k3); [done|rewrite P3; done|done|done|auto|].
  intros l k (Hh & Hi & Hf & Hpid & kc & Hc & Him). apply (wp_cleanup info k2 k3); try done.
  - intros k' Pk Lk. rewrite Hf. split; [congruence|]. right. split; [rewrite Lk; apply (st_live _ _ _ Q12)|].
    split; [done|]. exists info, kc. rewrite <- P3. rewrite P3 at 1. done.
  - rewrite Hf. intros [? ?]. done.
Qed.

(** C4.  On macOS, once the two initialisations have succeeded, spawning comes back whatever
    else fails.  It raises exactly when there is no child, with the name and the error number
    of the call that failed, or with the exception of converting the arguments; otherwise
    the child runs the program with its arguments, environment, group and signal mask, the
    three files as its standard descriptors and its directory, and inherits nothing that
    closes on [execve].  The Landlock ruleset and the parent-death signal are not applied,
    also when they were asked for: the child is restricted as its parent is and gets no such
    signal.  The parent's descriptors and directory are what they were in every case; the
    memory of the converted arguments is freed, except when converting them failed, which
    leaves exactly the blocks that were allocated before. *)
Theorem posix_spawn_correct (c : fate) (v : spawn_args) (k0 : kst) :
  good_args v (p_fds (k_proc k0)) -> fits_memory v -> Forall (eq None) (take 2 (k_faults k0)) ->
  exists res k, dune_spawn_unix_posix c v k0 = Go res k /\ posix_spec c v k0 res k.
Proof.
  intros Ha Hf Hl. pose proof (wp_posix c v k0 Ha Hf Hl) as Hw. unfold wp in Hw.
  destruct (dune_spawn_unix_posix c v k0); try done. eauto.
Qed.

(** C26.  When one of the two initialisations fails, the code jumps to a label that frees
    [info] and raises [e_error] before either variable has been given a value. *)
Theorem posix_spawn_init_uninitialised (c : fate) (v : spawn_args) (k0 : kst) (e : Z)
  (rest : list (option Z)) : e <> 0 ->
  k_faults k0 = Some e :: rest \/ k_faults k0 = None :: Some e :: rest ->
  dune_spawn_unix_posix c v k0 = Broken.
Proof.
  intros He%Z.eqb_neq [Hf|Hf]; unfold dune_spawn_unix_posix, posix_call, mbind, PM_bind, mret, PM_ret;
    rewrite Hf; cbn [Z.eqb negb k_faults]; rewrite He; done.
Qed.
End Posix.

Lemma posix_spawn_correct_witness :
  let k0 := K sample_process [None; None; None; Some 12] 0 [] [] 10 ∅ [] in
  exists res k, dune_spawn_unix_posix (PF := sample_platform) sample_fate sample_args k0 = Go res k /\
    posix_spec (PF := sample_platform) sample_fate sample_args k0 res k.
Proof.
  apply (posix_spawn_correct (PF := sample_platform) (PL := sample_laws)).
  - exact sample_good_args.
  - exact sample_fits.
  - repeat constructor.
Defined.

Lemma posix_spawn_init_uninitialised_witness :
  dune_spawn_unix_posix (PF := sample_platform) sample_fate sample_args
    (K sample_process [Some 12] 0 [] [] 10 ∅ []) = Broken.
Proof.
  apply (posix_spawn_init_uninitialised (PF := sample_platform) sample_fate sample_args
    (K sample_process [Some 12] 0 [] [] 10 ∅ []) 12 []); [discriminate|left; reflexivity].
Defined.
