(* ===== verification/SpawnPipe.v ===== *)
(** * Making pipes while other threads spawn

    Without [pipe2] a pipe is made in three steps, and until the last one its descriptors
    are inherited by any program that another thread starts.  [spawn_stubs.c] therefore
    makes pipes, and forks, inside a section protected by a mutex.  Threads interleave here
    at every system call; a started program inherits the descriptors whose flag
    [FD_CLOEXEC] is not set.  What the calls of one thread do is the subject of [Spawn]. *)

From Stdlib Require Import ZArith Lia.
From stdpp Require Import base numbers list strings sets gmap.
From S2P Require Import Prelude.
Local Open Scope Z_scope.

(** [dune_spawn_pipe], or [dune_spawn_unix] with its pipe for errors. *)
Inductive caller := For_pipe | For_spawn.

(** Where a thread is: outside, waiting for the mutex, in [safe_pipe] with the descriptors
    that have no flag yet or are still to be closed, before the fork, before it leaves the
    section; or in the variant of [dune_spawn_unix] that calls [posix_spawn]. *)
Inductive point :=
| Outside
| Entering (c : caller)
| Piping (c : caller)
| Flagging (c : caller) (fd : Z * Z) (rest : list Z)
| Closing (rest : list Z)
| Forking
| Leaving
| Posix_spawning.

(** [fds]: the open ends of pipes, with their flag; [leaked]: those that a program that was
    started has inherited. *)
Record world := World {
  safe_pipe_mutex : option Z;
  threads : gmap Z point;
  fds : gmap Z bool;
  leaked : gset Z }.

Definition at_point (t : Z) (w : world) : point := default Outside (threads w !! t).
Definition go (t : Z) (p : point) (w : world) : world :=
  World (safe_pipe_mutex w) (<[t := p]> (threads w)) (fds w) (leaked w).
Definition set_fds (m : gmap Z bool) (w : world) : world :=
  World (safe_pipe_mutex w) (threads w) m (leaked w).

(** [None] while another thread is in the section. *)
Definition enter_safe_pipe_section (t : Z) (w : world) : option world :=
  match safe_pipe_mutex w with
  | None => Some (World (Some t) (threads w) (fds w) (leaked w))
  | Some _ => None
  end.
Definition leave_safe_pipe_section (w : world) : world := World None (threads w) (fds w) (leaked w).

(** The descriptors without the flag. *)
Definition inheritable (w : world) : gset Z := dom (filter (fun p => p.2 = false) (fds w)).
Definition start_program (w : world) : world :=
  World (safe_pipe_mutex w) (threads w) (fds w) (leaked w ∪ inheritable w).

(** One system call of thread [t]: [a] and [b] are the descriptors of a new pipe, [ok]
    whether the call succeeds. *)
Definition pipe_step (t a b : Z) (ok : bool) (w : world) : option world :=
  match at_point t w with
  | Outside => None
  | Entering c => go t (Piping c) <$> enter_safe_pipe_section t w
  | Piping c =>
      Some (if ok then go t (Flagging c (a, b) [a; b]) (set_fds (<[a := false]> (<[b := false]> (fds w))) w)
            else go t Leaving w)
  | Flagging c fd (f :: rest) =>
      Some (if ok then go t (Flagging c fd rest) (set_fds (<[f := true]> (fds w)) w)
            else go t (Closing [fd.1; fd.2]) w)
  | Flagging c fd [] => Some (go t match c with For_pipe => Leaving | For_spawn => Forking end w)
  | Closing (f :: rest) => Some (go t (Closing rest) (set_fds (delete f (fds w)) w))
  | Closing [] => Some (go t Leaving w)
  | Forking => Some (go t Leaving (if ok then start_program w else w))
  | Leaving => Some (go t Outside (leave_safe_pipe_section w))
  | Posix_spawning => Some (go t Outside (if ok then start_program w else w))
  end.

(** Which variant of [dune_spawn_unix] is compiled. *)
Inductive variant := Fork | Posix.
Definition calls (v : variant) : list point :=
  Entering For_pipe :: match v with Fork => [Entering For_spawn] | Posix => [Posix_spawning] end.

(** Threads call the two functions and run; the ends of finished pipes are closed. *)
Inductive pipe_reach (v : variant) : world -> Prop :=
| pipe_initial : pipe_reach v (World None ∅ ∅ ∅)
| pipe_call t p w : pipe_reach v w -> at_point t w = Outside -> p ∈ calls v -> pipe_reach v (go t p w)
| pipe_run t a b ok w w' : pipe_reach v w -> a <> b -> fds w !! a = None -> fds w !! b = None ->
    pipe_step t a b ok w = Some w' -> pipe_reach v w'
| pipe_close f w : pipe_reach v w -> fds w !! f = Some true -> pipe_reach v (set_fds (delete f (fds w)) w).

(** ** The invariant *)

Definition inside (p : point) : bool :=
  match p with Outside | Entering _ | Posix_spawning => false | _ => true end.

(** The descriptors of a thread that may have no flag. *)
Definition exposed (p : point) : list Z :=
  match p with Flagging _ _ rest => rest | Closing rest => rest | _ => [] end.
Definition point_ok (p : point) : Prop :=
  match p with
  | Flagging _ fd rest => rest ⊆ [fd.1; fd.2]
  | Posix_spawning => False
  | _ => True
  end.

Record world_ok (w : world) : Prop := {
  ok_mutex : forall t, inside (at_point t w) = true <-> safe_pipe_mutex w = Some t;
  ok_points : forall t, point_ok (at_point t w);
  ok_exposed : forall f, fds w !! f = Some false -> exists t, f ∈ exposed (at_point t w);
  ok_leaked : leaked w = ∅ }.

Lemma at_go t t' p w : at_point t' (go t p w) = if decide (t' = t) then p else at_point t' w.
Proof.
  unfold at_point, go. cbn. destruct (decide (t' = t)) as [->|Hne];
    [rewrite lookup_insert_eq|rewrite lookup_insert_ne]; done.
Qed.

Lemma exposed_inside p f : f ∈ exposed p -> inside p = true.
Proof. destruct p; cbn; try done; intros []%elem_of_nil. Qed.

(** Only the thread in the section has descriptors without a flag. *)
Lemma exposed_owner w t f : world_ok w -> inside (at_point t w) = true -> fds w !! f = Some false ->
  f ∈ exposed (at_point t w).
Proof.
  intros Hw Ht Hf. destruct (ok_exposed w Hw f Hf) as [t' Hf']. apply (ok_mutex w Hw) in Ht.
  pose proof (proj1 (ok_mutex w Hw t') (exposed_inside _ _ Hf')). congruence.
Qed.

(** A thread inside goes on inside, after changing the descriptors. *)
Lemma go_inside t p m w : world_ok w -> inside (at_point t w) = true -> inside p = true -> point_ok p ->
  (forall f, m !! f = Some false -> f ∈ exposed p) -> world_ok (go t p (set_fds m w)).
Proof.
  intros Hw Ht Hp Hok Hf. pose proof Hw as [W1 W2 W3 W4]. split.
  - intros t'. rewrite at_go. destruct (decide (t' = t)) as [->|Hne]; [|apply W1].
    rewrite Hp. split; [|done]. intros _. by apply W1.
  - intros t'. rewrite at_go. destruct (decide (t' = t)); [done|apply W2].
  - intros f Hfd. exists t. rewrite at_go, decide_True by done. auto.
  - done.
Qed.

(** A thread outside goes on outside. *)
Lemma go_outside t p w : world_ok w -> inside (at_point t w) = false -> inside p = false -> point_ok p ->
  world_ok (go t p w).
Proof.
  intros [W1 W2 W3 W4] Ht Hp Hok. split; [| | |done].
  - intros t'. rewrite at_go. destruct (decide (t' = t)) as [->|Hne]; [|apply W1].
    rewrite Hp. rewrite <- (W1 t), Ht. done.
  - intros t'. rewrite at_go. destruct (decide (t' = t)); [done|apply W2].
  - intros f (t' & Hf')%W3. exists t'. rewrite at_go. destruct (decide (t' = t)) as [->|]; [|done].
    apply exposed_inside in Hf'. congruence.
Qed.

Lemma set_same w : set_fds (fds w) w = w.
Proof. by destruct w. Qed.

Lemma enter_ok t p w w' : world_ok w -> inside (at_point t w) = false -> inside p = true -> exposed p = [] ->
  point_ok p -> enter_safe_pipe_section t w = Some w' -> world_ok (go t p w').
Proof.
  intros [W1 W2 W3 W4] Ht Hp He Hok E. unfold enter_safe_pipe_section in E.
  destruct (safe_pipe_mutex w) eqn:Em; [done|]. injection E as <-. split; [| | |done].
  - intros t'. rewrite at_go. cbn. destruct (decide (t' = t)) as [->|Hne]; [done|].
    change (inside (at_point t' w) = true <-> Some t = Some t'). rewrite W1, ?Em. split; congruence.
  - intros t'. rewrite at_go. destruct (decide (t' = t)); [done|apply W2].
  - intros f (t' & Hf')%W3. exists t'. rewrite at_go. destruct (decide (t' = t)) as [->|]; [|done].
    apply exposed_inside in Hf'. congruence.
Qed.

Lemma leave_ok t w : world_ok w -> at_point t w = Leaving -> world_ok (go t Outside (leave_safe_pipe_section w)).
Proof.
  intros Hw Ht. pose proof Hw as [W1 W2 W3 W4].
  assert (Hm : safe_pipe_mutex w = Some t) by (apply W1; by rewrite Ht).
  split; [| | |done].
  - intros t'. rewrite at_go. cbn. destruct (decide (t' = t)) as [->|Hne]; [done|].
    change (inside (at_point t' w) = true <-> None = Some t'). rewrite W1, Hm. split; congruence.
  - intros t'. rewrite at_go. destruct (decide (t' = t)); [done|apply W2].
  - cbn. intros f Hf. pose proof (exposed_owner w t f Hw) as H. rewrite Ht in H.
    destruct (not_elem_of_nil f); auto.
Qed.

(** A thread in the section whose descriptors all have the flag may start a program. *)
Lemma nothing_inheritable t w : world_ok w -> inside (at_point t w) = true -> exposed (at_point t w) = [] ->
  start_program w = w.
Proof.
  intros Hw Ht He. unfold start_program, inheritable.
  assert (E : filter (fun p : Z * bool => p.2 = false) (fds w) = ∅).
  { apply map_empty. intros f. apply map_lookup_filter_None. right. intros x Hx Hf. cbn in Hf. subst x.
    pose proof (exposed_owner w t f Hw Ht Hx) as H. rewrite He in H. by apply elem_of_nil in H. }
  rewrite E, dom_empty_L, union_empty_r_L. by destruct w.
Qed.

Lemma flag_insert (m : gmap Z bool) f x (l : list Z) :
  (forall y, m !! y = Some false -> y ∈ f :: l) -> <[f := true]> m !! x = Some false -> x ∈ l.
Proof.
  intros H Hx. destruct (decide (x = f)) as [->|Hne]; [by rewrite lookup_insert_eq in Hx|].
  rewrite lookup_insert_ne in Hx by done. apply H in Hx. apply elem_of_cons in Hx as [->|]; done.
Qed.

Lemma flag_delete (m : gmap Z bool) f x (l : list Z) :
  (forall y, m !! y = Some false -> y ∈ f :: l) -> delete f m !! x = Some false -> x ∈ l.
Proof.
  intros H Hx. destruct (decide (x = f)) as [->|Hne]; [by rewrite lookup_delete_eq in Hx|].
  rewrite lookup_delete_ne in Hx by done. apply H in Hx. apply elem_of_cons in Hx as [->|]; done.
Qed.

(** A thread in the section that changes no descriptor. *)
Lemma go_on t p w : world_ok w -> inside (at_point t w) = true -> inside p = true -> point_ok p ->
  (forall f, f ∈ exposed (at_point t w) -> f ∈ exposed p) -> world_ok (go t p w).
Proof.
  intros Hw Ht Hp Hok He. rewrite <- (set_same w). apply go_inside; try done.
  intros f Hf. apply He. by apply exposed_owner.
Qed.

Lemma new_pipe_ok t c a b w : world_ok w -> at_point t w = Piping c ->
  world_ok (go t (Flagging c (a, b) [a; b]) (set_fds (<[a := false]> (<[b := false]> (fds w))) w)).
Proof.
  intros Hw Ep. apply go_inside; [done|by rewrite Ep|done|cbn; set_solver|]. intros f Hf. cbn [exposed].
  destruct (decide (f = a)) as [->|Ha]; [apply list_elem_of_here|]. rewrite lookup_insert_ne in Hf by done.
  apply list_elem_of_further, list_elem_of_singleton. destruct (decide (f = b)) as [->|Hb]; [done|].
  rewrite lookup_insert_ne in Hf by done. pose proof (exposed_owner w t f Hw) as H. rewrite Ep in H.
  destruct (not_elem_of_nil f); auto.
Qed.

Lemma pipe_step_ok t a b ok w w' : world_ok w -> pipe_step t a b ok w = Some w' -> world_ok w'.
Proof.
  intros Hw E. pose proof (ok_points w Hw t) as Hok. pose proof (exposed_owner w t) as Hex.
  unfold pipe_step in E.
  destruct (at_point t w) as [|c|c|c fd [|f rest]|[|f rest]| | |] eqn:Ep; try done; cbn [exposed] in Hex.
  - destruct (enter_safe_pipe_section t w) as [w1|] eqn:E1; [|done]. injection E as <-.
    eapply enter_ok; [done|by rewrite Ep|done|done|done|done].
  - injection E as <-. destruct ok; [by apply new_pipe_ok|apply go_on; rewrite ?Ep; done].
  - destruct c; injection E as <-; apply go_on; rewrite ?Ep; done.
  - injection E as <-. destruct ok.
    + apply go_inside; [done|by rewrite Ep|done|intros g Hg; apply Hok; by apply list_elem_of_further|].
      intros g. apply flag_insert. auto.
    + apply go_on; rewrite ?Ep; done.
  - injection E as <-. apply go_on; rewrite ?Ep; done.
  - injection E as <-. apply go_inside; [done|by rewrite Ep|done|done|]. intros g. apply flag_delete. auto.
  - injection E as <-. assert (H : (if ok then start_program w else w) = w).
    { destruct ok; [|done]. apply (nothing_inheritable t); rewrite ?Ep; done. }
    rewrite H. apply go_on; rewrite ?Ep; done.
  - injection E as <-. by apply leave_ok.
Qed.

Lemma pipe_reach_ok w : pipe_reach Fork w -> world_ok w.
Proof.
  induction 1 as [|t p w _ IH Ht Hp|t a b ok w w' _ IH _ _ _ E|f w _ IH Hf].
  - assert (Ho : forall t, at_point t (World None ∅ ∅ ∅) = Outside).
    { intros t. unfold at_point. cbn. by rewrite lookup_empty. }
    split; [intros t|intros t|intros f Hf|done]; rewrite ?Ho; done.
  - apply go_outside; [done|by rewrite Ht| |]; cbn in Hp; repeat (apply elem_of_cons in Hp as [->|Hp]; [done|]);
      by apply elem_of_nil in Hp.
  - by eapply pipe_step_ok.
  - destruct IH as [W1 W2 W3 W4]. split; try done. cbn. intros g Hg. apply W3.
    destruct (decide (g = f)) as [->|Hne]; [by rewrite lookup_delete_eq in Hg|].
    by rewrite lookup_delete_ne in Hg.
Qed.

(** ** Theorems *)

(** C8.  However threads that make pipes and threads that fork interleave, and whichever
    calls fail: no program that is started inherits an end of a pipe, at most one thread is
    in the protected section, and when none is every open end has the flag [FD_CLOEXEC]. *)
Theorem pipes_not_inherited (w : world) :
  pipe_reach Fork w ->
  leaked w = ∅ /\
  (forall t t', inside (at_point t w) = true -> inside (at_point t' w) = true -> t = t') /\
  (safe_pipe_mutex w = None -> forall f x, fds w !! f = Some x -> x = true).
Proof.
  intros Hw%pipe_reach_ok. split; [apply Hw|]. split.
  - intros t t' H1%(ok_mutex w Hw) H2%(ok_mutex w Hw). congruence.
  - intros Hm f [|] Hf; [done|]. destruct (ok_exposed w Hw f Hf) as [t Ht%exposed_inside].
    apply (ok_mutex w Hw) in Ht. congruence.
Qed.

(** A schedule, with the descriptors given to a new pipe and the results of the calls. *)
Inductive turn := Call (t : Z) (p : point) | Run (t a b : Z) (ok : bool).
Fixpoint pipe_schedule (v : variant) (l : list turn) (w : world) : option world :=
  match l with
  | [] => Some w
  | Call t p :: l =>
      match at_point t w with
      | Outside => if existsb (fun q => match p, q with
                                        | Entering For_pipe, Entering For_pipe | Entering For_spawn, Entering For_spawn
                                        | Posix_spawning, Posix_spawning => true
                                        | _, _ => false end) (calls v)
                   then pipe_schedule v l (go t p w) else None
      | _ => None
      end
  | Run t a b ok :: l =>
      if negb (a =? b) && bool_decide (fds w !! a = None) && bool_decide (fds w !! b = None) then
        match pipe_step t a b ok w with Some w' => pipe_schedule v l w' | None => None end
      else None
  end.

Lemma schedule_reach v l w w' : pipe_reach v w -> pipe_schedule v l w = Some w' -> pipe_reach v w'.
Proof.
  revert w. induction l as [|[t p|t a b ok] l IH]; intros w Hr H; cbn [pipe_schedule] in H.
  - congruence.
  - destruct (at_point t w) eqn:Ht; try done. destruct (existsb _ _) eqn:Ee; [|done].
    apply (IH (go t p w)); [|done]. apply pipe_call; [done|done|]. apply existsb_exists in Ee as (q & Hq & Eq).
    apply list_elem_of_In in Hq. destruct p as [|[]| | | | | |], q as [|[]| | | | | |]; done.
  - destruct (negb (a =? b)) eqn:Hab; [|done]. do 2 (case_bool_decide; [|done]). cbn in H.
    destruct (pipe_step t a b ok w) as [w1|] eqn:E; [|done]. apply (IH w1); [|done].
    eapply (pipe_run v t a b ok w); try done. apply negb_true_iff, Z.eqb_neq in Hab. done.
Qed.

(** Two threads: the second waits for the mutex while the first makes its pipe. *)
Definition two_threads : world :=
  World (Some 1) {[1 := Flagging For_pipe (5, 6) [6]; 2 := Entering For_spawn]} {[5 := true; 6 := false]} ∅.

Lemma pipes_not_inherited_witness :
  @empty (gset Z) _ = ∅ /\
  (forall t t', inside (at_point t two_threads) = true -> inside (at_point t' two_threads) = true -> t = t') /\
  (Some 1 = None -> forall f x, fds two_threads !! f = Some x -> x = true).
Proof.
  apply (pipes_not_inherited two_threads).
  apply (schedule_reach Fork [Call 1 (Entering For_pipe); Run 1 8 9 true; Call 2 (Entering For_spawn);
    Run 1 5 6 true; Run 1 8 9 true] (World None ∅ ∅ ∅)); [constructor|]. vm_compute. reflexivity.
Defined.

(** The variant that calls [posix_spawn] does not enter the section: a program that it
    starts while another thread makes a pipe inherits both ends. *)
Theorem posix_spawn_inherits_pipe : exists w, pipe_reach Posix w /\ leaked w = {[5; 6]}.
Proof.
  eexists. split.
  - apply (schedule_reach Posix [Call 1 (Entering For_pipe); Run 1 8 9 true; Run 1 5 6 true;
      Call 2 Posix_spawning; Run 2 8 9 true] (World None ∅ ∅ ∅)); [constructor|]. vm_compute. reflexivity.
  - vm_compute. reflexivity.
Qed.
