(* ===== verification/Copyfile.v ===== *)
(** * Copying files

    [copyfile_stubs.c].  On Linux [stdune_sendfile] moves bytes from one descriptor to
    another inside the kernel, with [copy_file_range] when the kernel has a good one and
    with [sendfile] otherwise; the choice is made once.  On macOS [stdune_copyfile] clones
    a file. *)

From Stdlib Require Import ZArith Lia.
From stdpp Require Import base numbers list strings.
From S2P Require Import Prelude Posix.
Local Open Scope Z_scope.

Definition ENAMETOOLONG : Z := 63.

(** ** Linux *)

(** One call moves some of the bytes, at least one unless the input is at its end or
    nothing is asked for, or fails.  A script that has run out moves all it can; no call
    moves more than [MAX_RW_COUNT]. *)
Inductive transfer := Moves (n : Z) | Fails (e : Z).
Record files := Files {
  f_in : list Z;
  f_out : list Z;
  f_script : list transfer;
  f_errno : Z }.

Definition MAX_RW_COUNT : Z := 0x7ffff000.

Definition move (n : Z) (script : list transfer) (w : files) : Z * files :=
  (n, Files (zdrop n (f_in w)) (f_out w ++ ztake n (f_in w)) script (f_errno w)).

(** [sendfile(out, in, NULL, length)] and [copy_file_range(in, NULL, out, NULL, length, 0)]. *)
Definition kernel_copy (length : Z) (w : files) : Z * files :=
  let most := Z.min (Z.min length MAX_RW_COUNT) (zlen (f_in w)) in
  match f_script w with
  | Fails e :: script => (-1, Files (f_in w) (f_out w) script e)
  | Moves n :: script => move (Z.min (Z.max 1 n) most) script w
  | [] => move most [] w
  end.

Definition set_EIO (w : files) : files := Files (f_in w) (f_out w) (f_script w) EIO.

Fixpoint sendfile_loop (fuel : nat) (length : Z) (w : files) : exec (Z * files) :=
  match fuel with
  | O => Spin
  | S fuel =>
      if 0 <? length then
        let '(ret, w) := kernel_copy length w in
        if ret <? 0 then Done (ret, w)
        else if ret =? 0 then Done (-1, set_EIO w)
        else sendfile_loop fuel (u64 (length - ret)) w
      else Done (length, w)
  end.

(** Every pass that goes on takes a byte of the input. *)
Definition loop_fuel (w : files) : nat := S (List.length (f_in w)).
Definition dune_sendfile (length : Z) (w : files) : exec (Z * files) :=
  sendfile_loop (loop_fuel w) length w.

Fixpoint copy_file_range_loop (fuel : nat) (length : Z) (w : files) : exec (Z * files) :=
  match fuel with
  | O => Spin
  | S fuel =>
      if 0 <? length then
        let '(ret, w) := kernel_copy length w in
        if ret <? 0 then dune_sendfile length w
        else if ret =? 0 then Done (-1, set_EIO w)
        else copy_file_range_loop fuel (u64 (length - ret)) w
      else Done (length, w)
  end.
Definition dune_copy_file_range (length : Z) (w : files) : exec (Z * files) :=
  copy_file_range_loop (loop_fuel w) length w.

(** [sscanf(release, "%d.%d.%d", ...)]: an integer is blanks, a sign and digits. *)
Definition is_digit (c : Z) : bool := (48 <=? c) && (c <=? 57).
Definition is_space (c : Z) : bool := (c =? 32) || ((9 <=? c) && (c <=? 13)).

Fixpoint skip_spaces (s : list Z) : list Z :=
  match s with
  | c :: s' => if is_space c then skip_spaces s' else s
  | [] => []
  end.

Fixpoint scan_digits (acc : Z) (s : list Z) : Z * list Z :=
  match s with
  | c :: s' => if is_digit c then scan_digits (10 * acc + (c - 48)) s' else (acc, s)
  | [] => (acc, [])
  end.

Definition scan_unsigned (s : list Z) : option (Z * list Z) :=
  match s with
  | c :: _ => if is_digit c then Some (scan_digits 0 s) else None
  | [] => None
  end.

Definition scan_int (s : list Z) : option (Z * list Z) :=
  match skip_spaces s with
  | c :: s' =>
      if c =? 45 then '(n, r) ← scan_unsigned s'; Some (- n, r)
      else if c =? 43 then scan_unsigned s'
      else scan_unsigned (c :: s')
  | [] => None
  end.

Definition scan_dot (s : list Z) : option (list Z) :=
  match s with
  | c :: s => if c =? 46 then Some s else None
  | [] => None
  end.

Definition KERNEL_VERSION (a b c : Z) : Z := Z.shiftl a 16 + Z.shiftl b 8 + c.

(** [release] is [None] when [uname] fails. *)
Definition kernel_version (release : option (list Z)) : Z :=
  let parsed :=
    uts ← release;
    '(major, s) ← scan_int uts; s ← scan_dot s;
    '(minor, s) ← scan_int s; s ← scan_dot s;
    '(patch, _) ← scan_int s;
    Some (KERNEL_VERSION major minor patch) in
  default (-1) parsed.

(** The static variable [dune_copyfile], [None] before the first call. *)
Inductive copier := Sendfile | Copy_file_range.

Definition choose_copier (release : option (list Z)) (has_copy_file_range : bool) : copier :=
  if (kernel_version release <? KERNEL_VERSION 5 19 0) || negb has_copy_file_range
  then Sendfile else Copy_file_range.

Definition run_copier (c : copier) (length : Z) (w : files) : exec (Z * files) :=
  match c with
  | Sendfile => dune_sendfile length w
  | Copy_file_range => dune_copy_file_range length w
  end.

Definition stdune_sendfile (release : option (list Z)) (has_copy_file_range : bool)
  (dune_copyfile : option copier) (v_size : Z) (w : files) :
  exec (caml unit * option copier * files) :=
  let c := match dune_copyfile with
           | Some c => c
           | None => choose_copier release has_copy_file_range
           end in
  let! r := run_copier c (u64 v_size) w in
  let '(ret, w) := r in
  Done (if ret <? 0 then Raise (Unix_error (f_errno w) "sendfile" []) else Value tt, Some c, w).

(** ** macOS *)

Definition PATH_MAX : Z := 1024.
Definition COPYFILE_CLONE : Z := 0x01000000.
Definition COPYFILE_EXCL : Z := 0x00020000.

(** [memcpy] of a path into a buffer on the stack, and its NUL. *)
Definition copy_path (buffer path : list Z) : exec (list Z) :=
  let! buffer := store_range buffer 0 path in
  store_range buffer (zlen path) [0].

(** The calls made without the runtime lock. *)
Definition copyfile_calls (v_from v_to from to : list Z) (overwrite : bool) : M (caml unit) :=
  a ← sys "realpath" (c_string from);
  match a with
  | Errno e => mret (Raise (Unix_error e "realpath" v_from))
  | Ret _ => lift Fault
  | Bytes real_from =>
      r ← (if overwrite then
             a ← sys "unlink" (c_string to);
             mret (match a with Errno e => if e =? ENOENT then None else Some e | _ => None end)
           else mret None);
      match r with
      | Some e => mret (Raise (Unix_error e "unlink" v_to))
      | None =>
          let flags := if overwrite then COPYFILE_CLONE else Z.lor COPYFILE_CLONE COPYFILE_EXCL in
          a ← sys "copyfile" (flags :: real_from ++ 0 :: c_string to);
          mret (match a with Errno e => Raise (Unix_error e "copyfile" v_to) | _ => Value tt end)
      end
  end.

(** [stack] is what the two buffers hold before. *)
Definition stdune_copyfile (stack : list Z * list Z) (v_from v_to : list Z) (overwrite : bool) :
  M (caml unit) :=
  if negb (check_path v_from) then mret (Raise (Unix_error ENOENT "copyfile" v_from)) else
  if negb (check_path v_to) then mret (Raise (Unix_error ENOENT "copyfile" v_to)) else
  if PATH_MAX <=? zlen v_from then mret (Raise (Unix_error ENAMETOOLONG "copyfile" v_from)) else
  if PATH_MAX <=? zlen v_to then mret (Raise (Unix_error ENAMETOOLONG "copyfile" v_to)) else
  from ← lift (copy_path stack.1 v_from);
  to ← lift (copy_path stack.2 v_to);
  copyfile_calls v_from v_to from to overwrite.

(** ** The platforms without one of the calls *)

Definition stdune_sendfile_macos : caml unit := Raise (Failure "sendfile: linux").
Definition stdune_copyfile_linux : caml unit := Raise (Failure "copyfile: only on macos").
Definition stdune_sendfile_other : caml unit := Raise (Failure "sendfile: linux").
Definition stdune_copyfile_other : caml unit := Raise (Failure "copyfile: only on macos").
