(* ===== verification/CopyfileLaws.v ===== *)
(** * Copying files: theorems

    [stdune_sendfile] copies exactly the bytes asked for or says why not, also when
    [copy_file_range] gives up half way; the kernel version is read and compared as
    intended; [stdune_copyfile] stays inside its buffers and makes its calls in order. *)

From Stdlib Require Import ZArith Lia.
From stdpp Require Import base numbers list strings.
From S2P Require Import Prelude Posix Copyfile.
Local Open Scope Z_scope.

(** ** The copy loops *)

(** [n] bytes have gone from the input of [w] to its output. *)
Definition moved (n : Z) (w w' : files) : Prop :=
  0 <= n <= zlen (f_in w) /\ f_in w' = zdrop n (f_in w) /\
  f_out w' = f_out w ++ ztake n (f_in w) /\ f_script w' `suffix_of` f_script w.

Lemma moved_refl w : moved 0 w w.
Proof.
  split; [len|]. rewrite zdrop_0, ztake_0, app_nil_r by lia. split; [done|]. split; [done|].
  exists []. done.
Qed.

Lemma moved_trans n m w1 w2 w3 : moved n w1 w2 -> moved m w2 w3 -> moved (n + m) w1 w3.
Proof.
  intros (Hn & I2 & O2 & S2) (Hm & I3 & O3 & S3). rewrite I2 in Hm, I3, O3. rewrite zlen_zdrop in Hm.
  split; [lia|]. rewrite I3, O3, O2, zdrop_zdrop by lia. split; [done|]. split; [|etrans; done].
  rewrite <- app_assoc. f_equal. rewrite <- (ztake_zdrop n (f_in w1)) at 3.
  rewrite ztake_app_ge by len. f_equal. f_equal. len.
Qed.

(** What one call of the kernel does when something is asked for. *)
Lemma kernel_copy_ok length w ret w' : 0 < length -> kernel_copy length w = (ret, w') ->
  (ret = -1 /\ moved 0 w w' /\ Fails (f_errno w') ∈ f_script w) \/
  (0 <= ret <= length /\ moved ret w w' /\ (ret = 0 -> f_in w = [])).
Proof.
  intros Hl. unfold kernel_copy, move, MAX_RW_COUNT.
  destruct (f_script w) as [|[n|e] script] eqn:Es; intros [= <- <-].
  - right. assert (Hb : 0 <= zlen (f_in w)) by apply zlen_nonneg. split; [lia|]. split.
    + split; [lia|]. cbn. rewrite Es. done.
    + intros H0. apply zlen_nil_inv. lia.
  - right. assert (Hb : 0 <= zlen (f_in w)) by apply zlen_nonneg. split; [lia|]. split.
    + split; [lia|]. cbn. rewrite Es. split; [done|]. split; [done|]. exists [Moves n]. done.
    + intros H0. apply zlen_nil_inv. lia.
  - left. split; [done|]. split; [|cbn; left].
    destruct (moved_refl w) as (? & I & O & _). split; [done|]. cbn. split; [done|]. split; [done|].
    rewrite Es. exists [Fails e]. done.
Qed.

(** What a copy of [length] bytes may do: all of it, or less with a reason. *)
Definition copied (length : Z) (w : files) (ret : Z) (w' : files) : Prop :=
  exists n, moved n w w' /\
    ((ret = 0 /\ n = length) \/
     (ret = -1 /\ n < length /\
        ((f_errno w' = EIO /\ f_in w' = []) \/ Fails (f_errno w') ∈ f_script w))).

Lemma moved_script n w w' e : moved n w w' -> Fails e ∈ f_script w' -> Fails e ∈ f_script w.
Proof. intros (_ & _ & _ & [l E]) H. rewrite E. apply elem_of_app. right. done. Qed.

Lemma copied_after n length w w1 ret w2 :
  moved n w w1 -> copied (length - n) w1 ret w2 -> copied length w ret w2.
Proof.
  intros Hm (m & Hm' & H). exists (n + m). split; [exact (moved_trans _ _ _ _ _ Hm Hm')|].
  destruct H as [[-> ->]|(-> & Hlt & H)]; [left; split; [done|lia]|right].
  split; [done|]. split; [lia|]. destruct H as [?|H]; [auto|]. right.
  exact (moved_script _ _ _ _ Hm H).
Qed.

Lemma moved_shrinks n w w' : moved n w w' -> 0 < n ->
  (length (f_in w') < length (f_in w))%nat.
Proof. intros (Hn & -> & _) H. unfold zdrop, zlen in *. rewrite length_drop. lia. Qed.

(** Both loops: what they do when the kernel refuses is the parameter. *)
Lemma copy_pass (refuse : Z -> files -> exec (Z * files)) (next : Z -> files -> exec (Z * files)) length w :
  0 < length < 2 ^ 64 ->
  (forall w1, moved 0 w w1 -> Fails (f_errno w1) ∈ f_script w ->
     exists ret w', refuse (-1) w1 = Done (ret, w') /\ copied length w ret w') ->
  (forall n w1, moved n w w1 -> 0 < n <= length ->
     exists ret w', next (length - n) w1 = Done (ret, w') /\ copied (length - n) w1 ret w') ->
  exists ret w',
    (let '(ret, w) := kernel_copy length w in
     if ret <? 0 then refuse ret w else if ret =? 0 then Done (-1, set_EIO w)
     else next (u64 (length - ret)) w) = Done (ret, w') /\ copied length w ret w'.
Proof.
  intros Hl Hr Hn. destruct (kernel_copy length w) as [ret w1] eqn:Ek.
  destruct (kernel_copy_ok length w ret w1 ltac:(lia) Ek) as [(-> & Hm & Hf)|(Hb & Hm & H0)].
  - destruct (Hr w1 Hm Hf) as (r & w' & E & Hc). exists r, w'. done.
  - rewrite (proj2 (Z.ltb_ge ret 0)) by lia. destruct (Z.eqb_spec ret 0) as [->|Hne].
    + exists (-1), (set_EIO w1). split; [done|]. exists 0. split; [done|]. right.
      split; [done|]. split; [lia|]. left. split; [done|]. destruct Hm as (_ & E & _).
      cbn. rewrite E, H0 by done. done.
    + destruct (Hn ret w1 Hm ltac:(lia)) as (r & w' & E & Hc).
      rewrite wrap_small by lia. exists r, w'. split; [done|]. exact (copied_after _ _ _ _ _ _ Hm Hc).
Qed.

Lemma copied_nothing w : copied 0 w 0 w.
Proof. exists 0. split; [apply moved_refl|]. auto. Qed.

Lemma sendfile_loop_ok fuel length w : (List.length (f_in w) < fuel)%nat -> 0 <= length < 2 ^ 64 ->
  exists ret w', sendfile_loop fuel length w = Done (ret, w') /\ copied length w ret w'.
Proof.
  revert length w. induction fuel as [|fuel IH]; intros length w Hf Hl; [lia|]. cbn [sendfile_loop].
  destruct (Z.ltb_spec 0 length) as [Hpos|Hle].
  - apply (copy_pass (fun ret w => Done (ret, w)) (sendfile_loop fuel)); [lia| |].
    + intros w1 Hm Hx. exists (-1), w1. split; [done|]. exists 0. split; [done|]. right. auto.
    + intros n w1 Hm Hn. pose proof (moved_shrinks _ _ _ Hm ltac:(lia)). apply IH; lia.
  - assert (length = 0) as -> by lia. exists 0, w. split; [done|]. apply copied_nothing.
Qed.

Lemma dune_sendfile_ok length w : 0 <= length < 2 ^ 64 ->
  exists ret w', dune_sendfile length w = Done (ret, w') /\ copied length w ret w'.
Proof. intros Hl. apply sendfile_loop_ok; [unfold loop_fuel; lia|done]. Qed.

Lemma copy_file_range_loop_ok fuel length w : (List.length (f_in w) < fuel)%nat -> 0 <= length < 2 ^ 64 ->
  exists ret w', copy_file_range_loop fuel length w = Done (ret, w') /\ copied length w ret w'.
Proof.
  revert length w. induction fuel as [|fuel IH]; intros length w Hf Hl; [lia|].
  cbn [copy_file_range_loop]. destruct (Z.ltb_spec 0 length) as [Hpos|Hle].
  - apply (copy_pass (fun _ => dune_sendfile length) (copy_file_range_loop fuel)); [lia| |].
    + intros w1 Hm Hx. destruct (dune_sendfile_ok length w1 Hl) as (ret & w' & E & Hc).
      exists ret, w'. split; [done|]. apply (copied_after 0 _ _ w1); [done|].
      rewrite Z.sub_0_r. done.
    + intros n w1 Hm Hn. pose proof (moved_shrinks _ _ _ Hm ltac:(lia)). apply IH; lia.
  - assert (length = 0) as -> by lia. exists 0, w. split; [done|]. apply copied_nothing.
Qed.

Lemma run_copier_ok c length w : 0 <= length < 2 ^ 64 ->
  exists ret w', run_copier c length w = Done (ret, w') /\ copied length w ret w'.
Proof.
  destruct c; [apply dune_sendfile_ok|].
  intros Hl. apply copy_file_range_loop_ok; [unfold loop_fuel; lia|done].
Qed.

(** C12.  A copy always ends.  It returns only after exactly the bytes asked for have gone
    from the input to the end of the output, in order; it raises only when fewer have, with
    the error of a call that failed, or [EIO] when the input had no more.  A size that
    the input can give and calls that do not fail give success, whichever copier runs. *)
Theorem sendfile_correct (release : option (list Z)) (has : bool) (cache : option copier)
  (size : Z) (w : files) :
  exists r c w' n, stdune_sendfile release has cache size w = Done (r, Some c, w') /\
    c = default (choose_copier release has) cache /\
    moved n w w' /\
    match r with
    | Value _ => n = u64 size
    | Raise x => n < u64 size /\ exists e, x = Unix_error e "sendfile" [] /\
        ((e = EIO /\ n = zlen (f_in w)) \/ Fails e ∈ f_script w)
    end /\
    (0 <= size <= zlen (f_in w) -> size < 2 ^ 64 -> (forall e, Fails e ∉ f_script w) -> r = Value tt).
Proof.
  unfold stdune_sendfile. set (c := match cache with Some c => c | None => _ end).
  destruct (run_copier_ok c (u64 size) w) as (ret & w' & E & n & Hm & H); [apply wrap_width; lia|].
  rewrite E. cbn [exec_bind].
  destruct H as [[-> Hn]|(-> & Hlt & H)]; cbn [Z.ltb Z.compare].
  - exists (Value tt), c, w', n. split; [done|]. split; [destruct cache; done|]. auto.
  - exists (Raise (Unix_error (f_errno w') "sendfile" [])), c, w', n.
    split; [done|]. split; [destruct cache; done|]. split; [done|].
    assert (Hall : (f_errno w' = EIO /\ n = zlen (f_in w)) \/ Fails (f_errno w') ∈ f_script w).
    { destruct H as [[? He]|?]; [left|auto]. split; [done|]. destruct Hm as (? & Hi & _).
      rewrite He in Hi. apply (f_equal zlen) in Hi. rewrite zlen_zdrop, zlen_nil in Hi. lia. }
    split; [split; [done|eauto]|]. intros Hs Hw Hf. exfalso.
    rewrite wrap_small in Hlt by lia. destruct Hall as [[_ ->]|Hx]; [lia|exact (Hf _ Hx)].
Qed.

(** ** The kernel version *)

Definition digits (ds : list Z) : Prop := ds <> [] /\ Forall (fun c => is_digit c = true) ds.
Definition digits_value (ds : list Z) : Z := fold_left (fun acc c => 10 * acc + (c - 48)) ds 0.

(** The text after a number does not continue it. *)
Definition stops (s : list Z) : Prop := match s with [] => True | c :: _ => is_digit c = false end.

Lemma scan_digits_ok ds s acc : Forall (fun c => is_digit c = true) ds -> stops s ->
  scan_digits acc (ds ++ s) = (fold_left (fun acc c => 10 * acc + (c - 48)) ds acc, s).
Proof.
  intros Hd Hs. revert acc. induction Hd as [|c ds Hc Hd IH]; intros acc; cbn [app scan_digits fold_left].
  - destruct s as [|c s]; [done|]. cbn [scan_digits]. cbn in Hs. rewrite Hs. done.
  - rewrite Hc. apply IH.
Qed.

Lemma digit_plain c : is_digit c = true -> is_space c = false /\ c =? 45 = false /\ c =? 43 = false.
Proof. unfold is_digit, is_space. lia. Qed.

Lemma scan_int_ok ds s : digits ds -> stops s -> scan_int (ds ++ s) = Some (digits_value ds, s).
Proof.
  intros [Hne Hd] Hs. destruct ds as [|c ds]; [done|]. pose proof (Forall_inv Hd) as Hc.
  destruct (digit_plain c Hc) as (H1 & H2 & H3). unfold scan_int. cbn [app skip_spaces].
  rewrite H1, H2, H3. cbn [scan_unsigned]. rewrite Hc. change (c :: ds ++ s) with ((c :: ds) ++ s). rewrite scan_digits_ok by done. done.
Qed.

Lemma stops_dot s : stops (46 :: s).
Proof. done. Qed.

Lemma kernel_version_ok a b c rest : digits a -> digits b -> digits c -> stops rest ->
  kernel_version (Some (a ++ 46 :: b ++ 46 :: c ++ rest)) =
  KERNEL_VERSION (digits_value a) (digits_value b) (digits_value c).
Proof.
  intros Ha Hb Hc Hr. unfold kernel_version. cbn [mbind option_bind].
  rewrite (scan_int_ok a) by auto using stops_dot. cbn [mbind option_bind scan_dot Z.eqb Pos.eqb].
  rewrite (scan_int_ok b) by auto using stops_dot. cbn [mbind option_bind scan_dot Z.eqb Pos.eqb].
  rewrite (scan_int_ok c) by done. done.
Qed.

Lemma KERNEL_VERSION_eq a b c : KERNEL_VERSION a b c = 65536 * a + 256 * b + c.
Proof. unfold KERNEL_VERSION. rewrite !Z.shiftl_mul_pow2 by lia. lia. Qed.

(** The order of versions. *)
Definition version_le (x y : Z * Z * Z) : Prop :=
  let '(a, b, c) := x in let '(a', b', c') := y in
  a < a' \/ (a = a' /\ (b < b' \/ (b = b' /\ c <= c'))).

(** A release that starts with three numbers is read as those numbers, whatever
    follows them.  While the second and third fit a byte the encoding fits an [int], and
    [copy_file_range] is used exactly from version 5.19.0 on, if the C library has it.
    Without a release that can be read [sendfile] is used. *)
Theorem copier_choice_correct (a b c rest : list Z) (has : bool) :
  digits a -> digits b -> digits c -> stops rest ->
  digits_value a < 2 ^ 15 -> digits_value b < 256 -> digits_value c < 256 ->
  let release := a ++ bytes_of_string "." ++ b ++ bytes_of_string "." ++ c ++ rest in
  let version := (digits_value a, digits_value b, digits_value c) in
  0 <= kernel_version (Some release) < 2 ^ 31 /\
  (choose_copier (Some release) has = Copy_file_range <-> version_le (5, 19, 0) version /\ has = true) /\
  choose_copier None has = Sendfile.
Proof.
  intros Ha Hb Hc Hr Ba Bb Bc release version.
  assert (Hpos : forall ds, digits ds -> 0 <= digits_value ds).
  { intros ds [_ Hd]. unfold digits_value. generalize (Z.le_refl 0). generalize 0 at 2 4.
    induction Hd as [|x ds Hx Hd IH]; intros acc Hacc; [done|]. cbn. apply IH.
    unfold is_digit in Hx. lia. }
  pose proof (Hpos a Ha). pose proof (Hpos b Hb). pose proof (Hpos c Hc).
  assert (E : kernel_version (Some release) = 65536 * digits_value a + 256 * digits_value b + digits_value c).
  { rewrite <- KERNEL_VERSION_eq, <- (kernel_version_ok a b c rest) by done. reflexivity. }
  unfold choose_copier, version_le, version. rewrite E, KERNEL_VERSION_eq. split; [lia|]. split; [|done].
  destruct has; cbn [negb orb]; rewrite ?orb_true_r, ?orb_false_r; [|split; [done|intros [_ [=]]]].
  destruct (Z.ltb_spec (65536 * digits_value a + 256 * digits_value b + digits_value c) (65536 * 5 + 256 * 19 + 0)).
  - split; [done|]. lia.
  - split; [|done]. intros _. split; [lia|done].
Qed.

Lemma copier_choice_correct_witness :
  let release := bytes_of_string "6.8.0-45-generic" in
  choose_copier (Some release) true = Copy_file_range /\ version_le (5, 19, 0) (6, 8, 0).
Proof.
  assert (D : digits [54] /\ digits [56] /\ digits [48]) by (split; [|split]; split; try done; repeat constructor).
  destruct D as (D1 & D2 & D3).
  destruct (copier_choice_correct [54] [56] [48] (bytes_of_string "-45-generic") true
    D1 D2 D3 eq_refl eq_refl eq_refl eq_refl) as (_ & H & _).
  split; [reflexivity|]. exact (proj1 (proj1 H eq_refl)).
Defined.

(** ** macOS *)

(** A path fits its buffer, and the buffer then holds it as a C string. *)
Lemma c_string_nul s rest : check_path s = true -> c_string (s ++ 0 :: rest) = s.
Proof.
  induction s as [|c s IH]; [done|]. cbn. intros [Hc Hs]%andb_true_iff.
  apply negb_true_iff in Hc. rewrite Hc, IH by done. done.
Qed.

Lemma copy_path_ok buffer path : zlen buffer = PATH_MAX -> zlen path < PATH_MAX -> check_path path = true ->
  exists b, copy_path buffer path = Done b /\ c_string b = path.
Proof.
  intros Hb Hp Hc. unfold copy_path, PATH_MAX in *. pose proof (zlen_nonneg path).
  rewrite store_range_ok by lia. cbn [exec_bind].
  rewrite store_range_ok; [|lia|len]. eexists. split; [done|].
  rewrite (ztake_0 0) by lia. cbn [app]. rewrite ztake_app_le, ztake_all by lia.
  cbn [app]. apply c_string_nul. done.
Qed.

(** The refusals that come before any call. *)
Definition copyfile_refused (v_from v_to : list Z) : option exn :=
  if negb (check_path v_from) then Some (Unix_error ENOENT "copyfile" v_from)
  else if negb (check_path v_to) then Some (Unix_error ENOENT "copyfile" v_to)
  else if PATH_MAX <=? zlen v_from then Some (Unix_error ENAMETOOLONG "copyfile" v_from)
  else if PATH_MAX <=? zlen v_to then Some (Unix_error ENAMETOOLONG "copyfile" v_to)
  else None.

(** C39.  A path that contains a NUL byte or does not fit its buffer is refused before any
    call.  Otherwise both fit, and: the source is resolved first; the target is removed
    exactly when overwriting, and its absence is no error; the resolved source is cloned to
    the target, refusing an existing one exactly when not overwriting; the first call that
    fails is reported with its path, and nothing is called after it. *)
Theorem copyfile_correct (stack : list Z * list Z) (v_from v_to : list Z) (overwrite : bool)
  (rest : list answer) (cs : list call) :
  zlen stack.1 = PATH_MAX -> zlen stack.2 = PATH_MAX ->
  let run a := stdune_copyfile stack v_from v_to overwrite (at_ (a ++ rest) cs) in
  match copyfile_refused v_from v_to with
  | Some x => run [] = Done (Raise x, at_ rest cs)
  | None =>
      let realpath := Call "realpath" v_from in
      let unlink := Call "unlink" v_to in
      let clone real flags := Call "copyfile" (flags :: real ++ 0 :: v_to) in
      (forall e, run [Errno e] = Done (Raise (Unix_error e "realpath" v_from), at_ rest (cs ++ [realpath]))) /\
      (forall real, if overwrite then
         (forall e, e <> ENOENT -> run [Bytes real; Errno e] =
            Done (Raise (Unix_error e "unlink" v_to), at_ rest (cs ++ [realpath; unlink]))) /\
         (forall u, u = Ret 0 \/ u = Errno ENOENT ->
            let done_ := cs ++ [realpath; unlink; clone real COPYFILE_CLONE] in
            run [Bytes real; u; Ret 0] = Done (Value tt, at_ rest done_) /\
            (forall e, run [Bytes real; u; Errno e] =
               Done (Raise (Unix_error e "copyfile" v_to), at_ rest done_)))
       else
         let done_ := cs ++ [realpath; clone real (Z.lor COPYFILE_CLONE COPYFILE_EXCL)] in
         run [Bytes real; Ret 0] = Done (Value tt, at_ rest done_) /\
         (forall e, run [Bytes real; Errno e] =
            Done (Raise (Unix_error e "copyfile" v_to), at_ rest done_)))
  end.
Proof.
  intros H1 H2. unfold copyfile_refused, stdune_copyfile.
  destruct (check_path v_from) eqn:C1; [|done]. destruct (check_path v_to) eqn:C2; [|done]. cbn [negb].
  destruct (Z.leb_spec PATH_MAX (zlen v_from)); [done|]. destruct (Z.leb_spec PATH_MAX (zlen v_to)); [done|].
  destruct (copy_path_ok stack.1 v_from) as (from & E1 & S1); [done..|].
  destruct (copy_path_ok stack.2 v_to) as (to & E2 & S2); [done..|].
  rewrite E1, E2. unfold copyfile_calls, mbind, M_bind, lift. rewrite S1, S2.
  cbn [sys answers calls app]. split; [done|]. intros real. destruct overwrite; cbn.
  - split.
    + intros e He. rewrite (proj2 (Z.eqb_neq _ _) He), <- app_assoc. done.
    + intros u [->| ->]; cbn; rewrite <- !app_assoc; done.
  - rewrite <- !app_assoc. done.
Qed.

Lemma copyfile_correct_witness :
  stdune_copyfile (zeros PATH_MAX, zeros PATH_MAX) [97] [98] true (at_ [Bytes [47; 97]; Errno ENOENT; Ret 0] []) =
  Done (Value tt, at_ [] [Call "realpath" [97]; Call "unlink" [98]; Call "copyfile" [COPYFILE_CLONE; 47; 97; 0; 98]]).
Proof.
  pose proof (copyfile_correct (zeros PATH_MAX, zeros PATH_MAX) [97] [98] true [] []
    ltac:(reflexivity) ltac:(reflexivity)) as H.
  change (copyfile_refused [97] [98]) with (@None exn) in H.
  exact (proj1 (proj2 (proj2 H [47; 97]) (Errno ENOENT) (or_intror eq_refl))).
Defined.
