(* ===== verification/Stdune.v ===== *)
(** * The small stubs of stdune

    The clock ([dune_clock.h]), file metadata ([time_stubs.c]), directories
    ([readdir.c]), waiting for children ([wait4_stubs.c]), file locks ([dune_flock.c]),
    searching strings ([string_stubs.c]), the platform tests ([platform_stubs.c]) and the
    window-change signal ([signal_stubs.c]). *)

From Stdlib Require Import ZArith Lia.
From stdpp Require Import base numbers list strings.
From S2P Require Import Prelude Posix.
Local Open Scope Z_scope.

Definition ECHILD : Z := 10.
Definition EBADF : Z := 9.
Definition ENOSYS : Z := 38.

(** The operating system the stubs are compiled for. *)
Inductive system := Linux | Darwin | FreeBSD | OpenBSD | NetBSD | DragonFly | Haiku | Solaris | Windows.
#[global] Instance system_eq_dec : EqDecision system.
Proof. solve_decision. Defined.

(** ** [dune_clock.h] *)

Definition SEC_TO_UNIX_EPOCH : Z := 11644473600.

(** [sec * 1000000000LL + nsec] on [int64_t]. *)
Definition nanoseconds (sec nsec : Z) : exec Z :=
  let! s := signed_exact 64 (sec * 1000000000) in
  signed_exact 64 (s + nsec).

Definition clock_ns_timespec (tv_sec tv_nsec : Z) : exec Z := nanoseconds tv_sec tv_nsec.
Definition clock_ns_timeval (tv_sec tv_usec : Z) : exec Z :=
  let! s := signed_exact 64 (tv_sec * 1000000000) in
  let! n := signed_exact 64 (tv_usec * 1000) in
  signed_exact 64 (s + n).

(** The [FILETIME] is read as one unsigned 64-bit number. *)
Definition clock_ns_filetime (low high : Z) : Z :=
  let quad := Z.lor low (Z.shiftl high 32) in
  signed 64 (u64 (u64 (quad - SEC_TO_UNIX_EPOCH * 10000000) * 100)).

(** What the clock of the platform gives: seconds and a fraction, or the two words of a
    [FILETIME]; on old versions of macOS the fraction is in microseconds. *)
Definition dune_clock_gettime_ns (s : system) (old_macos : bool) : M Z :=
  match s with
  | Windows =>
      a ← sys "GetSystemTime" [];
      match a with Bytes [low; high] => mret (clock_ns_filetime low high) | _ => lift Fault end
  | _ =>
      if bool_decide (s = Darwin) && old_macos then
        a ← sys "gettimeofday" [];
        match a with Bytes [sec; usec] => lift (clock_ns_timeval sec usec) | _ => lift Fault end
      else
        a ← sys "clock_gettime" [];
        match a with Bytes [sec; nsec] => lift (clock_ns_timespec sec nsec) | _ => lift Fault end
  end.

Definition dune_clock_gettime_realtime (s : system) (old_macos : bool) : M Z :=
  ns ← dune_clock_gettime_ns s old_macos;
  mret (Val_long ns).

(** ** [time_stubs.c] *)

Record dune_time_stat_buf := {
  st_mtime : Z * Z;
  st_ctime : Z * Z;
  st_size : Z;
  st_mode : Z;
  st_dev : Z;
  st_ino : Z }.

Record stat_result := {
  mtime : Z;
  ctime : Z;
  size : Z;
  perm : Z;
  kind : Z;
  dev : Z;
  ino : Z }.

Definition dune_time_stat_timestamp_ns (sec nsec : Z) : exec Z := nanoseconds sec nsec.

(** Windows and Haiku only give seconds. *)
Definition timestamp_of (s : system) (t : Z * Z) : exec Z :=
  match s with
  | Windows | Haiku => dune_time_stat_timestamp_ns t.1 0
  | _ => dune_time_stat_timestamp_ns t.1 t.2
  end.
Definition dune_time_stat_mtime_ns (s : system) (st : dune_time_stat_buf) : exec Z :=
  timestamp_of s (st_mtime st).
Definition dune_time_stat_ctime_ns (s : system) (st : dune_time_stat_buf) : exec Z :=
  timestamp_of s (st_ctime st).

Definition S_IFMT : Z := 0xf000.
Definition S_IFIFO : Z := 0x1000.
Definition S_IFCHR : Z := 0x2000.
Definition S_IFDIR : Z := 0x4000.
Definition S_IFBLK : Z := 0x6000.
Definition S_IFREG : Z := 0x8000.
Definition S_IFLNK : Z := 0xa000.
Definition S_IFSOCK : Z := 0xc000.
Definition is_kind (k mode : Z) : bool := Z.land mode S_IFMT =? k.

Definition dune_time_stat_file_kind (s : system) (mode : Z) : Z :=
  match s with
  | Windows =>
      if is_kind S_IFDIR mode then 1
      else if is_kind S_IFCHR mode then 2
      else if is_kind S_IFIFO mode then 5
      else 0
  | _ =>
      if is_kind S_IFDIR mode then 1
      else if is_kind S_IFCHR mode then 2
      else if is_kind S_IFBLK mode then 3
      else if is_kind S_IFLNK mode then 4
      else if is_kind S_IFIFO mode then 5
      else if is_kind S_IFSOCK mode then 6
      else 0
  end.

Definition dune_time_alloc_stat (s : system) (st : dune_time_stat_buf) : exec stat_result :=
  let! m := dune_time_stat_mtime_ns s st in
  let! c := dune_time_stat_ctime_ns s st in
  Done {| mtime := Val_long m; ctime := Val_long c; size := Val_long (st_size st);
          perm := Val_long (Z.land (st_mode st) 0xfff);
          kind := dune_time_stat_file_kind s (st_mode st);
          dev := Val_long (st_dev st); ino := Val_long (st_ino st) |}.

(** [stat_os] is what the system says of a path. *)
Definition dune_stat (s : system) (stat_os : list Z -> Z + dune_time_stat_buf) (v_path : list Z) :
  exec (caml stat_result) :=
  if negb (check_path v_path) then Done (Raise (Unix_error ENOENT "stat" v_path)) else
  match stat_os v_path with
  | inl e => Done (Raise (Unix_error e "stat" v_path))
  | inr statbuf => let! r := dune_time_alloc_stat s statbuf in Done (Value r)
  end.

(** ** [readdir.c] *)

(** [name[i]] of a C string that holds [name]. *)
Definition name_char (name : list Z) (i : Z) : exec Z :=
  let! r := load_range (name ++ [0]) i 1 in Done (hd 0 r).

Definition is_dot_or_dot_dot (name : list Z) : exec bool :=
  let! c0 := name_char name 0 in
  if negb (c0 =? 46) then Done false else
  let! c1 := name_char name 1 in
  if c1 =? 0 then Done true else
  if negb (c1 =? 46) then Done false else
  let! c2 := name_char name 2 in
  Done (c2 =? 0).

Definition DT_UNKNOWN : Z := 0.
Definition DT_FIFO : Z := 1.
Definition DT_CHR : Z := 2.
Definition DT_DIR : Z := 4.
Definition DT_BLK : Z := 6.
Definition DT_REG : Z := 8.
Definition DT_LNK : Z := 10.
Definition DT_SOCK : Z := 12.

Definition val_file_type (s : system) (typ : Z) : Z :=
  if bool_decide (s = Haiku) then 7
  else if typ =? DT_REG then 0
  else if typ =? DT_DIR then 1
  else if typ =? DT_CHR then 2
  else if typ =? DT_BLK then 3
  else if typ =? DT_LNK then 4
  else if typ =? DT_FIFO then 5
  else if typ =? DT_SOCK then 6
  else if typ =? DT_UNKNOWN then 7
  else 7.

(** What [readdir] still has to say: entries with a name and a type, or an error. *)
Inductive dir_event := Entry (d_name : list Z) (d_type : Z) | Dir_error (e : Z).

(** An open directory is the list of what is still to come. *)
Fixpoint readdir_loop (s : system) (d : list dir_event) :
  exec (caml (option (list Z * Z)) * list dir_event) :=
  match d with
  | [] => Done (Value None, [])
  | Dir_error e :: d => Done (if e =? 0 then Value None else Raise (Unix_error e "readdir" []), d)
  | Entry d_name d_type :: d =>
      let! skip := is_dot_or_dot_dot d_name in
      if skip then readdir_loop s d
      else Done (Value (Some (d_name, val_file_type s d_type)), d)
  end.

(** [None] is a directory that has been closed. *)
Definition caml__dune_filesystem_stubs__readdir (s : system) (d : option (list dir_event)) :
  exec (caml (option (list Z * Z)) * option (list dir_event)) :=
  match s, d with
  | Windows, _ => Done (Raise (Unix_error ENOSYS "readdir" []), d)
  | _, None => Done (Raise (Unix_error EBADF "readdir" []), None)
  | _, Some d => let! r := readdir_loop s d in Done (r.1, Some r.2)
  end.

(** ** [wait4_stubs.c] *)

Record rusage := {
  ru_utime : Z * Z;
  ru_stime : Z * Z;
  ru_maxrss : Z;
  ru_minflt : Z;
  ru_majflt : Z;
  ru_inblock : Z;
  ru_oublock : Z;
  ru_nvcsw : Z;
  ru_nivcsw : Z }.

Definition alloc_resource_usage (ru : rusage) : exec (list Z) :=
  let! u := clock_ns_timeval (ru_utime ru).1 (ru_utime ru).2 in
  let! s := clock_ns_timeval (ru_stime ru).1 (ru_stime ru).2 in
  Done (map Val_long [u; s; ru_maxrss ru; ru_minflt ru; ru_majflt ru; ru_inblock ru;
                      ru_oublock ru; ru_nvcsw ru; ru_nivcsw ru]).

Definition WIFEXITED (status : Z) : bool := Z.land status 0x7f =? 0.
Definition WEXITSTATUS (status : Z) : Z := Z.land (Z.shiftr status 8) 0xff.
Definition WIFSTOPPED (status : Z) : bool := Z.land status 0xff =? 0x7f.
Definition WSTOPSIG (status : Z) : Z := WEXITSTATUS status.
Definition WTERMSIG (status : Z) : Z := Z.land status 0x7f.

Inductive process_status := WEXITED (n : Z) | WSIGNALED (n : Z) | WSTOPPED (n : Z).

Inductive wait_flag := WNOHANG | WUNTRACED.
Definition wait_flag_table (f : wait_flag) : Z := match f with WNOHANG => 1 | WUNTRACED => 2 end.
Definition caml_convert_flag_list (l : list wait_flag) : Z :=
  fold_left (fun acc f => Z.lor acc (wait_flag_table f)) l 0.

(** The answer of [wait4]: an error, no child ready, or a child. *)
Inductive wait_answer := Wait_errno (e : Z) | Wait_none | Wait_child (pid status : Z) (ru : rusage).

Section Wait4.
(** The runtime's translation of system signal numbers. *)
Context (caml_rev_convert_signal_number : Z -> Z).

Definition alloc_process_status (status : Z) : process_status :=
  if WIFEXITED status then WEXITED (WEXITSTATUS status)
  else if WIFSTOPPED status then WSTOPPED (caml_rev_convert_signal_number (WSTOPSIG status))
  else WSIGNALED (caml_rev_convert_signal_number (WTERMSIG status)).

Definition wait_pid (s : system) (pid : Z) : Z :=
  if bool_decide (s = Solaris) && (pid =? -1) then 0 else pid.

Definition dune_wait4_windows {A} : caml A := Raise (Failure "wait4: not supported on windows").

(** [wait4] answers according to its first and third arguments, and sets [errno] when it
    fails.  The time is read after it, before its answer is looked at: [clobber] is what
    reading the clock and taking the runtime lock back make of [errno]. *)
Definition dune_wait4 (s : system) (old_macos : bool) (wait4 : Z -> Z -> wait_answer)
  (clobber : Z -> Z) (errno v_pid : Z) (flags : list wait_flag) :
  M (caml (option (Z * process_status * Z * list Z))) :=
  if bool_decide (s = Windows) then mret dune_wait4_windows else
  let cv_flags := caml_convert_flag_list flags in
  let answer := wait4 (wait_pid s (signed 32 v_pid)) cv_flags in
  let errno := match answer with Wait_errno e => e | _ => errno end in
  let wait_errno := errno in
  time_ns ← dune_clock_gettime_ns s old_macos;
  let errno := clobber errno in
  match answer with
  | Wait_none => mret (Value None)
  | Wait_errno _ =>
      if wait_errno =? ECHILD then mret (Value None)
      else
        let errno := wait_errno in
        mret (Raise (Unix_error errno "wait4" []))
  | Wait_child pid status ru =>
      times ← lift (alloc_resource_usage ru);
      mret (Value (Some (pid, alloc_process_status status, Val_long time_ns, times)))
  end.
End Wait4.

Definition dune_getrusage_self_windows : caml (option (list Z)) := Value None.
Definition dune_getrusage_self (s : system) (getrusage : Z + rusage) :
  exec (caml (option (list Z))) :=
  if bool_decide (s = Windows) then Done dune_getrusage_self_windows else
  match getrusage with
  | inl e => Done (Raise (Unix_error e "getrusage" []))
  | inr ru => let! times := alloc_resource_usage ru in Done (Value (Some times))
  end.

(** ** [dune_flock.c] *)

Definition LOCK_SH : Z := 1.
Definition LOCK_EX : Z := 2.
Definition LOCK_NB : Z := 4.
Definition LOCK_UN : Z := 8.
Definition LOCKFILE_FAIL_IMMEDIATELY : Z := 1.
Definition LOCKFILE_EXCLUSIVE_LOCK : Z := 2.
Definition MAXDWORD : Z := 0xffffffff.

Definition flock_result (name : string) (a : answer) : caml unit :=
  match a with Errno e => Raise (Unix_error e name []) | _ => Value tt end.

Definition flock_lock_windows (fd : Z) (block exclusive : bool) : M (caml unit) :=
  let dwFlags := if exclusive then LOCKFILE_EXCLUSIVE_LOCK else 0 in
  let dwFlags := if block then dwFlags else Z.lor dwFlags LOCKFILE_FAIL_IMMEDIATELY in
  a ← sys "LockFileEx" [fd; dwFlags; 0; MAXDWORD; MAXDWORD];
  mret (flock_result "LockFileEx" a).

Definition flock_lock_posix (fd : Z) (block exclusive : bool) : M (caml unit) :=
  let flags := if exclusive then LOCK_EX else LOCK_SH in
  let flags := if block then flags else Z.lor flags LOCK_NB in
  a ← sys "flock" [fd; flags];
  mret (flock_result "flock" a).

Definition dune_flock_lock (s : system) : Z -> bool -> bool -> M (caml unit) :=
  if bool_decide (s = Windows) then flock_lock_windows else flock_lock_posix.

Definition flock_unlock_windows (fd : Z) : M (caml unit) :=
  a ← sys "UnlockFileEx" [fd; 0; MAXDWORD; MAXDWORD];
  mret (flock_result "UnlockFileEx" a).

Definition flock_unlock_posix (fd : Z) : M (caml unit) :=
  a ← sys "flock" [fd; LOCK_UN];
  mret (flock_result "flock" a).

Definition dune_flock_unlock (s : system) : Z -> M (caml unit) :=
  if bool_decide (s = Windows) then flock_unlock_windows else flock_unlock_posix.

(** ** [string_stubs.c] *)

(** [memchr]: the index of the first [c] from [i] on; reading stops there. *)
Fixpoint memchr_loop (n : nat) (s : list Z) (i c : Z) : exec (option Z) :=
  match n with
  | O => Done None
  | S n =>
      let! b := load_range s i 1 in
      if hd 0 b =? c then Done (Some i) else memchr_loop n s (i + 1) c
  end.
Definition memchr (s : list Z) (i c n : Z) : exec (option Z) :=
  if (0 <=? i) && (i <=? zlen s) then memchr_loop (Z.to_nat n) s i (u8 c) else Fault.

Definition index_result (r : option Z) : Z := match r with None => -1 | Some i => i end.

Definition dune_string_index_from (s : list Z) (v_position v_char : Z) : exec Z :=
  let position := u64 v_position in
  let! r := memchr s position v_char (u64 (zlen s - position)) in
  Done (index_result r).

Fixpoint rindex_loop (fuel : nat) (s : list Z) (position chr : Z) : exec Z :=
  match fuel with
  | O => Spin
  | S fuel =>
      if 0 <=? position then
        let! b := load_range s position 1 in
        if hd 0 b =? chr then Done position else rindex_loop fuel s (position - 1) chr
      else Done (-1)
  end.
(** The position goes down by one at each pass. *)
Definition dune_string_rindex_from (s : list Z) (v_position v_char : Z) : exec Z :=
  rindex_loop (Z.to_nat (v_position + 2)) s v_position (u8 v_char).

Definition dune_bytes_index_in_range (s : list Z) (v_position v_length v_char : Z) : exec Z :=
  let! r := memchr s (u64 v_position) v_char (u64 v_length) in
  Done (index_result r).

(** ** [platform_stubs.c] and [signal_stubs.c] *)

Definition stdune_is_darwin (s : system) : bool := bool_decide (s = Darwin).
Definition stdune_is_freebsd (s : system) : bool := bool_decide (s = FreeBSD).
Definition stdune_is_openbsd (s : system) : bool := bool_decide (s = OpenBSD).
Definition stdune_is_netbsd (s : system) : bool := bool_decide (s = NetBSD).
Definition stdune_is_dragonfly (s : system) : bool := bool_decide (s = DragonFly).
Definition stdune_is_haiku (s : system) : bool := bool_decide (s = Haiku).

Definition SIGWINCH : Z := 28.
Definition stdune_winch_number (s : system) : Z := if bool_decide (s = Windows) then 0 else SIGWINCH.
