(* ===== verification/StduneLaws.v ===== *)
(** * The small stubs of stdune: theorems

    Timestamps are exact within the range of OCaml's integers, to the unit the system keeps;
    reading a directory lists its entries with the kinds it tells; wait statuses are decoded as the system
    encodes them; the string searches stay inside the string and find the right index. *)

From Stdlib Require Import ZArith Lia.
From stdpp Require Import base numbers list strings.
From S2P Require Import Prelude Posix Stdune.
Local Open Scope Z_scope.

(** ** Time *)

(** Seconds whose nanoseconds an OCaml integer can hold: until the year 2116. *)
Definition representable (sec : Z) : Prop := -4611686018 <= sec < 4611686018.

Lemma nanoseconds_ok sec nsec : representable sec -> 0 <= nsec < 1000000000 ->
  nanoseconds sec nsec = Done (sec * 1000000000 + nsec) /\
  Val_long (sec * 1000000000 + nsec) = sec * 1000000000 + nsec.
Proof.
  unfold representable. intros Hs Hn. unfold nanoseconds.
  rewrite (signed_exact_ok 64 (sec * 1000000000)) by (cbn; lia). cbn [exec_bind].
  rewrite signed_exact_ok by (cbn; lia). split; [done|]. apply signed_small; cbn; lia.
Qed.

Lemma timeval_ok sec usec : representable sec -> 0 <= usec < 1000000 ->
  clock_ns_timeval sec usec = Done (sec * 1000000000 + usec * 1000) /\
  Val_long (sec * 1000000000 + usec * 1000) = sec * 1000000000 + usec * 1000.
Proof.
  unfold representable. intros Hs Hn. unfold clock_ns_timeval.
  rewrite (signed_exact_ok 64 (sec * 1000000000)) by (cbn; lia). cbn [exec_bind].
  rewrite (signed_exact_ok 64 (usec * 1000)) by (cbn; lia). cbn [exec_bind].
  rewrite signed_exact_ok by (cbn; lia). split; [done|]. apply signed_small; cbn; lia.
Qed.

(** A count of 100 ns since 1601, split into the words of a [FILETIME]. *)
Lemma filetime_ok sec ticks : representable sec ->
  0 <= ticks < 10000000 ->
  let t := (sec + SEC_TO_UNIX_EPOCH) * 10000000 + ticks in
  clock_ns_filetime (t mod 2 ^ 32) (t / 2 ^ 32) = sec * 1000000000 + ticks * 100 /\
  Val_long (sec * 1000000000 + ticks * 100) = sec * 1000000000 + ticks * 100.
Proof.
  intros Hs Ht t. unfold representable, SEC_TO_UNIX_EPOCH in *.
  split; [|apply signed_small; cbn; lia]. unfold clock_ns_filetime, SEC_TO_UNIX_EPOCH.
  assert (Hq : Z.lor (t mod 2 ^ 32) (Z.shiftl (t / 2 ^ 32) 32) = t).
  { rewrite <- Z.shiftr_div_pow2, <- Z.land_ones by lia. apply Z.bits_inj'. intros i Hi.
    rewrite Z.lor_spec, Z.land_spec, Z.testbit_ones_nonneg, Z.shiftl_spec by lia.
    destruct (Z.ltb_spec i 32).
    - rewrite (Z.testbit_neg_r _ (i - 32)), orb_false_r, andb_true_r by lia. done.
    - rewrite Z.shiftr_spec, andb_false_r by lia. cbn. f_equal. lia. }
  rewrite Hq. unfold wrap. rewrite Z.mul_mod_idemp_l by lia. unfold signed.
  replace (((t - 11644473600 * 10000000) * 100) mod 2 ^ 64 + 2 ^ (64 - 1))
    with (((sec * 1000000000 + ticks * 100)) mod 2 ^ 64 + 2 ^ 63) by (f_equal; f_equal; unfold t; lia).
  rewrite Z.add_mod_idemp_l by lia. rewrite Z.mod_small; cbn; lia.
Qed.

(** What the clock of each system says at [sec] seconds and [nsec] nanoseconds, the call
    that asks it, and the nanoseconds it can tell: Windows counts in units of 100 ns since
    1601, macOS before 10.12 in microseconds. *)
Definition clock_answer (s : system) (old_macos : bool) (sec nsec : Z) : answer :=
  match s with
  | Windows =>
      let t := (sec + SEC_TO_UNIX_EPOCH) * 10000000 + nsec / 100 in Bytes [t mod 2 ^ 32; t / 2 ^ 32]
  | Darwin => if old_macos then Bytes [sec; nsec / 1000] else Bytes [sec; nsec]
  | _ => Bytes [sec; nsec]
  end.
Definition clock_call (s : system) (old_macos : bool) : string :=
  match s with
  | Windows => "GetSystemTime"
  | Darwin => if old_macos then "gettimeofday" else "clock_gettime"
  | _ => "clock_gettime"
  end.
Definition clock_unit (s : system) (old_macos : bool) : Z :=
  match s with Windows => 100 | Darwin => if old_macos then 1000 else 1 | _ => 1 end.
Definition clock_time (s : system) (old_macos : bool) (sec nsec : Z) : Z :=
  sec * 1000000000 + nsec / clock_unit s old_macos * clock_unit s old_macos.

Lemma clock_ok s old_macos sec nsec rest cs : representable sec -> 0 <= nsec < 1000000000 ->
  dune_clock_gettime_ns s old_macos (at_ (clock_answer s old_macos sec nsec :: rest) cs) =
    Done (clock_time s old_macos sec nsec, at_ rest (cs ++ [Call (clock_call s old_macos) []])) /\
  Val_long (clock_time s old_macos sec nsec) = clock_time s old_macos sec nsec.
Proof.
  intros Hs Hn. unfold clock_time. destruct (nanoseconds_ok sec nsec Hs Hn) as [E V].
  assert (Hd : forall k m, 0 < k -> k * m = 1000000000 -> 0 <= nsec / k < m).
  { intros k m Hk Hm. split; [apply Z.div_pos; lia|apply Z.div_lt_upper_bound; lia]. }
  destruct (timeval_ok sec (nsec / 1000) Hs (Hd 1000 1000000 ltac:(lia) eq_refl)) as [Eu Vu].
  destruct (filetime_ok sec (nsec / 100) Hs (Hd 100 10000000 ltac:(lia) eq_refl)) as [Ef Vf].
  unfold dune_clock_gettime_ns, clock_ns_timespec, mbind, M_bind, lift, mret, M_ret.
  destruct s, old_macos; rewrite ?(bool_decide_true (Darwin = Darwin)) by done;
    rewrite ?bool_decide_false by done; cbn -[Z.mul Z.add Z.div Z.modulo Z.pow nanoseconds
      clock_ns_timeval clock_ns_filetime Val_long];
    rewrite ?Z.div_1_r, ?Z.mul_1_r, ?E, ?Eu, ?Ef, ?V, ?Vu, ?Vf; done.
Qed.

(** The time of a file that a system keeps: Windows and Haiku only tell seconds. *)
Definition keeps_nanoseconds (s : system) : bool := negb (bool_decide (s = Windows \/ s = Haiku)).
Definition file_time (s : system) (t : Z * Z) : Z :=
  t.1 * 1000000000 + (if keeps_nanoseconds s then t.2 else 0).
Definition time_range (t : Z * Z) : Prop := representable t.1 /\ 0 <= t.2 < 1000000000.

Lemma timestamp_ok s t : time_range t ->
  timestamp_of s t = Done (file_time s t) /\ Val_long (file_time s t) = file_time s t.
Proof.
  intros [Hs Hn]. unfold file_time, keeps_nanoseconds.
  destruct (nanoseconds_ok t.1 t.2 Hs Hn) as [E V].
  destruct (nanoseconds_ok t.1 0 Hs ltac:(lia)) as [E0 V0].
  destruct s; cbn -[Z.mul Z.add nanoseconds Val_long]; unfold dune_time_stat_timestamp_ns;
    rewrite ?E, ?E0, ?V, ?V0; done.
Qed.

(** C37.  Until the year 2116 no clock and no file time overflows on the way to OCaml.  The
    clock gives the count of nanoseconds since 1970 rounded down to the unit of the system
    (1 ns, 1000 ns on old versions of macOS, 100 ns on Windows).  [stat] gives the exact
    nanoseconds of both times of a file, or their exact seconds on Windows and Haiku, so
    where nanoseconds are kept comparing two file times compares what the system keeps. *)
Theorem timestamps_correct (s : system) (old_macos : bool) (sec nsec : Z) (st : dune_time_stat_buf)
  (rest : list answer) (cs : list call) :
  representable sec -> 0 <= nsec < 1000000000 -> time_range (st_mtime st) -> time_range (st_ctime st) ->
  dune_clock_gettime_realtime s old_macos (at_ (clock_answer s old_macos sec nsec :: rest) cs) =
    Done (clock_time s old_macos sec nsec, at_ rest (cs ++ [Call (clock_call s old_macos) []])) /\
  exists r, dune_time_alloc_stat s st = Done r /\
    mtime r = file_time s (st_mtime st) /\ ctime r = file_time s (st_ctime st) /\
    (keeps_nanoseconds s = true ->
       (mtime r < ctime r <->
        (st_mtime st).1 < (st_ctime st).1 \/
        ((st_mtime st).1 = (st_ctime st).1 /\ (st_mtime st).2 < (st_ctime st).2))).
Proof.
  intros Hs Hn Hm Hc. split.
  - destruct (clock_ok s old_macos sec nsec rest cs Hs Hn) as [E V].
    unfold dune_clock_gettime_realtime. rewrite (bind_Done _ _ _ _ _ E), V. done.
  - destruct (timestamp_ok s _ Hm) as [Em Vm], (timestamp_ok s _ Hc) as [Ec Vc].
    unfold dune_time_alloc_stat, dune_time_stat_mtime_ns, dune_time_stat_ctime_ns.
    rewrite Em, Ec. cbn [exec_bind]. rewrite Vm, Vc. eexists. split; [done|]. cbn [mtime ctime].
    split; [done|]. split; [done|]. intros Hk. unfold file_time. rewrite Hk.
    destruct Hm, Hc. nia.
Qed.

Lemma timestamps_correct_witness :
  let st := {| st_mtime := (1700000000, 5); st_ctime := (1700000000, 7); st_size := 3;
               st_mode := 0x81a4; st_dev := 1; st_ino := 2 |} in
  dune_clock_gettime_realtime Windows false
    (at_ [clock_answer Windows false 1700000000 123456789] []) =
    Done (1700000000123456700, at_ [] [Call "GetSystemTime" []]) /\
  exists r, dune_time_alloc_stat Linux st = Done r /\ mtime r = 1700000000000000005 /\ mtime r < ctime r.
Proof.
  intros st. split.
  - apply (timestamps_correct Windows false 1700000000 123456789 st [] []);
      unfold time_range, representable; cbn; lia.
  - destruct (timestamps_correct Linux false 0 0 st [] []) as (_ & r & E & Hm & _ & Hc);
      [unfold time_range, representable; cbn; lia..|].
    exists r. split; [exact E|]. split; [exact Hm|]. apply Hc; [reflexivity|]. right. cbn. lia.
Defined.

(** ** Directories *)

Definition dots (name : list Z) : bool := bool_decide (name = [46] \/ name = [46; 46]).

Lemma hd_take_drop (l : list Z) n : hd 0 (take 1 (drop n l)) = nth n l 0.
Proof. revert n. induction l as [|x l IH]; intros [|n]; cbn; auto. Qed.

Lemma load_one l i : 0 <= i < zlen l -> load_range l i 1 = Done [nth (Z.to_nat i) l 0].
Proof.
  intros Hi. rewrite load_range_ok by lia. f_equal. rewrite <- hd_take_drop. unfold ztake, zdrop.
  change (Z.to_nat 1) with 1%nat. destruct (drop (Z.to_nat i) l) as [|x k] eqn:E; [|destruct k; done].
  apply (f_equal length) in E. rewrite length_drop in E. unfold zlen in Hi. simpl in E. lia.
Qed.

Lemma name_char_ok name i : 0 <= i <= zlen name ->
  name_char name i = Done (nth (Z.to_nat i) (name ++ [0]) 0).
Proof.
  intros Hi. unfold name_char. rewrite load_one by len. done.
Qed.

Lemma is_dot_or_dot_dot_ok name : Forall (fun c => c <> 0) name ->
  is_dot_or_dot_dot name = Done (dots name).
Proof.
  intros Hn. unfold is_dot_or_dot_dot, dots. rewrite name_char_ok by len. cbn [exec_bind].
  change (Z.to_nat 0) with 0%nat. destruct name as [|c0 name]; cbn [nth app].
  { rewrite bool_decide_false by naive_solver. done. }
  destruct (Z.eqb_spec c0 46) as [->|Hc0]; cbn [negb].
  2: { rewrite bool_decide_false by naive_solver. done. }
  rewrite name_char_ok by len. cbn [exec_bind]. change (Z.to_nat 1) with 1%nat.
  destruct name as [|c1 name]; cbn [nth app].
  { rewrite bool_decide_true by auto. done. }
  pose proof (Forall_inv (Forall_inv_tail Hn)) as Hc1. rewrite (proj2 (Z.eqb_neq c1 0)) by done.
  destruct (Z.eqb_spec c1 46) as [->|Hne]; cbn [negb].
  2: { rewrite bool_decide_false by naive_solver. done. }
  rewrite name_char_ok by len. cbn [exec_bind]. change (Z.to_nat 2) with 2%nat.
  destruct name as [|c2 name]; cbn [nth app].
  { rewrite bool_decide_true by auto. done. }
  pose proof (Forall_inv (Forall_inv_tail (Forall_inv_tail Hn))) as Hc2.
  rewrite (proj2 (Z.eqb_neq c2 0)) by done. rewrite bool_decide_false by naive_solver. done.
Qed.

(** Reading a directory until it says that there is no more. *)
Fixpoint read_all (fuel : nat) (s : system) (d : option (list dir_event)) :
  exec (caml (list (list Z * Z))) :=
  match fuel with
  | O => Spin
  | S fuel =>
      let! r := caml__dune_filesystem_stubs__readdir s d in
      match r.1 with
      | Raise x => Done (Raise x)
      | Value None => Done (Value [])
      | Value (Some e) =>
          let! l := read_all fuel s r.2 in
          Done (match l with Value l => Value (e :: l) | Raise x => Raise x end)
      end
  end.

(** A file of a directory: its name, its mode, and whether the directory knows its kind. *)
Record file_entry := { e_name : list Z; e_mode : Z; e_typed : bool }.
Definition event_of (e : file_entry) : dir_event :=
  Entry (e_name e) (if e_typed e then Z.shiftr (Z.land (e_mode e) S_IFMT) 12 else DT_UNKNOWN).
(** Haiku's directories never know it. *)
Definition listed (s : system) (e : file_entry) : list Z * Z :=
  (e_name e, if e_typed e && negb (bool_decide (s = Haiku)) then dune_time_stat_file_kind s (e_mode e) else 7).

(** The kinds of files there are. *)
Definition file_kinds : list Z := [S_IFREG; S_IFDIR; S_IFCHR; S_IFBLK; S_IFLNK; S_IFIFO; S_IFSOCK].

Lemma kinds_agree s mode : s <> Windows -> s <> Haiku -> Z.land mode S_IFMT ∈ file_kinds ->
  val_file_type s (Z.shiftr (Z.land mode S_IFMT) 12) = dune_time_stat_file_kind s mode.
Proof.
  intros Hw Hh Hk. unfold val_file_type, dune_time_stat_file_kind, is_kind.
  rewrite bool_decide_false by done.
  repeat (apply elem_of_cons in Hk as [Hk|Hk]; [rewrite Hk; destruct s; done|]).
  apply elem_of_nil in Hk. done.
Qed.

Lemma readdir_open s d : s <> Windows ->
  caml__dune_filesystem_stubs__readdir s (Some d) =
  (let! r := readdir_loop s d in Done (r.1, Some r.2)).
Proof. destruct s; done. Qed.

(** C36.  On every system but Windows, reading a directory until its end gives each entry but
    [.] and [..] once, in the order of the system.  The kind is the one of the entry itself (a
    symbolic link is listed as a link), numbered as [dune_stat] numbers the mode, and 7
    ("unknown") when the directory does not say and always on Haiku.  [errno] after the last
    entry is 0 at the end of the directory; any other is raised, and a directory that is
    closed is refused with [EBADF].  On Windows every call raises [ENOSYS].  No byte outside
    a name is read. *)
Theorem readdir_correct (s : system) (entries : list file_entry) (errno : Z) :
  Forall (fun e => Forall (fun c => c <> 0) (e_name e) /\ Z.land (e_mode e) S_IFMT ∈ file_kinds) entries ->
  let read := read_all (S (length entries)) s (Some (map event_of entries ++ [Dir_error errno])) in
  let closed := caml__dune_filesystem_stubs__readdir s None in
  (s <> Windows ->
     read = Done (if errno =? 0
                  then Value (map (listed s) (List.filter (fun e => negb (dots (e_name e))) entries))
                  else Raise (Unix_error errno "readdir" [])) /\
     closed = Done (Raise (Unix_error EBADF "readdir" []), None)) /\
  (s = Windows ->
     read = Done (Raise (Unix_error ENOSYS "readdir" [])) /\
     closed = Done (Raise (Unix_error ENOSYS "readdir" []), None)).
Proof.
  intros He. cbv zeta. split; [|intros ->; done]. intros Hw. split; [|destruct s; done].
  assert (Hlen : (length entries < S (length entries))%nat) by lia. revert Hlen.
  generalize (S (length entries)) as fuel.
  induction He as [|e entries [Hn Hk] He IH]; intros fuel Hf; (destruct fuel as [|fuel]; [lia|]).
  - cbn [read_all]. rewrite readdir_open by done. cbn. destruct (errno =? 0); done.
  - cbn [map app read_all]. rewrite readdir_open by done. cbn [event_of readdir_loop].
    rewrite is_dot_or_dot_dot_ok by done. cbn [exec_bind List.filter length] in *.
    destruct (dots (e_name e)); cbn [negb].
    + specialize (IH (S fuel) ltac:(lia)). cbn [read_all] in IH. rewrite readdir_open in IH by done.
      exact IH.
    + cbn [exec_bind fst snd]. rewrite IH by lia. cbn [exec_bind]. destruct (errno =? 0); [|done].
      unfold listed at 2. cbn [map]. do 3 f_equal. unfold event_of.
      case_bool_decide as Hh; [subst s; rewrite andb_false_r; destruct (e_typed e); done|].
      rewrite andb_true_r. destruct (e_typed e); [rewrite kinds_agree by done; done|].
      unfold val_file_type. rewrite bool_decide_false by done. done.
Qed.

Lemma readdir_correct_witness :
  read_all 4 Linux (Some [Entry [46] 4; Entry [97] 8; Entry [46; 97] 0; Dir_error 0]) =
  Done (Value [([97], 0); ([46; 97], 7)]).
Proof.
  apply (proj1 (readdir_correct Linux
    [{| e_name := [46]; e_mode := 0x41ed; e_typed := true |};
     {| e_name := [97]; e_mode := 0x81a4; e_typed := true |};
     {| e_name := [46; 97]; e_mode := 0x81a4; e_typed := false |}] 0
    ltac:(repeat constructor; vm_compute; (discriminate || auto 10 using list_elem_of_here, list_elem_of_further)))
    ltac:(discriminate)).
Defined.

(** ** Waiting *)

(** How the system encodes the end of a process. *)
Definition status_of (p : process_status) (core : bool) : Z :=
  match p with
  | WEXITED n => Z.shiftl n 8
  | WSIGNALED n => n + (if core then 0x80 else 0)
  | WSTOPPED n => Z.shiftl n 8 + 0x7f
  end.
Definition status_range (p : process_status) : Prop :=
  match p with
  | WEXITED n | WSTOPPED n => 0 <= n < 256
  | WSIGNALED n => 1 <= n < 127
  end.
Definition rename_signal (f : Z -> Z) (p : process_status) : process_status :=
  match p with
  | WEXITED n => WEXITED n
  | WSIGNALED n => WSIGNALED (f n)
  | WSTOPPED n => WSTOPPED (f n)
  end.

Lemma process_status_ok f p core : status_range p ->
  alloc_process_status f (status_of p core) = rename_signal f p.
Proof.
  unfold alloc_process_status.
  destruct p as [n|n|n]; cbn [status_of status_range rename_signal]; intros Hn.
  - assert (Hc : forallb (fun n => WIFEXITED (Z.shiftl n 8) && (WEXITSTATUS (Z.shiftl n 8) =? n))
      (seqZ 0 256) = true) by reflexivity.
    pose proof (forallb_below _ _ Hc n Hn) as [E ?]%andb_true_iff. rewrite E. f_equal. lia.
  - assert (Hc : forallb (fun n => (n =? 0) || forallb (fun c : Z => negb (WIFEXITED (n + c)) &&
      negb (WIFSTOPPED (n + c)) && (WTERMSIG (n + c) =? n)) [0; 0x80]) (seqZ 0 127) = true) by reflexivity.
    pose proof (forallb_below _ _ Hc n ltac:(lia)) as H. cbv beta in H.
    rewrite (proj2 (Z.eqb_neq n 0)) in H by lia. cbn [orb forallb] in H.
    rewrite !andb_true_iff, !negb_true_iff, !Z.eqb_eq in H.
    destruct H as (((E1 & E2) & E3) & ((F1 & F2) & F3) & _).
    destruct core; [rewrite F1, F2, F3|rewrite E1, E2, E3]; done.
  - assert (Hc : forallb (fun n => negb (WIFEXITED (Z.shiftl n 8 + 0x7f)) && WIFSTOPPED (Z.shiftl n 8 + 0x7f) &&
      (WSTOPSIG (Z.shiftl n 8 + 0x7f) =? n)) (seqZ 0 256) = true) by reflexivity.
    pose proof (forallb_below _ _ Hc n Hn) as H. cbv beta in H.
    rewrite !andb_true_iff, !negb_true_iff, !Z.eqb_eq in H. destruct H as ((E1 & E2) & E3).
    rewrite E1, E2, E3. done.
Qed.

(** The resource usage that arrives. *)
Definition usage_range (ru : rusage) : Prop :=
  representable (ru_utime ru).1 /\ 0 <= (ru_utime ru).2 < 1000000 /\
  representable (ru_stime ru).1 /\ 0 <= (ru_stime ru).2 < 1000000 /\
  Forall (fun z => 0 <= z < 2 ^ 62)
    [ru_maxrss ru; ru_minflt ru; ru_majflt ru; ru_inblock ru; ru_oublock ru; ru_nvcsw ru; ru_nivcsw ru].
Definition usage_of (ru : rusage) : list Z :=
  [(ru_utime ru).1 * 1000000000 + (ru_utime ru).2 * 1000;
   (ru_stime ru).1 * 1000000000 + (ru_stime ru).2 * 1000;
   ru_maxrss ru; ru_minflt ru; ru_majflt ru; ru_inblock ru; ru_oublock ru; ru_nvcsw ru; ru_nivcsw ru].

Lemma resource_usage_ok ru : usage_range ru -> alloc_resource_usage ru = Done (usage_of ru).
Proof.
  intros (U1 & U2 & S1 & S2 & Hr). unfold alloc_resource_usage.
  destruct (timeval_ok _ _ U1 U2) as [-> Vu]. destruct (timeval_ok _ _ S1 S2) as [-> Vs].
  cbn [exec_bind map]. rewrite Vu, Vs. unfold usage_of. do 3 f_equal.
  transitivity (map Val_long [ru_maxrss ru; ru_minflt ru; ru_majflt ru; ru_inblock ru; ru_oublock ru;
    ru_nvcsw ru; ru_nivcsw ru]); [done|].
  induction Hr as [|z l Hz Hr IH]; [done|]. cbn [map]. rewrite Val_long_small, IH by done. done.
Qed.

(** What can happen to a wait, the answer that tells it, and what OCaml should get. *)
Inductive outcome :=
| Nothing_ready
| No_child
| Refused (e : Z)
| Ended (pid : Z) (how : process_status) (core : bool) (ru : rusage).
Definition answer_of (o : outcome) : wait_answer :=
  match o with
  | Nothing_ready => Wait_none
  | No_child => Wait_errno ECHILD
  | Refused e => Wait_errno e
  | Ended pid how core ru => Wait_child pid (status_of how core) ru
  end.
Definition outcome_range (o : outcome) : Prop :=
  match o with
  | Refused e => e <> ECHILD
  | Ended _ how _ ru => status_range how /\ usage_range ru
  | _ => True
  end.
Definition result_of (conv : Z -> Z) (time : Z) (o : outcome) :
  caml (option (Z * process_status * Z * list Z)) :=
  match o with
  | Nothing_ready | No_child => Value None
  | Refused e => Raise (Unix_error e "wait4" [])
  | Ended pid how _ ru => Value (Some (pid, rename_signal conv how, time, usage_of ru))
  end.

(** C35.  On every system but Windows, waiting gives nothing when no child is ready or there
    is none, and raises any other error of [wait4], whatever [errno] held before and whatever
    reading the clock leaves in it.  For a child it gives its number, how it ended as the
    system encoded it (exit code, terminating signal with or without a core file, stopping
    signal), the time to the unit of the system's clock and its resource usage, exactly.  On
    Windows waiting fails. *)
Theorem wait4_correct (conv clobber : Z -> Z) (s : system) (old_macos : bool) (wait4 : Z -> Z -> wait_answer)
  (errno v_pid : Z) (flags : list wait_flag) (o : outcome) (sec nsec : Z) (rest : list answer) (cs : list call) :
  representable sec -> 0 <= nsec < 1000000000 ->
  wait4 (wait_pid s (signed 32 v_pid)) (caml_convert_flag_list flags) = answer_of o -> outcome_range o ->
  let w := at_ (clock_answer s old_macos sec nsec :: rest) cs in
  dune_wait4 conv s old_macos wait4 clobber errno v_pid flags w =
  Done (if bool_decide (s = Windows) then (Raise (Failure "wait4: not supported on windows"), w)
        else (result_of conv (clock_time s old_macos sec nsec) o,
              at_ rest (cs ++ [Call (clock_call s old_macos) []]))).
Proof.
  intros Hs Hn Ha Ho w. unfold dune_wait4. case_bool_decide; [done|]. cbv zeta. rewrite Ha.
  destruct (clock_ok s old_macos sec nsec rest cs Hs Hn) as [E V].
  unfold w. rewrite (bind_Done _ _ _ _ _ E). destruct o as [| |e|pid how core ru]; cbn [answer_of result_of].
  - done.
  - done.
  - rewrite (proj2 (Z.eqb_neq _ _) Ho). done.
  - destruct Ho as [Hh Hr]. unfold mbind, M_bind, lift.
    rewrite resource_usage_ok, process_status_ok by done. rewrite V. done.
Qed.

Lemma wait4_correct_witness :
  let ru := {| ru_utime := (1, 500000); ru_stime := (0, 7); ru_maxrss := 10; ru_minflt := 0; ru_majflt := 0;
               ru_inblock := 0; ru_oublock := 0; ru_nvcsw := 3; ru_nivcsw := 4 |} in
  dune_wait4 (fun n => - n) Linux false (fun _ _ => Wait_child 42 0x8b ru) (fun _ => 22) 0 (-1) [WNOHANG]
    (at_ [Bytes [1700000000; 5]] []) =
  Done (Value (Some (42, WSIGNALED (-11), 1700000000000000005, [1500000000; 7000; 10; 0; 0; 0; 0; 3; 4])),
        at_ [] [Call "clock_gettime" []]) /\
  dune_wait4 (fun n => - n) Linux false (fun _ _ => Wait_errno 4) (fun _ => 22) 0 (-1) [WNOHANG]
    (at_ [Bytes [1700000000; 5]] []) =
  Done (Raise (Unix_error 4 "wait4" []), at_ [] [Call "clock_gettime" []]).
Proof.
  intros ru. split.
  - apply (wait4_correct (fun n => - n) (fun _ => 22) Linux false (fun _ _ => Wait_child 42 0x8b ru) 0 (-1) [WNOHANG]
      (Ended 42 (WSIGNALED 11) true ru) 1700000000 5 [] []); [unfold representable; lia|lia|reflexivity|].
    split; [cbn; lia|]. unfold usage_range, representable. cbn. repeat split; try lia.
    repeat constructor; lia.
  - apply (wait4_correct (fun n => - n) (fun _ => 22) Linux false (fun _ _ => Wait_errno 4) 0 (-1) [WNOHANG]
      (Refused 4) 1700000000 5 [] []); [unfold representable; lia|lia|reflexivity|]. cbn. discriminate.
Defined.

(** ** Searching strings *)

Definition first_index (s : list Z) (c lo hi r : Z) : Prop :=
  (r = -1 /\ forall i, lo <= i < hi -> nth (Z.to_nat i) s 0 <> c) \/
  (lo <= r < hi /\ nth (Z.to_nat r) s 0 = c /\ forall i, lo <= i < r -> nth (Z.to_nat i) s 0 <> c).
Definition last_index (s : list Z) (c hi r : Z) : Prop :=
  (r = -1 /\ forall i, 0 <= i <= hi -> nth (Z.to_nat i) s 0 <> c) \/
  (0 <= r <= hi /\ nth (Z.to_nat r) s 0 = c /\ forall i, r < i <= hi -> nth (Z.to_nat i) s 0 <> c).

Lemma memchr_loop_ok n s i c : 0 <= i -> i + Z.of_nat n <= zlen s ->
  exists r, memchr_loop n s i c = Done r /\ first_index s c i (i + Z.of_nat n) (index_result r).
Proof.
  revert i. induction n as [|n IH]; intros i Hi Hn.
  - exists None. split; [done|]. left. split; [done|]. lia.
  - cbn [memchr_loop]. rewrite load_one by lia. cbn [exec_bind hd].
    destruct (Z.eqb_spec (nth (Z.to_nat i) s 0) c) as [Hc|Hc].
    + exists (Some i). split; [done|]. right. cbn. split; [lia|]. split; [done|]. lia.
    + destruct (IH (i + 1) ltac:(lia) ltac:(lia)) as (r & E & H). exists r. split; [done|].
      assert (Hs : forall j, i <= j -> i + 1 <= j \/ j = i) by lia.
      destruct H as [[-> H]|(Hr & Hc' & H)]; [left|right].
      * split; [done|]. intros j Hj. destruct (Hs j ltac:(lia)) as [?| ->]; [apply H; lia|done].
      * split; [lia|]. split; [done|]. intros j Hj.
        destruct (Hs j ltac:(lia)) as [?| ->]; [apply H; lia|done].
Qed.

Lemma memchr_ok s i c n : 0 <= i -> 0 <= n -> i + n <= zlen s -> 0 <= c < 256 ->
  exists r, memchr s i c n = Done r /\ first_index s c i (i + n) (index_result r).
Proof.
  intros Hi Hn Hl Hc. unfold memchr. rewrite !(proj2 (Z.leb_le _ _)) by lia. cbn [andb].
  rewrite wrap_small by (cbn; lia). destruct (memchr_loop_ok (Z.to_nat n) s i c Hi ltac:(lia)) as (r & E & H).
  exists r. rewrite Z2Nat.id in H by lia. done.
Qed.

Lemma rindex_loop_ok fuel s i c : -1 <= i < zlen s -> (Z.to_nat (i + 1) < fuel)%nat ->
  exists r, rindex_loop fuel s i c = Done r /\ last_index s c i r.
Proof.
  revert i. induction fuel as [|fuel IH]; intros i Hi Hf; [lia|]. cbn [rindex_loop].
  destruct (Z.leb_spec 0 i).
  - rewrite load_one by lia. cbn [exec_bind hd]. destruct (Z.eqb_spec (nth (Z.to_nat i) s 0) c) as [Hc|Hc].
    + exists i. split; [done|]. right. split; [lia|]. split; [done|]. lia.
    + destruct (IH (i - 1) ltac:(lia) ltac:(lia)) as (r & E & H'). exists r. split; [done|].
      assert (Hs : forall j, j <= i -> j <= i - 1 \/ j = i) by lia.
      destruct H' as [[-> H']|(Hr & Hc' & H')]; [left|right].
      * split; [done|]. intros j Hj. destruct (Hs j ltac:(lia)) as [?| ->]; [apply H'; lia|done].
      * split; [lia|]. split; [done|]. intros j Hj.
        destruct (Hs j ltac:(lia)) as [?| ->]; [apply H'; lia|done].
  - exists (-1). split; [done|]. left. split; [done|]. lia.
Qed.

(** C38.  From positions inside a string the searches end without reading outside it: they
    give the first occurrence from the position on, the last one up to it, or the first one
    in the range, and -1 exactly when there is none. *)
Theorem string_index_correct (s : list Z) (pos len c : Z) :
  zlen s < 2 ^ 62 -> 0 <= c < 256 ->
  (0 <= pos <= zlen s ->
     exists r, dune_string_index_from s pos c = Done r /\ first_index s c pos (zlen s) r) /\
  (-1 <= pos < zlen s ->
     exists r, dune_string_rindex_from s pos c = Done r /\ last_index s c pos r) /\
  (0 <= pos -> 0 <= len -> pos + len <= zlen s ->
     exists r, dune_bytes_index_in_range s pos len c = Done r /\ first_index s c pos (pos + len) r).
Proof.
  intros Hs Hc. split; [|split].
  - intros Hp. unfold dune_string_index_from. rewrite !wrap_small by (rewrite ?wrap_small; lia).
    destruct (memchr_ok s pos c (zlen s - pos)) as (r & -> & H); [lia..|].
    exists (index_result r). replace (zlen s) with (pos + (zlen s - pos)) at 1 by lia. done.
  - intros Hp. unfold dune_string_rindex_from. rewrite wrap_small by (cbn; lia).
    apply rindex_loop_ok; lia.
  - intros Hp Hl Hle. unfold dune_bytes_index_in_range. rewrite !wrap_small by lia.
    destruct (memchr_ok s pos c len) as (r & -> & H); [lia..|]. exists (index_result r). done.
Qed.

Lemma string_index_correct_witness :
  exists r, dune_string_rindex_from [97; 47; 98; 47; 99] 2 47 = Done r /\ last_index [97; 47; 98; 47; 99] 47 2 r.
Proof.
  apply (proj1 (proj2 (string_index_correct [97; 47; 98; 47; 99] 2 0 47 ltac:(reflexivity) ltac:(lia)))).
  split; [lia|reflexivity].
Defined.
