(* ===== verification/Rpc.v ===== *)
(** * Stubs of the RPC, trace, package, XDG and scheduler libraries

    [csexp_rpc_stubs.c], [dune_trace_stubs.c], [md5_stubs.c], [xdg_stubs.c],
    [dune_memo_stubs.c] and [subreaper_stubs.c]. *)

From Stdlib Require Import ZArith Lia.
From stdpp Require Import base numbers list strings.
From S2P Require Import Prelude Posix Stdune.
Local Open Scope Z_scope.

Definition UNIX_BUFFER_SIZE : Z := 65536.
Definition Max_long : Z := 2 ^ 62 - 1.

(** The value of a call that returns a number, or what its error raises. *)
Definition returns (op : string) (arg : list Z) (a : answer) : caml Z :=
  match a with
  | Ret v => Value v
  | Bytes _ => Value 0
  | Errno e => Raise (Unix_error e op arg)
  end.
Definition succeeds (op : string) (arg : list Z) (a : answer) : caml unit :=
  match a with Errno e => Raise (Unix_error e op arg) | _ => Value tt end.

(** ** [csexp_rpc_stubs.c] *)

Definition dune_rpc_registry_windows_process_id (s : system) (pid : Z) : caml Z :=
  if bool_decide (s = Windows) then
    if Max_long <? u64 pid then Raise (Failure "Windows process ID does not fit in an OCaml int")
    else Value pid
  else Raise (Invalid_argument "Windows process IDs are only available on Windows").

(** On other systems than macOS. *)
Definition dune_set_nosigpipe_other : caml unit := Raise (Invalid_argument "only implemented on macos").
Definition dune_pthread_chdir_is_osx_other : bool := false.
Definition dune_pthread_chdir_other : caml unit := Raise (Invalid_argument "__pthread_chdir not implemented").
Definition dune_reset_pthread_cwd_other : caml unit := Raise (Invalid_argument "__pthread_fchdir not implemented").

(** The system calls on the directory of the calling thread. *)
Definition __pthread_chdir (path : list Z) : M answer := sys "__pthread_chdir" path.
Definition __pthread_fchdir (fd : Z) : M answer := sys "__pthread_fchdir" [fd].

Definition dune_pthread_chdir_is_osx (s : system) : bool :=
  if bool_decide (s = Darwin) then true else dune_pthread_chdir_is_osx_other.

Definition dune_pthread_chdir (s : system) (dir : list Z) : M (caml unit) :=
  if bool_decide (s = Darwin) then
    a ← __pthread_chdir (c_string dir);
    mret (succeeds "__pthread_chdir" dir a)
  else mret dune_pthread_chdir_other.

Definition dune_reset_pthread_cwd (s : system) : M (caml unit) :=
  if bool_decide (s = Darwin) then
    a ← __pthread_fchdir (-1);
    mret (succeeds "__pthread_fchdir" [] a)
  else mret dune_reset_pthread_cwd_other.

Definition SOL_SOCKET : Z := 0xffff.
Definition SO_NOSIGPIPE : Z := 0x1022.

Definition dune_set_nosigpipe (s : system) (socket : Z) : M (caml unit) :=
  if bool_decide (s = Darwin) then
    a ← sys "setsockopt" [socket; SOL_SOCKET; SO_NOSIGPIPE; 1];
    mret (succeeds "setsockopt" [] a)
  else mret dune_set_nosigpipe_other.

Definition MSG_NOSIGNAL : Z := 0x4000.

(** The length and the position are cut to an [int]; a negative length is a huge number
    for [memmove], outside any buffer. *)
Definition dune_send (s : system) (fd : Z) (bytes : list Z) (v_pos v_len : Z) : M (caml Z) :=
  if bool_decide (s = Linux) then
    let len := signed 32 v_len in
    let len := if UNIX_BUFFER_SIZE <? len then UNIX_BUFFER_SIZE else len in
    let pos := signed 32 v_pos in
    iobuf ← lift (load_range bytes pos len);
    a ← sys "send" (fd :: MSG_NOSIGNAL :: iobuf);
    mret (returns "send" [] a)
  else mret (Raise (Invalid_argument "sendmsg without sigpipe only available on linux")).

(** ** [dune_trace_stubs.c] *)

Definition dune_trace_write (fd : Z) (buf : list Z) (offset length : Z) : M (caml Z) :=
  bs ← lift (load_range buf offset length);
  a ← sys "write" (fd :: bs);
  mret (returns "dune_trace_write" [] a).

Definition MAX_FDS : Z := 1024.
Definition PROC_PIDLISTFD_SIZE : Z := 8.
Definition ENOMEM : Z := 12.

Definition dune_trace_open_fds_other : caml Z := Raise (Failure "function is available only on macos").
Definition dune_trace_open_fds (s : system) (pid : Z) : M (caml Z) :=
  if bool_decide (s = Darwin) then
    let size := PROC_PIDLISTFD_SIZE * MAX_FDS in
    a ← sys "proc_pidinfo" [pid; size];
    mret (match a with
          | Errno e => if e =? ENOMEM then Value MAX_FDS else Raise (Failure "proc_pidinfo failed")
          | Ret size => Value (Z.quot size PROC_PIDLISTFD_SIZE)
          | Bytes _ => Value 0
          end)
  else mret dune_trace_open_fds_other.

Definition dune_trace_available (s : system) : bool :=
  if bool_decide (s = Darwin) then true else dune_pthread_chdir_is_osx_other.

(** ** [md5_stubs.c] *)

(** The runtime's MD5. *)
Class MD5 := {
  MD5Context : Type;
  caml_MD5Init : MD5Context;
  caml_MD5Update : MD5Context -> list Z -> MD5Context;
  caml_MD5Final : MD5Context -> list Z }.

Section Md5.
Context {Md : MD5}.

(** One pass: the context at the end of the file, or the error. *)
Definition md5_step (fd : Z) (ctx : MD5Context) : M (MD5Context + (MD5Context + Z)) :=
  a ← sys "read" [fd; UNIX_BUFFER_SIZE];
  match a with
  | Errno e => mret (if e =? EINTR then inl ctx else inr (inr e))
  | Bytes bs => mret (if zlen bs =? 0 then inr (inl ctx) else inl (caml_MD5Update ctx bs))
  | Ret _ => mret (inr (inl ctx))
  end.

Definition dune_pkg_md5_fd (fd : Z) : M (caml (list Z)) :=
  r ← loop (md5_step fd) caml_MD5Init;
  match r with
  | inr e => mret (Raise (Unix_error e "read" []))
  | inl ctx => mret (Value (caml_MD5Final ctx))
  end.
End Md5.

(** ** [xdg_stubs.c] *)

Definition FOLDERID_InternetCache : Z := 0.
Definition FOLDERID_LocalAppData : Z := 1.

(** The label [done] frees the string of the shell on every path. *)
Definition xdg_done (r : option (list Z)) : M (caml (option (list Z))) :=
  _ ← sys "CoTaskMemFree" [];
  mret (Value r).

(** The conversion is asked first for the length, then for the bytes; [0] is a failure. *)
Definition dune_xdg__get_known_folder_path (s : system) (v_known_folder : Z) :
  M (caml (option (list Z))) :=
  if negb (bool_decide (s = Windows)) then
    mret (Raise (Invalid_argument "get_known_folder_path: not implemented"))
  else if negb ((v_known_folder =? 0) || (v_known_folder =? 1)) then
    mret (Raise (Invalid_argument "get_known_folder_path"))
  else
    let rfid := if v_known_folder =? 0 then FOLDERID_InternetCache else FOLDERID_LocalAppData in
    a ← sys "SHGetKnownFolderPath" [rfid];
    match a with
    | Bytes wcp =>
        a ← sys "WideCharToMultiByte" wcp;
        match a with
        | Ret len =>
            if len =? 0 then xdg_done None else
            a ← sys "WideCharToMultiByte" (len :: wcp);
            match a with
            | Bytes path => xdg_done (Some path)
            | _ => xdg_done None
            end
        | _ => xdg_done None
        end
    | _ => xdg_done None
    end.

(** ** [dune_memo_stubs.c] and [subreaper_stubs.c] *)

Definition Max_young_wosize : Z := 256.
Definition dune_memo_max_young_wosize : Z := Val_long Max_young_wosize.

Definition PR_SET_CHILD_SUBREAPER : Z := 36.
Definition EINVAL : Z := 22.

Definition dune_scheduler_set_child_subreaper (s : system) : M (caml bool) :=
  if bool_decide (s = Linux) then
    a ← sys "prctl" [PR_SET_CHILD_SUBREAPER; 1; 0; 0; 0];
    mret (match a with
          | Errno e => if e =? EINVAL then Value false else Raise (Unix_error e "prctl" [])
          | _ => Value true
          end)
  else mret (Value false).

(** ** Theorems *)

(** A range of a buffer below 2 GiB is sent as it is, at most 64 KiB at a time. *)
Lemma dune_send_ok fd bytes pos len a rest cs :
  0 <= pos -> 0 <= len -> pos + len <= zlen bytes -> zlen bytes < 2 ^ 31 ->
  dune_send Linux fd bytes pos len (at_ (a :: rest) cs) =
  Done (returns "send" [] a,
        at_ rest (cs ++ [Call "send" (fd :: MSG_NOSIGNAL :: ztake (Z.min len UNIX_BUFFER_SIZE) (zdrop pos bytes))])).
Proof.
  intros Hp Hl Hr Hb. unfold dune_send. rewrite bool_decide_true by done.
  rewrite !signed_small by (cbn; lia).
  replace (if UNIX_BUFFER_SIZE <? len then UNIX_BUFFER_SIZE else len) with (Z.min len UNIX_BUFFER_SIZE)
    by (destruct (Z.ltb_spec UNIX_BUFFER_SIZE len); lia).
  unfold mbind, M_bind, lift, UNIX_BUFFER_SIZE. rewrite load_range_ok by lia. done.
Qed.

Section Md5Laws.
Context {Md : MD5}.

(** Feeding in pieces is feeding the whole. *)
Context (update_app : forall ctx a b, caml_MD5Update (caml_MD5Update ctx a) b = caml_MD5Update ctx (a ++ b)).
Context (update_nil : forall ctx, caml_MD5Update ctx [] = ctx).

(** Answers of [read] before the end of the file, and what they bring. *)
Definition reading (a : answer) : Prop := a = Errno EINTR \/ exists bs, a = Bytes bs /\ 0 < zlen bs.
Definition contents (reads : list answer) : list Z :=
  concat (map (fun a => match a with Bytes bs => bs | _ => [] end) reads).

Lemma md5_consuming fd : consuming (md5_step fd).
Proof. unfold md5_step. consumes. Qed.

Lemma md5_reads fd reads ctx rest cs : Forall reading reads ->
  loop (md5_step fd) ctx (at_ (reads ++ rest) cs) =
  loop (md5_step fd) (caml_MD5Update ctx (contents reads))
    (at_ rest (cs ++ log "read" [fd; UNIX_BUFFER_SIZE] (length reads))).
Proof using update_app update_nil.
  intros Hr. revert ctx cs. induction Hr as [|a reads Ha Hr IH]; intros ctx cs.
  - cbn. rewrite update_nil, app_nil_r. done.
  - cbn [app length]. rewrite log_S. destruct Ha as [->|(bs & -> & Hb)].
    + rewrite (loop_next _ ctx _ ctx (at_ (reads ++ rest) (cs ++ [Call "read" [fd; UNIX_BUFFER_SIZE]])));
        [|apply md5_consuming|done].
      apply IH.
    + rewrite (loop_next _ ctx _ (caml_MD5Update ctx bs)
        (at_ (reads ++ rest) (cs ++ [Call "read" [fd; UNIX_BUFFER_SIZE]]))); [|apply md5_consuming|].
      * rewrite IH, update_app. done.
      * unfold md5_step. rewrite bind_sys, (proj2 (Z.eqb_neq _ _)) by lia. done.
Qed.

(** Hashing a descriptor ends at the end of the file with the MD5 of all the bytes
    read, however they were split and however often [read] was interrupted; any other
    error of [read] is raised. *)
Theorem md5_fd_correct (fd : Z) (reads : list answer) (rest : list answer) (cs : list call) :
  Forall reading reads ->
  let done_ := cs ++ log "read" [fd; UNIX_BUFFER_SIZE] (S (length reads)) in
  dune_pkg_md5_fd fd (at_ (reads ++ Bytes [] :: rest) cs) =
    Done (Value (caml_MD5Final (caml_MD5Update caml_MD5Init (contents reads))), at_ rest done_) /\
  (forall e, e <> EINTR ->
     dune_pkg_md5_fd fd (at_ (reads ++ Errno e :: rest) cs) =
     Done (Raise (Unix_error e "read" []), at_ rest done_)).
Proof using update_app update_nil.
  intros Hr done_. unfold dune_pkg_md5_fd, mbind, M_bind. unfold done_. rewrite log_snoc. split.
  - rewrite md5_reads by done. erewrite loop_leave; [|reflexivity]. done.
  - intros e He. rewrite md5_reads by done. erewrite loop_leave.
    2: { unfold md5_step. rewrite bind_sys, (proj2 (Z.eqb_neq _ _) He). reflexivity. }
    done.
Qed.
End Md5Laws.

(** A stand-in for the hash that shows what it was given. *)
#[local] Instance transcript : MD5 := {| MD5Context := list Z; caml_MD5Init := [];
  caml_MD5Update := fun ctx bs => ctx ++ bs; caml_MD5Final := fun ctx => ctx |}.

Lemma md5_fd_correct_witness :
  dune_pkg_md5_fd 3 (at_ ([Bytes [1; 2]; Errno EINTR; Bytes [3]] ++ [Bytes []]) []) =
  Done (Value [1; 2; 3], at_ [] (log "read" [3; UNIX_BUFFER_SIZE] 4)).
Proof.
  apply (md5_fd_correct (Md := transcript) (fun ctx a b => eq_sym (app_assoc ctx a b)) (fun ctx => app_nil_r ctx)
    3 [Bytes [1; 2]; Errno EINTR; Bytes [3]] [] []).
  constructor; [right; eexists; split; reflexivity|]. constructor; [left; reflexivity|].
  constructor; [right; eexists; split; reflexivity|constructor].
Defined.
