(* ===== verification/FswatchWin.v ===== *)
(** * Watching files on Windows

    [fswatch_win_stubs.c].  A native thread owns the list of watched directories and reads
    messages from a completion port: notifications of the system, requests to add a
    directory, and the request to shut down.  One step of the thread is [thread_step]; the
    system's part is the list [armed] of the reads that are outstanding.  Packets of
    notifications are pushed on a list shared with the OCaml thread, whose interleavings
    are the subject of [FswatchQueue]; [parse_events] decodes them. *)

From Stdlib Require Import ZArith Lia.
From stdpp Require Import base numbers list strings.
From S2P Require Import Prelude Posix.
Local Open Scope Z_scope.

(** ** The watch thread *)

(** The pointer to a [struct watch] is [w_id]; NULL and [INVALID_HANDLE_VALUE] are [None];
    [w_overlapped] says whether the pointer to the [OVERLAPPED] is not NULL. *)
Record watch := Watch {
  w_id : Z;
  w_path : list Z;
  w_realpath : option (list Z);
  w_handle : option Z;
  w_overlapped : bool;
  w_buffer : option (list Z) }.

(** A [struct events] without its link. *)
Record packet := Packet { p_path : list Z; p_buffer : list Z }.

(** [closes] are the arguments of the calls of [CloseHandle]. *)
Record fsthread := Thread {
  watches : list watch;
  shuttingDown : bool;
  events : list packet;
  armed : list Z;
  closes : list (option Z);
  after_add : nat }.

(** Strings end where a NUL would be. *)
Fixpoint isprefix (prefix s : list Z) : bool :=
  match prefix, s with
  | [], _ => true
  | _ :: _, [] => false
  | c :: prefix, d :: s => (c =? d) && isprefix prefix s
  end.

(** Reading through a pointer that is NULL is a fault. *)
Definition non_null {A} (p : option A) : exec A := match p with Some a => Done a | None => Fault end.
Definition isprefix_ptr (prefix s : option (list Z)) : exec bool :=
  match prefix with
  | None => Fault
  | Some [] => Done true
  | Some p => let! s := non_null s in Done (isprefix p s)
  end.

(** The watch a pointer leads to; a pointer to a freed one is a fault. *)
Definition deref (id : Z) (l : list watch) : exec watch :=
  non_null (head (filter (fun w => w_id w = id) l)).
Definition update (w : watch) (l : list watch) : list watch :=
  map (fun p => if w_id p =? w_id w then w else p) l.

Definition set_watches (l : list watch) (t : fsthread) : fsthread :=
  Thread l (shuttingDown t) (events t) (armed t) (closes t) (after_add t).
Definition CloseHandle (h : option Z) (t : fsthread) : fsthread :=
  Thread (watches t) (shuttingDown t) (events t) (armed t) (closes t ++ [h]) (after_add t).

(** What [malloc] and [_strdup] give while a packet is pushed and the next read is started:
    NULL or not, and for the buffer what is in it. *)
Record allocs := { a_node : bool; a_copy : bool; a_buffer : option (list Z) }.

(** [push_events] on the thread's side.  A NULL node is written to at once; a NULL buffer or
    path would be read by [parse_events]. *)
Definition push_events (m : allocs) (id : Z) (t : fsthread) : exec fsthread :=
  if negb (a_node m) then Fault else
  let! w := deref id (watches t) in
  let! b := non_null (w_buffer w) in
  if negb (a_copy m) then Fault else
  let w' := Watch (w_id w) (w_path w) (w_realpath w) (w_handle w) (w_overlapped w) None in
  Done (Thread (update w' (watches t)) (shuttingDown t) (Packet (w_path w) b :: events t)
          (armed t) (closes t) (after_add t)).

(** [fresh] is the new buffer that [malloc] gives; the system is not to be given NULL.  [ok]
    is whether the system accepts the read, which it does not through an invalid handle. *)
Definition read_changes (fresh : option (list Z)) (ok : bool) (id : Z) (t : fsthread) : exec (bool * fsthread) :=
  let! w := deref id (watches t) in
  if negb (w_overlapped w) then Fault else
  let! b := non_null (match w_buffer w with None => fresh | Some b => Some b end) in
  let w' := Watch (w_id w) (w_path w) (w_realpath w) (w_handle w) (w_overlapped w) (Some b) in
  let res := ok && match w_handle w with Some _ => true | None => false end in
  Done (res, Thread (update w' (watches t)) (shuttingDown t) (events t)
               (if res then id :: armed t else armed t) (closes t) (after_add t)).

(** [free_watch] closes the handle if it is still open. *)
Definition free_watch (w : watch) (t : fsthread) : fsthread :=
  match w_handle w with None => t | Some _ => CloseHandle (w_handle w) t end.

Definition remove_watch (id : Z) (t : fsthread) : exec fsthread :=
  let! w := deref id (watches t) in
  Done (free_watch w (set_watches (filter (fun p => w_id p <> id) (watches t)) t)).

(** [utf8_to_utf16] and [get_final_path] call the system twice, for the length and for the
    text; [n1] and [n2] are its answers, zero for an error, and [buf] whether [malloc] gave a
    buffer.  Text the system writes to NULL is a fault. *)
Definition utf8_to_utf16 (n1 : Z) (buf : bool) (n2 : Z) (text : list Z) : exec (option (list Z)) :=
  if n1 =? 0 then Done None else
  if n2 =? 0 then Done None else
  if buf then Done (Some text) else Fault.

(** The second answer is the length of the path, or the size it needs when the buffer is
    too small; the buffer is then left as [malloc] gave it, and reading it is a fault. *)
Definition get_final_path (n1 : Z) (buf : bool) (n2 : Z) (path : list Z) : exec (option (list Z)) :=
  if n1 =? 0 then Done None else
  if n2 =? 0 then Done None else
  if buf && (n2 <? n1) then Done (Some path) else Fault.

(** What the system does with a request to watch a path: the conversion of the name, the
    handle, the address of the new [struct watch], the final path, the [OVERLAPPED], and the
    registration with the port. *)
Record add_env := {
  e_utf16 : Z * bool * Z;
  e_handle : option Z;
  e_watch : option Z;
  e_final : Z * bool * Z;
  e_name : list Z;
  e_overlapped : bool;
  e_port : bool }.

(** Is some watched directory a prefix of the new one? *)
Fixpoint covered (realpath : option (list Z)) (l : list watch) : exec bool :=
  match l with
  | [] => Done false
  | p :: l =>
      let! b := isprefix_ptr (w_realpath p) realpath in
      if b then Done true else covered realpath l
  end.

(** [CancelIo], [CloseHandle], and forget the handle. *)
Definition close_watch (p : watch) : watch :=
  Watch (w_id p) (w_path p) (w_realpath p) None (w_overlapped p) (w_buffer p).

(** Close the watched directories inside the new one, also those closed before: their
    handle is [INVALID_HANDLE_VALUE]. *)
Fixpoint close_covered (realpath : option (list Z)) (l : list watch) : exec (list watch * list (option Z)) :=
  match l with
  | [] => Done ([], [])
  | p :: l =>
      let! b := isprefix_ptr realpath (w_realpath p) in
      let! r := close_covered realpath l in
      let '(l, hs) := r in
      if b then Done (close_watch p :: l, w_handle p :: hs)
      else Done (p :: l, hs)
  end.

(** The new watch, or [None]. *)
Definition add_watch (e : add_env) (path : list Z) (t : fsthread) : exec (option Z * fsthread) :=
  let! utf16path := utf8_to_utf16 (e_utf16 e).1.1 (e_utf16 e).1.2 (e_utf16 e).2 path in
  match utf16path with
  | None => Done (None, t)
  | Some _ =>
  match e_handle e with
  | None => Done (None, t)
  | Some handle =>
      let! id := non_null (e_watch e) in
      let! realpath := get_final_path (e_final e).1.1 (e_final e).1.2 (e_final e).2 (e_name e) in
      let w := Watch id path realpath (Some handle) (e_overlapped e) None in
      let! c := covered (w_realpath w) (watches t) in
      if c then Done (None, free_watch w t) else
      if negb (e_port e) then Done (None, free_watch w t) else
      let! r := close_covered (w_realpath w) (watches t) in
      let '(l, hs) := r in
      Done (Some (w_id w),
            Thread (w :: l) (shuttingDown t) (events t) (armed t) (closes t ++ hs) (after_add t))
  end end.

(** What [GetQueuedCompletionStatus] can give. *)
Inductive message :=
| Failed (key : option Z)
| Notified (key : Z) (bytes : list Z) (m : allocs) (read_ok : bool)
| Empty (key : Z)
| Add (path : list Z) (e : add_env) (fresh : option (list Z)) (read_ok : bool)
| Shutdown.

(** A completion ends the read it belongs to and leaves its data in the buffer. *)
Definition complete (id : Z) (bytes : option (list Z)) (t : fsthread) : exec fsthread :=
  let! w := deref id (watches t) in
  let l := match bytes with
           | None => watches t
           | Some b => update (Watch (w_id w) (w_path w) (w_realpath w) (w_handle w) (w_overlapped w) (Some b)) (watches t)
           end in
  Done (Thread l (shuttingDown t) (events t) (filter (fun k => k <> id) (armed t))
          (closes t) (after_add t)).

(** [if (read_changes(w) == 0) remove_watch(w, &watches)] *)
Definition read_or_remove (fresh : option (list Z)) (ok : bool) (id : Z) (t : fsthread) : exec fsthread :=
  let! r := read_changes fresh ok id t in
  if r.1 then Done r.2 else remove_watch id r.2.

Definition close_for_shutdown (t : fsthread) : fsthread :=
  Thread (map close_watch (watches t)) true (events t) (armed t)
    (closes t ++ map w_handle (watches t)) (after_add t).

Definition set_after_add (t : fsthread) : fsthread :=
  Thread (watches t) (shuttingDown t) (events t) (armed t) (closes t) (S (after_add t)).

(** One pass of the loop of [watch_thread]. *)
Definition thread_step (m : message) (t : fsthread) : exec fsthread :=
  match m with
  | Failed None => Done t
  | Failed (Some key) => let! t := complete key None t in remove_watch key t
  | Notified key bytes m ok =>
      let! t := complete key (Some bytes) t in
      if shuttingDown t then remove_watch key t
      else let! t := push_events m key t in read_or_remove (a_buffer m) ok key t
  | Empty key => complete key None t
  | Add path e fresh ok =>
      let! t :=
        if shuttingDown t then Done t
        else
          let! r := add_watch e path t in
          match r.1 with
          | None => Done r.2
          | Some id => read_or_remove fresh ok id r.2
          end in
      Done (set_after_add t)
  | Shutdown => Done (close_for_shutdown t)
  end.

(** The condition of the loop. *)
Definition running (t : fsthread) : bool :=
  negb (match watches t with [] => true | _ => false end) || negb (shuttingDown t).

Definition initial_thread : fsthread := Thread [] false [] [] [] 0.

(** The whole thread on a sequence of messages. *)
Fixpoint watch_thread (ms : list message) (t : fsthread) : exec fsthread :=
  match ms with
  | [] => Done t
  | m :: ms => if running t then let! t := thread_step m t in watch_thread ms t else Done t
  end.
