(* ===== verification/FswatchWinLaws.v ===== *)
(** * Watching files on Windows: the watch thread

    Along every sequence of messages the system can send, while [malloc] gives memory and
    the names of opened directories are known, the thread never follows a pointer to a
    freed watch, never gives the system a buffer it has freed, and closes every handle it
    opened exactly once; a notification is pushed with its data.  After a shutdown the
    thread ends, unless a read has completed without data: such a watch is never read
    again. *)

From Stdlib Require Import ZArith Lia.
From stdpp Require Import base numbers list strings.
From S2P Require Import Prelude Posix FswatchWin.
Local Open Scope Z_scope.

(** ** Lists of watches *)

Lemma deref_ok l w : NoDup (map w_id l) -> w ∈ l -> deref (w_id w) l = Done w.
Proof.
  unfold deref. induction l as [|p l IH]; intros Hn Hw; [by apply elem_of_nil in Hw|].
  cbn in Hn. apply NoDup_cons in Hn as [Hp Hn]. apply elem_of_cons in Hw as [->|Hw].
  - rewrite filter_cons_True by done. done.
  - rewrite filter_cons_False; [by apply IH|]. intros E. apply Hp. rewrite E.
    apply (list_elem_of_fmap_2 w_id). done.
Qed.

Lemma update_ids w l : map w_id (update w l) = map w_id l.
Proof.
  unfold update. rewrite map_map. apply map_ext. intros p. destruct (Z.eqb_spec (w_id p) (w_id w)); done.
Qed.

Lemma elem_of_update x w l : x ∈ update w l -> x = w \/ (x ∈ l /\ w_id x <> w_id w).
Proof.
  unfold update. intros (p & -> & Hp)%list_elem_of_fmap.
  destruct (Z.eqb_spec (w_id p) (w_id w)); [left|right]; done.
Qed.

Lemma update_elem x w l : x ∈ l -> w_id x = w_id w -> w ∈ update w l.
Proof.
  intros Hx E. unfold update. apply list_elem_of_fmap. exists x. rewrite E, Z.eqb_refl. done.
Qed.

Lemma update_other x w l : x ∈ l -> w_id x <> w_id w -> x ∈ update w l.
Proof.
  intros Hx E. unfold update. apply list_elem_of_fmap. exists x.
  rewrite (proj2 (Z.eqb_neq _ _) E). done.
Qed.

Lemma handles_cons p l : omap w_handle (p :: l) =
  match w_handle p with Some h => h :: omap w_handle l | None => omap w_handle l end.
Proof. done. Qed.

(** Changing anything but the handle of a watch keeps the handles. *)
Lemma update_handles w w' l : NoDup (map w_id l) -> w ∈ l -> w_id w' = w_id w -> w_handle w' = w_handle w ->
  omap w_handle (update w' l) = omap w_handle l.
Proof.
  intros Hn Hw Hi Hh. induction l as [|p l IH]; [done|]. cbn in Hn. apply NoDup_cons in Hn as [Hp Hn].
  assert (Hout : forall l, w_id w' ∉ map w_id l -> update w' l = l).
  { clear. intros l Hl. induction l as [|p l IH]; [done|]. cbn in Hl |- *.
    apply not_elem_of_cons in Hl as [Hne Hl]. rewrite (proj2 (Z.eqb_neq _ _)) by congruence.
    f_equal. auto. }
  change (update w' (p :: l)) with ((if w_id p =? w_id w' then w' else p) :: update w' l).
  apply elem_of_cons in Hw as [->|Hw].
  - rewrite Hi, Z.eqb_refl, Hout by (rewrite Hi; done). rewrite !handles_cons, Hh. done.
  - rewrite (proj2 (Z.eqb_neq _ _)).
    + rewrite !handles_cons, IH by done. done.
    + intros E. apply Hp. rewrite E, Hi. apply (list_elem_of_fmap_2 w_id). done.
Qed.

Lemma remove_handles w l : NoDup (map w_id l) -> w ∈ l ->
  omap w_handle l ≡ₚ option_list (w_handle w) ++ omap w_handle (filter (fun p => w_id p <> w_id w) l).
Proof.
  intros Hn Hw. induction l as [|p l IH]; [by apply elem_of_nil in Hw|].
  cbn in Hn. apply NoDup_cons in Hn as [Hp Hn]. apply elem_of_cons in Hw as [->|Hw].
  - rewrite filter_cons_False by auto.
    assert (E : filter (fun q => w_id q <> w_id p) l = l).
    { clear IH Hn. induction l as [|q l IH]; [done|]. cbn in Hp. apply not_elem_of_cons in Hp as [Hne Hp].
      rewrite filter_cons_True by auto. f_equal. auto. }
    rewrite E, handles_cons. destruct (w_handle p); done.
  - rewrite filter_cons_True.
    + rewrite !handles_cons. destruct (w_handle p) as [h|]; [|by apply IH]. rewrite IH by done.
      apply Permutation_middle.
    + intros E. apply Hp. rewrite E. apply (list_elem_of_fmap_2 w_id). done.
Qed.

Lemma filter_ids (P : watch -> Prop) `{!forall w, Decision (P w)} l :
  NoDup (map w_id l) -> NoDup (map w_id (filter P l)).
Proof.
  intros Hn. induction l as [|p l IH]; [done|]. cbn in Hn. apply NoDup_cons in Hn as [Hp Hn].
  destruct (decide (P p)).
  - rewrite filter_cons_True by done. cbn. apply NoDup_cons. split; [|auto].
    intros (q & E & Hq)%list_elem_of_fmap. apply Hp. rewrite E. apply list_elem_of_filter in Hq as [_ Hq].
    apply (list_elem_of_fmap_2 w_id). done.
  - rewrite filter_cons_False by done. auto.
Qed.

(** ** The invariant *)

Lemma omap_Some (l : list Z) : omap id (map Some l) = l.
Proof. induction l as [|x l IH]; [done|]. cbn. f_equal. done. Qed.

Lemma omap_handles l : omap id (map w_handle l) = omap w_handle l.
Proof. induction l as [|w l IH]; [done|]. cbn. destruct (w_handle w); cbn; rewrite IH; done. Qed.

(** The handles that have been closed; closing [INVALID_HANDLE_VALUE] does nothing. *)
Definition closed_handles (t : fsthread) : list Z := omap id (closes t).

Record thread_ok (opened : list Z) (t : fsthread) : Prop := {
  ok_ids : NoDup (map w_id (watches t));
  ok_armed : NoDup (armed t);
  ok_buffers : forall k, k ∈ armed t -> exists w, w ∈ watches t /\ w_id w = k /\ is_Some (w_buffer w);
  ok_paths : forall w, w ∈ watches t -> is_Some (w_realpath w) /\ w_overlapped w = true;
  ok_handles : omap w_handle (watches t) ++ closed_handles t ≡ₚ opened;
  ok_opened : NoDup opened }.

(** A change of one watch that keeps its identity, path and handle. *)
Lemma change_watch_ok opened t w w' arm ev :
  thread_ok opened t -> w ∈ watches t -> w_id w' = w_id w -> w_handle w' = w_handle w ->
  w_realpath w' = w_realpath w -> w_overlapped w' = w_overlapped w -> NoDup arm ->
  (forall k, k ∈ arm -> k = w_id w /\ is_Some (w_buffer w') \/ k <> w_id w /\ k ∈ armed t) ->
  thread_ok opened (Thread (update w' (watches t)) (shuttingDown t) ev arm (closes t) (after_add t)).
Proof.
  intros [I1 I2 I3 I4 I5 I6] Hw Hi Hh Hr Ho Hn Ha. split; cbn.
  - rewrite update_ids. done.
  - done.
  - intros k [(-> & Hb)|(Hk & Hin)]%Ha.
    + exists w'. split; [by apply (update_elem w)|]. done.
    + destruct (I3 k Hin) as (x & Hx & Ex & Hb). exists x. split; [|done].
      apply update_other; [done|]. congruence.
  - intros x [->|[Hx _]]%elem_of_update; [rewrite Hr, Ho|]; auto.
  - rewrite (update_handles w) by done. exact I5.
  - done.
Qed.

(** The watch [w] of [t] is still there in [t'], with this buffer, and not being read. *)
Definition idle (w : watch) (b : option (list Z)) (t : fsthread) : Prop :=
  Watch (w_id w) (w_path w) (w_realpath w) (w_handle w) (w_overlapped w) b ∈ watches t /\ w_id w ∉ armed t.

Lemma armed_watch opened t k : thread_ok opened t -> k ∈ armed t ->
  exists w, w ∈ watches t /\ w_id w = k /\ is_Some (w_buffer w).
Proof. intros Ht. apply (ok_buffers _ _ Ht). Qed.

Lemma filter_armed k (l : list Z) : NoDup l ->
  NoDup (filter (fun j => j <> k) l) /\ k ∉ filter (fun j => j <> k) l /\
  (forall j, j ∈ filter (fun j => j <> k) l -> j <> k /\ j ∈ l).
Proof.
  intros Hn. split; [by apply NoDup_filter|]. split.
  - intros [? _]%list_elem_of_filter. done.
  - intros j H%list_elem_of_filter. done.
Qed.

Lemma complete_some opened t w b : thread_ok opened t -> w ∈ watches t ->
  exists t', complete (w_id w) (Some b) t = Done t' /\ thread_ok opened t' /\ idle w (Some b) t' /\
    shuttingDown t' = shuttingDown t /\ events t' = events t.
Proof.
  intros Ht Hw. destruct (filter_armed (w_id w) _ (ok_armed _ _ Ht)) as (F1 & F2 & F3).
  unfold complete. rewrite deref_ok by (done || apply Ht). cbn [exec_bind].
  eexists. split; [done|]. split; [|split; [split; [|done]|done]].
  - eapply change_watch_ok; try done. intros k Hk. right. auto.
  - eapply update_elem; done.
Qed.

Lemma complete_none opened t w : thread_ok opened t -> w ∈ watches t ->
  exists t', complete (w_id w) None t = Done t' /\ thread_ok opened t' /\ watches t' = watches t /\
    w_id w ∉ armed t' /\ shuttingDown t' = shuttingDown t /\ events t' = events t.
Proof.
  intros Ht Hw. destruct (filter_armed (w_id w) _ (ok_armed _ _ Ht)) as (F1 & F2 & F3).
  unfold complete. rewrite deref_ok by (done || apply Ht). cbn [exec_bind].
  eexists. split; [done|]. split; [|done]. destruct Ht as [I1 I2 I3 I4 I5 I6]. split; try done.
  cbn. intros k [_ Hk]%F3. auto.
Qed.

Lemma remove_ok opened t w : thread_ok opened t -> w ∈ watches t -> w_id w ∉ armed t ->
  exists t', remove_watch (w_id w) t = Done t' /\ thread_ok opened t' /\ events t' = events t.
Proof.
  intros Ht Hw Ha. unfold remove_watch. rewrite deref_ok by (done || apply Ht). cbn [exec_bind].
  eexists. split; [done|]. pose proof (remove_handles w _ (ok_ids _ _ Ht) Hw) as Hp.
  destruct Ht as [I1 I2 I3 I4 I5 I6]. unfold free_watch, CloseHandle, set_watches.
  assert (Hall : thread_ok opened (Thread (filter (fun p => w_id p <> w_id w) (watches t)) (shuttingDown t)
    (events t) (armed t) (closes t ++ map Some (option_list (w_handle w))) (after_add t))).
  { split; cbn; [by apply filter_ids|done| | | |done].
    - intros k Hk. destruct (I3 k Hk) as (x & Hx & Ex & Hb). exists x. split; [|done].
      apply list_elem_of_filter. split; [|done]. congruence.
    - intros x [_ Hx]%list_elem_of_filter. auto.
    - unfold closed_handles. cbn. rewrite omap_app, omap_Some. fold (closed_handles t).
      rewrite <- I5, Hp. rewrite (Permutation_app_comm (closed_handles t)). rewrite !app_assoc.
      f_equiv. apply Permutation_app_comm. }
  destruct (w_handle w); cbn in Hall; rewrite ?app_nil_r in Hall; done.
Qed.

Lemma push_ok opened t w b m : thread_ok opened t -> w ∈ watches t -> w_buffer w = Some b -> w_id w ∉ armed t ->
  a_node m = true -> a_copy m = true ->
  exists t', push_events m (w_id w) t = Done t' /\ thread_ok opened t' /\ idle w None t' /\
    events t' = Packet (w_path w) b :: events t.
Proof.
  intros Ht Hw Hb Ha Hm Hc. unfold push_events. rewrite Hm, Hc, deref_ok by (done || apply Ht).
  cbn [exec_bind negb]. rewrite Hb. cbn [non_null exec_bind]. eexists. split; [done|]. split; [|split; [split; [|done]|done]].
  - eapply change_watch_ok; try done; [apply Ht|]. intros k Hk. right. split; [|done]. congruence.
  - eapply update_elem; done.
Qed.

Lemma read_or_remove_ok opened t w fresh ok : thread_ok opened t -> w ∈ watches t -> w_id w ∉ armed t ->
  is_Some fresh ->
  exists t', read_or_remove fresh ok (w_id w) t = Done t' /\ thread_ok opened t' /\ events t' = events t.
Proof.
  intros Ht Hw Ha [f ->]. unfold read_or_remove, read_changes. rewrite deref_ok by (done || apply Ht).
  cbn [exec_bind fst snd]. pose proof (proj2 (ok_paths _ _ Ht w Hw)) as Ho.
  destruct (w_overlapped w) eqn:Eo; [|done]. cbn [negb].
  assert (Hb : exists b, non_null (match w_buffer w with None => Some f | Some b => Some b end) = Done b)
    by (destruct (w_buffer w); eauto).
  destruct Hb as [b ->]. cbn [exec_bind fst snd]. set (w' := Watch _ _ _ _ _ (Some b)). set (res := ok && _). destruct res; cbn [fst snd].
  - eexists. split; [done|]. split; [|done]. apply (change_watch_ok opened t w w'); try done.
    + apply NoDup_cons. split; [done|apply Ht].
    + intros k [->|Hk]%elem_of_cons; [left|right]; [done|]. split; [|done]. congruence.
  - destruct (remove_ok opened (Thread (update w' (watches t)) (shuttingDown t) (events t) (armed t)
      (closes t) (after_add t)) w') as (t' & E & H & Hev).
    + apply (change_watch_ok opened t w w'); try done; [apply Ht|]. intros k Hk. right.
      split; [|done]. congruence.
    + eapply update_elem; done.
    + done.
    + exists t'. done.
Qed.

(** ** Adding and closing *)

(** Some of the watches have been closed. *)
Definition closing (p q : watch) : Prop := q = p \/ q = close_watch p.

Lemma closing_facts p q : closing p q ->
  w_id q = w_id p /\ (w_realpath q = w_realpath p /\ w_overlapped q = w_overlapped p) /\ w_buffer q = w_buffer p.
Proof. intros [->| ->]; done. Qed.

Lemma closing_list l l' : Forall2 closing l l' ->
  map w_id l' = map w_id l /\
  (forall q, q ∈ l' -> exists p, p ∈ l /\ closing p q) /\
  (forall p, p ∈ l -> exists q, q ∈ l' /\ closing p q).
Proof.
  induction 1 as [|p q l l' Hpq H (IH1 & IH2 & IH3)]; [split; [done|split; intros ? []%elem_of_nil]|].
  destruct (closing_facts p q Hpq) as (E & _). cbn. rewrite IH1, E. split; [done|]. split.
  - intros x [->|Hx]%elem_of_cons; [exists p; split; [apply list_elem_of_here|done]|].
    destruct (IH2 x Hx) as (y & Hy & ?). exists y. split; [by apply list_elem_of_further|done].
  - intros x [->|Hx]%elem_of_cons; [exists q; split; [apply list_elem_of_here|done]|].
    destruct (IH3 x Hx) as (y & Hy & ?). exists y. split; [by apply list_elem_of_further|done].
Qed.

(** Closing some watches and recording their handles keeps the invariant. *)
Lemma closing_ok opened t l' hs sd : thread_ok opened t -> Forall2 closing (watches t) l' ->
  omap w_handle l' ++ omap id hs ≡ₚ omap w_handle (watches t) ->
  thread_ok opened (Thread l' sd (events t) (armed t) (closes t ++ hs) (after_add t)).
Proof.
  intros [I1 I2 I3 I4 I5 I6] Hc Hh. destruct (closing_list _ _ Hc) as (C1 & C2 & C3). split; cbn; try done.
  - rewrite C1. done.
  - intros k Hk. destruct (I3 k Hk) as (p & Hp & E & Hb). destruct (C3 p Hp) as (q & Hq & Hpq).
    destruct (closing_facts p q Hpq) as (E1 & _ & E2). exists q. rewrite E1, E2. done.
  - intros q Hq. destruct (C2 q Hq) as (p & Hp & Hpq). destruct (closing_facts p q Hpq) as (_ & (-> & ->) & _). auto.
  - unfold closed_handles. cbn. rewrite omap_app. fold (closed_handles t). rewrite <- I5, <- Hh, <- app_assoc. f_equiv. apply Permutation_app_comm.
Qed.

Lemma isprefix_ptr_ok p s : is_Some p -> is_Some s -> exists b, isprefix_ptr p s = Done b.
Proof. intros [a ->] [b ->]. destruct a; cbn; eauto. Qed.

Lemma covered_ok rp l : is_Some rp -> (forall w, w ∈ l -> is_Some (w_realpath w)) ->
  exists b, covered rp l = Done b.
Proof.
  intros Hr. induction l as [|p l IH]; intros Hl; [eauto|]. cbn [covered].
  destruct (isprefix_ptr_ok (w_realpath p) rp) as [b ->]; [apply Hl, list_elem_of_here|done|].
  cbn [exec_bind]. destruct b; [eauto|]. apply IH. intros w Hw. apply Hl. by apply list_elem_of_further.
Qed.

Lemma close_covered_ok rp l : is_Some rp -> (forall w, w ∈ l -> is_Some (w_realpath w)) ->
  exists l' hs, close_covered rp l = Done (l', hs) /\ Forall2 closing l l' /\
    omap w_handle l' ++ omap id hs ≡ₚ omap w_handle l.
Proof.
  intros Hr. induction l as [|p l IH]; intros Hl; [exists [], []; done|]. cbn [close_covered].
  destruct (isprefix_ptr_ok rp (w_realpath p)) as [b ->]; [done|apply Hl, list_elem_of_here|].
  cbn [exec_bind]. destruct IH as (l' & hs & -> & Hc & Hh);
    [intros w Hw; apply Hl; by apply list_elem_of_further|]. cbn [exec_bind]. destruct b.
  - exists (close_watch p :: l'), (w_handle p :: hs).
    split; [done|]. split; [constructor; [right|]; done|]. rewrite !handles_cons. cbn [w_handle close_watch].
    destruct (w_handle p) as [h|]; [|done]. change (omap id (Some h :: hs)) with (h :: omap id hs). rewrite <- Hh. symmetry. apply Permutation_middle.
  - exists (p :: l'), hs. split; [done|]. split; [constructor; [left|]; done|]. rewrite !handles_cons.
    destruct (w_handle p); [cbn; rewrite Hh|]; done.
Qed.

Lemma isprefix_spec p s : isprefix p s = true <-> p `prefix_of` s.
Proof.
  revert s. induction p as [|c p IH]; intros s; cbn [isprefix].
  - split; [intros _; apply prefix_nil|]. destruct s; done.
  - destruct s as [|d s]; [split; [done|intros H%prefix_nil_inv; done]|].
    rewrite andb_true_iff, Z.eqb_eq, IH. split; [intros [-> H]; by apply prefix_cons|].
    intros H. split; [by apply prefix_cons_inv_1 in H|by apply prefix_cons_inv_2 in H].
Qed.

(** The handle a request opens. *)
Definition opens (e : add_env) : list Z :=
  if ((e_utf16 e).1.1 =? 0) || ((e_utf16 e).2 =? 0) then [] else option_list (e_handle e).

(** The system promises a fresh address and a fresh handle. *)
Definition good_env (e : add_env) (opened : list Z) (t : fsthread) : Prop :=
  (forall id, e_watch e = Some id -> id ∉ map w_id (watches t)) /\
  (forall h, e_handle e = Some h -> h ∉ opened).

(** [malloc] gives memory. *)
Definition allocated_env (e : add_env) : Prop :=
  (e_utf16 e).1.2 = true /\ is_Some (e_watch e) /\ (e_final e).1.2 = true /\ e_overlapped e = true.

(** The system knows the name of a directory it has opened, and the name does not become
    longer between the two calls. *)
Definition named_env (e : add_env) : Prop :=
  is_Some (e_handle e) -> 0 < (e_final e).2 < (e_final e).1.1.

Lemma get_final_path_named e : allocated_env e -> 0 < (e_final e).2 < (e_final e).1.1 ->
  get_final_path (e_final e).1.1 (e_final e).1.2 (e_final e).2 (e_name e) = Done (Some (e_name e)).
Proof.
  intros (_ & _ & Hb & _) [H1 H2]. unfold get_final_path. rewrite Hb, !(proj2 (Z.eqb_neq _ _)) by lia.
  rewrite (proj2 (Z.ltb_lt _ _)) by lia. done.
Qed.

Lemma utf16_cases e path : allocated_env e ->
  utf8_to_utf16 (e_utf16 e).1.1 (e_utf16 e).1.2 (e_utf16 e).2 path =
  Done (if ((e_utf16 e).1.1 =? 0) || ((e_utf16 e).2 =? 0) then None else Some path).
Proof. intros (Hb & _). unfold utf8_to_utf16. rewrite Hb. destruct (_ =? 0), (_ =? 0); done. Qed.

Lemma forget_new_ok opened t w h : thread_ok opened t -> h ∉ opened -> w_handle w = Some h ->
  thread_ok (h :: opened) (free_watch w t).
Proof.
  intros [I1 I2 I3 I4 I5 I6] Hh Hw. unfold free_watch, CloseHandle. rewrite Hw. split; cbn; try done.
  - unfold closed_handles. cbn. rewrite omap_app. cbn. fold (closed_handles t). rewrite app_assoc, I5. apply Permutation_app_comm.
  - apply NoDup_cons. done.
Qed.

Lemma add_watch_ok opened t e path : thread_ok opened t -> good_env e opened t -> allocated_env e -> named_env e ->
  exists r t', add_watch e path t = Done (r, t') /\ thread_ok (opens e ++ opened) t' /\ events t' = events t /\
    (forall id, r = Some id -> exists w, w ∈ watches t' /\ w_id w = id /\ id ∉ armed t').
Proof.
  intros Ht (Hid & Hh) Hal Hnm. unfold add_watch, opens. rewrite (utf16_cases e path Hal). cbn [exec_bind].
  destruct (_ || _); [exists None, t; done|].
  destruct (e_handle e) as [h|] eqn:Eh; [|exists None, t; done]. specialize (Hh h eq_refl) as Hf. cbn [option_list app].
  assert (Hna := Hnm ltac:(rewrite Eh; eauto)). pose proof Hal as (_ & [id Eid] & _ & Ho). rewrite Eid.
  specialize (Hid id Eid). cbn [non_null exec_bind].
  rewrite (get_final_path_named e Hal Hna). cbn [exec_bind]. assert (Hr : is_Some (Some (e_name e))) by eauto.
  assert (Hpaths : forall w, w ∈ watches t -> is_Some (w_realpath w)) by (intros w Hw; apply (ok_paths _ _ Ht w Hw)).
  set (w := Watch _ _ _ _ _ _). destruct (covered_ok (Some (e_name e)) (watches t) Hr Hpaths) as [c Ec].
  cbn [w_realpath w]. rewrite Ec. cbn [exec_bind].
  assert (Hn : thread_ok (h :: opened) (free_watch w t)) by (apply forget_new_ok; done).
  destruct c; [exists None, (free_watch w t); done|].
  destruct (e_port e); cbn [negb]; [|exists None, (free_watch w t); done].
  destruct (close_covered_ok (Some (e_name e)) (watches t) Hr Hpaths) as (l' & hs & -> & Hc & Hp).
  cbn [exec_bind]. pose proof (closing_ok opened t l' hs (shuttingDown t) Ht Hc Hp) as [I1 I2 I3 I4 I5 I6].
  destruct (closing_list _ _ Hc) as (C1 & _). cbn in I1, I2, I3, I4, I5.
  do 2 eexists. split; [done|]. split; [|split; [done|]].
  - split; cbn; try done.
    + apply NoDup_cons. rewrite C1 in I1 |- *. done.
    + intros k Hk. destruct (I3 k Hk) as (x & Hx & ?). exists x. split; [by apply list_elem_of_further|done].
    + intros x [->|Hx]%elem_of_cons; auto.
    + apply perm_skip. done.
    + apply NoDup_cons. done.
  - intros id' [= <-]. exists w. split; [apply list_elem_of_here|]. split; [done|]. cbn. intros Hk.
    destruct (ok_buffers _ _ Ht _ Hk) as (x & Hx & E & _). apply Hid. rewrite <- E.
    apply (list_elem_of_fmap_2 w_id). done.
Qed.

(** ** The runs of the thread *)

(** The messages the system can send: a completion belongs to an outstanding read. *)
Definition enabled (m : message) (opened : list Z) (t : fsthread) : Prop :=
  match m with
  | Failed None | Shutdown => True
  | Failed (Some k) | Notified k _ _ _ | Empty k => k ∈ armed t
  | Add _ e _ _ => good_env e opened t
  end.

(** Every allocation of the pass succeeds, and the names of directories are known; during a
    shutdown nothing is allocated or opened. *)
Definition allocated (m : message) (t : fsthread) : Prop :=
  shuttingDown t = false ->
  match m with
  | Notified _ _ a _ => a_node a = true /\ a_copy a = true /\ is_Some (a_buffer a)
  | Add _ e fresh _ => allocated_env e /\ is_Some fresh
  | _ => True
  end.
Definition named (m : message) (t : fsthread) : Prop :=
  shuttingDown t = false -> match m with Add _ e _ _ => named_env e | _ => True end.

Definition opened_by (m : message) (t : fsthread) : list Z :=
  match m with
  | Add _ e _ _ => if shuttingDown t then [] else opens e
  | _ => []
  end.

Inductive reach : list Z -> fsthread -> Prop :=
| reach_initial : reach [] initial_thread
| reach_step opened m t t' : reach opened t -> running t = true -> enabled m opened t ->
    allocated m t -> named m t -> thread_step m t = Done t' -> reach (opened_by m t ++ opened) t'.

(** What one pass does to the shared list. *)
Definition pushes (m : message) (t t' : fsthread) : Prop :=
  match m with
  | Notified k bytes _ _ =>
      if shuttingDown t then events t' = events t
      else exists w, w ∈ watches t /\ w_id w = k /\ events t' = Packet (w_path w) bytes :: events t
  | _ => events t' = events t
  end.

Lemma close_all_handles l : omap w_handle (map close_watch l) = [].
Proof. induction l; done. Qed.

Lemma thread_step_ok opened m t : thread_ok opened t -> enabled m opened t -> allocated m t -> named m t ->
  exists t', thread_step m t = Done t' /\ thread_ok (opened_by m t ++ opened) t' /\ pushes m t t'.
Proof.
  intros Ht He Hal Hnm. unfold allocated, named in Hal, Hnm. destruct m as [[k|]|k bytes al ok|k|path e fresh ok|]; cbn [enabled] in He;
    cbn [thread_step opened_by app pushes].
  - destruct (armed_watch _ _ _ Ht He) as (w & Hw & <- & _).
    destruct (complete_none _ _ _ Ht Hw) as (t1 & -> & H1 & W1 & A1 & _ & E1). cbn [exec_bind].
    destruct (remove_ok _ t1 w H1) as (t2 & E & H2 & E2); [rewrite W1; done|done|].
    exists t2. rewrite E2. done.
  - exists t. done.
  - destruct (armed_watch _ _ _ Ht He) as (w & Hw & <- & _).
    destruct (complete_some _ _ _ bytes Ht Hw) as (t1 & -> & H1 & (W1 & A1) & S1 & E1). cbn [exec_bind].
    rewrite S1. set (w1 := Watch _ _ _ _ _ _) in W1. destruct (shuttingDown t).
    + destruct (remove_ok _ t1 w1 H1 W1 A1) as (t2 & E & H2 & E2). exists t2. rewrite E2. done.
    + destruct (Hal eq_refl) as (Hm & Hc & Hb).
      destruct (push_ok _ t1 w1 bytes al H1 W1 eq_refl A1 Hm Hc) as (t2 & E & H2 & (W2 & A2) & E2).
      change (w_id w1) with (w_id w) in E. rewrite E. cbn [exec_bind].
      destruct (read_or_remove_ok _ t2 _ (a_buffer al) ok H2 W2 A2 Hb) as (t3 & E' & H3 & E3). exists t3.
      split; [exact E'|]. split; [done|]. exists w. rewrite E3, E2, E1. done.
  - destruct (armed_watch _ _ _ Ht He) as (w & Hw & <- & _).
    destruct (complete_none _ _ _ Ht Hw) as (t1 & E & H1 & _ & _ & _ & E1). exists t1. done.
  - assert (Hset : forall op t1, thread_ok op t1 -> thread_ok op (set_after_add t1))
      by (intros op t1 [? ? ? ? ? ?]; split; done).
    destruct (shuttingDown t); [exists (set_after_add t); auto|].
    destruct (Hal eq_refl) as [Hae Hfr]. destruct (add_watch_ok _ _ _ path Ht He Hae (Hnm eq_refl)) as (r & t1 & -> & H1 & E1 & Hr). cbn [exec_bind fst snd].
    destruct r as [id|]; [|exists (set_after_add t1); auto].
    destruct (Hr id eq_refl) as (w & Hw & <- & Ha).
    destruct (read_or_remove_ok _ t1 w fresh ok H1 Hw Ha Hfr) as (t2 & -> & H2 & E2). cbn [exec_bind].
    exists (set_after_add t2). split; [done|]. split; [auto|]. cbn. congruence.
  - exists (close_for_shutdown t). split; [done|]. split; [|done].
    apply (closing_ok opened t (map close_watch (watches t)) (map w_handle (watches t)) true Ht).
    + apply Forall2_fmap_r, Forall_Forall2_diag, Forall_forall. intros w _. right. done.
    + rewrite close_all_handles, omap_handles. done.
Qed.

Lemma reach_ok opened t : reach opened t -> thread_ok opened t.
Proof.
  induction 1 as [|opened m t t' _ IH _ He Ha Hn E].
  - split; [constructor|constructor|intros ? []%elem_of_nil|intros ? []%elem_of_nil|reflexivity|constructor].
  - destruct (thread_step_ok opened m t IH He Ha Hn) as (t1 & E1 & H1 & _). congruence.
Qed.


Definition sample_env : add_env :=
  {| e_utf16 := (2, true, 2); e_handle := Some 7; e_watch := Some 100; e_final := (3, true, 2);
     e_name := [92; 97]; e_overlapped := true; e_port := true |}.
Definition sample_add : message := Add [97] sample_env (Some [0]) true.
Definition sample_thread : fsthread :=
  Thread [Watch 100 [97] (Some [92; 97]) (Some 7) true (Some [0])] false [] [100] [] 1.

Lemma sample_add_good : enabled sample_add [] initial_thread /\
  allocated sample_add initial_thread /\ named sample_add initial_thread.
Proof.
  split; [split; intros; apply not_elem_of_nil|]. split; [|intros _ _; cbn; lia].
  intros _. split; [|eauto]. split; [done|]. split; [cbn; eauto|done].
Qed.



(** ** A read that completes without data *)

(** The watch [k] is in the list, but nothing is being read for it. *)
Definition silent (k : Z) (t : fsthread) : Prop := k ∈ map w_id (watches t) /\ k ∉ armed t.

Lemma bind_inv {A B} (m : exec A) (f : A -> exec B) b : exec_bind m f = Done b ->
  exists a, m = Done a /\ f a = Done b.
Proof. destruct m; try done. eauto. Qed.

(** [unbind H]: the values a computation that ended in [Done] went through. *)
Ltac unbind H :=
  repeat match type of H with
  | exec_bind _ _ = Done _ =>
      let a := fresh "a" in let E := fresh "E" in
      apply bind_inv in H as (a & E & H)
  end.

Lemma filter_out_ids k id l : id <> k -> k ∈ map w_id l ->
  k ∈ map w_id (filter (fun p => w_id p <> id) l).
Proof.
  intros Hne (w & -> & Hw)%list_elem_of_fmap. apply (list_elem_of_fmap_2 w_id).
  apply list_elem_of_filter. auto.
Qed.

Lemma remove_silent k id t t' : id <> k -> silent k t -> remove_watch id t = Done t' -> silent k t'.
Proof.
  intros Hne [Hk Ha] H. unfold remove_watch in H. unbind H. injection H as <-.
  unfold free_watch, CloseHandle. destruct (w_handle _); (split; [|done]); cbn; by apply filter_out_ids.
Qed.

Lemma complete_silent k id b t t' : silent k t -> complete id b t = Done t' -> silent k t'.
Proof.
  intros [Hk Ha] H. unfold complete in H. unbind H. injection H as <-. split; cbn.
  - destruct b; [rewrite update_ids|]; done.
  - intros [_ ?]%list_elem_of_filter. done.
Qed.

(** What the parts of a pass do to the list of watches and to the outstanding reads. *)
Lemma read_changes_ids fresh ok id t r : read_changes fresh ok id t = Done r ->
  map w_id (watches r.2) = map w_id (watches t) /\ armed r.2 = if r.1 then id :: armed t else armed t.
Proof.
  intros H. unfold read_changes in H. unbind H. destruct (negb _); [done|]. unbind H. injection H as <-. cbn.
  rewrite update_ids. done.
Qed.

Lemma push_ids m id t t' : push_events m id t = Done t' ->
  map w_id (watches t') = map w_id (watches t) /\ armed t' = armed t.
Proof.
  intros H. unfold push_events in H. destruct (negb _); [done|]. unbind H. destruct (negb _); [done|].
  injection H as <-. cbn. rewrite update_ids. done.
Qed.

Lemma close_covered_ids rp l l' hs : close_covered rp l = Done (l', hs) -> map w_id l' = map w_id l.
Proof.
  revert l' hs. induction l as [|p l IH]; intros l' hs H; cbn [close_covered] in H; [injection H as <- <-; done|].
  unbind H. destruct a0 as [l1 hs1]. destruct a; injection H as <- _; cbn; rewrite (IH _ _ E0); done.
Qed.

Lemma add_watch_ids e path t r t' : add_watch e path t = Done (r, t') ->
  armed t' = armed t /\ map w_id (watches t') = option_list r ++ map w_id (watches t) /\
  (forall id, r = Some id -> e_watch e = Some id).
Proof.
  intros H. unfold add_watch in H. unbind H. destruct a; [|injection H as <- <-; done].
  destruct (e_handle e) as [h|]; [|injection H as <- <-; done]. unbind H.
  destruct a1; [injection H as <- <-; done|]. destruct (negb (e_port e)); [injection H as <- <-; done|].
  unbind H. destruct a1 as [l' hs]. injection H as <- <-. apply close_covered_ids in E3. cbn. rewrite E3.
  split; [done|]. split; [done|]. intros id [= <-]. destruct (e_watch e); [|done]. cbn in E0. congruence.
Qed.

Lemma read_or_remove_silent k id fresh ok t t' : id <> k -> silent k t ->
  read_or_remove fresh ok id t = Done t' -> silent k t'.
Proof.
  intros Hne [Hk Ha] H. unfold read_or_remove in H. unbind H. apply read_changes_ids in E as [E1 E2].
  destruct a.1.
  - injection H as <-. split; [rewrite E1; done|]. rewrite E2. apply not_elem_of_cons. auto.
  - apply (remove_silent k) in H; [done|done|]. split; [rewrite E1|rewrite E2]; done.
Qed.

Lemma add_silent k e path opened t r t' : good_env e opened t -> silent k t ->
  add_watch e path t = Done (r, t') -> silent k t' /\ forall id, r = Some id -> id <> k.
Proof.
  intros [Hid _] [Hk Ha] H. apply add_watch_ids in H as (H1 & H2 & H3). split.
  - split; [rewrite H2; apply elem_of_app; by right|rewrite H1; done].
  - intros id Hr Ek. apply (Hid id); [auto|]. rewrite Ek. done.
Qed.

Lemma step_silent k m opened t t' : enabled m opened t -> silent k t -> thread_step m t = Done t' -> silent k t'.
Proof.
  intros He Hs H. assert (Hne : forall j, j ∈ armed t -> j <> k) by (intros j Hj ->; by apply Hs).
  destruct m as [[j|]|j bytes al ok|j|path e fresh ok|]; cbn [enabled thread_step] in He, H.
  - unbind H. apply (complete_silent k) in E; [|done]. by eapply remove_silent; eauto.
  - congruence.
  - unbind H. apply (complete_silent k) in E; [|done]. destruct (shuttingDown a).
    { by eapply remove_silent; eauto. }
    unbind H. apply push_ids in E0 as [P1 P2]. eapply read_or_remove_silent; [..|exact H]; [auto|].
    destruct E. split; [rewrite P1|rewrite P2]; done.
  - by eapply complete_silent; eauto.
  - unbind H. injection H as <-. assert (silent k a); [|done]. destruct (shuttingDown t); [congruence|].
    unbind E. destruct a0 as [r t1]. destruct (add_silent k e path opened t r t1) as [H1 H2]; [done..|].
    cbn [fst snd] in E. destruct r as [id|]; [|congruence]. eapply read_or_remove_silent; [..|exact E]; auto.
  - injection H as <-. destruct Hs as [Hk Ha]. split; [|done]. cbn. rewrite map_map. exact Hk.
Qed.

(** The states that can follow [t]. *)
Inductive later : list Z -> fsthread -> list Z -> fsthread -> Prop :=
| later_refl opened t : later opened t opened t
| later_step opened t opened' m t' t'' : later opened t opened' t' -> running t' = true ->
    enabled m opened' t' -> thread_step m t' = Done t'' ->
    later opened t (opened_by m t' ++ opened') t''.

(** When a read completes without data, which is how the system reports that its buffer
    overflowed, no read is started again: the watch stays in the list and silent whatever
    happens, and so the loop of the thread never ends, not even after a shutdown. *)
Theorem empty_completion_wedges (opened opened' : list Z) (k : Z) (t t1 t2 : fsthread) :
  reach opened t -> k ∈ armed t -> thread_step (Empty k) t = Done t1 -> later opened t1 opened' t2 ->
  silent k t2 /\ running t2 = true.
Proof.
  intros Hr Hk E Hl. apply reach_ok in Hr. destruct (armed_watch _ _ _ Hr Hk) as (w & Hw & <- & _).
  destruct (complete_none _ _ _ Hr Hw) as (t' & E' & _ & W & A & _). cbn [thread_step] in E.
  assert (t' = t1) as -> by congruence.
  assert (Hs : silent (w_id w) t1) by (split; [rewrite W; apply (list_elem_of_fmap_2 w_id)|]; done).
  clear E E' W A Hw Hr Hk. induction Hl as [op ta|op ta op' m tb tc Hl IH Hrun He E].
  - split; [done|]. destruct Hs as [Hin _]. unfold running. destruct (watches ta); [by apply elem_of_nil in Hin|done].
  - assert (Hs' : silent (w_id w) tc) by (eapply step_silent; [exact He|by apply IH|done]).
    split; [done|]. destruct Hs' as [Hin _]. unfold running. destruct (watches tc); [by apply elem_of_nil in Hin|done].
Qed.

(** ** The end of the thread *)

Definition ids (t : fsthread) : list Z := map w_id (watches t).

(** Every watch is being read. *)
Definition all_read (t : fsthread) : Prop := forall k, k ∈ ids t -> k ∈ armed t.

Lemma complete_ids id b t t' : complete id b t = Done t' ->
  ids t' = ids t /\ armed t' = filter (fun k => k <> id) (armed t) /\ shuttingDown t' = shuttingDown t.
Proof.
  intros H. unfold complete in H. unbind H. injection H as <-. unfold ids. cbn.
  destruct b; [rewrite update_ids|]; done.
Qed.

Lemma filter_ids_eq id (l : list watch) :
  map w_id (filter (fun p => w_id p <> id) l) = filter (fun k => k <> id) (map w_id l).
Proof.
  induction l as [|p l IH]; [done|]. destruct (decide (w_id p = id)).
  - rewrite filter_cons_False by auto. cbn [map]. rewrite filter_cons_False by auto. done.
  - rewrite filter_cons_True by done. cbn [map]. rewrite filter_cons_True by done. f_equal. done.
Qed.

Lemma remove_ids id t t' : remove_watch id t = Done t' ->
  ids t' = filter (fun k => k <> id) (ids t) /\ armed t' = armed t /\ shuttingDown t' = shuttingDown t.
Proof.
  intros H. unfold remove_watch in H. unbind H. injection H as <-. unfold free_watch, CloseHandle, ids.
  destruct (w_handle _); cbn; rewrite filter_ids_eq; done.
Qed.

(** A watch that is read again or removed leaves none that is not read. *)
Lemma read_or_remove_all id fresh ok t t' : (forall k, k ∈ ids t -> k = id \/ k ∈ armed t) ->
  read_or_remove fresh ok id t = Done t' -> all_read t'.
Proof.
  intros Ha H. unfold read_or_remove in H. unbind H. apply read_changes_ids in E as [E1 E2].
  fold (ids a.2) (ids t) in E1. destruct a.1.
  - injection H as <-. intros k. rewrite E1, E2. intros Hk. apply elem_of_cons. auto.
  - apply remove_ids in H as (Hi & Har & _). intros k. rewrite Hi, Har, E1, E2.
    intros [Hne Hk]%list_elem_of_filter. destruct (Ha k Hk); done.
Qed.

Definition not_empty (m : message) : Prop := match m with Empty _ => False | _ => True end.

Lemma step_all_read m t t' : not_empty m -> all_read t -> thread_step m t = Done t' -> all_read t'.
Proof.
  intros Hm Ha H. destruct m as [[j|]|j bytes al ok|j|path e fresh ok|]; cbn [thread_step] in H; try done.
  - unbind H. apply complete_ids in E as (E1 & E2 & _). apply remove_ids in H as (H1 & H2 & _).
    intros k. rewrite H1, H2, E1, E2. intros [Hne Hk]%list_elem_of_filter. apply list_elem_of_filter. auto.
  - injection H as <-. done.
  - unbind H. apply complete_ids in E as (E1 & E2 & _). destruct (shuttingDown a).
    + apply remove_ids in H as (H1 & H2 & _). intros k. rewrite H1, H2, E1, E2.
      intros [Hne Hk]%list_elem_of_filter. apply list_elem_of_filter. auto.
    + unbind H. apply push_ids in E as [P1 P2]. fold (ids a0) (ids a) in P1.
      apply read_or_remove_all in H; [done|]. intros k. rewrite P1, P2, E1. intros Hk. destruct (decide (k = j)); [auto|]. right. rewrite E2. apply list_elem_of_filter. auto.
  - unbind H. injection H as <-. change (all_read a). destruct (shuttingDown t); [injection E as <-; done|].
    unbind E. destruct a0 as [r t1]. apply add_watch_ids in E0 as (A1 & A2 & _). fold (ids t1) (ids t) in A2. cbn [fst snd] in E.
    destruct r as [id|].
    + eapply read_or_remove_all; [|exact E]. intros k. rewrite A2, A1. intros [->|Hk]%elem_of_cons; auto.
    + injection E as <-. intros k. rewrite A2, A1. apply Ha.
  - injection H as <-. intros k. unfold ids. cbn. rewrite map_map. apply Ha.
Qed.

(** The runs in which no read completes without data. *)
Inductive reach_read : list Z -> fsthread -> Prop :=
| reach_read_initial : reach_read [] initial_thread
| reach_read_step opened m t t' : reach_read opened t -> running t = true -> enabled m opened t ->
    allocated m t -> named m t -> not_empty m -> thread_step m t = Done t' -> reach_read (opened_by m t ++ opened) t'.

Lemma reach_read_ok opened t : reach_read opened t -> thread_ok opened t /\ all_read t.
Proof.
  induction 1 as [|opened m t t' _ [IH1 IH2] _ He Ha Hn Hm E].
  - split; [apply reach_ok; constructor|]. intros k []%elem_of_nil.
  - destruct (thread_step_ok opened m t IH1 He Ha Hn) as (t1 & E1 & H1 & _). split; [congruence|].
    by apply (step_all_read m t).
Qed.

(** The read a message completes. *)
Definition completed (m : message) : option Z :=
  match m with Failed k => k | Notified k _ _ _ | Empty k => Some k | _ => None end.

(** After the shutdown: completions with data or errors, and requests that come too late. *)
Definition late_message (m : message) : Prop := match m with Empty _ | Shutdown => False | _ => True end.

Lemma filter_absent k (l : list Z) : k ∉ l -> filter (fun j => j <> k) l = l.
Proof.
  induction l as [|x l IH]; [done|]. intros [Hx Hl]%not_elem_of_cons. rewrite filter_cons_True by auto.
  f_equal. auto.
Qed.

(** The reads that are left when one of them has completed. *)
Lemma completed_rest m k ms t : NoDup (armed t) -> completed m = Some k -> omap completed (m :: ms) ≡ₚ armed t ->
  omap completed ms ≡ₚ filter (fun j => j <> k) (armed t).
Proof.
  intros Hnd Ek Hp. cbn in Hp. rewrite Ek in Hp. rewrite <- Hp in Hnd |- *.
  apply NoDup_cons in Hnd as [Hk _]. rewrite filter_cons_False by auto. rewrite filter_absent; done.
Qed.

(** One pass during the shutdown. *)
Lemma late_step opened m ms t : thread_ok opened t -> shuttingDown t = true -> late_message m ->
  omap completed (m :: ms) ≡ₚ armed t ->
  exists t', thread_step m t = Done t' /\ thread_ok opened t' /\ shuttingDown t' = true /\
    omap completed ms ≡ₚ armed t'.
Proof.
  intros Ht Hs Hm Hp. pose proof (completed_rest m) as Hrest.
  assert (Hal : forall m, allocated m t /\ named m t) by (split; intros E; congruence).
  destruct m as [[k|]|k bytes al ok|k|path e fresh ok|]; try done.
  - destruct (thread_step_ok opened (Failed (Some k)) t Ht) as (t1 & E1 & H1 & _);
      [cbn [enabled]; rewrite <- Hp; apply list_elem_of_here|apply Hal..|]. exists t1. split; [done|]. split; [done|].
    cbn [thread_step] in E1. unbind E1. apply complete_ids in E as (_ & A1 & S1).
    apply remove_ids in E1 as (_ & A2 & S2). rewrite S2, S1, A2, A1. split; [done|]. apply Hrest; (done || apply Ht).
  - exists t. done.
  - destruct (thread_step_ok opened (Notified k bytes al ok) t Ht) as (t1 & E1 & H1 & _);
      [cbn [enabled]; rewrite <- Hp; apply list_elem_of_here|apply Hal..|]. exists t1. split; [done|]. split; [done|].
    cbn [thread_step] in E1. unbind E1. apply complete_ids in E as (_ & A1 & S1). rewrite S1, Hs in E1.
    apply remove_ids in E1 as (_ & A2 & S2). rewrite S2, S1, A2, A1. split; [done|]. apply Hrest; (done || apply Ht).
  - cbn [thread_step]. rewrite Hs. cbn [exec_bind]. eexists. split; [done|]. split; [destruct Ht; split; done|].
    done.
Qed.

Lemma drain_ends opened ms t : thread_ok opened t -> all_read t -> shuttingDown t = true ->
  Forall late_message ms -> omap completed ms ≡ₚ armed t ->
  exists t', watch_thread ms t = Done t' /\ watches t' = [] /\ shuttingDown t' = true /\ thread_ok opened t'.
Proof.
  intros Ht Ha Hs Hm Hp. revert t Ht Ha Hs Hp. induction Hm as [|m ms Hm Hms IH]; intros t Ht Ha Hs Hp.
  - exists t. split; [done|]. split; [|done]. cbn in Hp. apply Permutation_nil_l in Hp.
    destruct (watches t) as [|w l] eqn:E; [done|]. exfalso. specialize (Ha (w_id w)). rewrite <- Hp in Ha.
    apply (not_elem_of_nil (w_id w)), Ha. unfold ids. rewrite E. apply list_elem_of_here.
  - cbn [watch_thread]. destruct (running t) eqn:Hrun.
    2: { exists t. split; [done|]. split; [|done]. unfold running in Hrun. by destruct (watches t). }
    destruct (late_step opened m ms t Ht Hs Hm Hp) as (t1 & E1 & H1 & S1 & P1). rewrite E1. cbn [exec_bind].
    apply IH; try done. apply (step_all_read m t); [|done|done]. by destruct m.
Qed.

(** C14.  A shutdown ends the watch thread, if until then [malloc] gave memory, the names of
    the opened directories were known, and no read completed without data, which is how the
    system reports that its buffer overflowed: once the request is received and every
    outstanding read has come back, whatever the order, with an error or with data, and
    however many requests to add a directory come in between, the loop ends, every watch has
    been freed, and every directory handle that was opened has been closed exactly once.
    After a read that completes without data the loop never ends
    ([empty_completion_wedges]). *)
Theorem shutdown_ends_thread (opened : list Z) (t : fsthread) (ms : list message) :
  reach_read opened t -> running t = true -> Forall late_message ms -> omap completed ms ≡ₚ armed t ->
  exists t', watch_thread (Shutdown :: ms) t = Done t' /\ running t' = false /\ watches t' = [] /\
    closed_handles t' ≡ₚ opened /\ NoDup (closed_handles t').
Proof.
  intros Hr Hrun Hm Hp. destruct (reach_read_ok _ _ Hr) as [Ht Ha]. cbn [watch_thread]. rewrite Hrun.
  destruct (thread_step_ok opened Shutdown t Ht I (fun _ => I) (fun _ => I)) as (t1 & E1 & H1 & _). rewrite E1. cbn [exec_bind].
  pose proof (step_all_read Shutdown t t1 I Ha E1) as A1. injection E1 as <-.
  destruct (drain_ends opened ms (close_for_shutdown t)) as (t' & E & W & S & H); try done.
  exists t'. split; [done|]. unfold running. rewrite W, S. split; [done|]. split; [done|]. destruct H as [_ _ _ _ Hh Hn].
  rewrite W in Hh. cbn in Hh. split; [done|]. rewrite Hh. done.
Qed.

Lemma shutdown_ends_thread_witness :
  exists t', watch_thread [Shutdown; Add [98] sample_env None true; Failed (Some 100)] sample_thread = Done t' /\
    running t' = false /\ watches t' = [] /\ closed_handles t' ≡ₚ [7] /\ NoDup (closed_handles t').
Proof.
  apply (shutdown_ends_thread [7] sample_thread [Add [98] sample_env None true; Failed (Some 100)]).
  - apply (reach_read_step [] sample_add initial_thread sample_thread);
      [constructor|reflexivity|apply sample_add_good..|exact I|reflexivity].
  - reflexivity.
  - constructor; [exact I|]. constructor; [exact I|constructor].
  - reflexivity.
Defined.

(** A request whose other answers are those of [sample_env]. *)
Definition request (handle id : Z) (final : Z * bool * Z) (name : list Z) : add_env :=
  {| e_utf16 := (2, true, 2); e_handle := Some handle; e_watch := Some id; e_final := final;
     e_name := name; e_overlapped := true; e_port := true |}.

(** The name of a directory may be unknown, or not fit the buffer: the first is recorded as
    NULL and read when the next directory is added, the second is read at once. *)
Lemma missing_name_faults :
  (exists t, thread_step (Add [97] (request 7 100 (0, true, 0) []) (Some []) true) initial_thread = Done t /\
     thread_step (Add [98] (request 8 101 (3, true, 2) [92; 98]) (Some []) true) t = Fault) /\
  thread_step (Add [97] (request 7 100 (3, true, 4) [92; 97]) (Some []) true) initial_thread = Fault.
Proof. split; [eexists; split; reflexivity|reflexivity]. Qed.

(** What [malloc] gives is used unchecked: for a [struct watch], an [OVERLAPPED] and the node
    of a packet. *)
Lemma malloc_unchecked :
  let e := request 7 100 (3, true, 2) [92; 97] in
  let no_watch := {| e_utf16 := e_utf16 e; e_handle := e_handle e; e_watch := None; e_final := e_final e;
                     e_name := e_name e; e_overlapped := true; e_port := true |} in
  let no_overlapped := {| e_utf16 := e_utf16 e; e_handle := e_handle e; e_watch := e_watch e; e_final := e_final e;
                          e_name := e_name e; e_overlapped := false; e_port := true |} in
  let no_node := {| a_node := false; a_copy := true; a_buffer := Some [] |} in
  thread_step (Add [97] no_watch (Some []) true) initial_thread = Fault /\
  thread_step (Add [97] no_overlapped (Some []) true) initial_thread = Fault /\
  thread_step (Notified 100 [1] no_node true) sample_thread = Fault.
Proof. split; [reflexivity|]. split; reflexivity. Qed.

(** A directory counts as watched when a watched name is a prefix of its own, also when
    the rest does not start with a separator: [\foobar] is not watched after [\foo]. *)
Lemma sibling_not_watched :
  let e := request 8 101 (8, true, 7) (bytes_of_string "\foobar") in
  let t := Thread [Watch 100 [] (Some (bytes_of_string "\foo")) (Some 7) true (Some [])] false [] [100] [] 1 in
  exists t', add_watch e [] t = Done (None, t') /\ watches t' = watches t.
Proof. eexists. split; reflexivity. Qed.
