(* ===== verification/FswatchQueue.v ===== *)
(** * Watching files on Windows: the list shared by the threads

    [push_events], run by the watch thread, [pop_events] with [parse_events], run by
    [fswatch_win_wait], and [fswatch_win_shutdown] share a linked list without a lock.  The
    threads interleave at every access to shared memory: reading the top, the
    compare-and-swap, setting and resetting the event object, each node freed, and the
    release of the [struct fsenv] itself.  Addresses of freed nodes may be given out
    again. *)

From Stdlib Require Import ZArith Lia.
From stdpp Require Import base numbers list strings gmap.
From S2P Require Import Prelude Posix FswatchWin.
Local Open Scope Z_scope.

(** A [struct events]; [next] of a node that is not linked yet has no meaning. *)
Record node := Node { n_next : option Z; n_packet : packet }.

(** Where the watch thread is: between two messages, in [push_events], or ended. *)
Inductive pusher :=
| PIdle
| PLink (e : Z)
| PSwap (e : Z) (seen : option Z)
| PSignal
| PExited.

(** Where the OCaml thread that collects events is in [fswatch_win_wait]. *)
Inductive popper :=
| CIdle
| CWaiting
| CRead
| CSwap (res : option Z)
| CReset (res : option Z)
| CParse (e : option Z).

(** Where the OCaml thread that shuts down is in [fswatch_win_shutdown]. *)
Inductive stopper :=
| SIdle
| SFailed
| SJoin
| SRead
| SSwap (res : option Z)
| SFree (e : option Z)
| SRelease
| SDone.

(** [pushed] records what has gone in; [delivered] what each finished wait has returned,
    [current] what the present one has decoded, [discarded] what the shutdown has freed. *)
Record shared := Shared {
  heap : gmap Z node;
  top : option Z;
  signal : bool;
  producer : pusher;
  consumer : popper;
  closer : stopper;
  pushed : list packet;
  delivered : list (list packet);
  current : list packet;
  discarded : list packet }.

Definition set_heap (h : gmap Z node) (s : shared) : shared :=
  Shared h (top s) (signal s) (producer s) (consumer s) (closer s) (pushed s) (delivered s) (current s) (discarded s).
Definition set_top (t : option Z) (s : shared) : shared :=
  Shared (heap s) t (signal s) (producer s) (consumer s) (closer s) (pushed s) (delivered s) (current s) (discarded s).
Definition set_signal (b : bool) (s : shared) : shared :=
  Shared (heap s) (top s) b (producer s) (consumer s) (closer s) (pushed s) (delivered s) (current s) (discarded s).
Definition set_producer (p : pusher) (s : shared) : shared :=
  Shared (heap s) (top s) (signal s) p (consumer s) (closer s) (pushed s) (delivered s) (current s) (discarded s).
Definition set_consumer (c : popper) (s : shared) : shared :=
  Shared (heap s) (top s) (signal s) (producer s) c (closer s) (pushed s) (delivered s) (current s) (discarded s).
Definition set_closer (c : stopper) (s : shared) : shared :=
  Shared (heap s) (top s) (signal s) (producer s) (consumer s) c (pushed s) (delivered s) (current s) (discarded s).
Definition record_push (p : packet) (s : shared) : shared :=
  Shared (heap s) (top s) (signal s) (producer s) (consumer s) (closer s) (pushed s ++ [p]) (delivered s) (current s) (discarded s).
Definition record_decode (p : packet) (s : shared) : shared :=
  Shared (heap s) (top s) (signal s) (producer s) (consumer s) (closer s) (pushed s) (delivered s) (current s ++ [p]) (discarded s).
Definition record_return (s : shared) : shared :=
  Shared (heap s) (top s) (signal s) (producer s) (consumer s) (closer s) (pushed s) (delivered s ++ [current s]) [] (discarded s).
Definition record_discard (p : packet) (s : shared) : shared :=
  Shared (heap s) (top s) (signal s) (producer s) (consumer s) (closer s) (pushed s) (delivered s) (current s) (discarded s ++ [p]).

Definition node_at (h : gmap Z node) (a : Z) : exec node :=
  match h !! a with Some n => Done n | None => Fault end.

(** The custom block holds the [fsenv] until a shutdown starts. *)
Definition Fsenv_val (s : shared) : bool := match closer s with SIdle => true | _ => false end.

(** Reading a field of the [fsenv], which the shutdown frees at its end. *)
Definition with_fsenv (s : shared) : exec unit := match closer s with SDone => Fault | _ => Done tt end.

(** The event object is closed before the list is emptied. *)
Definition signal_open (s : shared) : bool :=
  match closer s with SIdle | SFailed | SJoin => true | _ => false end.

(** The request to shut down has been posted. *)
Definition posted (s : shared) : bool := match closer s with SIdle | SFailed => false | _ => true end.

(** One access of the watch thread; [a] and [p] are the address [malloc] gives and the
    packet, when it starts to push one.  It may end once the shutdown has been posted. *)
Definition push_step (stop : bool) (a : Z) (p : packet) (s : shared) : exec shared :=
  match producer s with
  | PIdle =>
      let! _ := with_fsenv s in
      if stop && posted s then Done (set_producer PExited s)
      else Done (set_producer (PLink a) (set_heap (<[a := Node None p]> (heap s)) s))
  | PLink e =>
      let! _ := with_fsenv s in
      let! n := node_at (heap s) e in
      Done (set_producer (PSwap e (top s)) (set_heap (<[e := Node (top s) (n_packet n)]> (heap s)) s))
  | PSwap e seen =>
      let! _ := with_fsenv s in
      if bool_decide (top s = seen) then
        let! n := node_at (heap s) e in
        Done (set_producer PSignal (record_push (n_packet n) (set_top (Some e) s)))
      else Done (set_producer (PLink e) s)
  | PSignal => let! _ := with_fsenv s in Done (set_producer PIdle (set_signal true s))
  | PExited => Done s
  end.

(** One access of [fswatch_win_wait]; [None] while it waits for the event object, which
    resets itself when a wait succeeds, and once it can only raise [Invalid_argument].
    [wait_ok] and [reset_ok] are whether [WaitForSingleObject] and [ResetEvent] succeed; the
    latter fails also on a closed handle.  If the wait fails the call raises; if
    [ResetEvent] fails it raises and the list that was taken is lost. *)
Definition pop_step (wait_ok reset_ok : bool) (s : shared) : exec (option shared) :=
  match consumer s with
  | CIdle => if Fsenv_val s then Done (Some (set_consumer CWaiting s)) else Done None
  | CWaiting =>
      if negb wait_ok then Done (Some (set_consumer CIdle s))
      else if signal s && signal_open s then Done (Some (set_consumer CRead (set_signal false s)))
      else Done None
  | CRead => let! _ := with_fsenv s in Done (Some (set_consumer (CSwap (top s)) s))
  | CSwap res =>
      let! _ := with_fsenv s in
      if bool_decide (top s = res) then Done (Some (set_consumer (CReset res) (set_top None s)))
      else Done (Some (set_consumer CRead s))
  | CReset res =>
      let! _ := with_fsenv s in
      if reset_ok && signal_open s then Done (Some (set_consumer (CParse res) (set_signal false s)))
      else Done (Some (set_consumer CIdle s))
  | CParse (Some e) =>
      let! n := node_at (heap s) e in
      Done (Some (set_consumer (CParse (n_next n)) (record_decode (n_packet n) (set_heap (delete e (heap s)) s))))
  | CParse None => Done (Some (set_consumer CIdle (record_return s)))
  end.

(** One access of [fswatch_win_shutdown]: whether the request can be posted, and whether
    the wait for the watch thread gives up, are the system's answers.  [None] while it
    waits and once it has returned. *)
Definition close_step (post_ok timeout : bool) (s : shared) : exec (option shared) :=
  match closer s with
  | SIdle => Done (Some (set_closer (if post_ok then SJoin else SFailed) s))
  | SFailed | SDone => Done None
  | SJoin =>
      match producer s with
      | PExited => Done (Some (set_closer SRead s))
      | _ => if timeout then Done (Some (set_closer SRead s)) else Done None
      end
  | SRead => Done (Some (set_closer (SSwap (top s)) s))
  | SSwap res =>
      if bool_decide (top s = res) then Done (Some (set_closer (SFree res) (set_top None s)))
      else Done (Some (set_closer SRead s))
  | SFree (Some e) =>
      let! n := node_at (heap s) e in
      Done (Some (set_closer (SFree (n_next n)) (record_discard (n_packet n) (set_heap (delete e (heap s)) s))))
  | SFree None => Done (Some (set_closer SRelease s))
  | SRelease => Done (Some (set_closer SDone s))
  end.

Definition initial_shared : shared := Shared ∅ None false PIdle CIdle SIdle [] [] [] [].

(** How the program uses a watcher: [Orderly] when no wait is in progress when a shutdown
    starts, the watch thread ends before the shutdown stops waiting for it, and the system
    does not refuse to reset the event object. *)
Inductive usage := Orderly | Any.

Definition may_close (u : usage) (timeout : bool) (s : shared) : Prop :=
  match u with
  | Any => True
  | Orderly => timeout = false /\ (closer s = SIdle -> consumer s = CIdle)
  end.

Definition may_reset (u : usage) (reset_ok : bool) : Prop :=
  match u with Any => True | Orderly => reset_ok = true end.

(** The states the threads can reach; [malloc] gives an address that is not in use. *)
Inductive reachable (u : usage) : shared -> Prop :=
| reachable_initial : reachable u initial_shared
| reachable_push s s' stop a p : reachable u s -> heap s !! a = None ->
    push_step stop a p s = Done s' -> reachable u s'
| reachable_pop s s' wait_ok reset_ok : reachable u s -> may_reset u reset_ok ->
    pop_step wait_ok reset_ok s = Done (Some s') -> reachable u s'
| reachable_close s s' post_ok timeout : reachable u s -> may_close u timeout s ->
    close_step post_ok timeout s = Done (Some s') -> reachable u s'.

(** ** The invariant *)

(** From [p] the nodes at [l] are linked, in this order, and hold [ps]. *)
Fixpoint linked (h : gmap Z node) (p : option Z) (l : list Z) (ps : list packet) : Prop :=
  match l, ps with
  | [], [] => p = None
  | a :: l, q :: ps => p = Some a /\ exists next, h !! a = Some (Node next q) /\ linked h next l ps
  | _, _ => False
  end.

(** The list that has been taken and is not yet freed, and the node the producer has not
    linked yet.  In orderly use only one of the two OCaml threads has taken one. *)
Definition taken (s : shared) : option Z :=
  match consumer s, closer s with
  | CReset r, _ | CParse r, _ => r
  | _, SFree r => r
  | _, _ => None
  end.
Definition private (p : pusher) : list Z :=
  match p with PLink e | PSwap e _ => [e] | _ => [] end.

Definition producer_ok (s : shared) : Prop :=
  match producer s with
  | PLink e => is_Some (heap s !! e)
  | PSwap e seen => exists q, heap s !! e = Some (Node seen q)
  | _ => True
  end.

(** What holds at each point of the shutdown. *)
Definition closer_ok (s : shared) : Prop :=
  match closer s with
  | SIdle => discarded s = []
  | SFailed | SJoin => discarded s = [] /\ consumer s = CIdle
  | SRead | SSwap _ => discarded s = [] /\ consumer s = CIdle /\ producer s = PExited
  | SFree _ => consumer s = CIdle /\ producer s = PExited /\ top s = None
  | SRelease | SDone => consumer s = CIdle /\ producer s = PExited /\ top s = None
  end.
Definition consumer_ok (s : shared) : Prop :=
  match consumer s with CParse _ => True | _ => current s = [] end.

(** The nodes in use are those of the shared list, those taken and the private one. *)
Record shared_inv (s : shared) (lt : list Z) (pt : list packet) (lc : list Z) (pc : list packet) : Prop := {
  inv_top : linked (heap s) (top s) lt pt;
  inv_taken : linked (heap s) (taken s) lc pc;
  inv_nodup : NoDup (private (producer s) ++ lt ++ lc);
  inv_dom : forall a, is_Some (heap s !! a) -> a ∈ private (producer s) ++ lt ++ lc;
  inv_producer : producer_ok s;
  inv_consumer : consumer_ok s;
  inv_closer : closer_ok s;
  inv_history : pushed s = concat (map (@rev packet) (delivered s)) ++ rev (current s ++ discarded s ++ pc) ++ rev pt }.
Definition shared_ok (s : shared) : Prop := exists lt pt lc pc, shared_inv s lt pt lc pc.

Lemma linked_mono h h' p l ps : linked h p l ps -> (forall a, a ∈ l -> h' !! a = h !! a) -> linked h' p l ps.
Proof.
  revert p ps. induction l as [|a l IH]; intros p [|q ps] H He; cbn in *; try done.
  destruct H as (-> & next & Hn & H). split; [done|]. exists next. rewrite He by apply list_elem_of_here.
  split; [done|]. apply IH; [done|]. intros b Hb. apply He. by apply list_elem_of_further.
Qed.

Lemma linked_insert h p l ps a n : a ∉ l -> linked h p l ps -> linked (<[a := n]> h) p l ps.
Proof. intros Ha H. apply (linked_mono h); [done|]. intros b Hb. apply lookup_insert_ne. by intros ->. Qed.

Lemma linked_delete h p l ps a : a ∉ l -> linked h p l ps -> linked (delete a h) p l ps.
Proof. intros Ha H. apply (linked_mono h); [done|]. intros b Hb. apply lookup_delete_ne. by intros ->. Qed.

Lemma linked_in_heap h p l ps a : linked h p l ps -> a ∈ l -> is_Some (h !! a).
Proof.
  revert p ps. induction l as [|b l IH]; intros p [|q ps] H Ha; cbn in *; try done; try by apply elem_of_nil in Ha.
  destruct H as (-> & next & Hn & H). apply elem_of_cons in Ha as [->|Ha]; eauto.
Qed.

Lemma linked_None h l ps : linked h None l ps -> l = [] /\ ps = [].
Proof. destruct l, ps; cbn; try done. by intros [? _]. Qed.

(** A free address is in no list. *)
Lemma not_linked h p l ps a : linked h p l ps -> h !! a = None -> a ∉ l.
Proof. intros H Hn Ha. destruct (linked_in_heap _ _ _ _ _ H Ha) as [n E]. congruence. Qed.

Ltac closer_cases s H :=
  unfold closer_ok in H; destruct (closer s) eqn:?; try done; try (exfalso; intuition congruence).

(** While the watch thread runs or a wait is in progress the [fsenv] is not freed. *)
Lemma fsenv_live s : closer_ok s -> producer s <> PExited \/ consumer s <> CIdle -> with_fsenv s = Done tt.
Proof. intros H Hp. unfold with_fsenv. closer_cases s H. Qed.

(** Only the place of the watch thread, and the shared list, matter to its steps. *)
Lemma closer_ok_push s s' : closer_ok s -> producer s <> PExited -> closer s' = closer s ->
  consumer s' = consumer s -> discarded s' = discarded s -> closer_ok s'.
Proof. intros H Hp E1 E2 E3. unfold closer_ok. rewrite E1, E2, E3. closer_cases s H. Qed.

Lemma push_step_ok s stop a p : shared_ok s -> heap s !! a = None ->
  exists s', push_step stop a p s = Done s' /\ shared_ok s'.
Proof.
  intros (lt & pt & lc & pc & I) Ha. pose proof I as [Ht Hc Hn Hdom Hp Hcons Hcl Hh].
  unfold push_step. unfold producer_ok in Hp.
  assert (Hlive : producer s <> PExited -> with_fsenv s = Done tt) by (intros; apply fsenv_live; auto).
  destruct (producer s) as [|e|e seen| |] eqn:Epr; cbn [private app] in Hn, Hdom;
    try (rewrite Hlive by done; cbn [exec_bind]).
  - destruct (stop && posted s) eqn:Est.
    + eexists. split; [done|]. exists lt, pt, lc, pc. split; try done. unfold closer_ok in *. cbn.
      destruct (closer s); destruct_and?; auto.
    + eexists. split; [done|]. exists lt, pt, lc, pc. pose proof (not_linked _ _ _ _ _ Ht Ha).
      pose proof (not_linked _ _ _ _ _ Hc Ha).
      split; cbn; [by apply linked_insert|by apply linked_insert| | | |done| |done].
      * apply NoDup_cons. split; [|done]. intros [?|?]%elem_of_app; done.
      * intros b Hb. destruct (decide (b = a)) as [->|Hne]; [apply list_elem_of_here|].
        rewrite lookup_insert_ne in Hb by done. apply list_elem_of_further, Hdom, Hb.
      * unfold producer_ok. cbn. rewrite lookup_insert_eq. eauto.
      * apply (closer_ok_push s); try done. congruence.
  - destruct Hp as [n Hn']. unfold node_at. rewrite Hn'. cbn [exec_bind]. eexists. split; [done|].
    apply NoDup_cons in Hn as Hn2. destruct Hn2 as [He _]. apply not_elem_of_app in He as [He1 He2].
    exists lt, pt, lc, pc. split; cbn; [by apply linked_insert|by apply linked_insert|done| | |done| |done].
    + intros b Hb. destruct (decide (b = e)) as [->|Hne]; [apply list_elem_of_here|].
      rewrite lookup_insert_ne in Hb by done. apply Hdom, Hb.
    + exists (n_packet n). apply lookup_insert_eq.
    + apply (closer_ok_push s); try done. congruence.
  - case_bool_decide as Hseen.
    + destruct Hp as [q Hq]. unfold node_at. rewrite Hq. cbn [exec_bind]. eexists. split; [done|].
      exists (e :: lt), (q :: pt), lc, pc. split; cbn; try done.
      * split; [done|]. exists seen. split; [done|]. rewrite <- Hseen. done.
      * apply (closer_ok_push s); try done. congruence.
      * rewrite Hh, <- !app_assoc. done.
    + eexists. split; [done|]. exists lt, pt, lc, pc. destruct Hp as [q Hq].
      split; cbn; try done; apply (closer_ok_push s); try done; congruence.
  - eexists. split; [done|]. exists lt, pt, lc, pc. split; cbn; try done.
    apply (closer_ok_push s); try done. congruence.
  - exists s. split; [done|]. exists lt, pt, lc, pc. done.
Qed.

(** Freeing the first node of the list that has been taken. *)
Lemma free_first s e lt pt lc pc : shared_inv s lt pt lc pc -> taken s = Some e ->
  exists n lc' pc', heap s !! e = Some n /\ pc = n_packet n :: pc' /\
    linked (delete e (heap s)) (n_next n) lc' pc' /\ linked (delete e (heap s)) (top s) lt pt /\
    NoDup (private (producer s) ++ lt ++ lc') /\
    (forall a, is_Some (delete e (heap s) !! a) -> a ∈ private (producer s) ++ lt ++ lc') /\
    producer_ok (set_heap (delete e (heap s)) s).
Proof.
  intros [Ht Hc Hn Hdom Hp _ _ _] Hs. rewrite Hs in Hc. destruct lc as [|b lc], pc as [|q pc]; try done.
  destruct Hc as ([= <-] & next & Hb & Hc). rewrite app_assoc in Hn, Hdom. rewrite <- Permutation_middle in Hn.
  apply NoDup_cons in Hn as [Hfresh Hn]. rewrite <- app_assoc in Hfresh, Hn.
  pose proof Hfresh as Hf. apply not_elem_of_app in Hf as [Hf1 [Hf2 Hf3]%not_elem_of_app].
  exists (Node next q), lc, pc. split; [done|]. split; [done|]. split; [by apply linked_delete|].
  split; [by apply linked_delete|]. split; [done|]. split.
  - intros a Ha. destruct (decide (a = e)) as [->|Hne]; [by rewrite lookup_delete_eq in Ha; destruct Ha|].
    rewrite lookup_delete_ne in Ha by done. apply Hdom in Ha. rewrite <- app_assoc in Ha. set_solver.
  - unfold producer_ok in *. cbn. destruct (producer s) as [|x|x seen| |]; cbn in Hf1; try done;
      rewrite lookup_delete_ne; try done; intros ->; apply Hf1, list_elem_of_here.
Qed.

(** A wait is in progress only while no shutdown has started. *)
Lemma waiting_not_closing s : closer_ok s -> consumer s <> CIdle -> closer s = SIdle /\ discarded s = [].
Proof. intros H Hc. closer_cases s H. Qed.

Lemma pop_step_ok s wait_ok reset_ok : shared_ok s ->
  exists r, pop_step wait_ok reset_ok s = Done r /\
    (reset_ok = true -> forall s', r = Some s' -> shared_ok s').
Proof.
  intros (lt & pt & lc & pc & I). pose proof I as [Ht Hc Hn Hdom Hp Hcons Hcl Hh].
  destruct (consumer s) as [| |  |res|res|[e|]] eqn:Ec; unfold pop_step; rewrite Ec;
    unfold consumer_ok in Hcons; rewrite Ec in Hcons; unfold taken in Hc; rewrite Ec in Hc.
  { unfold Fsenv_val. destruct (closer s) eqn:Ecl; (eexists; split; [done|]); try done.
    intros _ s' [= <-]. exists lt, pt, lc, pc. split; try done; unfold taken, closer_ok in *; cbn; rewrite Ecl in *; done. }
  all: destruct (waiting_not_closing s Hcl) as [Ecl Edis]; [congruence|]; rewrite ?Ecl in Hc;
    assert (Hck : forall s', closer s' = closer s -> discarded s' = discarded s -> closer_ok s')
      by (intros s' E1 E2; unfold closer_ok; rewrite E1, E2, Ecl; done);
    rewrite ?(fsenv_live s Hcl) by (right; congruence); cbn [exec_bind].
  - destruct (negb wait_ok); [|destruct (signal s && signal_open s)]; (eexists; split; [done|]); try done;
      intros _ s' [= <-]; exists lt, pt, lc, pc;
      (split; try done; [unfold taken; cbn; rewrite Ecl|apply Hck]; done).
  - eexists. split; [done|]. intros _ s' [= <-]. exists lt, pt, lc, pc.
    split; try done; [unfold taken; cbn; rewrite Ecl|apply Hck]; done.
  - apply linked_None in Hc as [-> ->]. case_bool_decide as Hres; (eexists; split; [done|]); intros _ s' [= <-].
    + rewrite app_nil_r in Hn, Hdom, Hh. exists [], [], lt, pt. split; cbn; try done; [rewrite <- Hres; done|by apply Hck|].
      rewrite Hh, Hcons, Edis, !app_nil_r. done.
    + exists lt, pt, [], []. split; try done; [unfold taken; cbn; rewrite Ecl; done|by apply Hck].
  - unfold signal_open. rewrite Ecl. destruct reset_ok; (eexists; split; [done|]); [|done].
    intros _ s' [= <-]. exists lt, pt, lc, pc. split; try done; by apply Hck.
  - destruct (free_first s e lt pt lc pc I) as (n & lc' & pc' & Hl & -> & H1 & H2 & H3 & H4 & H5);
      [unfold taken; rewrite Ec; done|]. unfold node_at. rewrite Hl. cbn [exec_bind].
    eexists. split; [done|]. intros _ s' [= <-]. exists lt, pt, lc', pc'. split; cbn; try done; [by apply Hck|].
    rewrite Hh, Edis, <- !app_assoc. done.
  - apply linked_None in Hc as [-> ->]. eexists. split; [done|]. intros _ s' [= <-]. exists lt, pt, [], [].
    split; cbn; try done; [unfold taken; cbn; rewrite Ecl; done|by apply Hck|].
    rewrite Hh, Edis, map_app, concat_app, !app_nil_r, <- !app_assoc. cbn. rewrite app_nil_r. done.
Qed.

Lemma close_step_ok s post_ok : shared_ok s -> (closer s = SIdle -> consumer s = CIdle) ->
  exists r, close_step post_ok false s = Done r /\ forall s', r = Some s' -> shared_ok s'.
Proof.
  intros (lt & pt & lc & pc & I) Hor. pose proof I as [Ht Hc Hn Hdom Hp Hcons Hcl Hh].
  assert (Ec : consumer s = CIdle) by (unfold closer_ok in Hcl; destruct (closer s); intuition).
  unfold close_step, consumer_ok, closer_ok in *. rewrite Ec in Hcons. unfold taken in Hc. rewrite Ec in Hc.
  destruct (closer s) as [| | | |res|[e|]| |] eqn:Ecl; try (eexists; split; [done|]; done).
  - eexists. split; [done|]. intros s' [= <-]. exists lt, pt, lc, pc.
    split; try done; unfold taken, closer_ok, consumer_ok; cbn; rewrite ?Ec; destruct post_ok; done.
  - destruct (producer s) eqn:Epr; (eexists; split; [done|]); try done. intros s' [= <-]. exists lt, pt, lc, pc.
    split; cbn; rewrite ?Epr; try done; unfold taken, closer_ok, consumer_ok; cbn; rewrite ?Ec; intuition.
  - eexists. split; [done|]. intros s' [= <-]. exists lt, pt, lc, pc.
    split; try done; unfold taken, closer_ok, consumer_ok; cbn; rewrite ?Ec; done.
  - apply linked_None in Hc as [-> ->]. case_bool_decide as Hres; (eexists; split; [done|]); intros s' [= <-].
    + rewrite app_nil_r in Hn, Hdom. exists [], [], lt, pt.
      split; cbn; try done; unfold taken, closer_ok, consumer_ok; cbn; rewrite ?Ec, <- ?Hres; intuition.
      rewrite Hh, Hcons, H. cbn. rewrite app_nil_r. done.
    + exists lt, pt, [], []. split; try done; unfold taken, closer_ok, consumer_ok; cbn; rewrite ?Ec; done.
  - destruct (free_first s e lt pt lc pc I) as (n & lc' & pc' & Hl & -> & H1 & H2 & H3 & H4 & H5);
      [unfold taken; rewrite Ec, Ecl; done|]. unfold node_at. rewrite Hl. cbn [exec_bind].
    eexists. split; [done|]. intros s' [= <-]. exists lt, pt, lc', pc'.
    split; cbn; try done; unfold taken, closer_ok, consumer_ok; cbn; rewrite ?Ec; try done.
    rewrite Hh, <- !app_assoc. done.
  - eexists. split; [done|]. intros s' [= <-]. exists lt, pt, lc, pc.
    split; try done; unfold taken, closer_ok, consumer_ok; cbn; rewrite ?Ec; done.
  - eexists. split; [done|]. intros s' [= <-]. exists lt, pt, lc, pc.
    split; try done; unfold taken, closer_ok, consumer_ok; cbn; rewrite ?Ec; done.
Qed.

Lemma reachable_ok s : reachable Orderly s -> shared_ok s.
Proof.
  induction 1 as [|s s' stop a p _ IH Ha E|s s' wait_ok reset_ok _ IH Hr E|s s' post_ok timeout _ IH [-> Ho] E].
  - exists [], [], [], []. split; cbn; try done; [constructor|]. intros a [x Hx]. by rewrite lookup_empty in Hx.
  - destruct (push_step_ok s stop a p IH Ha) as (s1 & E1 & H1). congruence.
  - destruct (pop_step_ok s wait_ok reset_ok IH) as (r & E1 & H1). apply (H1 Hr). congruence.
  - destruct (close_step_ok s post_ok IH Ho) as (r & E1 & H1). apply H1. congruence.
Qed.

(** ** The end of a shutdown *)

(** [fswatch_win_shutdown] to its end, or until it has to wait. *)
Fixpoint run_close (fuel : nat) (s : shared) : exec shared :=
  match fuel with
  | O => Spin
  | S fuel =>
      let! r := close_step true false s in
      match r with None => Done s | Some s' => run_close fuel s' end
  end.

Lemma linked_length h p l ps : linked h p l ps -> length l = length ps.
Proof.
  revert p ps. induction l as [|a l IH]; intros p [|q ps] H; cbn in *; try done.
  destruct H as (_ & next & _ & H). f_equal. eauto.
Qed.

(** Everything has been freed. *)
Definition all_freed (s0 s : shared) : Prop :=
  closer s = SDone /\ heap s = ∅ /\ pushed s = pushed s0 /\ delivered s = delivered s0 /\
  pushed s = concat (map (@rev packet) (delivered s)) ++ rev (discarded s).

Lemma free_list fuel s e lt pt lc pc : shared_inv s lt pt lc pc -> closer s = SFree e ->
  (length lc + 3 <= fuel)%nat -> exists s', run_close fuel s = Done s' /\ all_freed s s'.
Proof.
  revert s e lc pc. induction fuel as [|fuel IH]; intros s e lc pc I Ecl Hf; [lia|].
  pose proof (inv_closer _ _ _ _ _ I) as Hcl. unfold closer_ok in Hcl. rewrite Ecl in Hcl.
  destruct Hcl as (Ec & Epr & Etop). assert (Htk : taken s = e) by (unfold taken; rewrite Ec, Ecl; done).
  cbn [run_close]. unfold close_step at 1. rewrite Ecl. destruct e as [e|].
  - destruct (free_first s e lt pt lc pc I Htk) as (n & lc' & pc' & Hl & -> & H1 & H2 & H3 & H4 & H5).
    pose proof (linked_length _ _ _ _ (inv_taken _ _ _ _ _ I)) as L. pose proof (linked_length _ _ _ _ H1) as L'.
    cbn [length] in L. unfold node_at. rewrite Hl. cbn [exec_bind].
    edestruct (IH (set_closer (SFree (n_next n)) (record_discard (n_packet n) (set_heap (delete e (heap s)) s)))
      (n_next n) lc' pc') as (s' & E & H); [|done|lia|exists s'; split; [exact E|exact H]].
    destruct I as [Ht Hc Hn Hdom Hp Hcons _ Hh]. split; cbn; try done.
    + unfold taken. cbn. rewrite Ec. done.
    + rewrite Hh, <- !app_assoc. done.
  - cbn [exec_bind]. destruct I as [Ht Hc Hn Hdom Hp Hcons _ Hh]. rewrite Htk in Hc.
    apply linked_None in Hc as [-> ->]. rewrite Etop in Ht. apply linked_None in Ht as [-> ->].
    do 2 (destruct fuel as [|fuel]; [cbn in Hf; lia|]). eexists. split; [reflexivity|].
    split; [done|]. split; [|split; [done|split; [done|]]].
    + apply map_empty. intros a. cbn. destruct (heap s !! a) as [n|] eqn:Ea; [|done]. exfalso.
      assert (Hin : a ∈ private (producer s) ++ [] ++ []) by (apply Hdom; eauto).
      rewrite Epr in Hin. by apply elem_of_nil in Hin.
    + cbn. unfold consumer_ok in Hcons. rewrite Ec in Hcons. rewrite Hh, Hcons, app_nil_r. cbn. rewrite app_nil_r. done.
Qed.

Lemma take_and_free fuel s lt pt : shared_inv s lt pt [] [] -> closer s = SJoin -> producer s = PExited ->
  (length lt + 6 <= fuel)%nat -> exists s', run_close fuel s = Done s' /\ all_freed s s'.
Proof.
  intros [Ht Hc Hn Hdom Hp Hcons Hcl Hh] Ecl Epr Hf. unfold closer_ok in Hcl. rewrite Ecl in Hcl.
  destruct Hcl as (Edis & Ec). unfold consumer_ok in Hcons. rewrite Ec in Hcons.
  do 3 (destruct fuel as [|fuel]; [lia|]). cbn [run_close]. unfold close_step at 1. rewrite Ecl, Epr. cbn.
  rewrite bool_decide_eq_true_2 by done. cbn [exec_bind]. rewrite app_nil_r in Hn, Hdom.
  edestruct (free_list fuel (set_closer (SFree (top s)) (set_top None (set_closer (SSwap (top s)) (set_closer SRead s))))
    (top s) [] [] lt pt) as (s' & E & H); [|done|lia|exists s'; split; [exact E|exact H]]. split; cbn; try done.
  - unfold taken. cbn. rewrite Ec. done.
  - unfold consumer_ok. cbn. rewrite Ec. done.
  - rewrite Hh, Hcons, Edis. cbn. rewrite app_nil_r. done.
Qed.

(** ** Theorems *)

(** C5.  However the watch thread, the thread that waits for events and the one that shuts
    down interleave, none follows a pointer to a freed node or to the freed [fsenv], as
    long as no wait is in progress when the shutdown starts, the watch thread ends before
    the shutdown gives up on it, and the event object can be reset.  The packets pushed so
    far, in their order, are those each finished wait returned, newest first within a wait,
    then those the present wait or the shutdown has taken, then those still waiting, each
    exactly once; when the list is empty nothing is waiting.  This holds although addresses
    of freed nodes are used again. *)
Theorem events_delivered_once (s : shared) :
  reachable Orderly s ->
  (forall stop a p, heap s !! a = None -> exists s', push_step stop a p s = Done s') /\
  (forall wait_ok reset_ok, exists r, pop_step wait_ok reset_ok s = Done r) /\
  (forall post_ok, (closer s = SIdle -> consumer s = CIdle) -> exists r, close_step post_ok false s = Done r) /\
  exists rest waiting,
    pushed s = concat (map (@rev packet) (delivered s)) ++ rev (current s ++ discarded s ++ rest) ++ waiting /\
    (top s = None -> waiting = []) /\
    (closer s = SIdle -> consumer s = CIdle \/ consumer s = CWaiting ->
      current s = [] /\ discarded s = [] /\ rest = []).
Proof.
  intros Hr%reachable_ok. split; [|split; [|split]].
  - intros stop a p Ha. destruct (push_step_ok s stop a p Hr Ha) as (s' & E & _). eauto.
  - intros wait_ok reset_ok. destruct (pop_step_ok s wait_ok reset_ok Hr) as (r & E & _). eauto.
  - intros post_ok Ho. destruct (close_step_ok s post_ok Hr Ho) as (r & E & _). eauto.
  - destruct Hr as (lt & pt & lc & pc & [Ht Hc Hn Hdom Hp Hcons Hcl Hh]). exists pc, (rev pt).
    split; [done|]. split; [intros Htop; rewrite Htop in Ht; apply linked_None in Ht as [_ ->]; done|].
    intros Ecl Ec. unfold consumer_ok, closer_ok, taken in *. rewrite Ecl in Hcl, Hc.
    destruct Ec as [Ec|Ec]; rewrite Ec in Hcons, Hc; apply linked_None in Hc as [_ ->]; done.
Qed.

(** C15.  When no wait was in progress when the shutdown started, and none has lost its list
    to a failing [ResetEvent]: once the watch thread has ended, the shutdown comes to its end
    by itself, frees every node that was ever allocated and not yet freed, so that no memory
    of the list remains, and the packets it discards are exactly those no wait has returned.
    (A wait in progress, which owns the nodes it has taken, is the subject of
    [wait_in_flight_dangles].) *)
Theorem shutdown_releases_all (s : shared) :
  reachable Orderly s -> closer s = SJoin -> producer s = PExited ->
  exists s', run_close (length (pushed s) + 6) s = Done s' /\ all_freed s s'.
Proof.
  intros Hr%reachable_ok Ecl Epr. destruct Hr as (lt & pt & lc & pc & I).
  pose proof (inv_taken _ _ _ _ _ I) as Hc. pose proof (inv_closer _ _ _ _ _ I) as Hcl.
  unfold closer_ok in Hcl. rewrite Ecl in Hcl. unfold taken in Hc. rewrite (proj2 Hcl), Ecl in Hc.
  apply linked_None in Hc as [-> ->]. apply (take_and_free _ s lt pt I Ecl Epr).
  rewrite (linked_length _ _ _ _ (inv_top _ _ _ _ _ I)), (inv_history _ _ _ _ _ I).
  rewrite !length_app, !length_rev. lia.
Qed.

(** A schedule: steps of the watch thread, with what [malloc] and the system give it, and
    steps of the two OCaml threads. *)
Inductive turn := Push (stop : bool) (a : Z) (p : packet) | Pop | Close (timeout : bool).

Definition allowed (u : usage) (timeout : bool) (s : shared) : bool :=
  match u with
  | Any => true
  | Orderly => negb timeout && negb (match closer s, consumer s with SIdle, CIdle => false | SIdle, _ => true | _, _ => false end)
  end.

Fixpoint run_schedule (u : usage) (l : list turn) (s : shared) : option shared :=
  match l with
  | [] => Some s
  | Push stop a p :: l =>
      match heap s !! a, push_step stop a p s with
      | None, Done s' => run_schedule u l s'
      | _, _ => None
      end
  | Pop :: l =>
      match pop_step true true s with
      | Done (Some s') => run_schedule u l s'
      | _ => None
      end
  | Close timeout :: l =>
      if allowed u timeout s then
        match close_step true timeout s with
        | Done (Some s') => run_schedule u l s'
        | _ => None
        end
      else None
  end.

Lemma allowed_may_close u timeout s : allowed u timeout s = true -> may_close u timeout s.
Proof.
  destruct u; [|done]. cbn. intros [H1 H2]%andb_prop. split; [by destruct timeout|].
  intros E. rewrite E in H2. by destruct (consumer s).
Qed.

Lemma run_reachable u l s s' : reachable u s -> run_schedule u l s = Some s' -> reachable u s'.
Proof.
  revert s. induction l as [|[stop a p| |timeout] l IH]; intros s Hr H; cbn in H.
  - congruence.
  - destruct (heap s !! a) eqn:Ha; [done|]. destruct (push_step stop a p s) as [s1| |] eqn:E; try done.
    apply (IH s1); [|done]. by eapply reachable_push.
  - destruct (pop_step true true s) as [[s1|]| |] eqn:E; try done. apply (IH s1); [|done].
    eapply reachable_pop; [done| |done]. by destruct u.
  - destruct (allowed u timeout s) eqn:Ea; [|done]. apply allowed_may_close in Ea.
    destruct (close_step true timeout s) as [[s1|]| |] eqn:E; try done. apply (IH s1); [|done].
    by eapply reachable_close.
Qed.

Definition packet_1 : packet := Packet [97] [1].
Definition packet_2 : packet := Packet [98] [2].

(** A whole push; only its first step uses the address. *)
Definition whole_push (a : Z) (p : packet) : list turn := Push false a p :: replicate 3 (Push false 99 p).

(** One packet is pushed and taken; before the event object is reset another is pushed. *)
Definition unlucky_schedule : list turn :=
  whole_push 10 packet_1 ++ replicate 4 Pop ++ whole_push 20 packet_2 ++ replicate 4 Pop.

Definition stuck_state : shared :=
  Shared {[20 := Node None packet_2]} (Some 20) false PIdle CWaiting SIdle [packet_1; packet_2] [[packet_1]] [] [].

(** A packet pushed between [pop_events] and [ResetEvent] is not announced: both threads
    are at rest, a packet is in the list, and the OCaml thread waits until another change
    happens. *)
Theorem wakeup_lost :
  reachable Orderly stuck_state /\ pop_step true true stuck_state = Done None /\
  top stuck_state <> None /\ producer stuck_state = PIdle.
Proof.
  split; [|done]. apply (run_reachable Orderly unlucky_schedule initial_shared); [constructor|].
  vm_compute. reflexivity.
Qed.

(** The shutdown stops waiting for the watch thread after two seconds and frees the
    [fsenv] all the same: a thread that is still running then reads freed memory. *)
Theorem shutdown_timeout_dangles :
  exists s, reachable Any s /\ consumer s = CIdle /\ forall stop a p, push_step stop a p s = Fault.
Proof.
  exists (Shared ∅ None false PIdle CIdle SDone [] [] [] []). split; [|split; [done|]].
  - apply (run_reachable Any (replicate 6 (Close true)) initial_shared); [constructor|]. vm_compute. reflexivity.
  - done.
Qed.

(** A wait that has been woken and has not yet read the list, for instance during its
    debounce sleep, reads the freed [fsenv] if a shutdown takes place meanwhile, although
    the watch thread has ended in time. *)
Theorem wait_in_flight_dangles :
  exists s, reachable Any s /\ producer s = PExited /\ forall wait_ok reset_ok, pop_step wait_ok reset_ok s = Fault.
Proof.
  exists (Shared ∅ None false PExited CRead SDone [packet_1] [] [] [packet_1]). split; [|done].
  apply (run_reachable Any (whole_push 10 packet_1 ++ replicate 2 Pop ++ [Close false; Push true 99 packet_1] ++
    replicate 6 (Close false)) initial_shared); [constructor|]. vm_compute. reflexivity.
Qed.

(** When [ResetEvent] fails, the packets of the list that was taken are never delivered and
    its nodes never freed. *)
Theorem reset_failure_loses :
  exists s, reachable Any s /\ pushed s = [packet_1] /\ delivered s = [] /\ consumer s = CIdle /\
    top s = None /\ heap s !! 10 = Some (Node None packet_1).
Proof.
  exists (Shared {[10 := Node None packet_1]} None false PIdle CIdle SIdle [packet_1] [] [] []).
  split; [|done]. eapply (reachable_pop Any _ _ true false); [|done|].
  - apply (run_reachable Any (whole_push 10 packet_1 ++ replicate 4 Pop) initial_shared); [constructor|].
    vm_compute. reflexivity.
  - reflexivity.
Qed.

Lemma events_delivered_once_witness :
  (forall stop a p, heap stuck_state !! a = None -> exists s', push_step stop a p stuck_state = Done s') /\
  (forall wait_ok reset_ok, exists r, pop_step wait_ok reset_ok stuck_state = Done r) /\
  (forall post_ok, (SIdle = SIdle -> CWaiting = CIdle) -> exists r, close_step post_ok false stuck_state = Done r) /\
  exists rest waiting,
    [packet_1; packet_2] = [packet_1] ++ rev rest ++ waiting /\ (Some 20 = None -> waiting = []) /\
    (SIdle = SIdle -> CWaiting = CIdle \/ CWaiting = CWaiting -> @nil packet = [] /\ @nil packet = [] /\ rest = []).
Proof.
  apply (events_delivered_once stuck_state).
  apply (run_reachable Orderly unlucky_schedule initial_shared); [constructor|vm_compute; reflexivity].
Defined.

(** A packet has been pushed, the shutdown is posted and the watch thread ends. *)
Definition ended_state : shared :=
  Shared {[10 := Node None packet_1]} (Some 10) true PExited CIdle SJoin [packet_1] [] [] [].

Lemma shutdown_releases_all_witness :
  exists s', run_close 7 ended_state = Done s' /\ all_freed ended_state s'.
Proof.
  apply (shutdown_releases_all ended_state); [|reflexivity|reflexivity].
  apply (run_reachable Orderly (whole_push 10 packet_1 ++ [Close false; Push true 99 packet_1]) initial_shared);
    [constructor|vm_compute; reflexivity].
Defined.
