(* ===== verification/FswatchStubs.v ===== *)
(** * Watching files on Windows: decoding and the OCaml interface

    [parse_events] turns the packets of [ReadDirectoryChangesW] into OCaml events; the
    primitives create a watcher, add a directory, wait and shut down. *)

From Stdlib Require Import ZArith Lia.
From stdpp Require Import base numbers list strings.
From S2P Require Import Prelude Posix FswatchWin.
Local Open Scope Z_scope.

(** ** Decoding *)

(** [FILE_ACTION_*], in the order of [Event.action]. *)
Definition actions : list Z := [1; 2; 3; 4; 5].

Fixpoint find_action (tag : Z) (table : list Z) (action : Z) : exec Z :=
  match table with
  | [] => Fault
  | a :: table => if a =? action then Done tag else find_action (tag + 1) table action
  end.
(** An action that is not in the table fails the assertion. *)
Definition Val_action (action : Z) : exec Z := find_action 0 actions action.

Definition load_dword (buffer : list Z) (off : Z) : exec Z :=
  let! b := load_range buffer off 4 in Done (le_value b).

(** The code units of UTF-16 text in memory. *)
Fixpoint code_units (bs : list Z) : list Z :=
  match bs with
  | a :: b :: bs => (a + 256 * b) :: code_units bs
  | _ => []
  end.

Record event := Event { ev_path : list Z; ev_filename : list Z; ev_action : Z }.

Section Parse.
(** [WideCharToMultiByte] on text that is not empty; it fails on empty text. *)
Context (WideCharToMultiByte : list Z -> option (list Z)).

Definition utf16_to_utf8 (s : list Z) : option (list Z) :=
  match s with [] => None | _ => c_string <$> WideCharToMultiByte s end.

(** The entries of one buffer from [off] on; the list grows at its front.  An entry whose
    name cannot be converted ends the packet. *)
Fixpoint parse_entries (fuel : nat) (path buffer : list Z) (off : Z) (res : list event) :
  exec (list event) :=
  match fuel with
  | O => Spin
  | S fuel =>
      let! NextEntryOffset := load_dword buffer off in
      let! Action := load_dword buffer (off + 4) in
      let! FileNameLength := load_dword buffer (off + 8) in
      let! name := load_range buffer (off + 12) (FileNameLength / 2 * 2) in
      match utf16_to_utf8 (code_units name) with
      | None => Done res
      | Some filename =>
          let! tag := Val_action Action in
          let res := Event path filename tag :: res in
          if NextEntryOffset =? 0 then Done res
          else parse_entries fuel path buffer (off + NextEntryOffset) res
      end
  end.

(** The offset grows at each pass. *)
Fixpoint parse_packets (l : list packet) (res : list event) : exec (list event) :=
  match l with
  | [] => Done res
  | e :: l =>
      let! res := parse_entries (S (length (p_buffer e))) (c_string (p_path e)) (p_buffer e) 0 res in
      parse_packets l res
  end.
Definition parse_events (l : list packet) : exec (list event) := parse_packets l [].
End Parse.

(** ** The primitives *)

(** [GetLastError] is the error of the call that failed. *)
Definition last_error (op : string) (e : Z) : exn := Unix_error e op [].

Definition close_handles (hs : list Z) : M unit :=
  foldr (fun h m => _ ← sys "CloseHandle" [h]; m) (mret tt) hs.

(** The handles of a [struct fsenv]. *)
Record fsenv := Fsenv { completionPort : Z; signal_event : Z; afterAdd : Z; thread : Z }.

Definition handle_of (a : answer) : Z + Z :=
  match a with Ret h => inl h | Errno e => inr e | Bytes _ => inl 0 end.

Definition fswatch_win_create : M (caml fsenv) :=
  a ← sys "CreateIoCompletionPort" [];
  match handle_of a with
  | inr e => mret (Raise (last_error "CreateIoCompletionPort" e))
  | inl completionPort =>
  a ← sys "CreateEvent" [];
  match handle_of a with
  | inr e => _ ← close_handles [completionPort]; mret (Raise (last_error "CreateEvent" e))
  | inl signal =>
  a ← sys "CreateEvent" [];
  match handle_of a with
  | inr e => _ ← close_handles [signal; completionPort]; mret (Raise (last_error "CreateEvent" e))
  | inl afterAdd =>
  a ← sys "CreateThread" [];
  match handle_of a with
  | inr e => _ ← close_handles [afterAdd; signal; completionPort]; mret (Raise (last_error "CreateThread" e))
  | inl thread => mret (Value (Fsenv completionPort signal afterAdd thread))
  end end end end.

Definition ADDWATCH : Z := 1.
Definition SHUTDOWN : Z := 3.

(** [env] is [None] after a shutdown. *)
Definition fswatch_win_add (env : option fsenv) (v_path : list Z) : M (caml unit) :=
  match env with
  | None => mret (Raise (Invalid_argument "Fswatch_win.add: already shut down"))
  | Some env =>
      if negb (check_path v_path) then mret (Raise (Invalid_argument "Fswatch_win.add")) else
      a ← sys "PostQueuedCompletionStatus" (completionPort env :: ADDWATCH :: v_path);
      match a with
      | Errno e => mret (Raise (last_error "PostQueuedCompletionStatus" e))
      | _ =>
          a ← sys "WaitForSingleObject" [afterAdd env];
          mret (match a with Errno e => Raise (last_error "WaitForSingleObject" e) | _ => Value tt end)
      end
  end.

(** [queue] is what [pop_events] takes from the shared list. *)
Definition fswatch_win_wait (conv : list Z -> option (list Z)) (env : option fsenv) (v_debounce : Z)
  (queue : list packet) : M (caml (list event)) :=
  match env with
  | None => mret (Raise (Invalid_argument "Fswatch_win.wait: already shut down"))
  | Some env =>
      a ← sys "WaitForSingleObject" [signal_event env];
      match a with
      | Errno e => mret (Raise (last_error "WaitForSingleObject" e))
      | _ =>
          _ ← (if 0 <? v_debounce then _ ← sys "Sleep" [v_debounce]; mret tt else mret tt);
          a ← sys "ResetEvent" [signal_event env];
          match a with
          | Errno e => mret (Raise (last_error "ResetEvent" e))
          | _ => r ← lift (parse_events conv queue); mret (Value r)
          end
      end
  end.

(** The result comes with the new content of the custom block; what is done to the shared
    list and to the [fsenv] between closing the handles and returning is
    [FswatchQueue.close_step]. *)
Definition fswatch_win_shutdown (env : option fsenv) : M (caml unit * option fsenv) :=
  match env with
  | None => mret (Value tt, None)
  | Some env =>
      a ← sys "PostQueuedCompletionStatus" [completionPort env; SHUTDOWN];
      match a with
      | Errno e => mret (Raise (last_error "PostQueuedCompletionStatus" e), None)
      | _ =>
          _ ← sys "WaitForSingleObject" [thread env; 2000];
          _ ← close_handles [thread env; completionPort env; signal_event env; afterAdd env];
          mret (Value tt, None)
      end
  end.

(** On other systems the four functions refuse. *)
Inductive primitive := Create | Wait | Add_path | Shut_down.
Definition fswatch_win_other {A} (p : primitive) : caml A :=
  Raise (Invalid_argument match p with
                          | Create => "fswatch_win_create: not implemented"
                          | Wait => "fswatch_win_wait: not implemented"
                          | Add_path => "fswatch_win_add: not implemented"
                          | Shut_down => "fswatch_win_shutdown: not implemented"
                          end).

(** ** Decoding what the system encodes *)

(** One change as the system stores it: the index of its action, and its name. *)
Record change := Change { c_tag : Z; c_units : list Z; c_pad : list Z }.

Definition unit_bytes (us : list Z) : list Z := concat (map (fun u => [u mod 256; u / 256]) us).
Definition entry_size (c : change) : Z := 12 + 2 * zlen (c_units c) + zlen (c_pad c).
Definition entry_bytes (next : Z) (c : change) : list Z :=
  le_bytes 4 next ++ le_bytes 4 (nth (Z.to_nat (c_tag c)) actions 0) ++
  le_bytes 4 (2 * zlen (c_units c)) ++ unit_bytes (c_units c) ++ c_pad c.

(** Each entry gives the distance to the next one, the last one zero. *)
Fixpoint encode (l : list change) : list Z :=
  match l with
  | [] => []
  | [c] => entry_bytes 0 c
  | c :: l => entry_bytes (entry_size c) c ++ encode l
  end.

Section ParseLaws.
Context (conv : list Z -> option (list Z)).

(** A change whose name the system can convert to [name]. *)
Definition decodes (c : change) (name : list Z) : Prop :=
  0 <= c_tag c < 5 /\ c_units c <> [] /\ Forall (in_width 16) (c_units c) /\ conv (c_units c) = Some name /\
  entry_size c < 2 ^ 32.

Lemma find_action_nth tag : 0 <= tag < 5 -> Val_action (nth (Z.to_nat tag) actions 0) = Done tag.
Proof.
  intros H. assert (tag = 0 \/ tag = 1 \/ tag = 2 \/ tag = 3 \/ tag = 4) as [->|[->|[->|[->| ->]]]] by lia;
    reflexivity.
Qed.

Lemma action_range tag : 0 <= nth tag actions 0 < 256.
Proof. do 6 (destruct tag as [|tag]; [cbn; lia|]). cbn. destruct tag; lia. Qed.

Lemma code_units_bytes us : code_units (unit_bytes us) = us.
Proof.
  induction us as [|u us IH]; [done|]. cbn. unfold unit_bytes in IH. cbn in IH. rewrite IH. f_equal.
  pose proof (Z.div_mod u 256 ltac:(lia)). lia.
Qed.

Lemma zlen_unit_bytes us : zlen (unit_bytes us) = 2 * zlen us.
Proof.
  induction us as [|u us IH]; [done|]. change (unit_bytes (u :: us)) with ([u mod 256; u / 256] ++ unit_bytes us).
  rewrite zlen_app, IH, (zlen_cons u us). change (zlen [u mod 256; u / 256]) with 2. lia.
Qed.

Lemma zlen_entry next c : zlen (entry_bytes next c) = entry_size c.
Proof.
  unfold entry_bytes, entry_size. rewrite !zlen_app, !zlen_le_bytes, zlen_unit_bytes. lia.
Qed.

(** Reading a piece of a buffer. *)
Lemma load_piece (pre a post : list Z) off n : off = zlen pre -> n = zlen a ->
  load_range (pre ++ a ++ post) off n = Done a.
Proof.
  intros -> ->. pose proof (zlen_nonneg pre). pose proof (zlen_nonneg a). pose proof (zlen_nonneg post).
  rewrite load_range_ok by (rewrite ?zlen_app; lia). f_equal.
  rewrite zdrop_app_ge, Z.sub_diag, zdrop_0, ztake_app_le, ztake_all by lia. done.
Qed.

Lemma load_dword_piece pre z post off : off = zlen pre -> 0 <= z < 2 ^ 32 ->
  load_dword (pre ++ le_bytes 4 z ++ post) off = Done z.
Proof.
  intros Ho Hz. unfold load_dword. rewrite load_piece by (rewrite ?zlen_le_bytes; done || lia).
  cbn [exec_bind]. rewrite le_value_le_bytes by (cbn; lia). done.
Qed.

(** One entry, anywhere in a buffer. *)
Lemma parse_entry fuel path pre c name next post off res :
  off = zlen pre -> decodes c name -> 0 <= next < 2 ^ 32 ->
  let buffer := pre ++ entry_bytes next c ++ post in
  parse_entries conv (S fuel) path buffer off res =
  (let res := Event path (c_string name) (c_tag c) :: res in
   if next =? 0 then Done res else parse_entries conv fuel path buffer (off + next) res).
Proof.
  intros Ho (Ht & Hne & Hu & Hc & Hs) Hn buffer. pose proof (zlen_nonneg (c_units c)).
  pose proof (zlen_nonneg (c_pad c)). unfold entry_size in Hs. pose proof (action_range (Z.to_nat (c_tag c))).
  cbn [parse_entries]. unfold buffer, entry_bytes. rewrite <- !app_assoc.
  rewrite load_dword_piece by done. cbn [exec_bind].
  rewrite (app_assoc pre), load_dword_piece by (rewrite ?zlen_app, ?zlen_le_bytes; lia). cbn [exec_bind].
  rewrite (app_assoc (pre ++ _)), load_dword_piece by (rewrite ?zlen_app, ?zlen_le_bytes; lia). cbn [exec_bind].
  rewrite (Z.mul_comm 2), Z.div_mul by lia.
  rewrite (app_assoc ((pre ++ _) ++ _)), load_piece by (rewrite ?zlen_app, ?zlen_le_bytes, ?zlen_unit_bytes; lia).
  cbn [exec_bind]. rewrite code_units_bytes. unfold utf16_to_utf8.
  destruct (c_units c) as [|u us] eqn:E; [done|]. rewrite Hc. cbn [fmap option_fmap option_map].
  rewrite find_action_nth by done. cbn [exec_bind]. rewrite <- !app_assoc. done.
Qed.

Lemma parse_encoded path l names pre post res fuel : Forall2 decodes l names -> l <> [] ->
  (length l <= fuel)%nat ->
  parse_entries conv fuel path (pre ++ encode l ++ post) (zlen pre) res =
  Done (rev (zip_with (fun c n => Event path (c_string n) (c_tag c)) l names) ++ res).
Proof.
  intros H. revert pre res fuel. induction H as [|c n l names Hc H IH]; intros pre res fuel Hne Hf; [done|].
  destruct fuel as [|fuel]; [cbn in Hf; lia|]. assert (Hs : 0 <= entry_size c < 2 ^ 32).
  { unfold entry_size. pose proof (zlen_nonneg (c_units c)). pose proof (zlen_nonneg (c_pad c)).
    destruct Hc as (_ & _ & _ & _ & Hc). unfold entry_size in Hc. lia. }
  destruct l as [|c' l].
  - inversion H. subst. cbn [encode]. rewrite (parse_entry fuel path pre c n 0) by (done || lia). done.
  - change (encode (c :: c' :: l)) with (entry_bytes (entry_size c) c ++ encode (c' :: l)).
    rewrite <- app_assoc, (parse_entry fuel path pre c n (entry_size c)) by done.
    rewrite (proj2 (Z.eqb_neq _ _)).
    2: { unfold entry_size. pose proof (zlen_nonneg (c_units c)). pose proof (zlen_nonneg (c_pad c)). lia. }
    cbv zeta. rewrite (app_assoc pre). specialize (IH (pre ++ entry_bytes (entry_size c) c)).
    rewrite zlen_app, zlen_entry in IH. rewrite IH by (done || cbn in *; lia).
    cbn [zip_with rev]. rewrite <- app_assoc. done.
Qed.

Lemma encode_length l : (length l <= length (encode l))%nat.
Proof.
  assert (H1 : forall n c, (1 <= length (entry_bytes n c))%nat).
  { intros n c. pose proof (zlen_entry n c) as E. unfold zlen, entry_size in E.
    pose proof (zlen_nonneg (c_units c)). pose proof (zlen_nonneg (c_pad c)). unfold zlen in *. lia. }
  induction l as [|c [|c' l] IH]; [done|apply H1|].
  change (encode (c :: c' :: l)) with (entry_bytes (entry_size c) c ++ encode (c' :: l)).
  rewrite length_app. pose proof (H1 (entry_size c) c). cbn [length] in *. lia.
Qed.

(** What a packet of changes means, in the order they happened. *)
Definition meaning (p : list Z * list (change * list Z)) : list event :=
  map (fun cn => Event (c_string p.1) (c_string cn.2) (c_tag cn.1)) p.2.
Definition encoded (p : list Z * list (change * list Z)) : packet :=
  Packet p.1 (encode (map fst p.2)).

Lemma parse_events_ok (l : list (list Z * list (change * list Z))) :
  Forall (fun p => p.2 <> [] /\ Forall (fun cn => decodes cn.1 cn.2) p.2) l ->
  parse_events conv (map encoded l) = Done (rev (concat (map meaning l))).
Proof.
  unfold parse_events. intros H. rewrite <- (app_nil_r (rev _)). generalize (@nil event) as res.
  induction H as [|p l [Hne Hp] H IH]; intros res; [done|]. cbn [map parse_packets encoded p_path p_buffer].
  pose proof (parse_encoded (c_string p.1) (map fst p.2) (map snd p.2) [] [] res
    (S (length (encode (map fst p.2))))) as E.
  cbn [app] in E. rewrite app_nil_r in E. change (zlen []) with 0 in E. rewrite E.
  - cbn [exec_bind]. rewrite IH. cbn [concat map]. rewrite rev_app_distr, <- app_assoc. do 4 f_equal.
    unfold meaning. clear. induction p.2 as [|x q IH]; [done|]. cbn. f_equal. done.
  - clear - Hp. induction Hp; constructor; done.
  - destruct p.2; done.
  - pose proof (encode_length (map fst p.2)). lia.
Qed.

(** C16.  Decoding gives back what the system encoded: for any packets of changes, with
    names of any length and any padding, every change becomes one event with the watched
    path, the name and the action, and the list is the changes in reverse order.  No byte
    outside a buffer is read. *)
Theorem parse_events_roundtrip (l : list (list Z * list (change * list Z))) :
  Forall (fun p => p.2 <> [] /\ Forall (fun cn => decodes cn.1 cn.2) p.2) l ->
  parse_events conv (map encoded l) = Done (rev (concat (map meaning l))).
Proof. apply parse_events_ok. Qed.
End ParseLaws.

Lemma parse_events_roundtrip_witness :
  let conv := fun us => Some us in
  parse_events conv [encoded ([100], [(Change 0 [97] [0; 0], [97]); (Change 2 [98; 99] [], [98; 99])])] =
  Done [Event [100] [98; 99] 2; Event [100] [97] 0].
Proof.
  apply (parse_events_roundtrip (fun us => Some us)
    [([100], [(Change 0 [97] [0; 0], [97]); (Change 2 [98; 99] [], [98; 99])])]).
  assert (Hd : forall tag us pad, 0 <= tag < 5 -> us <> [] -> Forall (in_width 16) us ->
    entry_size (Change tag us pad) < 2 ^ 32 -> decodes (fun us => Some us) (Change tag us pad) us)
    by (intros tag us pad H1 H2 H3 H4; exact (conj H1 (conj H2 (conj H3 (conj eq_refl H4))))).
  assert (Hw : forall us, forallb (fun u => (0 <=? u) && (u <? 2 ^ 16)) us = true -> Forall (in_width 16) us).
  { intros us. rewrite forallb_forall. intros H. apply Forall_forall. intros u Hu%list_elem_of_In.
    specialize (H u Hu). unfold in_width. lia. }
  constructor; [|constructor]. split; [discriminate|].
  constructor; [|constructor; [|constructor]]; apply Hd; (lia || discriminate || (apply Hw; reflexivity) || reflexivity).
Defined.
