(* ===== verification/FswatchCorrect.v ===== *)
(** * Watching files on Windows: from the system to OCaml

    The shared list of [FswatchQueue] and the decoding of [FswatchStubs] together: what the
    calls of [fswatch_win_wait] return, in terms of the changes that the system reported to
    the watch thread. *)

From Stdlib Require Import ZArith Lia.
From stdpp Require Import base numbers list strings gmap.
From S2P Require Import Prelude Posix FswatchWin FswatchQueue FswatchStubs.
Local Open Scope Z_scope.

(** A report of the system: the watched path, and the changes with their names. *)
Abbreviation report := (list Z * list (change * list Z))%type.

Section Waits.
Context (conv : list Z -> option (list Z)).

Definition readable (r : report) : Prop := r.2 <> [] /\ Forall (fun cn => decodes conv cn.1 cn.2) r.2.

(** The events of a report as a wait gives them, the newest first. *)
Definition newest_first (r : report) : list event := rev (meaning r).

Lemma rev_concat_map (l : list report) : rev (concat (map meaning (rev l))) = concat (map newest_first l).
Proof.
  induction l as [|r l IH]; [done|]. change (rev (r :: l)) with (rev l ++ [r]).
  rewrite map_app, concat_app, rev_app_distr, IH. cbn. rewrite app_nil_r. done.
Qed.

(** One wait: it took the packets of some reports, the last one first. *)
Lemma wait_decodes (b : list packet) (rs : list report) : Forall readable rs -> rev b = map encoded rs ->
  parse_events conv b = Done (concat (map newest_first rs)).
Proof.
  intros Hr E. assert (b = map encoded (rev rs)) as ->.
  { rewrite map_rev, <- E, rev_involutive. done. }
  rewrite parse_events_ok, rev_concat_map; [done|]. rewrite Forall_forall in Hr |- *.
  intros r Hin. apply Hr. rewrite list_elem_of_In in Hin |- *. by apply in_rev.
Qed.

(** All the waits: they took the packets one after the other. *)
Lemma waits_decode (bs : list (list packet)) (rs : list report) (rest : list packet) : Forall readable rs ->
  concat (map (@rev packet) bs) ++ rest = map encoded rs ->
  exists results, Forall2 (fun b r => parse_events conv b = Done r) bs results /\
    concat results = concat (map newest_first (take (length (concat bs)) rs)).
Proof.
  revert rs. induction bs as [|b bs IH]; intros rs Hr E; [exists []; done|].
  cbn [map concat] in E. rewrite <- app_assoc in E. symmetry in E. apply map_eq_app in E as (r1 & r2 & -> & E1 & E2).
  apply Forall_app in Hr as [Hr1 Hr2]. symmetry in E2. destruct (IH r2 Hr2 E2) as (results & H1 & H2).
  exists (concat (map newest_first r1) :: results). split; [constructor; [by apply wait_decodes|done]|].
  cbn [concat]. rewrite H2, length_app. assert (length b = length r1) as ->.
  { rewrite <- (length_rev b), <- E1, length_map. done. }
  rewrite take_app_add, map_app, concat_app. done.
Qed.

(** C6.  From the changes to OCaml, in orderly use (no wait in progress when a shutdown
    starts, which the thread does not outlive, and an event object that can be reset): when
    the packets pushed so far are reports of the system, every wait that has returned gave a list of events, and one list after the
    other these are the events of the first reports, each report in its place, with its
    own events newest first; none is missing or doubled.  When the list is empty and no
    call is in progress, they are the events of all reports. *)
Theorem waits_report_changes (s : shared) (rs : list report) :
  reachable Orderly s -> Forall readable rs -> pushed s = map encoded rs ->
  exists results n, Forall2 (fun b r => parse_events conv b = Done r) (delivered s) results /\
    concat results = concat (map newest_first (take n rs)) /\
    (top s = None -> closer s = SIdle -> consumer s = CIdle -> n = length rs).
Proof.
  intros Hs%reachable_ok Hr Hp. destruct Hs as (lt & pt & lc & pc & I). pose proof (inv_history _ _ _ _ _ I) as Hh.
  rewrite Hh in Hp. destruct (waits_decode (delivered s) rs _ Hr Hp) as (results & H1 & H2).
  exists results, (length (concat (delivered s))). split; [done|]. split; [done|]. intros Etop Ecl Ec.
  destruct I as [Ht Hc _ _ _ Hcons Hclo _]. unfold consumer_ok, closer_ok, taken in *. rewrite Ec, Ecl in *.
  rewrite Etop in Ht. apply linked_None in Ht as [_ ->]. apply linked_None in Hc as [_ ->].
  rewrite Hcons, Hclo in Hp. cbn in Hp. rewrite app_nil_r in Hp. apply (f_equal length) in Hp.
  rewrite length_map in Hp. rewrite <- Hp. clear. induction (delivered s) as [|b bs IH]; [done|].
  cbn. rewrite !length_app, length_rev, IH. done.
Qed.
End Waits.

(** One report of one change is pushed, and a wait returns it. *)
Definition sample_report : report := ([100], [(Change 0 [97] [], [97])]).
Definition after_wait : shared :=
  Shared ∅ None false PIdle CIdle SIdle [encoded sample_report] [[encoded sample_report]] [] [].

Lemma waits_report_changes_witness :
  exists results n, Forall2 (fun b r => parse_events (fun us => Some us) b = Done r) [[encoded sample_report]] results /\
    concat results = concat (map newest_first (take n [sample_report])) /\
    (@None Z = None -> SIdle = SIdle -> CIdle = CIdle -> n = 1%nat).
Proof.
  apply (waits_report_changes (fun us => Some us) after_wait [sample_report]).
  - apply (run_reachable Orderly (whole_push 10 (encoded sample_report) ++ replicate 7 Pop) initial_shared);
      [constructor|vm_compute; reflexivity].
  - constructor; [|constructor]. split; [discriminate|]. constructor; [|constructor].
    split; [cbn; lia|]. split; [discriminate|]. split; [constructor; [unfold in_width; cbn; lia|constructor]|].
    split; reflexivity.
  - reflexivity.
Defined.
