(* ===== verification/Fsevents.v ===== *)
(** * Watching files on macOS

    [fsevents_stubs.c]: the meaning of event flags, the callback that collects events, and
    the dispatch queue that a thread waits on until every stream has been stopped or a
    callback has raised. *)

From Stdlib Require Import ZArith Lia.
From stdpp Require Import base numbers list strings sets.
From S2P Require Import Prelude Posix.
Local Open Scope Z_scope.

(** ** Flags *)

(** Bit [i] of [FSEventStreamEventFlags]. *)
Definition flag (i : Z) : Z := Z.shiftl 1 i.
Definition MustScanSubDirs : Z := flag 0.
Definition ItemCreated : Z := flag 8.
Definition ItemRemoved : Z := flag 9.
Definition ItemRenamed : Z := flag 11.
Definition ItemModified : Z := flag 12.
Definition ItemIsFile : Z := flag 16.
Definition ItemIsDir : Z := flag 17.

(** The declared flags are the bits 0 to 21 in this order, and [ItemCloned] from macOS
    10.13 on. *)
Definition all_flags (since_10_13 : bool) : list Z :=
  map flag (seqZ 0 22) ++ [if since_10_13 then flag 22 else 0].

Definition interesting_flags : Z :=
  Z.lor (Z.lor (Z.lor (Z.lor ItemCreated ItemRemoved) ItemRenamed) ItemModified) MustScanSubDirs.
Definition action_mask : Z := Z.lor (Z.lor (Z.lor ItemCreated ItemRemoved) ItemRenamed) ItemModified.

Inductive dune_fsevents_kind_tag := Dir | File | Dir_and_descendants.
Inductive dune_fsevents_action_tag := Create | Remove | Modify | Rename | Unknown.

Definition dune_fsevents_kind_of_flags (flags : Z) : dune_fsevents_kind_tag :=
  if negb (Z.land flags MustScanSubDirs =? 0) then Dir_and_descendants
  else if negb (Z.land flags ItemIsDir =? 0) then Dir
  else File.

Definition dune_fsevents_action_of_flags (flags : Z) : dune_fsevents_action_tag :=
  let flags := Z.land flags action_mask in
  if flags =? ItemCreated then Create
  else if flags =? ItemRemoved then Remove
  else if flags =? ItemModified then Modify
  else if flags =? ItemRenamed then Rename
  else Unknown.

(** [Int32_val] as a [uint32_t]. *)
Definition dune_fsevents_kind (v_flags : Z) : dune_fsevents_kind_tag := dune_fsevents_kind_of_flags (u32 v_flags).
Definition dune_fsevents_action (v_flags : Z) : dune_fsevents_action_tag := dune_fsevents_action_of_flags (u32 v_flags).

Definition dune_fsevents_raw (since_10_13 : bool) (v_flags : Z) : list bool :=
  let flags := u32 v_flags in
  map (fun f => negb (Z.land flags f =? 0)) (all_flags since_10_13).

Definition flag_examples : list (string * Z) :=
  [("created_file", Z.lor ItemCreated ItemIsFile);
   ("removed_file", Z.lor ItemRemoved ItemIsFile);
   ("modified_file", Z.lor ItemModified ItemIsFile);
   ("renamed_file", Z.lor ItemRenamed ItemIsFile);
   ("created_dir", Z.lor ItemCreated ItemIsDir);
   ("must_scan_subdirs", MustScanSubDirs);
   ("must_scan_dir", Z.lor MustScanSubDirs ItemIsDir);
   ("created_and_modified", Z.lor (Z.lor ItemCreated ItemModified) ItemIsFile);
   ("removed_and_renamed", Z.lor (Z.lor ItemRemoved ItemRenamed) ItemIsFile)]%string.

(** [for (i = len; i > 0; i--)]: consing the examples backwards. *)
Fixpoint examples_loop (i : nat) (v_list : list (string * Z)) : exec (list (string * Z)) :=
  match i with
  | O => Done v_list
  | S i =>
      match flag_examples !! i with
      | None => Fault
      | Some example => examples_loop i (example :: v_list)
      end
  end.
Definition dune_fsevents_flag_examples : exec (list (string * Z)) :=
  examples_loop (length flag_examples) [].

(** ** The callback *)

(** What the system reports of one event; the path is a string of the system. *)
Record raw_event := { eventPath : list Z; eventFlags : Z; eventId : Z }.
Record fsevent := { fe_path : list Z; fe_id : Z; fe_flags : Z }.

Section Callback.
(** [CFStringGetBytes] in UTF-8, of the whole string. *)
Context (CFStringGetBytes : list Z -> list Z).

(** [i = numEvents - j - 1] on [size_t]; [n] passes are left. *)
Fixpoint collect_loop (n : nat) (events : list raw_event) (j : Z) (xs : list fsevent) :
  exec (list fsevent) :=
  match n with
  | O => Done xs
  | S n =>
      let i := u64 (zlen events - j - 1) in
      match events !! Z.to_nat i with
      | None => Fault
      | Some e =>
          if Z.land interesting_flags (eventFlags e) =? 0 then collect_loop n events (j + 1) xs
          else
            collect_loop n events (j + 1)
              ({| fe_path := CFStringGetBytes (eventPath e); fe_id := eventId e;
                  fe_flags := eventFlags e |} :: xs)
      end
  end.
Definition collect_events (events : list raw_event) : exec (list fsevent) :=
  collect_loop (length events) events 0 [].
End Callback.

(** ** The dispatch queue *)

(** The thread in [dune_fsevents_dispatch_queue_wait_until_stopped]. *)
Inductive waiter := Away | Checking | Asleep | Back.

(** Where a thread is in [start] or [stop], between two sections under a lock:
    before the stream is counted, before it is started, before it is counted off, and
    before its field is cleared. *)
Inductive place := Attaching | Starting | Stopping | Dropped.
#[global] Instance place_eq_dec : EqDecision place.
Proof. solve_decision. Defined.

(** [attached] are the streams [t] whose field [dq] is set; [ops] the threads that are in
    [start] or [stop] of a stream. *)
Record queue := Queue {
  fsevent_streams : Z;
  has_exn : bool;
  v_exn : option Z;
  waiting : waiter;
  attached : list Z;
  ops : list (Z * place) }.

Definition dune_fsevents_dispatch_queue_create : queue := Queue 0 false None Away [] [].

(** [pthread_cond_broadcast] *)
Definition broadcast (w : waiter) : waiter := match w with Asleep => Checking | w => w end.

Definition set_ops (o : list (Z * place)) (q : queue) : queue :=
  Queue (fsevent_streams q) (has_exn q) (v_exn q) (waiting q) (attached q) o.
Definition attach (t : Z) (q : queue) : queue :=
  Queue (fsevent_streams q) (has_exn q) (v_exn q) (waiting q) (t :: attached q) (ops q).
Definition detach (t : Z) (q : queue) : queue :=
  Queue (fsevent_streams q) (has_exn q) (v_exn q) (waiting q)
    (filter (fun s => s <> t) (attached q)) (ops q).

(** Under the lock: [fsevent_streams++]. *)
Definition start_stream (q : queue) : queue :=
  Queue (u32 (fsevent_streams q + 1)) (has_exn q) (v_exn q) (waiting q) (attached q) (ops q).

(** Under the lock: [fsevent_streams--] and the broadcast when it was the last. *)
Definition drop_stream (q : queue) : queue :=
  let n := u32 (fsevent_streams q - 1) in
  Queue n (has_exn q) (v_exn q) (if n =? 0 then broadcast (waiting q) else waiting q)
    (attached q) (ops q).

(** [dune_fsevents_start] and [dune_fsevents_stop] run alone. *)
Definition dune_fsevents_start (t : Z) (res : bool) (q : queue) : caml unit * queue :=
  let q := start_stream (attach t q) in
  if res then (Value tt, q)
  else (Raise (Failure "Fsevents.start: failed to start"), detach t (drop_stream q)).
Definition dune_fsevents_stop (t : Z) (q : queue) : queue :=
  if bool_decide (t ∈ attached q) then detach t (drop_stream q) else q.

(** The end of [dune_fsevents_callback]: what the OCaml function raised, if anything. *)
Definition callback_result (t : Z) (exn : option Z) (q : queue) : exec queue :=
  match exn with
  | None => Done q
  | Some x =>
      if bool_decide (t ∈ attached q)
      then Done (Queue (fsevent_streams q) true (Some x) (broadcast (waiting q)) (attached q) (ops q))
      else Fault
  end.

(** [while (dq->fsevent_streams > 0 && !dq->has_exn) pthread_cond_wait(...)] *)
Definition must_wait (q : queue) : bool := (0 <? fsevent_streams q) && negb (has_exn q).
Definition set_waiting (w : waiter) (q : queue) : queue :=
  Queue (fsevent_streams q) (has_exn q) (v_exn q) w (attached q) (ops q).
Definition check_condition (q : queue) : queue :=
  set_waiting (if must_wait q then Asleep else Back) q.

(** What is returned: the exception of a callback is raised. *)
Definition wait_result (q : queue) : unit + Z := match v_exn q with None => inl tt | Some x => inr x end.

(** The steps between which other threads run; waiting threads may also wake up for no
    reason. *)
Inductive queue_step : queue -> queue -> Prop :=
| step_start t q : t ∉ attached q -> queue_step q (set_ops ((t, Attaching) :: ops q) (attach t q))
| step_count t o1 o2 q : ops q = o1 ++ (t, Attaching) :: o2 ->
    queue_step q (set_ops (o1 ++ (t, Starting) :: o2) (start_stream q))
| step_started t o1 o2 q : ops q = o1 ++ (t, Starting) :: o2 -> queue_step q (set_ops (o1 ++ o2) q)
| step_failed t o1 o2 q : ops q = o1 ++ (t, Starting) :: o2 ->
    queue_step q (set_ops (o1 ++ (t, Dropped) :: o2) (drop_stream q))
| step_stop t q : t ∈ attached q -> queue_step q (set_ops ((t, Stopping) :: ops q) q)
| step_drop t o1 o2 q : ops q = o1 ++ (t, Stopping) :: o2 ->
    queue_step q (set_ops (o1 ++ (t, Dropped) :: o2) (drop_stream q))
| step_detach t o1 o2 q : ops q = o1 ++ (t, Dropped) :: o2 ->
    queue_step q (set_ops (o1 ++ o2) (detach t q))
| step_callback t exn q q' : callback_result t exn q = Done q' -> queue_step q q'
| step_wait q : waiting q = Away -> queue_step q (set_waiting Checking q)
| step_check q : waiting q = Checking -> queue_step q (check_condition q)
| step_spurious q : waiting q = Asleep -> queue_step q (set_waiting Checking q)
| step_return q : waiting q = Back -> queue_step q (set_waiting Away q).

(** Runs in which no two threads start or stop the same stream at once, which a mutex in
    [fsevents.ml] ensures, and that never have 2^32 streams. *)
Inductive queue_reach : queue -> Prop :=
| queue_initial : queue_reach dune_fsevents_dispatch_queue_create
| queue_next q q' : queue_reach q -> queue_step q q' -> NoDup (ops q').*1 ->
    zlen (attached q') < 2 ^ 32 -> queue_reach q'.

(** ** Registering threads *)

(** What a thread has in the key [register_thread], and the calls of
    [caml_c_thread_register] and [caml_c_thread_unregister] it made. *)
Record cthread := Thread { key_set : bool; registered : Z; unregistered : Z }.
Definition set_register_thread (th : cthread) : cthread :=
  if key_set th then th else Thread true (registered th + 1) (unregistered th).
(** At the end of a thread the destructor of the key runs when it is set. *)
Definition destroy_register_thread (th : cthread) : cthread :=
  if key_set th then Thread false (registered th) (unregistered th + 1) else th.

(** The whole callback of the stream [t] on a thread: [v_callback] is the OCaml function,
    with the exception it raises, if any.  The lock of the runtime is held from the
    registration of the thread to the end. *)
Definition dune_fsevents_callback (utf8 : list Z -> list Z) (v_callback : list fsevent -> option Z) (t : Z)
  (events : list raw_event) (th : cthread) (q : queue) : exec (cthread * queue) :=
  let th := set_register_thread th in
  let! v_events_xs := collect_events utf8 events in
  let! q := callback_result t (v_callback v_events_xs) q in
  Done (th, q).

(** ** Streams *)

(** Objects of the system are released by [CFRelease]; [1] is the array of paths. *)
Fixpoint append_paths (v_paths : list (list Z)) : M (caml unit) :=
  match v_paths with
  | [] => mret (Value tt)
  | path :: v_paths =>
      a ← sys "CFStringCreateWithCString" (c_string path);
      match a with
      | Ret s =>
          _ ← sys "CFArrayAppendValue" [1; s];
          _ ← sys "CFRelease" [s];
          append_paths v_paths
      | _ =>
          _ ← sys "CFRelease" [1];
          mret (Raise (Failure "Fsevents.create: unable to convert path"))
      end
  end.
Definition paths_of_list (v_paths : list (list Z)) : M (caml unit) :=
  _ ← sys "CFArrayCreateMutable" [];
  append_paths v_paths.

(** The new stream. *)
Definition dune_fsevents_create (v_paths : list (list Z)) : M (caml Z) :=
  r ← paths_of_list v_paths;
  match r with
  | Raise x => mret (Raise x)
  | Value _ =>
      a ← sys "FSEventStreamCreate" [1];
      _ ← sys "CFRelease" [1];
      mret (match a with
            | Ret stream => Value stream
            | _ => Raise (Failure "Fsevents.create: failed to create stream")
            end)
  end.

Definition dune_fsevents_set_exclusion_paths (stream : Z) (v_paths : list (list Z)) : M (caml unit) :=
  r ← paths_of_list v_paths;
  match r with
  | Raise x => mret (Raise x)
  | Value _ =>
      a ← sys "FSEventStreamSetExclusionPaths" [stream; 1];
      _ ← sys "CFRelease" [1];
      mret (match a with
            | Ret _ => Value tt
            | _ => Raise (Failure "Fsevents.set_exclusion_paths: unable to set")
            end)
  end.

(** ** Theorems *)

(** The flags decide: scanning wins over a directory, and an action is known exactly when
    one of the four bits is set. *)
Lemma action_unique flags :
  dune_fsevents_action_of_flags flags <> Unknown ->
  exists i, i ∈ [8; 9; 11; 12] /\ Z.land flags action_mask = flag i.
Proof.
  unfold dune_fsevents_action_of_flags. cbv zeta. intros H.
  destruct (Z.eqb_spec (Z.land flags action_mask) ItemCreated) as [->|_]; [exists 8; split; [set_solver|done]|].
  destruct (Z.eqb_spec (Z.land flags action_mask) ItemRemoved) as [->|_]; [exists 9; split; [set_solver|done]|].
  destruct (Z.eqb_spec (Z.land flags action_mask) ItemModified) as [->|_]; [exists 12; split; [set_solver|done]|].
  destruct (Z.eqb_spec (Z.land flags action_mask) ItemRenamed) as [->|_]; [exists 11; split; [set_solver|done]|].
  done.
Qed.

Lemma flag_examples_in_order : dune_fsevents_flag_examples = Done flag_examples.
Proof. reflexivity. Qed.

Section CallbackLaws.
Context (conv : list Z -> list Z).
Definition interesting (e : raw_event) : bool := negb (Z.land interesting_flags (eventFlags e) =? 0).
Definition reported (e : raw_event) : fsevent :=
  {| fe_path := conv (eventPath e); fe_id := eventId e; fe_flags := eventFlags e |}.

Lemma collect_loop_ok n evs j xs : j = zlen evs - Z.of_nat n -> 0 <= j -> zlen evs < 2 ^ 64 ->
  collect_loop conv n evs j xs = Done (map reported (List.filter interesting (take n evs)) ++ xs).
Proof.
  revert j xs. induction n as [|n IH]; intros j xs Hj H0 Hl; [done|]. cbn [collect_loop].
  rewrite wrap_small by lia. replace (Z.to_nat (zlen evs - j - 1)) with n by lia.
  destruct (lookup_lt_is_Some_2 evs n) as [e He]; [unfold zlen in *; lia|]. rewrite He.
  rewrite (take_S_r _ _ _ He), List.filter_app, map_app. cbn [List.filter].
  unfold interesting at 2. destruct (Z.land interesting_flags (eventFlags e) =? 0); cbn [negb map].
  - rewrite app_nil_r. apply IH; lia.
  - rewrite IH by lia. rewrite <- app_assoc. done.
Qed.

(** The OCaml function gets the interesting events in the order they came. *)
Lemma collect_events_ok evs : zlen evs < 2 ^ 64 ->
  collect_events conv evs = Done (map reported (List.filter interesting evs)).
Proof.
  intros Hl. unfold collect_events. rewrite collect_loop_ok by (unfold zlen in *; lia).
  rewrite app_nil_r, firstn_all. done.
Qed.

(** The whole callback of a stream that runs: the OCaml function gets the interesting
    events in order, the thread is registered, and an exception, and nothing else, is
    recorded in the queue, where it ends the wait. *)
Lemma callback_ok (v_callback : list fsevent -> option Z) t evs th q : zlen evs < 2 ^ 64 -> t ∈ attached q ->
  let xs := map reported (List.filter interesting evs) in
  exists th' q', dune_fsevents_callback conv v_callback t evs th q = Done (th', q') /\ key_set th' = true /\
    match v_callback xs with
    | None => q' = q
    | Some x => has_exn q' = true /\ wait_result q' = inr x /\ must_wait q' = false /\
        fsevent_streams q' = fsevent_streams q /\ attached q' = attached q
    end.
Proof.
  intros Hl Ht xs. unfold dune_fsevents_callback. rewrite collect_events_ok by done. cbn [exec_bind]. fold xs.
  assert (Hk : key_set (set_register_thread th) = true) by (unfold set_register_thread; by destruct (key_set th) eqn:?).
  unfold callback_result. destruct (v_callback xs) as [x|].
  - rewrite bool_decide_true by done. do 2 eexists. split; [done|]. split; [done|]. cbn.
    unfold must_wait. cbn. rewrite andb_false_r. done.
  - do 2 eexists. split; [done|]. split; done.
Qed.
End CallbackLaws.

(** Converting the paths: the strings [ss], and whether one after them fails; the array is
    released then, and only then. *)
Definition path_answers (ss : list Z) : list answer := concat (map (fun s => [Ret s; Ret 0; Ret 0]) ss).
Definition path_calls (ps : list (list Z)) (ss : list Z) : list call :=
  concat (zip_with (fun p s => [Call "CFStringCreateWithCString" (c_string p);
                                Call "CFArrayAppendValue" [1; s]; Call "CFRelease" [s]]) ps ss).

Lemma append_paths_ok ps ss more rest cs : length ps = length ss ->
  append_paths (ps ++ more) (at_ (path_answers ss ++ rest) cs) =
  append_paths more (at_ rest (cs ++ path_calls ps ss)).
Proof.
  revert ss cs. induction ps as [|p ps IH]; intros [|s ss] cs Hl; try done.
  - cbn. rewrite app_nil_r. done.
  - cbn [app append_paths]. change (path_answers (s :: ss)) with ([Ret s; Ret 0; Ret 0] ++ path_answers ss).
    unfold mbind, M_bind. cbn. cbn in Hl. rewrite IH by lia. rewrite <- !app_assoc. done.
Qed.

(** The array and every string are released once, however far the conversion gets. *)
Lemma create_releases ps ss bad more stream rest :
  length ps = length ss ->
  dune_fsevents_create ps (at_ (Ret 1 :: path_answers ss ++ [stream; Ret 0] ++ rest) []) =
    Done (match stream with Ret x => Value x | _ => Raise (Failure "Fsevents.create: failed to create stream") end,
          at_ rest ([Call "CFArrayCreateMutable" []] ++ path_calls ps ss ++
                    [Call "FSEventStreamCreate" [1]; Call "CFRelease" [1]])) /\
  dune_fsevents_create (ps ++ bad :: more) (at_ (Ret 1 :: path_answers ss ++ [Errno 0; Ret 0] ++ rest) []) =
    Done (Raise (Failure "Fsevents.create: unable to convert path"),
          at_ rest ([Call "CFArrayCreateMutable" []] ++ path_calls ps ss ++
                    [Call "CFStringCreateWithCString" (c_string bad); Call "CFRelease" [1]])).
Proof.
  intros Hl. unfold dune_fsevents_create, paths_of_list, mbind, M_bind. cbn [sys answers calls]. split.
  - pose proof (append_paths_ok ps ss [] ([stream; Ret 0] ++ rest) [Call "CFArrayCreateMutable" []] Hl) as E.
    rewrite app_nil_r in E. cbn [app] in E |- *. rewrite E. cbn. rewrite <- !app_assoc. done.
  - pose proof (append_paths_ok ps ss (bad :: more) ([Errno 0; Ret 0] ++ rest) [Call "CFArrayCreateMutable" []] Hl) as E.
    cbn [app] in E |- *. rewrite E. cbn [append_paths]. unfold mbind, M_bind. cbn. rewrite <- !app_assoc. done.
Qed.

(** A thread that runs callbacks is registered once and unregistered once. *)
Lemma thread_registered_once n :
  destroy_register_thread (Nat.iter (S n) set_register_thread (Thread false 0 0)) = Thread false 1 1.
Proof.
  enough (H : Nat.iter (S n) set_register_thread (Thread false 0 0) = Thread true 1 0) by (now rewrite H).
  induction n as [|n IH]; [done|]. change (set_register_thread (Nat.iter (S n) set_register_thread (Thread false 0 0)) = Thread true 1 0).
  rewrite IH. done.
Qed.

(** The streams that are attached and not counted. *)
Definition uncounted (o : list (Z * place)) : list (Z * place) :=
  filter (fun p => p.2 = Attaching \/ p.2 = Dropped) o.
Arguments uncounted : simpl never.

Record queue_ok (q : queue) : Prop := {
  q_streams : fsevent_streams q = zlen (attached q) - zlen (uncounted (ops q));
  q_nodup : NoDup (attached q);
  q_ops_nodup : NoDup (ops q).*1;
  q_ops : (ops q).*1 ⊆ attached q;
  q_small : zlen (attached q) < 2 ^ 32;
  q_exn : has_exn q = true <-> is_Some (v_exn q);
  q_asleep : waiting q = Asleep -> must_wait q = true }.

Lemma remove_length t (l : list Z) : NoDup l -> t ∈ l -> zlen (filter (fun s => s <> t) l) = zlen l - 1.
Proof.
  intros Hn Ht. induction Hn as [|x l Hx Hn IH]; [by apply elem_of_nil in Ht|].
  rewrite zlen_cons. apply elem_of_cons in Ht as [->|Ht].
  - rewrite filter_cons_False by auto.
    assert (E : filter (fun s => s <> x) l = l).
    { clear IH Hn. induction l as [|y l IH]; [done|]. apply not_elem_of_cons in Hx as [Hne Hx].
      rewrite filter_cons_True by auto. f_equal. auto. }
    rewrite E. lia.
  - rewrite filter_cons_True by (intros ->; done). rewrite zlen_cons, IH by done. lia.
Qed.

Lemma broadcast_awake w : broadcast w <> Asleep.
Proof. destruct w; done. Qed.

Lemma uncounted_app o1 o2 : uncounted (o1 ++ o2) = uncounted o1 ++ uncounted o2.
Proof. apply filter_app. Qed.
Lemma uncounted_cons t pc o : zlen (uncounted ((t, pc) :: o)) =
  zlen (uncounted o) + match pc with Attaching | Dropped => 1 | _ => 0 end.
Proof.
  unfold uncounted. destruct pc;
    (rewrite filter_cons_True by (cbn; auto); rewrite zlen_cons; lia) ||
    (rewrite filter_cons_False by (intros [|]; done); lia).
Qed.

(** Threads are in different streams, so there are no more of them than streams. *)
Lemma ops_length q : queue_ok q -> zlen (ops q) <= zlen (attached q).
Proof.
  intros Hq. unfold zlen. rewrite <- (length_fmap fst (ops q)).
  pose proof (submseteq_length _ _ (NoDup_submseteq _ _ (q_ops_nodup q Hq) (q_ops q Hq))). lia.
Qed.
Lemma uncounted_length o : zlen (uncounted o) <= zlen o.
Proof. unfold zlen, uncounted. pose proof (length_filter (fun p : Z * place => p.2 = Attaching \/ p.2 = Dropped) o). lia. Qed.

(** An operation of [q] moves on: the streams stay the same. *)
Lemma moved_ok t pc pc' o1 o2 q n w : queue_ok q -> ops q = o1 ++ (t, pc) :: o2 ->
  n = zlen (attached q) - zlen (uncounted (o1 ++ (t, pc') :: o2)) ->
  (w = Asleep -> (0 <? n) && negb (has_exn q) = true) ->
  queue_ok (Queue n (has_exn q) (v_exn q) w (attached q) (o1 ++ (t, pc') :: o2)).
Proof.
  intros [Q1 Q2 Q3 Q4 Q5 Q6 Q7] E -> Hw. rewrite E in Q3, Q4. rewrite fmap_app, fmap_cons in Q3, Q4.
  split; cbn; try done; rewrite fmap_app, fmap_cons; done.
Qed.

(** A counted operation: the counter is at least one. *)
Lemma counted_positive t pc o1 o2 q : queue_ok q -> ops q = o1 ++ (t, pc) :: o2 ->
  pc = Starting \/ pc = Stopping -> 1 <= fsevent_streams q /\
  fsevent_streams q - 1 = zlen (attached q) - zlen (uncounted (o1 ++ (t, Dropped) :: o2)).
Proof.
  intros Hq E Hpc. pose proof (ops_length q Hq) as Hl. rewrite (q_streams q Hq). rewrite E in *.
  pose proof (uncounted_length o1). pose proof (uncounted_length o2).
  rewrite !uncounted_app, !zlen_app, !uncounted_cons in *. rewrite zlen_cons in Hl. destruct Hpc as [-> | ->]; lia.
Qed.

Lemma drop_ok t pc o1 o2 q : queue_ok q -> ops q = o1 ++ (t, pc) :: o2 -> pc = Starting \/ pc = Stopping ->
  queue_ok (set_ops (o1 ++ (t, Dropped) :: o2) (drop_stream q)).
Proof.
  intros Hq E Hpc. destruct (counted_positive t pc o1 o2 q Hq E Hpc) as [H1 H2].
  pose proof (q_streams q Hq). pose proof (q_small q Hq). pose proof (zlen_nonneg (uncounted (ops q))).
  unfold set_ops, drop_stream. cbn. rewrite wrap_small by lia.
  apply (moved_ok t pc Dropped); [done|done|done|].
  destruct (Z.eqb_spec (fsevent_streams q - 1) 0); [intros []%broadcast_awake|].
  intros Hw%(q_asleep q Hq). unfold must_wait in Hw. apply andb_true_iff in Hw as [_ ->].
  rewrite (proj2 (Z.ltb_lt _ _)) by lia. done.
Qed.

Lemma count_ok t o1 o2 q : queue_ok q -> ops q = o1 ++ (t, Attaching) :: o2 ->
  queue_ok (set_ops (o1 ++ (t, Starting) :: o2) (start_stream q)).
Proof.
  intros Hq E. pose proof (q_streams q Hq) as Q1. pose proof (q_small q Hq).
  pose proof (ops_length q Hq) as Hl. pose proof (uncounted_length o1). pose proof (uncounted_length o2).
  pose proof (zlen_nonneg (uncounted o1)). pose proof (zlen_nonneg (uncounted o2)).
  rewrite E in Q1, Hl. rewrite zlen_app, zlen_cons in Hl. rewrite uncounted_app, zlen_app, uncounted_cons in Q1.
  unfold set_ops, start_stream. cbn. rewrite wrap_small by lia.
  apply (moved_ok t Attaching Starting); [done|done| |].
  - rewrite uncounted_app, zlen_app, uncounted_cons. lia.
  - intros Hw%(q_asleep q Hq). unfold must_wait in Hw. apply andb_true_iff in Hw as [_ ->].
    rewrite (proj2 (Z.ltb_lt _ _)) by lia. done.
Qed.

Lemma detach_ok t o1 o2 q : queue_ok q -> ops q = o1 ++ (t, Dropped) :: o2 ->
  queue_ok (set_ops (o1 ++ o2) (detach t q)).
Proof.
  intros [Q1 Q2 Q3 Q4 Q5 Q6 Q7] E. rewrite E in Q1, Q3, Q4. rewrite fmap_app, fmap_cons in Q3, Q4.
  cbn [fst] in Q3, Q4. rewrite uncounted_app, zlen_app, uncounted_cons in Q1.
  assert (Ht : t ∈ attached q) by (apply Q4; set_solver). pose proof (remove_length t _ Q2 Ht) as Hl.
  split; cbn; try done.
  - rewrite Hl, uncounted_app, zlen_app. lia.
  - by apply NoDup_filter.
  - rewrite fmap_app. rewrite (Permutation_app_comm o1.*1 (t :: o2.*1)) in Q3. cbn in Q3.
    apply NoDup_cons in Q3 as [_ Q3]. by rewrite Permutation_app_comm.
  - rewrite fmap_app. intros x Hx. apply list_elem_of_filter. split; [|apply Q4; set_solver].
    intros ->. rewrite (Permutation_app_comm o1.*1 (t :: o2.*1)) in Q3. cbn in Q3.
    apply NoDup_cons in Q3 as [Q3 _]. apply Q3. set_solver.
  - lia.
Qed.

Lemma queue_step_ok q q' : queue_ok q -> queue_step q q' -> NoDup (ops q').*1 ->
  zlen (attached q') < 2 ^ 32 -> queue_ok q'.
Proof.
  intros Hq Hs. pose proof Hq as [Q1 Q2 Q3 Q4 Q5 Q6 Q7].
  destruct Hs as [t q Ht|t o1 o2 q E|t o1 o2 q E|t o1 o2 q E|t q Ht|t o1 o2 q E|t o1 o2 q E|t exn q q' E
    |q Hw|q Hw|q Hw|q Hw]; intros Hn Hlt.
  - split; cbn in *; try done.
    + rewrite zlen_cons, uncounted_cons. lia.
    + by apply NoDup_cons.
    + set_solver.
  - by apply count_ok.
  - rewrite E in Q1, Q4. rewrite uncounted_app, zlen_app, uncounted_cons in Q1. rewrite fmap_app, fmap_cons in Q4.
    split; cbn in *; try done; [rewrite uncounted_app, zlen_app; lia|rewrite fmap_app; set_solver].
  - by apply (drop_ok t Starting); auto.
  - split; cbn in *; try done. set_solver.
  - by apply (drop_ok t Stopping); auto.
  - by apply detach_ok.
  - unfold callback_result in E. destruct exn; [|congruence]. case_bool_decide; [|done]. injection E as <-.
    split; cbn; try done. intros []%broadcast_awake.
  - split; done.
  - split; try done. cbn. unfold must_wait at 1 2. cbn. fold (must_wait q). destruct (must_wait q); done.
  - split; done.
  - split; done.
Qed.

(** C19.  In every interleaving of threads that start and stop streams, no two of them the
    same stream at once, of callbacks that raise, and of a thread that waits: the counter
    is the number of streams that have been counted and not yet counted off, and never wraps
    below zero; an exception is remembered exactly when one was raised; and no wake-up is
    lost, the thread sleeps only while the counter is positive and no callback has raised. *)
Theorem fsevents_queue_correct (q : queue) : queue_reach q -> queue_ok q.
Proof.
  induction 1 as [|q q' _ IH Hs Hn Hlt]; [|by eapply queue_step_ok].
  split; cbn; try (done || constructor); try (intros []; done).
Qed.

Lemma fsevents_queue_correct_witness : queue_ok (Queue 1 false None Asleep [5] []).
Proof.
  apply (fsevents_queue_correct (Queue 1 false None Asleep [5] [])).
  eapply (queue_next (Queue 1 false None Checking [5] [])); [|by apply (step_check (Queue 1 false None Checking [5] []))|constructor|done].
  eapply (queue_next (Queue 1 false None Away [5] [])); [|by apply (step_wait (Queue 1 false None Away [5] []))|constructor|done].
  eapply (queue_next (Queue 1 false None Away [5] [(5, Starting)]));
    [|by apply (step_started 5 [] [] (Queue 1 false None Away [5] [(5, Starting)]))|constructor|done].
  eapply (queue_next (Queue 0 false None Away [5] [(5, Attaching)]));
    [|by apply (step_count 5 [] [] (Queue 0 false None Away [5] [(5, Attaching)]))|apply NoDup_singleton|done].
  eapply (queue_next dune_fsevents_dispatch_queue_create);
    [constructor|apply (step_start 5); apply not_elem_of_nil|apply NoDup_singleton|done].
Defined.

(** Alone, a stop undoes a start, and a second stop does nothing. *)
Lemma start_stop_alone t q : queue_ok q -> t ∉ attached q -> ops q = [] -> fsevent_streams q + 1 < 2 ^ 32 ->
  let q1 := dune_fsevents_stop t (dune_fsevents_start t true q).2 in
  attached q1 = attached q /\ fsevent_streams q1 = fsevent_streams q /\ dune_fsevents_stop t q1 = q1.
Proof.
  intros [Q1 Q2 Q3 Q4 Q5 Q6 Q7] Ht Ho Hl. rewrite Ho in Q1. change (uncounted []) with (@nil (Z * place)) in Q1.
  rewrite zlen_nil in Q1. pose proof (zlen_nonneg (attached q)).
  assert (E : filter (fun s => s <> t) (attached q) = attached q).
  { clear -Ht. induction (attached q) as [|y l IH]; [done|]. apply not_elem_of_cons in Ht as [Hne Ht].
    rewrite filter_cons_True by auto. f_equal. auto. }
  assert (E2 : filter (fun s => s <> t) (t :: attached q) = attached q) by (rewrite filter_cons_False by auto; done).
  intros q1. assert (H1 : attached q1 = attached q /\ fsevent_streams q1 = fsevent_streams q).
  { unfold q1, dune_fsevents_stop, dune_fsevents_start. cbn -[filter].
    rewrite bool_decide_true by apply list_elem_of_here. cbn -[filter]. rewrite E2, (wrap_small _ (fsevent_streams q + 1)), wrap_small by lia. split; lia || done. }
  destruct H1 as [H1 H2]. split; [done|]. split; [done|]. unfold dune_fsevents_stop.
  rewrite H1, bool_decide_false by done. done.
Qed.

(** Two threads in [stop] of one stream count it off twice: the counter wraps around, and
    the thread that waits sleeps although no stream is left. *)
Lemma concurrent_stop_wraps : exists q1 q2 q3 q4 q5,
  queue_step (Queue 1 false None Asleep [5] []) q1 /\ queue_step q1 q2 /\
  queue_step q2 q3 /\ queue_step q3 q4 /\ queue_step q4 q5 /\
  fsevent_streams q4 = 2 ^ 32 - 1 /\ attached q5 = [] /\
  must_wait (Queue (fsevent_streams q5) (has_exn q5) (v_exn q5) Checking (attached q5) (ops q5)) = true.
Proof.
  exists (Queue 1 false None Asleep [5] [(5, Stopping)]), (Queue 1 false None Asleep [5] [(5, Stopping); (5, Stopping)]),
    (Queue 0 false None Checking [5] [(5, Dropped); (5, Stopping)]),
    (Queue (2 ^ 32 - 1) false None Checking [5] [(5, Dropped); (5, Dropped)]),
    (Queue (2 ^ 32 - 1) false None Checking [] [(5, Dropped)]).
  split_and!; try done.
  - apply (step_stop 5 (Queue 1 false None Asleep [5] [])). apply list_elem_of_here.
  - apply (step_stop 5 (Queue 1 false None Asleep [5] [(5, Stopping)])). apply list_elem_of_here.
  - by apply (step_drop 5 [] [(5, Stopping)] (Queue 1 false None Asleep [5] [(5, Stopping); (5, Stopping)])).
  - by apply (step_drop 5 [(5, Dropped)] [] (Queue 0 false None Checking [5] [(5, Dropped); (5, Stopping)])).
  - by apply (step_detach 5 [] [(5, Dropped)] (Queue (2 ^ 32 - 1) false None Checking [5] [(5, Dropped); (5, Dropped)])).
Qed.
