(* ===== verification/FseventsLife.v ===== *)
(** * Watching files on macOS: the life of watchers and queues

    A [dune_fsevents_t] is C memory behind a custom block, with a global root for its
    callback, a stream of the system and a pointer to the dispatch queue it was started on;
    the queue is C memory behind a custom block too.  The collector frees both through
    their finalizers.  The functions of [fsevents_stubs.c] are modelled on that memory.
    Starting and stopping, flushing, and the callbacks of the system give up the lock of
    the runtime on their way or run before they have it, so each is modelled by the parts
    between which other threads and the collector run.  [can] says when [fsevents.ml], the
    runtime and the system let an operation happen; [orderly] adds the conditions under
    which the memory is safe.  A freed block is kept in the model, and using it is a fault. *)

From Stdlib Require Import ZArith Lia.
From stdpp Require Import base numbers list strings gmap.
From S2P Require Import Prelude Posix.
Local Open Scope Z_scope.

(** ** The memory *)

(** A stream of the system. *)
Inductive stream := Created | Running | Released.

(** The states of [fsevents.ml] are [Idle], [Start] and [Stop]; a thread may be inside
    [start] or [stop], which hold the mutex of the state; and a value may be lost to OCaml
    without having been stopped. *)
Inductive t_state := TIdle | TStarting (d : Z) | TStart (d : Z) | TStopping (d : Z) | TStop | TLost.
(** [Idle], [Running], and [Stopped]; in [DReturned] the stub that waits has returned and
    [fsevents.ml] has not noted it yet. *)
Inductive dq_state := DIdle | DRunning | DReturned | DStopped.
#[global] Instance t_state_eq_dec : EqDecision t_state.
Proof. solve_decision. Defined.
#[global] Instance dq_state_eq_dec : EqDecision dq_state.
Proof. solve_decision. Defined.

(** [struct dune_fsevents_t], whose callback is a root until it is freed. *)
Record fsevents_t := T {
  t_dq : option Z;
  t_stream : stream;
  t_rooted : bool;
  t_freed : bool;
  t_owner : t_state }.

(** [struct dune_dispatch_queue], with its root and its system objects. *)
Record dispatch_queue := Dq {
  dq_rooted : bool;
  dq_freed : bool;
  dq_owner : dq_state }.

(** A thread of the system in [dune_fsevents_callback]: called with the pointer [t], or in
    the OCaml function with the queue it has read. *)
Inductive call := Begun (t : Z) | Entered (t : Z) (dq : option Z).

(** [flushes]: the watchers being flushed, by the thread that does it. *)
Record life := Life {
  ts : gmap Z fsevents_t;
  dqs : gmap Z dispatch_queue;
  flushes : gmap Z Z;
  calls : gmap Z call }.

Definition set_t (t : Z) (w : fsevents_t) (l : life) : life :=
  Life (<[t := w]> (ts l)) (dqs l) (flushes l) (calls l).
Definition set_dq (d : Z) (q : dispatch_queue) (l : life) : life :=
  Life (ts l) (<[d := q]> (dqs l)) (flushes l) (calls l).
Definition set_flushes (f : gmap Z Z) (l : life) : life := Life (ts l) (dqs l) f (calls l).
Definition set_calls (c : gmap Z call) (l : life) : life := Life (ts l) (dqs l) (flushes l) c.

(** Memory that was never allocated or has been freed must not be used. *)
Definition Fsevents_val (t : Z) (l : life) : exec fsevents_t :=
  match ts l !! t with Some w => if t_freed w then Fault else Done w | None => Fault end.
Definition Dispatch_queue_val (d : Z) (l : life) : exec dispatch_queue :=
  match dqs l !! d with Some q => if dq_freed q then Fault else Done q | None => Fault end.
Definition use_stream (w : fsevents_t) : exec unit :=
  match t_stream w with Released => Fault | _ => Done tt end.

(** ** The functions *)

Definition create (t : Z) (l : life) : exec life := Done (set_t t (T None Created true false TIdle) l).
Definition queue_create (d : Z) (l : life) : exec life := Done (set_dq d (Dq true false DIdle) l).

(** Up to where the lock is given up, and the rest.  [res]: what [FSEventStreamStart] says. *)
Definition start (t d : Z) (l : life) : exec life :=
  let! w := Fsevents_val t l in
  let! _ := Dispatch_queue_val d l in
  Done (set_t t (T (Some d) (t_stream w) (t_rooted w) (t_freed w) (TStarting d)) l).
Definition start_end (t d : Z) (res : bool) (l : life) : exec life :=
  let! _ := Dispatch_queue_val d l in
  let! w := Fsevents_val t l in
  let! _ := use_stream w in
  Done (if res then set_t t (T (t_dq w) Running (t_rooted w) (t_freed w) (TStart d)) l
        else set_t t (T None (t_stream w) (t_rooted w) (t_freed w) TIdle) l).

(** Up to where the lock is given up, and the rest, which locks the queue. *)
Definition stop (t : Z) (l : life) : exec life :=
  let! w := Fsevents_val t l in
  match t_dq w with
  | None => Done l
  | Some d =>
      let! _ := use_stream w in
      Done (set_t t (T (t_dq w) Released (t_rooted w) (t_freed w) (TStopping d)) l)
  end.
Definition stop_end (t d : Z) (l : life) : exec life :=
  let! _ := Dispatch_queue_val d l in
  let! w := Fsevents_val t l in
  Done (set_t t (T None (t_stream w) (t_rooted w) (t_freed w) TStop) l).

(** The identifier comes from the system. *)
Definition dune_fsevents_flush_async (t : Z) (id : Z) (l : life) : exec Z :=
  let! w := Fsevents_val t l in
  let! _ := use_stream w in
  Done id.
(** The stream is used without the lock of the runtime, and must be there until the call
    on it returns, which is when this is taken to run. *)
Definition dune_fsevents_flush_sync (t : Z) (l : life) : exec unit :=
  let! w := Fsevents_val t l in
  use_stream w.
Definition exclude (t : Z) (l : life) : exec unit :=
  let! w := Fsevents_val t l in
  use_stream w.

(** The callback, once it has the lock of the runtime: it reads the queue and the function
    of the watcher the system was given a pointer to, ... *)
Definition callback_enter (t : Z) (l : life) : exec (option Z) :=
  let! w := Fsevents_val t l in
  if t_rooted w then Done (t_dq w) else Fault.
(** ... and, when the function has raised, locks the queue it has read before. *)
Definition callback_end (dq : option Z) (raises : bool) (l : life) : exec unit :=
  if raises then
    match dq with
    | None => Fault
    | Some d => let! _ := Dispatch_queue_val d l in Done tt
    end
  else Done tt.

(** The finalizers.  OCaml has lost the value. *)
Definition dune_fsevents_t_finalize (t : Z) (l : life) : exec life :=
  let! w := Fsevents_val t l in
  if t_rooted w then
    let owner := match t_owner w with TStop => TStop | _ => TLost end in
    Done (set_t t (T (t_dq w) (t_stream w) false true owner) l)
  else Fault.
Definition dune_fsevents_dispatch_queue_finalize (d : Z) (l : life) : exec life :=
  let! q := Dispatch_queue_val d l in
  if dq_rooted q then Done (set_dq d (Dq false true DStopped) l) else Fault.

(** [fsevents.ml] notes how far a queue is. *)
Definition set_queue_state (d : Z) (s : dq_state) (l : life) : exec life :=
  let! q := Dispatch_queue_val d l in
  Done (set_dq d (Dq (dq_rooted q) (dq_freed q) s) l).

(** ** Other platforms *)

Definition dune_fsevents_available (macos_10_10 : bool) : bool := macos_10_10.
Definition unavailable_message (apple : bool) : string :=
  if apple then "upgrade your macos sdk to enable watch mode" else "fsevents is only available on macos".
(** All the functions but [dune_fsevents_available]. *)
Definition unavailable {A} (apple : bool) : caml A := Raise (Failure (unavailable_message apple)).

(** ** Histories *)

(** The parts the functions fall into; [f] and [c] are threads. *)
Inductive op :=
| OCreate (t : Z) | OQueue (d : Z) | OStart (t d : Z) | OStart_end (t : Z) (res : bool)
| OStop (t : Z) | OStop_end (t : Z) | OFlush (f t : Z) | OFlush_end (f : Z) | OExclude (t : Z)
| OCall (c t : Z) | OCall_enter (c : Z) | OCall_end (c : Z) (raises : bool)
| OWait (d : Z) | OReturn (d : Z) | OForget (d : Z) | OFinalize (t : Z) | OFinalize_queue (d : Z).

Definition owner (t : Z) (l : life) : option t_state := t_owner <$> ts l !! t.
Definition queue_owner (d : Z) (l : life) : option dq_state := dq_owner <$> dqs l !! d.

(** The queue a thread in [start] or [stop] of a watcher holds in a local variable. *)
Definition held (t : Z) (l : life) : exec Z :=
  match owner t l with Some (TStarting d) | Some (TStopping d) => Done d | _ => Fault end.

Definition life_op (o : op) (l : life) : exec life :=
  match o with
  | OCreate t => create t l
  | OQueue d => queue_create d l
  | OStart t d => start t d l
  | OStart_end t res => let! d := held t l in start_end t d res l
  | OStop t => stop t l
  | OStop_end t => let! d := held t l in stop_end t d l
  | OFlush f t => Done (set_flushes (<[f := t]> (flushes l)) l)
  | OFlush_end f =>
      match flushes l !! f with
      | Some t => let! _ := dune_fsevents_flush_sync t l in Done (set_flushes (delete f (flushes l)) l)
      | None => Fault
      end
  | OExclude t => let! _ := exclude t l in Done l
  | OCall c t => Done (set_calls (<[c := Begun t]> (calls l)) l)
  | OCall_enter c =>
      match calls l !! c with
      | Some (Begun t) => let! dq := callback_enter t l in Done (set_calls (<[c := Entered t dq]> (calls l)) l)
      | _ => Fault
      end
  | OCall_end c raises =>
      match calls l !! c with
      | Some (Entered t dq) => let! _ := callback_end dq raises l in Done (set_calls (delete c (calls l)) l)
      | _ => Fault
      end
  | OWait d => set_queue_state d DRunning l
  | OReturn d => set_queue_state d DReturned l
  | OForget d => set_queue_state d DStopped l
  | OFinalize t => dune_fsevents_t_finalize t l
  | OFinalize_queue d => dune_fsevents_dispatch_queue_finalize d l
  end.

(** Nothing in a map is as [P] says. *)
Definition none {A} (P : A -> bool) (m : gmap Z A) : bool := forallb (fun x => negb (P (snd x))) (map_to_list m).

Definition started (t : Z) (l : life) : bool :=
  match owner t l with Some (TStart _) => true | _ => false end.
(** A thread in [start] holds the mutex of the queue. *)
Definition unlocked (d : Z) (l : life) : bool := none (fun w => bool_decide (t_owner w = TStarting d)) (ts l).
Definition unflushed (t : Z) (l : life) : bool := none (fun t' => t' =? t) (flushes l).
Definition detached (d : Z) (l : life) : bool := none (fun w => bool_decide (t_dq w = Some d)) (ts l).

(** When [fsevents.ml], the collector and the system let an operation happen.  A function
    keeps the values it was given reachable until it returns, and a watcher that was
    started keeps its queue reachable.  The system calls back about a stream that runs. *)
Definition can (o : op) (l : life) : bool :=
  match o with
  | OCreate t => bool_decide (ts l !! t = None)
  | OQueue d => bool_decide (dqs l !! d = None)
  | OStart t d =>
      bool_decide (owner t l = Some TIdle) && unlocked d l &&
      match queue_owner d l with Some (DIdle | DRunning | DReturned) => true | _ => false end
  | OStart_end t _ => match owner t l with Some (TStarting _) => true | _ => false end
  | OStop t => started t l
  | OStop_end t => match owner t l with Some (TStopping _) => true | _ => false end
  | OFlush f t => started t l && bool_decide (flushes l !! f = None)
  | OFlush_end f => bool_decide (is_Some (flushes l !! f))
  | OExclude t => bool_decide (owner t l = Some TIdle) || started t l
  | OCall c t =>
      bool_decide (calls l !! c = None) &&
      match ts l !! t with Some w => match t_stream w with Running => true | _ => false end | None => false end
  | OCall_enter c => match calls l !! c with Some (Begun _) => true | _ => false end
  | OCall_end c _ => match calls l !! c with Some (Entered _ _) => true | _ => false end
  | OWait d => bool_decide (queue_owner d l = Some DIdle) && unlocked d l
  | OReturn d => bool_decide (queue_owner d l = Some DRunning)
  | OForget d => bool_decide (queue_owner d l = Some DReturned) && unlocked d l
  | OFinalize t =>
      match ts l !! t with
      | Some w =>
          negb (t_freed w) && unflushed t l &&
          match t_owner w with TIdle | TStart _ | TStop => true | _ => false end
      | None => false
      end
  | OFinalize_queue d =>
      match dqs l !! d with
      | Some q =>
          negb (dq_freed q) &&
          match dq_owner q with
          | DStopped => true
          | DIdle => none (fun w => negb (t_freed w) && bool_decide (t_dq w = Some d)) (ts l)
          | _ => false
          end
      | None => false
      end
  end.

(** What a program has to see to besides: a queue is not used again once a wait on it has
    returned; a watcher is not stopped while it is flushed; a callback raises only while its
    watcher has not been stopped; a wait returns because no watcher is on the queue, not
    because a callback has raised; a watcher is stopped before it is lost, and a callback
    on its way has reached OCaml by then. *)
Definition orderly (o : op) (l : life) : bool :=
  match o with
  | OStart t d => negb (bool_decide (queue_owner d l = Some DReturned))
  | OStop t => unflushed t l
  | OCall_end c raises =>
      match calls l !! c with Some (Entered t _) => negb raises || started t l | _ => true end
  | OReturn d => detached d l
  | OFinalize t =>
      negb (started t l) && none (fun c => match c with Begun t' => t' =? t | _ => false end) (calls l)
  | _ => true
  end.

Inductive usage := Free | Disciplined.
Definition allowed (u : usage) (o : op) (l : life) : bool :=
  can o l && match u with Free => true | Disciplined => orderly o l end.

Definition no_life : life := Life ∅ ∅ ∅ ∅.
Inductive life_reach (u : usage) : life -> Prop :=
| life_initial : life_reach u no_life
| life_next o l l' : life_reach u l -> allowed u o l = true -> life_op o l = Done l' -> life_reach u l'.

(** A history by its operations, each allowed where it happens. *)
Fixpoint life_run (u : usage) (os : list op) (l : life) : option life :=
  match os with
  | [] => Some l
  | o :: os =>
      if allowed u o l then match life_op o l with Done l => life_run u os l | _ => None end else None
  end.

(** After the history [os] of an undisciplined program, [o] uses memory it must not. *)
Definition faults (os : list op) (o : op) : Prop :=
  exists l, life_run Free os no_life = Some l /\ allowed Free o l = true /\ life_op o l = Fault.

(** ** The invariant *)

(** The queue and the stream of a watcher in each state. *)
Definition queue_of (s : t_state) : option Z :=
  match s with TStarting d | TStart d | TStopping d => Some d | _ => None end.
Definition stream_of (s : t_state) : stream :=
  match s with TIdle | TStarting _ | TLost => Created | TStart _ => Running | TStopping _ | TStop => Released end.
Definition freed_of (s : t_state) (b : bool) : Prop :=
  match s with TStop => True | TLost => b = true | _ => b = false end.

Definition in_use (d : Z) (l : life) : Prop :=
  exists q, dqs l !! d = Some q /\ dq_freed q = false /\ (dq_owner q = DIdle \/ dq_owner q = DRunning).
Definition t_ok (l : life) (w : fsevents_t) : Prop :=
  t_rooted w = negb (t_freed w) /\ t_dq w = queue_of (t_owner w) /\ t_stream w = stream_of (t_owner w) /\
  freed_of (t_owner w) (t_freed w) /\ forall d, t_dq w = Some d -> in_use d l.
Definition dq_ok (q : dispatch_queue) : Prop :=
  dq_rooted q = negb (dq_freed q) /\ (dq_freed q = true -> dq_owner q = DStopped).
Definition was_started (s : t_state) : bool := match s with TIdle | TStarting _ => false | _ => true end.
(** A watcher that was started stays on its queue until it is stopped, and is not freed
    before a callback that was begun has read it. *)
Definition call_ok (l : life) (c : call) : Prop :=
  match c with
  | Begun t => exists w, ts l !! t = Some w /\ t_freed w = false /\ was_started (t_owner w) = true
  | Entered t dq =>
      exists w, ts l !! t = Some w /\ was_started (t_owner w) = true /\ forall d, t_owner w = TStart d -> dq = Some d
  end.

Record life_ok (l : life) : Prop := {
  l_ts : forall t w, ts l !! t = Some w -> t_ok l w;
  l_dqs : forall d q, dqs l !! d = Some q -> dq_ok q;
  l_flushes : forall f t, flushes l !! f = Some t -> started t l = true;
  l_calls : forall c k, calls l !! c = Some k -> call_ok l k }.

Lemma none_spec {A} (P : A -> bool) m : none P m = true <-> forall k x, m !! k = Some x -> P x = false.
Proof.
  unfold none. rewrite forallb_forall. setoid_rewrite <- list_elem_of_In. split.
  - intros H k x Hx. apply elem_of_map_to_list, H in Hx. cbn in Hx. by destruct (P x).
  - intros H [k x] Hx%elem_of_map_to_list. cbn. by rewrite (H k x Hx).
Qed.

Lemma none_at {A} (P : A -> bool) m k x : none P m = true -> m !! k = Some x -> P x = false.
Proof. rewrite none_spec. eauto. Qed.

Lemma owner_at t l s : owner t l = Some s -> exists w, ts l !! t = Some w /\ t_owner w = s.
Proof. unfold owner. destruct (ts l !! t) as [w|]; [|done]. intros [= <-]. eauto. Qed.
Lemma queue_owner_at d l s : queue_owner d l = Some s -> exists q, dqs l !! d = Some q /\ dq_owner q = s.
Proof. unfold queue_owner. destruct (dqs l !! d) as [q|]; [|done]. intros [= <-]. eauto. Qed.
Lemma started_spec t l : started t l = true <-> exists w d, ts l !! t = Some w /\ t_owner w = TStart d.
Proof.
  unfold started, owner. destruct (ts l !! t) as [w|]; cbn; [|naive_solver].
  destruct (t_owner w) eqn:E; naive_solver congruence.
Qed.

(** A watcher changes: nothing flushes it, and the callbacks on their way go on. *)
Lemma set_t_ok t w0 w l : life_ok l -> ts l !! t = Some w0 -> t_ok l w ->
  unflushed t l = true \/ started t l = false ->
  (was_started (t_owner w0) = true -> was_started (t_owner w) = true /\ forall d, t_owner w <> TStart d) ->
  t_freed w = t_freed w0 \/ (forall c, calls l !! c <> Some (Begun t)) ->
  life_ok (set_t t w l).
Proof.
  intros Hl Hw0 Hw Hf Hs Hr. split.
  - intros t' w'. cbn. destruct (decide (t' = t)) as [->|Hne].
    + rewrite lookup_insert_eq. intros [= <-]. done.
    + rewrite lookup_insert_ne by done. apply (l_ts l Hl).
  - apply (l_dqs l Hl).
  - intros f t' E. cbn in E. pose proof (l_flushes l Hl f t' E) as H. destruct (decide (t' = t)) as [->|Hne].
    + exfalso. destruct Hf as [Hf|Hf]; [|congruence]. pose proof (none_at _ _ f t Hf E). cbn in *. lia.
    + unfold started, owner in *. cbn. by rewrite lookup_insert_ne.
  - intros c k E. cbn in E. pose proof (l_calls l Hl c k E) as H. destruct k as [t'|t' dq]; cbn in H |- *;
      (destruct (decide (t' = t)) as [->|Hne]; [rewrite lookup_insert_eq|by rewrite lookup_insert_ne]);
      destruct H as (w1 & E1 & H1 & H2); rewrite Hw0 in E1; injection E1 as <-.
    + exists w. destruct Hs as [Hs _]; [done|]. destruct Hr as [->|Hr]; [done|]. by destruct (Hr c).
    + exists w. destruct Hs as [Hs Hd]; [done|]. split; [done|]. split; [done|]. intros d Ed. by destruct (Hd d).
Qed.

Lemma new_t_ok t l : life_ok l -> ts l !! t = None -> life_ok (set_t t (T None Created true false TIdle) l).
Proof.
  intros Hl Hn. split.
  - intros t' w'. cbn. destruct (decide (t' = t)) as [->|Hne].
    + rewrite lookup_insert_eq. by intros [= <-].
    + rewrite lookup_insert_ne by done. apply (l_ts l Hl).
  - apply (l_dqs l Hl).
  - intros f t' E%(l_flushes l Hl). apply started_spec in E as (w & d & E & Ed). apply started_spec. exists w, d.
    cbn. rewrite lookup_insert_ne by congruence. done.
  - intros c k E%(l_calls l Hl). destruct k as [t'|t' dq]; cbn in *; destruct E as (w & E & ?); exists w;
      (rewrite lookup_insert_ne by congruence); done.
Qed.

(** A queue changes: watchers on it must still find it. *)
Lemma set_dq_ok d q l : life_ok l -> dq_ok q ->
  (detached d l = true \/ dq_freed q = false /\ (dq_owner q = DIdle \/ dq_owner q = DRunning)) ->
  life_ok (set_dq d q l).
Proof.
  intros Hl Hq Hr. split; [| |apply (l_flushes l Hl)|apply (l_calls l Hl)].
  - intros t w Hw. destruct (l_ts l Hl t w Hw) as (R & O1 & O2 & O3 & O4). split_and!; try done.
    intros d' E. destruct (O4 d' E) as (q' & E' & H'). unfold in_use. cbn. destruct (decide (d' = d)) as [->|Hne].
    + exists q. rewrite lookup_insert_eq. split; [done|]. destruct Hr as [Hr|]; [|done].
      pose proof (none_at _ _ t w Hr Hw) as Hd. by apply bool_decide_eq_false in Hd.
    + exists q'. rewrite lookup_insert_ne by done. done.
  - intros d' q'. cbn. destruct (decide (d' = d)) as [->|Hne].
    + rewrite lookup_insert_eq. by intros [= <-].
    + rewrite lookup_insert_ne by done. apply (l_dqs l Hl).
Qed.

Lemma set_flushes_ok fs l : life_ok l -> (forall f t, fs !! f = Some t -> started t l = true) -> life_ok (set_flushes fs l).
Proof. intros [H1 H2 H3 H4] Hf. split; done. Qed.
Lemma set_calls_ok cs l : life_ok l -> (forall c k, cs !! c = Some k -> call_ok l k) -> life_ok (set_calls cs l).
Proof. intros [H1 H2 H3 H4] Hc. split; done. Qed.

(** A watcher that is not freed, with what its state says of it. *)
Lemma watcher t w l : life_ok l -> ts l !! t = Some w -> t_owner w <> TStop -> t_owner w <> TLost ->
  Fsevents_val t l = Done w /\ w = T (queue_of (t_owner w)) (stream_of (t_owner w)) true false (t_owner w).
Proof.
  intros Hl Hw H1 H2. destruct (l_ts l Hl t w Hw) as (R & O1 & O2 & O3 & _). unfold Fsevents_val. rewrite Hw.
  assert (t_freed w = false) as F by (destruct (t_owner w); done). rewrite F in *. split; [done|].
  destruct w. cbn in *. congruence.
Qed.
Lemma its_queue t w d l : life_ok l -> ts l !! t = Some w -> queue_of (t_owner w) = Some d ->
  in_use d l /\ exists q, Dispatch_queue_val d l = Done q.
Proof.
  intros Hl Hw Hd. destruct (l_ts l Hl t w Hw) as (_ & O1 & _ & _ & O4). destruct (O4 d) as (q & Eq & Ef & Ho); [congruence|].
  unfold Dispatch_queue_val. rewrite Eq, Ef. split; [|eauto]. exists q. done.
Qed.

(** A queue that fsevents.ml has not dropped is not freed. *)
Lemma queue_alive d q l : life_ok l -> dqs l !! d = Some q -> dq_owner q <> DStopped ->
  Dispatch_queue_val d l = Done q /\ dq_rooted q = true /\ dq_freed q = false.
Proof.
  intros Hl Hq Ho. destruct (l_dqs l Hl d q Hq) as [R F]. unfold Dispatch_queue_val. rewrite Hq.
  destruct (dq_freed q); [exfalso; auto|done].
Qed.

(** A thread in [start] or [stop], a flush and a callback do not run into freed memory. *)
Lemma begun_alive c t l : life_ok l -> calls l !! c = Some (Begun t) ->
  exists w, Fsevents_val t l = Done w /\ ts l !! t = Some w /\ t_rooted w = true /\ t_freed w = false /\
    was_started (t_owner w) = true.
Proof.
  intros Hl E. destruct (l_calls l Hl c _ E) as (w & Hw & Hf & Hs). exists w. unfold Fsevents_val. rewrite Hw, Hf.
  destruct (l_ts l Hl t w Hw) as [R _]. by rewrite R, Hf.
Qed.

(** *** Every operation *)

Lemma begin_start_ok t d l : life_ok l -> allowed Disciplined (OStart t d) l = true ->
  exists l', start t d l = Done l' /\ life_ok l'.
Proof.
  cbn. intros Hl [[[Ha%bool_decide_eq_true _]%andb_true_iff Hq]%andb_true_iff Hr%negb_true_iff]%andb_true_iff.
  apply bool_decide_eq_false in Hr. destruct (owner_at t l _ Ha) as (w & Hw & Ho).
  destruct (queue_owner d l) as [s|] eqn:Es; [|done]. destruct (queue_owner_at d l s Es) as (q & Eq & Hqo).
  destruct (watcher t w l Hl Hw) as [E _]; [congruence..|]. destruct (l_ts l Hl t w Hw) as (R & _ & O2 & O3 & _).
  destruct (queue_alive d q l Hl Eq) as (Ed & _ & Hf); [by destruct s; congruence|]. unfold start. rewrite E, Ed.
  cbn [exec_bind]. rewrite Ho in *. eexists. split; [done|]. eapply set_t_ok; [done..| | |by rewrite Ho|by left].
  - split_and!; try done. cbn. intros d' [= <-]. exists q. split; [done|]. split; [done|]. destruct s; naive_solver.
  - right. unfold started. by rewrite Ha.
Qed.

Lemma start_end_ok t d res l : life_ok l -> owner t l = Some (TStarting d) ->
  exists l', start_end t d res l = Done l' /\ life_ok l'.
Proof.
  intros Hl Ha. destruct (owner_at t l _ Ha) as (w & Hw & Ho).
  destruct (watcher t w l Hl Hw) as [E _]; [congruence..|]. destruct (l_ts l Hl t w Hw) as (R & O1 & O2 & O3 & O4).
  rewrite Ho in *. destruct (its_queue t w d l Hl Hw) as [Hu [q Ed]]; [by rewrite Ho|].
  unfold start_end, use_stream. rewrite Ed, E. cbn [exec_bind]. rewrite O2. cbn [exec_bind stream_of].
  eexists. split; [done|]. destruct res; (eapply set_t_ok; [done..| | |by rewrite Ho|by left]);
    try (right; unfold started; by rewrite Ha); by split_and!.
Qed.

Lemma begin_stop_ok t l : life_ok l -> allowed Disciplined (OStop t) l = true -> exists l', stop t l = Done l' /\ life_ok l'.
Proof.
  cbn. intros Hl [(w & d & Hw & Ho)%started_spec Hf]%andb_true_iff.
  destruct (watcher t w l Hl Hw) as [E _]; [congruence..|]. destruct (l_ts l Hl t w Hw) as (R & O1 & O2 & O3 & O4).
  rewrite Ho in *. unfold stop, use_stream. rewrite E. cbn [exec_bind]. rewrite O1, O2. cbn [exec_bind queue_of stream_of].
  eexists. split; [done|]. eapply set_t_ok; [done..| |by left|done|by left].
  rewrite O1 in *. by split_and!.
Qed.

Lemma stop_end_ok t d l : life_ok l -> owner t l = Some (TStopping d) -> exists l', stop_end t d l = Done l' /\ life_ok l'.
Proof.
  intros Hl Ha. destruct (owner_at t l _ Ha) as (w & Hw & Ho).
  destruct (watcher t w l Hl Hw) as [E _]; [congruence..|]. destruct (l_ts l Hl t w Hw) as (R & O1 & O2 & O3 & O4).
  rewrite Ho in *. destruct (its_queue t w d l Hl Hw) as [Hu [q Ed]]; [by rewrite Ho|].
  unfold stop_end. rewrite Ed, E. cbn [exec_bind]. eexists. split; [done|].
  eapply set_t_ok; [done..| | |done|by left]; [by split_and!|]. right. unfold started. by rewrite Ha.
Qed.

(** A started watcher can be flushed. *)
Lemma flush_ok t l : life_ok l -> started t l = true -> dune_fsevents_flush_sync t l = Done tt.
Proof.
  intros Hl (w & d & Hw & Ho)%started_spec. destruct (watcher t w l Hl Hw) as [E _]; [congruence..|].
  destruct (l_ts l Hl t w Hw) as (_ & _ & O2 & _). unfold dune_fsevents_flush_sync, use_stream. rewrite E.
  cbn [exec_bind]. by rewrite O2, Ho.
Qed.
Lemma exclude_ok t l : life_ok l -> can (OExclude t) l = true -> exclude t l = Done tt.
Proof.
  cbn. intros Hl [Ha%bool_decide_eq_true|Ha]%orb_true_iff; [|exact (flush_ok t l Hl Ha)].
  destruct (owner_at t l _ Ha) as (w & Hw & Ho). destruct (watcher t w l Hl Hw) as [E _]; [congruence..|].
  destruct (l_ts l Hl t w Hw) as (_ & _ & O2 & _). unfold exclude, use_stream. rewrite E. cbn [exec_bind]. by rewrite O2, Ho.
Qed.

Lemma call_ok_begin c t l : life_ok l -> can (OCall c t) l = true -> life_ok (set_calls (<[c := Begun t]> (calls l)) l).
Proof.
  cbn. intros Hl [_ Ha]%andb_true_iff. destruct (ts l !! t) as [w|] eqn:Hw; [|done].
  destruct (l_ts l Hl t w Hw) as (_ & _ & O2 & O3 & _). apply set_calls_ok; [done|]. intros c' k.
  destruct (decide (c' = c)) as [->|Hne]; [|rewrite lookup_insert_ne by done; apply (l_calls l Hl)].
  rewrite lookup_insert_eq. intros [= <-]. exists w. destruct (t_owner w); cbn in *; rewrite ?O2 in Ha; done.
Qed.
Lemma call_ok_enter c t l : life_ok l -> calls l !! c = Some (Begun t) ->
  exists dq, callback_enter t l = Done dq /\ life_ok (set_calls (<[c := Entered t dq]> (calls l)) l).
Proof.
  intros Hl E. destruct (begun_alive c t l Hl E) as (w & Ew & Hw & Hr & Hf & Hs). unfold callback_enter. rewrite Ew.
  cbn [exec_bind]. rewrite Hr. eexists. split; [done|]. apply set_calls_ok; [done|]. intros c' k.
  destruct (decide (c' = c)) as [->|Hne]; [|rewrite lookup_insert_ne by done; apply (l_calls l Hl)].
  rewrite lookup_insert_eq. intros [= <-]. exists w. split; [done|]. split; [done|]. intros d Hd.
  destruct (l_ts l Hl t w Hw) as (_ & O1 & _). by rewrite O1, Hd.
Qed.
Lemma call_ok_end c t dq raises l : life_ok l -> calls l !! c = Some (Entered t dq) ->
  negb raises || started t l = true -> callback_end dq raises l = Done tt.
Proof.
  intros Hl E Hr. unfold callback_end. destruct raises; [|done]. apply started_spec in Hr as (w & d & Hw & Ho).
  destruct (l_calls l Hl c _ E) as (w' & Hw' & _ & Hd). assert (w' = w) as -> by congruence. rewrite (Hd d Ho).
  destruct (its_queue t w d l Hl Hw) as [_ [q ->]]; [by rewrite Ho|done].
Qed.

(** The states a queue goes through. *)
Lemma set_queue_state_ok d s s' l : life_ok l -> queue_owner d l = Some s -> s <> DStopped ->
  (detached d l = true \/ s' = DRunning) -> exists l', set_queue_state d s' l = Done l' /\ life_ok l'.
Proof.
  intros Hl (q & Hq & Ho)%queue_owner_at Hs Hd. destruct (queue_alive d q l Hl Hq) as (E & Hr & Hf); [congruence|].
  unfold set_queue_state. rewrite E. cbn [exec_bind]. eexists. split; [done|]. apply set_dq_ok; [done| |].
  - split; cbn; [apply (l_dqs l Hl d q Hq)|congruence].
  - destruct Hd as [Hd| ->]; [by left|right]. split; [done|by right].
Qed.
(** No watcher is on a queue whose wait has returned. *)
Lemma returned_detached d l : life_ok l -> queue_owner d l = Some DReturned \/ queue_owner d l = Some DStopped ->
  detached d l = true.
Proof.
  intros Hl Hd. apply none_spec. intros t w Hw. apply bool_decide_eq_false. intros E.
  destruct (l_ts l Hl t w Hw) as (_ & _ & _ & _ & O4). destruct (O4 d E) as (q & Eq & _ & Ho).
  unfold queue_owner in Hd. rewrite Eq in Hd. cbn in Hd. naive_solver congruence.
Qed.

Lemma finalize_ok t l : life_ok l -> allowed Disciplined (OFinalize t) l = true ->
  exists l', dune_fsevents_t_finalize t l = Done l' /\ life_ok l'.
Proof.
  unfold allowed. cbn [can orderly]. destruct (ts l !! t) as [w|] eqn:Hw; [|by intros _ ?].
  intros Hl [[[Hf%negb_true_iff Hu]%andb_true_iff Ho]%andb_true_iff [Hs%negb_true_iff Hc]%andb_true_iff]%andb_true_iff.
  destruct (l_ts l Hl t w Hw) as (R & O1 & O2 & _). unfold dune_fsevents_t_finalize, Fsevents_val. rewrite Hw, Hf.
  cbn [exec_bind]. rewrite R, Hf. cbn. eexists. split; [done|]. unfold started, owner in Hs. rewrite Hw in Hs. cbn in Hs.
  eapply set_t_ok; [done..| |by left| |].
  - unfold t_ok. cbn. rewrite O1, O2. by destruct (t_owner w).
  - cbn. by destruct (t_owner w).
  - right. intros c E. pose proof (none_at _ _ c _ Hc E) as Hb. cbn in Hb. lia.
Qed.
Lemma finalize_queue_ok d l : life_ok l -> can (OFinalize_queue d) l = true ->
  exists l', dune_fsevents_dispatch_queue_finalize d l = Done l' /\ life_ok l'.
Proof.
  cbn. destruct (dqs l !! d) as [q|] eqn:Hq; [|done]. intros Hl [Hf%negb_true_iff Ho]%andb_true_iff.
  destruct (l_dqs l Hl d q Hq) as [R _]. unfold dune_fsevents_dispatch_queue_finalize, Dispatch_queue_val.
  rewrite Hq, Hf. cbn [exec_bind]. rewrite R, Hf. cbn. eexists. split; [done|]. apply set_dq_ok; [done|done|left].
  destruct (dq_owner q) eqn:E; try done.
  - apply none_spec. intros t w Hw. pose proof (none_at _ _ t w Ho Hw) as Hn. cbn in Hn. apply bool_decide_eq_false.
    intros Ed. destruct (l_ts l Hl t w Hw) as (_ & O1 & _ & O3 & _).
    assert (t_freed w = false) as F by (destruct (t_owner w); cbn in *; congruence).
    rewrite F, bool_decide_true in Hn; done.
  - apply returned_detached; [done|right]. unfold queue_owner. rewrite Hq. cbn. by rewrite E.
Qed.

Lemma life_op_ok o l : life_ok l -> allowed Disciplined o l = true -> exists l', life_op o l = Done l' /\ life_ok l'.
Proof.
  intros Hl Ha. pose proof Ha as [Hc Ho]%andb_true_iff. destruct o as [t|d|t d|t res|t|t|f t|f|t|c t|c|c raises|d|d|d|t|d];
    cbn [life_op].
  - cbn in Hc. apply bool_decide_eq_true in Hc. eexists. split; [done|]. by apply new_t_ok.
  - cbn in Hc. apply bool_decide_eq_true in Hc. eexists. split; [done|]. apply set_dq_ok; [done|done|]. by right; auto.
  - by apply begin_start_ok.
  - cbn in Hc. unfold held. destruct (owner t l) as [[| d| | | |]|] eqn:E; try done. by apply start_end_ok.
  - by apply begin_stop_ok.
  - cbn in Hc. unfold held. destruct (owner t l) as [[| | |d| |]|] eqn:E; try done. by apply stop_end_ok.
  - cbn in Hc. apply andb_true_iff in Hc as [Hs _]. eexists. split; [done|]. apply set_flushes_ok; [done|]. intros f' t'.
    destruct (decide (f' = f)) as [->|Hne]; [rewrite lookup_insert_eq; congruence|].
    rewrite lookup_insert_ne by done. apply (l_flushes l Hl).
  - cbn in Hc. apply bool_decide_eq_true in Hc as [t E]. rewrite E, flush_ok by eauto using l_flushes. cbn.
    eexists. split; [done|]. apply set_flushes_ok; [done|]. intros f' t' [_ H]%lookup_delete_Some. by eapply l_flushes.
  - rewrite exclude_ok by done. cbn. eauto.
  - eexists. split; [done|]. by apply call_ok_begin.
  - cbn in Hc. destruct (calls l !! c) as [[t|]|] eqn:E; try done. destruct (call_ok_enter c t l Hl E) as (dq & -> & H).
    cbn. eauto.
  - cbn in Hc, Ho. destruct (calls l !! c) as [[|t dq]|] eqn:E; try done. rewrite (call_ok_end c t) by done. cbn.
    eexists. split; [done|]. apply set_calls_ok; [done|]. intros c' k [_ H]%lookup_delete_Some. by eapply l_calls.
  - cbn in Hc. apply andb_true_iff in Hc as [Hc%bool_decide_eq_true _]. eapply set_queue_state_ok; eauto.
  - cbn in Hc, Ho. apply bool_decide_eq_true in Hc. eapply set_queue_state_ok; eauto.
  - cbn in Hc. apply andb_true_iff in Hc as [Hc%bool_decide_eq_true _]. eapply set_queue_state_ok; eauto using returned_detached.
  - by apply finalize_ok.
  - by apply finalize_queue_ok.
Qed.

Lemma life_reach_ok l : life_reach Disciplined l -> life_ok l.
Proof.
  induction 1 as [|o l l' _ IH Ha E]; [split; intros ? ? H; cbn in H; by rewrite lookup_empty in H|].
  destruct (life_op_ok o l IH Ha) as (l1 & E1 & H1). congruence.
Qed.
Lemma life_run_reach u os l l' : life_reach u l -> life_run u os l = Some l' -> life_reach u l'.
Proof.
  revert l. induction os as [|o os IH]; cbn; intros l Hl; [by intros [= <-]|].
  destruct (allowed u o l) eqn:Ea; [|done]. destruct (life_op o l) as [l1| |] eqn:E; try done.
  apply IH. by eapply life_next.
Qed.

(** ** Theorems *)

(** C13.  Take any interleaving of threads that create, start, stop, flush and wait through
    [fsevents.ml], of callbacks of the system, and of the collector running finalizers, in
    which a queue is not used again once a wait on it has returned, no watcher is stopped
    while it is being flushed, a callback raises only while its watcher has not been
    stopped, waits return because no watcher is left on the queue, and a watcher is lost
    only when it is not running and no callback is still on its way to it.  Then every
    operation that may come next succeeds: no function and no callback uses a freed
    watcher, a freed queue or a released stream, and no block is freed twice.  A stream runs
    only while its watcher and its queue are there; a watcher that was stopped has neither
    stream nor queue left; the callback of a watcher is a root exactly until the watcher is
    freed; the stream of a flush in progress runs; and the watcher of a callback that has
    not read it yet is there. *)
Theorem fsevents_memory_safe (l : life) (o : op) :
  life_reach Disciplined l -> allowed Disciplined o l = true ->
  (exists l', life_op o l = Done l') /\
  (forall t w, ts l !! t = Some w ->
    t_rooted w = negb (t_freed w) /\
    (t_stream w = Running -> t_freed w = false /\ exists d q, t_dq w = Some d /\ Dispatch_queue_val d l = Done q) /\
    (t_owner w = TStop -> t_stream w = Released /\ t_dq w = None)) /\
  (forall f t, flushes l !! f = Some t -> exists w, Fsevents_val t l = Done w /\ t_stream w = Running) /\
  (forall c t, calls l !! c = Some (Begun t) -> exists w, Fsevents_val t l = Done w /\ t_rooted w = true).
Proof.
  intros Hr%life_reach_ok Ha. split_and!.
  - destruct (life_op_ok o l Hr Ha) as (l' & E & _). eauto.
  - intros t w Hw. pose proof (l_ts l Hr t w Hw) as (R & O1 & O2 & O3 & _). split; [done|]. split.
    + rewrite O2. destruct (t_owner w) as [| |d| | |] eqn:Eo; try done. intros _. split; [done|].
      destruct (its_queue t w d l Hr Hw) as [_ [q Eq]]; [by rewrite Eo|]. exists d, q. by rewrite O1.
    + intros Ho. by rewrite O2, O1, Ho.
  - intros f t (w & d & Hw & Ho)%(l_flushes l Hr)%started_spec. exists w.
    destruct (watcher t w l Hr Hw) as [E _]; [congruence..|]. pose proof (l_ts l Hr t w Hw) as (_ & _ & O2 & _).
    by rewrite O2, Ho.
  - intros c t E. destruct (begun_alive c t l Hr E) as (w & Ew & _ & Hro & _). eauto.
Qed.

(** One watcher on a queue that is waited for, being flushed and called back. *)
Definition running_history : list op :=
  [OCreate 1; OQueue 2; OStart 1 2; OStart_end 1 true; OWait 2; OFlush 7 1; OCall 8 1].
Definition running_life : life := default no_life (life_run Disciplined running_history no_life).
Lemma running_life_reach : life_reach Disciplined running_life.
Proof. apply (life_run_reach _ running_history no_life); [constructor|]. vm_compute. reflexivity. Qed.

Lemma fsevents_memory_safe_witness :
  (exists l', life_op (OFlush_end 7) running_life = Done l') /\
  (forall t w, ts running_life !! t = Some w ->
    t_rooted w = negb (t_freed w) /\
    (t_stream w = Running ->
      t_freed w = false /\ exists d q, t_dq w = Some d /\ Dispatch_queue_val d running_life = Done q) /\
    (t_owner w = TStop -> t_stream w = Released /\ t_dq w = None)) /\
  (forall f t, flushes running_life !! f = Some t -> exists w, Fsevents_val t running_life = Done w /\ t_stream w = Running) /\
  (forall c t, calls running_life !! c = Some (Begun t) -> exists w, Fsevents_val t running_life = Done w /\ t_rooted w = true).
Proof.
  apply (fsevents_memory_safe running_life (OFlush_end 7)); [apply running_life_reach|].
  vm_compute. reflexivity.
Defined.

(** A watcher can be taken through its whole life. *)
Lemma whole_life : is_Some (life_run Disciplined
  (running_history ++ [OFlush_end 7; OCall_enter 8; OStop 1; OCall_end 8 false; OStop_end 1; OReturn 2; OForget 2;
    OFinalize_queue 2; OFinalize 1]) no_life).
Proof. vm_compute. eauto. Qed.

(** *** What happens otherwise *)

Definition one_running : list op := [OCreate 1; OQueue 2; OStart 1 2; OStart_end 1 true].
Ltac by_history := eexists; split; [vm_compute; reflexivity|split; vm_compute; reflexivity].

(** [fsevents.ml] looks at the state of a watcher before it flushes it, and does not hold
    its mutex meanwhile: if another thread stops the watcher, a released stream is used. *)
Lemma flush_after_stop : faults (one_running ++ [OFlush 7 1; OStop 1]) (OFlush_end 7).
Proof. by_history. Qed.

(** A callback that waits for the lock of the runtime while its watcher is stopped finds
    no queue to report its exception to, ... *)
Lemma raise_after_stop :
  faults (one_running ++ [OCall 8 1; OStop 1; OStop_end 1; OCall_enter 8]) (OCall_end 8 true).
Proof. by_history. Qed.
(** ... and if the collector has freed the watcher meanwhile, uses freed memory. *)
Lemma callback_after_finalize :
  faults (one_running ++ [OCall 8 1; OStop 1; OStop_end 1; OFinalize 1]) (OCall_enter 8).
Proof. by_history. Qed.
(** The same happens to a watcher the program loses without stopping it. *)
Lemma lost_watcher_called : faults (one_running ++ [OFinalize 1; OCall 8 1]) (OCall_enter 8).
Proof. by_history. Qed.

(** When a callback raises, the wait returns although streams are running, and
    [fsevents.ml] forgets the queue.  Once the collector has freed it, stopping a stream
    that was started on it uses freed memory, and so does its next exception. *)
Theorem raised_queue_dangles :
  faults (one_running ++ [OWait 2; OCall 8 1; OCall_enter 8; OCall_end 8 true; OReturn 2; OForget 2; OFinalize_queue 2;
    OStop 1]) (OStop_end 1) /\
  faults (one_running ++ [OWait 2; OCall 8 1; OCall_enter 8; OCall_end 8 true; OReturn 2; OForget 2; OFinalize_queue 2;
    OCall 8 1; OCall_enter 8]) (OCall_end 8 true).
Proof. split; by_history. Qed.

(** So does stopping a watcher that was started after a wait had returned and before
    [fsevents.ml] had noted it. *)
Lemma start_after_return :
  faults [OCreate 1; OQueue 2; OWait 2; OReturn 2; OStart 1 2; OStart_end 1 true; OForget 2; OFinalize_queue 2; OStop 1]
    (OStop_end 1).
Proof. by_history. Qed.

(** Nothing releases the stream of a watcher that is never started: when the collector
    frees it, the stream stays. *)
Lemma unstarted_stream_leaks : exists l, life_run Disciplined [OCreate 1; OFinalize 1] no_life = Some l /\
  ts l !! 1 = Some (T None Created false true TLost).
Proof. eexists. split; reflexivity. Qed.
