(* ===== verification/Lev.v ===== *)
(** * The bindings to libev

    [lev_stubs.c].  A watcher is a block of C memory that a loop of libev points to while
    the watcher is active or pending.  Its callback, and for some kinds more, are OCaml values in the
    fields of such blocks; the collector moves values, and updates the fields that are
    registered as global roots only.  The functions that create, start, call and destroy
    watchers are modelled on that memory; also the order of watchers, the flags of a
    descriptor watcher, the decoding of child and file statuses, times in floating point,
    and the error numbers around the runtime lock. *)

From Stdlib Require Import ZArith Lia.
From Stdlib Require Import SpecFloat.
From stdpp Require Import base numbers list strings sets gmap functions.
From S2P Require Import Prelude Posix Stdune.
Local Open Scope Z_scope.

(** ** Memory, roots and the OCaml heap *)

Inductive field := Cb | Data | Reschedule_cb | Events | Callback | Fd | Path | Watcher | Reschedule.
#[global] Instance field_eq_dec : EqDecision field.
Proof. solve_decision. Defined.

(** An OCaml value is a number or the address of a block in the heap of OCaml. *)
Inductive value := Imm (n : Z) | Addr (a : Z).

(** The C functions that the loop calls. *)
Inductive cfun :=
| Lev_io_cb | Lev_watcher_cb | Lev_child_cb | Lev_stat_cb
| Lev_periodic_watcher_cb | Lev_periodic_reschedule_cb.

Inductive word := NULL | Fun (f : cfun) | Ptr (p : Z) | Val (v : value) | Int (n : Z).

(** C blocks, their fields, the fields that are roots, the next address; the objects in
    the heap of OCaml; which loop points to which active watcher; the watchers in the
    arrays [pendings], whose callback is still to be called. *)
Record mem := Mem {
  m_blocks : list Z;
  m_cells : Z * field -> option word;
  m_roots : list (Z * field);
  m_next : Z;
  m_heap : gmap Z Z;
  m_loops : list (Z * Z);
  m_pending : list Z }.

Definition LM (A : Type) : Type := mem -> exec (A * mem).
#[global] Instance LM_ret : MRet LM := fun A a m => Done (a, m).
#[global] Instance LM_bind : MBind LM := fun A B k m s =>
  match m s with
  | Done (a, s) => k a s
  | Fault => Fault
  | Spin => Spin
  end.

Definition set_blocks (bs : list Z) (m : mem) : mem :=
  Mem bs (m_cells m) (m_roots m) (m_next m) (m_heap m) (m_loops m) (m_pending m).
Definition set_roots (rs : list (Z * field)) (m : mem) : mem :=
  Mem (m_blocks m) (m_cells m) rs (m_next m) (m_heap m) (m_loops m) (m_pending m).
Definition set_cells (c : Z * field -> option word) (m : mem) : mem :=
  Mem (m_blocks m) c (m_roots m) (m_next m) (m_heap m) (m_loops m) (m_pending m).
Definition set_heap (h : gmap Z Z) (m : mem) : mem :=
  Mem (m_blocks m) (m_cells m) (m_roots m) (m_next m) h (m_loops m) (m_pending m).
Definition set_loops (l : list (Z * Z)) (m : mem) : mem :=
  Mem (m_blocks m) (m_cells m) (m_roots m) (m_next m) (m_heap m) l (m_pending m).
Definition set_pending (l : list Z) (m : mem) : mem :=
  Mem (m_blocks m) (m_cells m) (m_roots m) (m_next m) (m_heap m) (m_loops m) l.

Definition caml_stat_alloc : LM Z := fun m =>
  Done (m_next m, Mem (m_next m :: m_blocks m) (m_cells m) (m_roots m) (m_next m + 1)
                    (m_heap m) (m_loops m) (m_pending m)).
(** Freeing, reading or writing a block that is not allocated, reading a field that was
    never written, and removing a root that is not registered, are errors. *)
Definition caml_stat_free (b : Z) : LM unit := fun m =>
  if bool_decide (b ∈ m_blocks m)
  then Done (tt, set_blocks (filter (fun c => c <> b) (m_blocks m)) m) else Fault.
Definition register_root (r : Z * field) : LM unit := fun m =>
  if bool_decide (r.1 ∈ m_blocks m) then Done (tt, set_roots (r :: m_roots m) m) else Fault.
Definition remove_root (r : Z * field) : LM unit := fun m =>
  if bool_decide (r ∈ m_roots m)
  then Done (tt, set_roots (filter (fun c => c <> r) (m_roots m)) m) else Fault.
Definition load (r : Z * field) : LM word := fun m =>
  if bool_decide (r.1 ∈ m_blocks m) then
    match m_cells m r with Some w => Done (w, m) | None => Fault end
  else Fault.
Definition store (r : Z * field) (w : word) : LM unit := fun m =>
  if bool_decide (r.1 ∈ m_blocks m) then Done (tt, set_cells (<[r := Some w]> (m_cells m)) m) else Fault.

Definition fault {A} : LM A := fun _ => Fault.
Definition load_ptr (r : Z * field) : LM Z :=
  w ← load r; match w with Ptr p => mret p | _ => fault end.
Definition load_val (r : Z * field) : LM value :=
  w ← load r; match w with Val v => mret v | _ => fault end.

(** A collection: what the roots and the locals [keep] point to survives and is moved by
    [f]; the roots follow, other fields do not. *)
Definition rooted (m : mem) : list Z :=
  omap (fun r => match m_cells m r with Some (Val (Addr a)) => Some a | _ => None end) (m_roots m).
Definition move (f : Z -> Z) (w : word) : word :=
  match w with Val (Addr a) => Val (Addr (f a)) | _ => w end.
Definition collect (f : Z -> Z) (keep : list Z) (m : mem) : mem :=
  Mem (m_blocks m)
    (fun r => if bool_decide (r ∈ m_roots m) then move f <$> m_cells m r else m_cells m r)
    (m_roots m) (m_next m)
    (kmap f (filter (fun p => p.1 ∈ rooted m ++ keep) (m_heap m))) (m_loops m) (m_pending m).

(** ** Creating watchers *)

(** The pointers that a function holds while it creates a watcher.  In a plain watcher
    the field [data] is the callback itself; a periodic watcher with a [reschedule_cb] has
    a block for its two closures; an embedding watcher may have no callback. *)
Inductive watcher :=
| Io (io data : Z)
| Plain (cb : cfun) (w : Z)
| Periodic (w : Z) (cbs : option Z)
| Embed (w : Z) (manual : bool)
| Stat (w data path : Z).

(** What OCaml holds: a custom block with its operations and the pointer. *)
Inductive custom_ops := watcher_ops | embed_manual_ops.
Record handle := Handle { h_ops : custom_ops; h_ptr : Z }.

Definition ptr (w : watcher) : Z :=
  match w with Io w _ | Plain _ w | Periodic w _ | Embed w _ | Stat w _ _ => w end.
Definition handle_of (w : watcher) : handle :=
  match w with
  | Embed w false => Handle embed_manual_ops w
  | _ => Handle watcher_ops (ptr w)
  end.

Definition EV__IOFDSET : Z := 0x80.

(** A creation: blocks are allocated and initialised; an OCaml function is applied to the
    new watcher, which may run any code and gives its closures and the protected locals,
    or raises; then fields are set and registered. *)
Definition creating (init : LM watcher) (finish : watcher -> list value -> LM unit)
  (apply : handle -> LM (caml (list value))) : LM (caml handle) :=
  w ← init;
  r ← apply (handle_of w);
  match r with
  | Raise x => mret (Raise x)
  | Value vs => _ ← finish w vs; mret (Value (handle_of w))
  end.

Definition io_init (flags : Z) : LM watcher :=
  io ← caml_stat_alloc;
  data ← caml_stat_alloc;
  _ ← store (io, Cb) (Fun Lev_io_cb);
  _ ← store (io, Events) (Int (Z.lor flags EV__IOFDSET));
  mret (Io io data).
Definition io_finish (io data : Z) (v_cb_applied v_fd : value) : LM unit :=
  _ ← store (data, Callback) (Val v_cb_applied);
  _ ← store (data, Fd) (Val v_fd);
  _ ← store (io, Data) (Ptr data);
  _ ← register_root (data, Callback);
  register_root (data, Fd).

(** [lev_timer_create], [lev_child_create], [lev_signal_create], [DEF_SIMPLE_CREATE]. *)
Definition plain_init (cb : cfun) : LM watcher :=
  w ← caml_stat_alloc;
  _ ← store (w, Cb) (Fun cb);
  mret (Plain cb w).
Definition plain_finish (w : Z) (v_cb_applied : value) : LM unit :=
  _ ← store (w, Data) (Val v_cb_applied);
  register_root (w, Data).

Definition periodic_regular_init : LM watcher :=
  w ← caml_stat_alloc;
  _ ← store (w, Cb) (Fun Lev_watcher_cb);
  _ ← store (w, Reschedule_cb) NULL;
  mret (Periodic w None).
Definition periodic_custom_init : LM watcher :=
  w ← caml_stat_alloc;
  _ ← store (w, Cb) (Fun Lev_periodic_watcher_cb);
  _ ← store (w, Reschedule_cb) (Fun Lev_periodic_reschedule_cb);
  cbs ← caml_stat_alloc;
  mret (Periodic w (Some cbs)).
Definition periodic_custom_finish (w cbs : Z) (v_cb_applied v_reschedule_applied : value) : LM unit :=
  _ ← store (cbs, Watcher) (Val v_cb_applied);
  _ ← store (cbs, Reschedule) (Val v_reschedule_applied);
  _ ← store (w, Data) (Ptr cbs);
  _ ← register_root (cbs, Watcher);
  register_root (cbs, Reschedule).

Definition embed_init (manual : bool) : LM watcher :=
  w ← caml_stat_alloc;
  _ ← store (w, Cb) (if manual then Fun Lev_watcher_cb else NULL);
  mret (Embed w manual).

Definition stat_init : LM watcher :=
  w ← caml_stat_alloc;
  data ← caml_stat_alloc;
  path ← caml_stat_alloc;
  _ ← store (w, Cb) (Fun Lev_stat_cb);
  mret (Stat w data path).
Definition stat_finish (w data path : Z) (v_cb_applied : value) : LM unit :=
  _ ← store (data, Callback) (Val v_cb_applied);
  _ ← store (data, Path) (Ptr path);
  _ ← store (w, Data) (Ptr data);
  register_root (data, Callback).

(** The kinds of watchers, and what each one runs before and after the application. *)
Inductive kind :=
| KIo (flags : Z) | KTimer | KChild | KSignal | KSimple | KPeriodic_regular | KPeriodic_custom
| KEmbed_automatic | KEmbed_manual | KStat.

Definition init (k : kind) : LM watcher :=
  match k with
  | KIo flags => io_init flags
  | KTimer | KSignal | KSimple => plain_init Lev_watcher_cb
  | KChild => plain_init Lev_child_cb
  | KPeriodic_regular => periodic_regular_init
  | KPeriodic_custom => periodic_custom_init
  | KEmbed_automatic => embed_init false
  | KEmbed_manual => embed_init true
  | KStat => stat_init
  end.

Definition finish (w : watcher) (vs : list value) : LM unit :=
  match w, vs with
  | Io io data, [v_cb_applied; v_fd] => io_finish io data v_cb_applied v_fd
  | Plain _ w, [v_cb_applied] => plain_finish w v_cb_applied
  | Periodic w None, [v_cb_applied] => plain_finish w v_cb_applied
  | Periodic w (Some cbs), [v_cb_applied; v_reschedule_applied] =>
      periodic_custom_finish w cbs v_cb_applied v_reschedule_applied
  | Embed w true, [v_cb_applied] => plain_finish w v_cb_applied
  | Embed w false, [] => mret tt
  | Stat w data path, [v_cb_applied] => stat_finish w data path v_cb_applied
  | _, _ => fault
  end.

Definition lev_io_create (flags : Z) := creating (init (KIo flags)) finish.
Definition lev_timer_create := creating (init KTimer) finish.
Definition lev_child_create := creating (init KChild) finish.
Definition lev_signal_create := creating (init KSignal) finish.
Definition lev_simple_create := creating (init KSimple) finish.
Definition lev_periodic_create_regular := creating (init KPeriodic_regular) finish.
Definition lev_periodic_create_custom := creating (init KPeriodic_custom) finish.
Definition lev_embed_create_automatic := creating (init KEmbed_automatic) finish (fun _ => mret (Value [])).
Definition lev_embed_create_manual := creating (init KEmbed_manual) finish.
Definition lev_stat_create := creating (init KStat) finish.

(** ** Destroying watchers *)

Definition lev_io_destroy (v_io : handle) : LM unit :=
  let io := h_ptr v_io in
  data ← load_ptr (io, Data);
  _ ← remove_root (data, Callback);
  _ ← remove_root (data, Fd);
  _ ← caml_stat_free data;
  caml_stat_free io.

Definition lev_watcher_destroy (v_w : handle) : LM unit :=
  let w := h_ptr v_w in
  _ ← remove_root (w, Data);
  caml_stat_free w.

Definition lev_periodic_destroy (v_w : handle) : LM unit :=
  let w := h_ptr v_w in
  reschedule_cb ← load (w, Reschedule_cb);
  match reschedule_cb with
  | NULL =>
      _ ← remove_root (w, Data);
      caml_stat_free w
  | _ =>
      cbs ← load_ptr (w, Data);
      _ ← remove_root (cbs, Watcher);
      _ ← remove_root (cbs, Reschedule);
      _ ← caml_stat_free cbs;
      caml_stat_free w
  end.

Definition lev_embed_destroy (v_embed : handle) : LM unit :=
  let w := h_ptr v_embed in
  match h_ops v_embed with
  | watcher_ops =>
      _ ← remove_root (w, Data);
      caml_stat_free w
  | embed_manual_ops => caml_stat_free w
  end.

Definition lev_stat_destroy (v_w : handle) : LM unit :=
  let w := h_ptr v_w in
  data ← load_ptr (w, Data);
  _ ← remove_root (data, Callback);
  path ← load_ptr (data, Path);
  _ ← caml_stat_free path;
  _ ← caml_stat_free data;
  caml_stat_free w.

(** The function that [lev.ml] binds to [destroy] for each kind. *)
Definition destroy (w : watcher) : LM unit :=
  match w with
  | Io _ _ => lev_io_destroy (handle_of w)
  | Plain _ _ => lev_watcher_destroy (handle_of w)
  | Periodic _ _ => lev_periodic_destroy (handle_of w)
  | Embed _ _ => lev_embed_destroy (handle_of w)
  | Stat _ _ _ => lev_stat_destroy (handle_of w)
  end.

(** ** Starting, stopping and calling watchers *)

(** [ev_is_active]: a loop points to the watcher; [ev_is_pending]: its callback is to be
    called.  The pointer must be valid. *)
Definition ev_is_active (w : Z) : LM bool := fun m =>
  if bool_decide (w ∈ m_blocks m) then Done (bool_decide (w ∈ (m_loops m).*2), m) else Fault.
Definition ev_is_pending (w : Z) : LM bool := fun m =>
  if bool_decide (w ∈ m_blocks m) then Done (bool_decide (w ∈ m_pending m), m) else Fault.

Definition update_loops (f : list (Z * Z) -> list (Z * Z)) : LM unit := fun m =>
  Done (tt, set_loops (f (m_loops m)) m).

Definition clear_pending (w : Z) : LM unit := fun m =>
  if bool_decide (w ∈ m_blocks m)
  then Done (tt, set_pending (filter (fun p => p <> w) (m_pending m)) m) else Fault.

(** Starting an active watcher does nothing; stopping one takes it from the arrays of
    pending watchers first, and does nothing else when it is not active. *)
Definition lev_start (v_w : handle) (loop : Z) : LM unit :=
  let w := h_ptr v_w in
  active ← ev_is_active w;
  if active : bool then mret tt else update_loops (cons (loop, w)).

Definition ev_stop (w : Z) : LM unit :=
  _ ← clear_pending w;
  active ← ev_is_active w;
  if active : bool then update_loops (filter (fun p => p.2 <> w)) else mret tt.
Definition lev_stop (v_w : handle) : LM unit := ev_stop (h_ptr v_w).

Definition lev_watcher_is_active (v_w : handle) : LM bool := ev_is_active (h_ptr v_w).
Definition lev_watcher_is_pending (v_w : handle) : LM bool := ev_is_pending (h_ptr v_w).

(** [ev_timer_again]: a timer that repeats is started, or goes on with a new period; one
    that does not is stopped. *)
Definition lev_timer_again (repeats : bool) (v_timer : handle) (loop : Z) : LM unit :=
  _ ← clear_pending (h_ptr v_timer);
  active ← ev_is_active (h_ptr v_timer);
  if active : bool then if repeats then mret tt else lev_stop v_timer
  else if repeats then lev_start v_timer loop else mret tt.

(** [ev_feed_event]: a watcher is in the arrays once. *)
Definition ev_feed_event (w : Z) : LM unit := fun m =>
  if bool_decide (w ∈ m_blocks m) then
    Done (tt, if bool_decide (w ∈ m_pending m) then m else set_pending (w :: m_pending m) m)
  else Fault.

(** The loop finds an event of a watcher; a timer or a periodic watcher that does not
    repeat is stopped before ([timers_reify], [periodics_reify]). *)
Definition fire (repeats : bool) (w : Z) : LM unit :=
  _ ← if repeats then mret tt else ev_stop w;
  ev_feed_event w.

(** libev reads and changes the watcher's own state; [answer] is what it gives. *)
Definition ask {A} (answer : A) (v_w : handle) : LM A := fun m =>
  if bool_decide (h_ptr v_w ∈ m_blocks m) then Done (answer, m) else Fault.
Definition lev_async_send (v_async : handle) : LM unit := ask tt v_async.
Definition lev_async_pending (ev_async_pending : bool) (v_async : handle) : LM bool := ask ev_async_pending v_async.
Definition lev_embed_sweep (v_embed : handle) : LM unit := ask tt v_embed.

(** What the loop says: the events, and for a child its number and status. *)
Record event := Event { revents : Z; rpid : Z; rstatus : Z }.

(** An argument of an OCaml function, and its application. *)
Inductive arg := Unit | Num (n : Z) | Arg (v : value) | Status (s : process_status) | Time (t : Z).
Record application := Apply { a_closure : value; a_args : list arg }.

Definition lev_child_status (rev : Z -> Z) (status : Z) : process_status :=
  if WIFEXITED status then WEXITED (WEXITSTATUS status)
  else if WIFSTOPPED status then WSTOPPED (rev (WSTOPSIG status))
  else WSIGNALED (rev (WTERMSIG status)).

Definition lev_io_cb (w : Z) (e : event) : LM application :=
  data ← load_ptr (w, Data);
  callback ← load_val (data, Callback);
  fd ← load_val (data, Fd);
  mret (Apply callback [Arg fd; Num (revents e)]).

Definition lev_watcher_cb (w : Z) (e : event) : LM application :=
  callback ← load_val (w, Data);
  mret (Apply callback [Unit]).

Definition lev_periodic_watcher_cb (w : Z) (e : event) : LM application :=
  cbs ← load_ptr (w, Data);
  watcher ← load_val (cbs, Watcher);
  mret (Apply watcher [Unit]).

Definition lev_stat_cb (w : Z) (e : event) : LM application :=
  data ← load_ptr (w, Data);
  callback ← load_val (data, Callback);
  mret (Apply callback [Unit]).

(** [caml_rev_convert_signal_number] is [rev]. *)
Definition lev_child_cb (rev : Z -> Z) (w : Z) (e : event) : LM application :=
  let v_status := lev_child_status rev (rstatus e) in
  callback ← load_val (w, Data);
  mret (Apply callback [Num (rpid e); Status v_status]).

(** The loop calls the function in the watcher. *)
Definition invoke (rev : Z -> Z) (w : Z) (e : event) : LM application :=
  cb ← load (w, Cb);
  match cb with
  | Fun Lev_io_cb => lev_io_cb w e
  | Fun Lev_watcher_cb => lev_watcher_cb w e
  | Fun Lev_periodic_watcher_cb => lev_periodic_watcher_cb w e
  | Fun Lev_stat_cb => lev_stat_cb w e
  | Fun Lev_child_cb => lev_child_cb rev w e
  | _ => fault
  end.

(** One pass of [ev_invoke_pending]: the watcher leaves the array, then it is called. *)
Definition ev_invoke_pending (rev : Z -> Z) (w : Z) (e : event) : LM application :=
  _ ← clear_pending w;
  invoke rev w e.

Definition lev_io_fd (v_io : handle) : LM value :=
  data ← load_ptr (h_ptr v_io, Data);
  load_val (data, Fd).

Definition lev_io_modify (v_io : handle) (flags : Z) : LM unit :=
  let io := h_ptr v_io in
  events ← load (io, Events);
  match events with
  | Int events => store (io, Events) (Int (Z.lor (Z.land events EV__IOFDSET) flags))
  | _ => fault
  end.

(** ** Times in floating point *)

(** [double], and the conversions of C: from an integer to the nearest, to an integer by
    truncation, which is undefined where the result does not fit. *)
Definition double := spec_float.
Definition double_of (n : Z) : double := binary_normalize 53 1024 n 0 false.
Definition truncate (x : double) : option Z :=
  match x with
  | S754_zero _ => Some 0
  | S754_finite s m e =>
      let n := if 0 <=? e then Z.shiftl (Zpos m) e else Z.shiftr (Zpos m) (- e) in
      let n := if (s : bool) then - n else n in
      if (- 2 ^ 63 <=? n) && (n <? 2 ^ 63) then Some n else None
  | _ => None
  end.

Definition lev_ns_per_second : double := double_of 1000000000.
Definition lev_time_to_seconds (t : Z) : double := SFdiv 53 1024 (double_of t) lev_ns_per_second.
Definition lev_time_of_seconds (seconds : double) : exec Z :=
  match truncate (SFmul 53 1024 seconds lev_ns_per_second) with
  | Some n => Done (signed 63 n)
  | None => Fault
  end.

Definition lev_span_of_seconds := lev_time_of_seconds.
Definition lev_span_to_seconds := lev_time_to_seconds.

Definition lev_ev_now (ev_now : double) : exec Z := lev_time_of_seconds ev_now.
Definition lev_timer_remaining (ev_timer_remaining : double) (v_timer : handle) : LM Z :=
  remaining ← ask ev_timer_remaining v_timer;
  match lev_span_of_seconds remaining with
  | Done n => mret n
  | _ => fault
  end.

(** [lev_periodic_reschedule_cb]: the closure gets the time, its result is given back. *)
Definition lev_periodic_reschedule_cb (w : Z) (now : double) : LM application :=
  cbs ← load_ptr (w, Data);
  reschedule ← load_val (cbs, Reschedule);
  match lev_time_of_seconds now with
  | Done t => mret (Apply reschedule [Time t])
  | _ => fault
  end.
Definition lev_periodic_reschedule_result (v_stamp : Z) : double := lev_time_to_seconds v_stamp.

Definition nextafter (x y : double) : double :=
  if SFeqb x y then y else if SFltb x y then SFsucc 53 1024 x else SFpred 53 1024 x.

Definition stat_timestamp (sec nsec : Z) : double :=
  let s := double_of sec in
  let n := SFdiv 53 1024 (double_of nsec) (double_of 1000000000) in
  let t := SFadd 53 1024 s n in
  if SFeqb t (SFadd 53 1024 s (double_of 1)) then nextafter t s else t.

(** ** The other stubs *)

(** [compare_watchers] on the addresses. *)
Definition compare_watchers (left right : Z) : Z :=
  if left <? right then -1 else if right <? left then 1 else 0.
Definition hash_watcher (w : Z) : Z := signed 64 w.

(** [lev_ev_default] and [lev_ev_create]: libev gives a loop or nothing. *)
Definition lev_ev_create (loop : option Z) : caml Z :=
  match loop with
  | None => Raise (Failure "unable to create loop")
  | Some loop => Value loop
  end.
Definition lev_ev_default := lev_ev_create.

Definition file_kind_table : list Z := [S_IFREG; S_IFDIR; S_IFCHR; S_IFBLK; S_IFLNK; S_IFIFO; S_IFSOCK].

Fixpoint cst_to_constr (i n : Z) (tbl : list Z) (deflt : Z) : Z :=
  match tbl with
  | [] => deflt
  | c :: tbl => if n =? c then i else cst_to_constr (i + 1) n tbl deflt
  end.
Definition lev_stat_kind (mode : Z) : Z := cst_to_constr 0 (Z.land mode S_IFMT) file_kind_table 0.

(** [struct stat], and the fields of the OCaml record in order. *)
Record ev_statdata := {
  st_dev : Z; st_ino : Z; st_mode : Z; st_nlink : Z; st_uid : Z; st_gid : Z; st_rdev : Z;
  st_size : Z; st_atime : Z; st_mtime : Z; st_ctime : Z }.
Inductive stat_field := FInt (n : Z) | FKind (n : Z) | FTime (t : double).
Definition Val_int (n : Z) : stat_field := FInt (signed 63 n).
Definition lev_stat_stat (s : ev_statdata) : list stat_field :=
  [ Val_int (st_dev s); Val_int (st_ino s); FKind (lev_stat_kind (st_mode s));
    Val_int (Z.land (st_mode s) 0xfff); Val_int (st_nlink s); Val_int (st_uid s);
    Val_int (st_gid s); Val_int (st_rdev s); Val_int (st_size s);
    FTime (stat_timestamp (st_atime s) 0); FTime (stat_timestamp (st_mtime s) 0);
    FTime (stat_timestamp (st_ctime s) 0) ].

(** [strip_trailing_crlf]: the last characters while they end a line. *)
Fixpoint strip_trailing_crlf (message : list Z) : list Z :=
  match message with
  | [] => []
  | c :: l =>
      match strip_trailing_crlf l with
      | [] => if (c =? 13) || (c =? 10) then [] else [c]
      | l => c :: l
      end
  end.

(** The runtime's lock functions may change both error numbers; [errno] is set back, and
    on Windows the socket error too. *)
Record errors := { errno : Z; wsa_error : Z }.
Definition release_lock (windows : bool) (runtime : errors -> errors) (e : errors) : errors :=
  let e' := runtime e in
  {| errno := errno e; wsa_error := if windows then wsa_error e else wsa_error e' |}.
Definition acquire_lock := release_lock.

(** The codes that OCaml gets from the functions [lev_..._code], [lev_backend_...] and
    [lev_loop_flags_...], with libev's values. *)
Definition lev_loop_break_cancel_code : Z := 0.
Definition lev_loop_break_one_code : Z := 1.
Definition lev_loop_break_all_code : Z := 2.
Definition lev_loop_run_once : Z := 2.
Definition lev_loop_run_nowait : Z := 1.
Definition lev_io_read_code : Z := 0x01.
Definition lev_io_write_code : Z := 0x02.
Definition lev_backends : list Z := [0x02; 0x01; 0x04; 0x08; 0x10; 0x20; 0x40; 0x80].
Definition lev_loop_flags : list Z :=
  [0; 0x01000000; 0x02000000; 0x00100000; 0x00200000; 0x00400000; 0x00800000].
