(* ===== verification/LevLaws.v ===== *)
(** * The life of libev watchers

    Histories interleave creations, whose OCaml function may run any of the other steps,
    starts and stops, events, calls of pending watchers, destructions of watchers that are
    neither active nor pending, allocations and collections of OCaml.  In all of them
    blocks and roots are held by exactly one watcher, and a watcher that the loop calls
    applies the closure it was created with. *)

From Stdlib Require Import ZArith Lia.
From Stdlib Require Import SpecFloat.
From stdpp Require Import functions base numbers list strings sets gmap.
From S2P Require Import Prelude Posix Stdune StduneLaws Lev.
Local Open Scope Z_scope.

(** ** What watchers hold and mean *)

Definition owned (w : watcher) : list Z :=
  match w with
  | Io io data => [data; io]
  | Plain _ w => [w]
  | Periodic w cbs => option_list cbs ++ [w]
  | Embed w _ => [w]
  | Stat w data path => [path; data; w]
  end.
Definition owned_roots (w : watcher) : list (Z * field) :=
  match w with
  | Io _ data => [(data, Callback); (data, Fd)]
  | Plain _ w => [(w, Data)]
  | Periodic w None => [(w, Data)]
  | Periodic _ (Some cbs) => [(cbs, Watcher); (cbs, Reschedule)]
  | Embed w manual => if manual then [(w, Data)] else []
  | Stat _ data _ => [(data, Callback)]
  end.

(** The objects of OCaml, wherever they are. *)
Inductive meaning := MNum (n : Z) | MObj (o : Z).
Definition denote (heap : gmap Z Z) (v : value) : option meaning :=
  match v with
  | Imm n => Some (MNum n)
  | Addr a => MObj <$> heap !! a
  end.

Definition cb_word (w : watcher) : word :=
  match w with
  | Io _ _ => Fun Lev_io_cb
  | Plain cb _ => Fun cb
  | Periodic _ None => Fun Lev_watcher_cb
  | Periodic _ (Some _) => Fun Lev_periodic_watcher_cb
  | Embed _ manual => if manual then Fun Lev_watcher_cb else NULL
  | Stat _ _ _ => Fun Lev_stat_cb
  end.

(** The fields set before the OCaml function is applied, and after it. *)
Definition initialised (c : Z * field -> option word) (w : watcher) : Prop :=
  c (ptr w, Cb) = Some (cb_word w) /\
  match w with
  | Io io _ => exists n, c (io, Events) = Some (Int n)
  | Plain cb _ => cb = Lev_watcher_cb \/ cb = Lev_child_cb
  | Periodic w None => c (w, Reschedule_cb) = Some NULL
  | Periodic w (Some _) => c (w, Reschedule_cb) = Some (Fun Lev_periodic_reschedule_cb)
  | _ => True
  end.
Definition linked (c : Z * field -> option word) (w : watcher) : Prop :=
  match w with
  | Io io data => c (io, Data) = Some (Ptr data)
  | Periodic w (Some cbs) => c (w, Data) = Some (Ptr cbs)
  | Stat w data path => c (w, Data) = Some (Ptr data) /\ c (data, Path) = Some (Ptr path)
  | _ => True
  end.
Definition means (c : Z * field -> option word) (heap : gmap Z Z) (r : Z * field) (o : meaning) : Prop :=
  exists v, c r = Some (Val v) /\ denote heap v = Some o.

(** A live watcher, with the objects in its roots. *)
Record entry := Entry { e_w : watcher; e_objs : list meaning }.
Definition entry_ok (m : mem) (e : entry) : Prop :=
  initialised (m_cells m) (e_w e) /\ linked (m_cells m) (e_w e) /\
  Forall2 (means (m_cells m) (m_heap m)) (owned_roots (e_w e)) (e_objs e).

(** Everything is held by one live watcher or one that is being created, but for the
    blocks [leaked]; loops point to live watchers, and have pending only those that have a
    callback. *)
Record lev_ok (live : list entry) (pend : list watcher) (leaked : list Z) (m : mem) : Prop := {
  l_blocks : m_blocks m ≡ₚ concat (map owned (map e_w live ++ pend)) ++ leaked;
  l_roots : m_roots m ≡ₚ concat (map owned_roots (map e_w live));
  l_nodup : NoDup (m_blocks m);
  l_roots_nodup : NoDup (m_roots m);
  l_next : forall b, b ∈ m_blocks m -> b < m_next m;
  l_live : Forall (entry_ok m) live;
  l_pend : Forall (initialised (m_cells m)) pend;
  l_loops_nodup : NoDup (m_loops m).*2;
  l_loops : (m_loops m).*2 ⊆ map (fun e => ptr (e_w e)) live;
  l_pending : Forall (fun p => exists e, e ∈ live /\ ptr (e_w e) = p /\ cb_word (e_w e) <> NULL) (m_pending m) }.

(** What the application of a closure says, and what each kind of watcher promises. *)
Inductive spoken := SUnit | SNum (n : Z) | SVal (o : meaning) | SStatus (s : process_status) | STime (t : Z).
Definition says (heap : gmap Z Z) (a : arg) : option spoken :=
  match a with
  | Unit => Some SUnit
  | Num n => Some (SNum n)
  | Arg v => SVal <$> denote heap v
  | Status s => Some (SStatus s)
  | Time t => Some (STime t)
  end.
Definition applies (heap : gmap Z Z) (a : application) (x : meaning * list spoken) : Prop :=
  denote heap (a_closure a) = Some x.1 /\ mapM (says heap) (a_args a) = Some x.2.


(** ** Histories *)

(** A watcher is destroyed when it is neither active nor pending, as [lev.mli] asks for; the
    loop finds events of active watchers that have a callback, and calls the pending ones. *)

Inductive lev_reach : list entry -> list watcher -> list Z -> mem -> Prop :=
| lev_initial next heap : lev_reach [] [] [] (Mem [] (fun _ => None) [] next heap [] [])
| lev_begun live pend leaked m k w m' : lev_reach live pend leaked m ->
    init k m = Done (w, m') -> lev_reach live (w :: pend) leaked m'
| lev_finished live p1 w p2 leaked m vs objs m' : lev_reach live (p1 ++ w :: p2) leaked m ->
    mapM (denote (m_heap m)) vs = Some objs -> finish w vs m = Done (tt, m') ->
    lev_reach (Entry w objs :: live) (p1 ++ p2) leaked m'
| lev_raised live p1 w p2 leaked m : lev_reach live (p1 ++ w :: p2) leaked m ->
    lev_reach live (p1 ++ p2) (owned w ++ leaked) m
| lev_destroyed l1 e l2 pend leaked m m' : lev_reach (l1 ++ e :: l2) pend leaked m ->
    lev_watcher_is_active (handle_of (e_w e)) m = Done (false, m) ->
    lev_watcher_is_pending (handle_of (e_w e)) m = Done (false, m) ->
    destroy (e_w e) m = Done (tt, m') -> lev_reach (l1 ++ l2) pend leaked m'
| lev_started live pend leaked m e loop m' : lev_reach live pend leaked m -> e ∈ live ->
    lev_start (handle_of (e_w e)) loop m = Done (tt, m') -> lev_reach live pend leaked m'
| lev_stopped live pend leaked m e m' : lev_reach live pend leaked m -> e ∈ live ->
    lev_stop (handle_of (e_w e)) m = Done (tt, m') -> lev_reach live pend leaked m'
| lev_again live pend leaked m e repeats loop m' : lev_reach live pend leaked m -> e ∈ live ->
    lev_timer_again repeats (handle_of (e_w e)) loop m = Done (tt, m') -> lev_reach live pend leaked m'
| lev_fired live pend leaked m e repeats m' : lev_reach live pend leaked m -> e ∈ live ->
    ptr (e_w e) ∈ (m_loops m).*2 -> cb_word (e_w e) <> NULL ->
    fire repeats (ptr (e_w e)) m = Done (tt, m') -> lev_reach live pend leaked m'
| lev_invoked live pend leaked m rev w ev a m' : lev_reach live pend leaked m -> w ∈ m_pending m ->
    ev_invoke_pending rev w ev m = Done (a, m') -> lev_reach live pend leaked m'
| lev_modified live pend leaked m io data objs flags m' : lev_reach live pend leaked m ->
    Entry (Io io data) objs ∈ live ->
    lev_io_modify (handle_of (Io io data)) flags m = Done (tt, m') -> lev_reach live pend leaked m'
| lev_allocated live pend leaked m heap : lev_reach live pend leaked m ->
    m_heap m ⊆ heap -> lev_reach live pend leaked (set_heap heap m)
| lev_collected live pend leaked m f keep : lev_reach live pend leaked m -> Inj (=) (=) f ->
    lev_reach live pend leaked (collect f keep m).

(** ** Frames *)


Lemma owned_root w r : r ∈ owned_roots w -> r.1 ∈ owned w.
Proof. destruct w as [io data|cb w|w [cbs|]|w [|]|w data path]; cbn; set_solver. Qed.








Lemma held_in l w leaked b : w ∈ l -> b ∈ owned w -> b ∈ concat (map owned l) ++ leaked.
Proof.
  intros Hw Hb. apply elem_of_app. left. apply list_elem_of_In, in_concat. exists (owned w).
  split; [by apply in_map, list_elem_of_In|by apply list_elem_of_In].
Qed.

Lemma roots_in live pend leaked m r : lev_ok live pend leaked m -> r ∈ m_roots m -> r.1 ∈ m_blocks m.
Proof.
  intros Hm Hr. rewrite (l_roots _ _ _ _ Hm) in Hr. rewrite (l_blocks _ _ _ _ Hm).
  apply list_elem_of_In, in_concat in Hr as (l & (w & <- & Hw)%in_map_iff & Hr%list_elem_of_In).
  apply (held_in _ w); [apply elem_of_app; left; by apply list_elem_of_In|by apply owned_root].
Qed.


(** ** Creation *)

Lemma bind_assoc_at {A B C} (m : LM A) (f : A -> LM B) (g : B -> LM C) s :
  ((m ≫= f) ≫= g) s = (m ≫= fun a => f a ≫= g) s.
Proof. unfold mbind, LM_bind. destruct (m s) as [[a s']| |]; done. Qed.











(** ** Destruction *)






Lemma load_ok r w m : r.1 ∈ m_blocks m -> m_cells m r = Some w -> load r m = Done (w, m).
Proof. intros H1 H2. unfold load. rewrite bool_decide_true, H2; done. Qed.

Lemma bind_load {A} r w m (k : word -> LM A) : r.1 ∈ m_blocks m -> m_cells m r = Some w ->
  (load r ≫= k) m = k w m.
Proof. intros H1 H2. unfold mbind, LM_bind. rewrite (load_ok r w); done. Qed.

Lemma bind_load_ptr {A} r p m (k : Z -> LM A) : r.1 ∈ m_blocks m -> m_cells m r = Some (Ptr p) ->
  (load_ptr r ≫= k) m = k p m.
Proof. intros H1 H2. unfold load_ptr. rewrite bind_assoc_at, (bind_load _ (Ptr p)); done. Qed.

Lemma bind_load_val {A} r v m (k : value -> LM A) : r.1 ∈ m_blocks m -> m_cells m r = Some (Val v) ->
  (load_val r ≫= k) m = k v m.
Proof. intros H1 H2. unfold load_val. rewrite bind_assoc_at, (bind_load _ (Val v)); done. Qed.






(** ** Loops, flags, allocation and collection *)


















Section Collection.
Context (f : Z -> Z) `{!Inj (=) (=) f} (keep : list Z) (m : mem).
Abbreviation m' := (collect f keep m).



End Collection.

(** ** What the loop calls *)

Lemma val_step {A} r o m (k : value -> LM A) : r.1 ∈ m_blocks m -> means (m_cells m) (m_heap m) r o ->
  exists v, (load_val r ≫= k) m = k v m /\ denote (m_heap m) v = Some o.
Proof. intros Hb (v & Hv & Ho). exists v. split; [by apply bind_load_val|done]. Qed.

(** [runs]: read the fields of a live watcher. *)
Ltac runs Hb :=
  cbn in Hb; cbn [handle_of h_ptr ptr];
  repeat match goal with
  | |- context [(load_ptr ?r ≫= ?k) ?m] =>
      erewrite (bind_load_ptr r _ m k) by (first [eassumption | apply Hb; cbn; set_solver])
  | H : means _ _ ?r ?o |- context [(load_val ?r ≫= ?k) ?m] =>
      let v := fresh "v" in let E := fresh "E" in let D := fresh "D" in
      destruct (val_step r o m k) as (v & E & D); [apply Hb; cbn; set_solver|exact H|]; rewrite E; clear E
  end.




(** ** Every history *)






Lemma io_fd_ok m io data cb fd : owned (Io io data) ⊆ m_blocks m -> entry_ok m (Entry (Io io data) [cb; fd]) ->
  exists v, lev_io_fd (handle_of (Io io data)) m = Done (v, m) /\ denote (m_heap m) v = Some fd.
Proof.
  intros Hb (_ & K & M). cbn [e_w e_objs owned_roots linked] in *.
  do 2 (apply Forall2_cons_inv_l in M as (? & ? & ? & M & [= <- <-])).
  unfold lev_io_fd. runs Hb. destruct H0 as (v & Hv & Ho). exists v. split; [|done].
  unfold load_val, mbind, LM_bind. rewrite (load_ok _ (Val v)); [done| |done]. apply Hb. cbn. set_solver.
Qed.

Lemma reschedule_ok m w cbs cb re now t : owned (Periodic w (Some cbs)) ⊆ m_blocks m ->
  entry_ok m (Entry (Periodic w (Some cbs)) [cb; re]) -> lev_time_of_seconds now = Done t ->
  exists a, lev_periodic_reschedule_cb w now m = Done (a, m) /\ applies (m_heap m) a (re, [STime t]).
Proof.
  intros Hb (_ & K & M) Ht. cbn [e_w e_objs owned_roots linked] in *.
  do 2 (apply Forall2_cons_inv_l in M as (? & ? & ? & M & [= <- <-])).
  unfold lev_periodic_reschedule_cb. runs Hb. rewrite Ht. eexists. split; [done|]. split; done.
Qed.





(** [is_active] has to be false for [destroy]: otherwise the loop calls a freed block. *)
Lemma destroy_active_dangles rev ev : exists live pend leaked m e m',
  lev_reach live pend leaked m /\ e ∈ live /\ destroy (e_w e) m = Done (tt, m') /\
  ptr (e_w e) ∈ (m_loops m').*2 /\ invoke rev (ptr (e_w e)) ev m' = Fault.
Proof.
  pose proof (lev_begun _ _ _ _ KTimer _ _ (lev_initial 0 ∅) eq_refl) as R1.
  pose proof (lev_finished [] [] (Plain Lev_watcher_cb 0) [] [] _ [Imm 5] _ _ R1 eq_refl eq_refl) as R2.
  pose proof (lev_started _ _ _ _ _ 9 _ R2 (list_elem_of_here _ _) eq_refl) as R3.
  do 6 eexists. split; [exact R3|]. split; [apply list_elem_of_here|]. split; [reflexivity|].
  split; [apply list_elem_of_here|reflexivity].
Qed.

(** So has [is_pending]: a timer that does not repeat is inactive once it has fired, and
    the loop still has to call it. *)
Lemma destroy_pending_dangles rev ev : exists live pend leaked m e m',
  lev_reach live pend leaked m /\ e ∈ live /\
  lev_watcher_is_active (handle_of (e_w e)) m = Done (false, m) /\
  destroy (e_w e) m = Done (tt, m') /\
  ptr (e_w e) ∈ m_pending m' /\ ev_invoke_pending rev (ptr (e_w e)) ev m' = Fault.
Proof.
  pose proof (lev_begun _ _ _ _ KTimer _ _ (lev_initial 0 ∅) eq_refl) as R1.
  pose proof (lev_finished [] [] (Plain Lev_watcher_cb 0) [] [] _ [Imm 5] _ _ R1 eq_refl eq_refl) as R2.
  pose proof (lev_started _ _ _ _ _ 9 _ R2 (list_elem_of_here _ _) eq_refl) as R3.
  pose proof (lev_fired _ _ _ _ _ false _ R3 (list_elem_of_here _ _) (list_elem_of_here _ _)
    ltac:(discriminate) eq_refl) as R4.
  do 6 eexists. split; [exact R4|]. split; [apply list_elem_of_here|]. split; [reflexivity|].
  split; [reflexivity|]. split; [apply list_elem_of_here|reflexivity].
Qed.

(** ** Times *)

Lemma double_of_sign sec s : 0 <= sec -> double_of sec = S754_zero s -> s = false.
Proof.
  intros H. unfold double_of, binary_normalize. destruct sec as [|p|p]; [|unfold binary_round|lia].
  { congruence. }
  destruct (shl_align _ _ _) as [mz ez]. unfold binary_round_aux.
  destruct (shr_fexp 53 1024 _ _ _) as [mrs e]. destruct (shr_fexp 53 1024 _ _ _) as [mrs' e'].
  destruct (shr_m mrs'); [congruence| |done]. destruct (_ <=? _)%Z; done.
Qed.

Lemma SFeqb_refl x : x <> S754_nan -> SFeqb x x = true.
Proof.
  destruct x as [s|s| |s m e]; try done; destruct s; unfold SFeqb; cbn; try done;
    rewrite Z.compare_refl, Pos.compare_cont_refl; done.
Qed.

(** A file time without nanoseconds is the double nearest to its seconds. *)
Lemma stat_timestamp_seconds sec : 0 <= sec -> stat_timestamp sec 0 = double_of sec.
Proof.
  intros H. pose proof (double_of_sign sec) as Hz. unfold stat_timestamp.
  change (SFdiv 53 1024 (double_of 0) (double_of 1000000000)) with (S754_zero false).
  set (one := double_of 1). clearbody one.
  assert (E : SFadd 53 1024 (double_of sec) (S754_zero false) = double_of sec).
  { destruct (double_of sec) as [s|s| |s m e]; try done. by rewrite (Hz s H eq_refl). }
  rewrite E. destruct (SFeqb _ (SFadd _ _ _ _)) eqn:Eq; [|done]. unfold nextafter. rewrite SFeqb_refl; [done|].
  intros En. rewrite En in Eq. done.
Qed.

(** The conversion to seconds and back may lose a nanosecond. *)
Lemma time_conversion_truncates : exists t, 0 <= t < 10 ^ 9 /\
  lev_time_of_seconds (lev_time_to_seconds t) = Done (t - 1).
Proof. exists 15. split; [lia|]. vm_compute. reflexivity. Qed.
(** ** Agreement with the stubs of stdune *)

(** A child's status is decoded as [dune_wait4] does, and the kind of a file as
    [dune_stat] does, for all modes there are. *)
Lemma child_status_agrees conv status : lev_child_status conv status = alloc_process_status conv status.
Proof. done. Qed.

Lemma stat_kind_agrees s mode : s <> Windows -> Z.land mode S_IFMT ∈ file_kinds ->
  lev_stat_kind mode = dune_time_stat_file_kind s mode.
Proof.
  intros Hw Hk. unfold lev_stat_kind, dune_time_stat_file_kind, is_kind.
  repeat (apply elem_of_cons in Hk as [Hk|Hk]; [rewrite Hk; destruct s; done|]).
  apply elem_of_nil in Hk. done.
Qed.

(** [compare_watchers] is a total order on addresses. *)
Lemma compare_watchers_order a b c :
  (compare_watchers a b = 0 <-> a = b) /\ compare_watchers a b = - compare_watchers b a /\
  (compare_watchers a b <= 0 -> compare_watchers b c <= 0 -> compare_watchers a c <= 0).
Proof.
  unfold compare_watchers. destruct (Z.ltb_spec a b), (Z.ltb_spec b a), (Z.ltb_spec b c), (Z.ltb_spec c b),
    (Z.ltb_spec a c), (Z.ltb_spec c a); lia.
Qed.

(** Every loop flag and backend is a bit of its own, so a set of them is an [int] and a
    code is a member of a set exactly when it was added. *)
Lemma codes_disjoint : Forall (fun c => exists n, c = 2 ^ n) (lev_backends ++ tail lev_loop_flags) /\
  NoDup (lev_backends ++ lev_loop_flags).
Proof.
  split; [|apply (bool_decide_unpack _); vm_compute; done].
  repeat constructor; [by exists 1|by exists 0|by exists 2|by exists 3|by exists 4|by exists 5|by exists 6|by exists 7
    |by exists 24|by exists 25|by exists 20|by exists 21|by exists 22|by exists 23].
Qed.
