(* ===== verification/LevLoop.v ===== *)
(** * The bindings to libev: loops

    The functions of [lev_stubs.c] on loops.  libev is an oracle for the calls that only
    pass a loop to it.  [lev_ev_run] gives the loop two functions that release and take the
    lock of the OCaml runtime: the vendored [ev_run] and the waits of its backends are
    modelled with the fields that hold these functions, over a list of passes with what the
    system answers and which callbacks run.  [ev_run_lock] shows that OCaml code runs with
    the lock held, that the system waits without it, and that the run is otherwise the one
    of libev without these functions.  On Windows [lev_syserr_cb] prints an error of libev
    before the program ends. *)

From Stdlib Require Import ZArith Lia.
From stdpp Require Import base numbers list strings pretty.
From S2P Require Import Prelude Posix Lev.
Local Open Scope Z_scope.

(** ** Calls that pass a loop to libev *)

(** A result of type [int] or [unsigned int]. *)
Definition int_of (a : answer) : Z := match a with Ret n => n | _ => 0 end.

(** [DEF_BACKEND_SET(supported, ...)], [recommended] and [embeddable]. *)
Inductive backend_set := supported | recommended | embeddable.
Definition lev_backend_set (s : backend_set) : M Z :=
  a ← sys match s with
          | supported => "ev_supported_backends"
          | recommended => "ev_recommended_backends"
          | embeddable => "ev_embeddable_backends"
          end [];
  mret (signed 63 (int_of a)).

Definition lev_version : M (Z * Z) :=
  major ← sys "ev_version_major" [];
  minor ← sys "ev_version_minor" [];
  mret (int_of major, int_of minor).

(** [lev_loop_backend] and [lev_loop_depth]. *)
Inductive loop_query := backend | depth.
Definition lev_loop_get (q : loop_query) (v_loop : Z) : M Z :=
  a ← sys match q with backend => "ev_backend" | depth => "ev_depth" end [v_loop];
  mret (signed 63 (int_of a)).

(** [lev_loop_now_update], [lev_loop_suspend], [lev_loop_ref], [lev_loop_unref],
    [lev_loop_resume] and [lev_loop_destroy]. *)
Inductive loop_action := now_update | suspend | ref | unref | resume | destroy_loop.
Definition lev_loop_do (o : loop_action) (v_loop : Z) : M unit :=
  _ ← sys match o with
          | now_update => "ev_now_update"
          | suspend => "ev_suspend"
          | ref => "ev_ref"
          | unref => "ev_unref"
          | resume => "ev_resume"
          | destroy_loop => "ev_loop_destroy"
          end [v_loop];
  mret tt.

Definition lev_loop_is_default (v_loop : Z) : M bool :=
  a ← sys "ev_is_default_loop" [v_loop];
  mret (negb (int_of a =? 0)).

Definition lev_loop_break (v_loop v_break : Z) : M unit :=
  _ ← sys "ev_break" [v_loop; signed 32 v_break];
  mret tt.

(** Signal numbers of OCaml are translated by the runtime's function. *)
Definition lev_feed_signal (caml_convert_signal_number : Z -> Z) (v_signal : Z) : M unit :=
  let signal := caml_convert_signal_number (signed 32 v_signal) in
  _ ← sys "ev_feed_signal" [signal];
  mret tt.

Definition lev_loop_feed_signal_event (caml_convert_signal_number : Z -> Z) (v_loop v_signal : Z) : M unit :=
  let signal := caml_convert_signal_number (signed 32 v_signal) in
  _ ← sys "ev_feed_signal_event" [v_loop; signal];
  mret tt.

(** ** Where libev is built without child or file watchers *)

Definition lev_child_stop_unavailable : caml unit := Raise (Failure "unimplemented").
Definition lev_child_start_unavailable : caml unit := Raise (Failure "unimplemented").
Definition lev_child_create_unavailable : caml handle := Raise (Failure "unimplemented").
Definition lev_stat_unavailable : caml handle := Raise (Failure "unimplemented on windows").

(** ** A run of a loop *)

(** A wait of the system, a sleep of libev's own, or a call of OCaml code that took place,
    with or without the lock of the runtime. *)
Inductive moment := Waited (with_lock : bool) | Slept (with_lock : bool) | Called (with_lock : bool).

(** The thread that runs the loop: whether it holds the lock, its error numbers, and what
    it has done. *)
Record thread := Thread { locked : bool; errs : errors; trace : list moment }.

Definition set_errs (e : errors) (t : thread) : thread := Thread (locked t) e (trace t).
Definition note (m : bool -> moment) (f : errors -> errors) (t : thread) : thread :=
  Thread (locked t) (f (errs t)) (trace t ++ [m (locked t)]).

(** The functions a loop is given, and its two fields that hold them; both are NULL in a
    new loop. *)
Inductive lock_cb := Release_lock | Acquire_lock.
Record ev_loop := { release_cb : option lock_cb; acquire_cb : option lock_cb }.
Definition new_loop : ev_loop := {| release_cb := None; acquire_cb := None |}.
Definition ev_set_loop_release_cb (release acquire : lock_cb) (_ : ev_loop) : ev_loop :=
  {| release_cb := Some release; acquire_cb := Some acquire |}.

(** What the system answers to [select], [poll], [epoll_wait] or [kevent]. *)
Record poll_answer := { res : Z; sets : errors -> errors }.

(** OCaml code that libev calls; it may raise, which leaves the run at once. *)
Record callback := { ocaml : errors -> errors; raises : bool }.

(** One pass of the loop of [ev_run]: the callbacks of fork and prepare watchers, whether
    they have asked to leave, whether the pass may block, the answer to the wait, what
    libev's own calls after it do to the error numbers, the callbacks of the events that
    were found, whether they have asked to leave, and the number of active watchers. *)
Record pass := {
  forks : list callback;
  prepares : list callback;
  done_before : bool;
  blocks : bool;
  polled : poll_answer;
  bookkeeping : errors -> errors;
  pending : list callback;
  done_after : bool;
  activecnt : Z }.

(** How a call ends: it returns, an exception goes through it, or libev aborts the program. *)
Inductive ending (A : Type) := Returned (a : A) | Raised | Aborted.
Arguments Returned {A} a.
Arguments Raised {A}.
Arguments Aborted {A}.

Inductive ev_backend := Select | Poll | Epoll | Kqueue.

Definition EBADF : Z := 9.
Definition ENOMEM : Z := 12.
Definition EINVAL : Z := 22.
Definition WSABASEERR : Z := 10000.
Definition WSAENOTSOCK : Z := 10038.

(** The error of [select] on Windows as an [errno]. *)
Definition select_errno (e : errors) : errors :=
  let n := wsa_error e in
  {| errno := if (WSABASEERR <=? n) && (n <? WSABASEERR + 1000)
              then if n =? WSAENOTSOCK then EBADF else n - WSABASEERR
              else n;
     wsa_error := wsa_error e |}.

Definition EVRUN_NOWAIT : Z := 1.
Definition EVRUN_ONCE : Z := 2.

Section Running.
(** What the lock functions of the runtime do to the error numbers. *)
Context (windows : bool) (caml_release caml_acquire : errors -> errors).

(** Releasing a lock that is not held is an error, taking it twice never returns. *)
Definition release (t : thread) : exec thread :=
  if locked t then Done (Thread false (release_lock windows caml_release (errs t)) (trace t)) else Fault.
Definition acquire (t : thread) : exec thread :=
  if locked t then Spin else Done (Thread true (acquire_lock windows caml_acquire (errs t)) (trace t)).

Definition call_cb (cb : option lock_cb) (t : thread) : exec thread :=
  match cb with
  | None => Done t
  | Some Release_lock => release t
  | Some Acquire_lock => acquire t
  end.
Definition EV_RELEASE_CB (l : ev_loop) : thread -> exec thread := call_cb (release_cb l).
Definition EV_ACQUIRE_CB (l : ev_loop) : thread -> exec thread := call_cb (acquire_cb l).

(** [ev_syserr]: both libev's own handler and the one of Windows abort. *)
Definition ev_syserr {A} (t : thread) : exec (ending A * thread) := Done (Aborted, t).

(** The waits.  [fd_ebadf], [fd_enomem] and the search for events are part of the
    bookkeeping of the pass. *)
Definition epoll_poll (l : ev_loop) (p : pass) (t : thread) : exec (ending unit * thread) :=
  let! t := EV_RELEASE_CB l t in
  let t := note Waited (sets (polled p)) t in
  let! t := EV_ACQUIRE_CB l t in
  if (res (polled p) <? 0) && negb (errno (errs t) =? EINTR) then ev_syserr t
  else Done (Returned tt, set_errs (bookkeeping p (errs t)) t).

Definition kqueue_poll : ev_loop -> pass -> thread -> exec (ending unit * thread) := epoll_poll.

Definition poll_poll (l : ev_loop) (p : pass) (t : thread) : exec (ending unit * thread) :=
  let! t := EV_RELEASE_CB l t in
  let t := note Waited (sets (polled p)) t in
  let! t := EV_ACQUIRE_CB l t in
  let e := errno (errs t) in
  let syserr_cb := windows in
  if (res (polled p) <? 0) && negb (e =? EBADF) && negb ((e =? ENOMEM) && negb syserr_cb) &&
     negb (e =? EINTR) then ev_syserr t
  else Done (Returned tt, set_errs (bookkeeping p (errs t)) t).

(** On Windows [EINVAL] means that there is nothing to wait for, and libev sleeps. *)
Definition select_poll (l : ev_loop) (p : pass) (t : thread) : exec (ending unit * thread) :=
  let! t := EV_RELEASE_CB l t in
  let t := note Waited (sets (polled p)) t in
  let! t := EV_ACQUIRE_CB l t in
  if res (polled p) <? 0 then
    let t := if windows then set_errs (select_errno (errs t)) t else t in
    let e := errno (errs t) in
    if windows && (e =? EINVAL) then
      Done (Returned tt, if blocks p then note Slept (bookkeeping p) t else t)
    else
      let syserr_cb := windows in
      if negb (e =? EBADF) && negb ((e =? ENOMEM) && negb syserr_cb) && negb (e =? EINTR) then ev_syserr t
      else Done (Returned tt, set_errs (bookkeeping p (errs t)) t)
  else Done (Returned tt, set_errs (bookkeeping p (errs t)) t).

Definition backend_poll (b : ev_backend) : ev_loop -> pass -> thread -> exec (ending unit * thread) :=
  match b with Select => select_poll | Poll => poll_poll | Epoll => epoll_poll | Kqueue => kqueue_poll end.

(** [ev_invoke_pending] *)
Fixpoint EV_INVOKE_PENDING (cbs : list callback) (t : thread) : ending unit * thread :=
  match cbs with
  | [] => (Returned tt, t)
  | cb :: cbs =>
      let t := note Called (ocaml cb) t in
      if raises cb then (Raised, t) else EV_INVOKE_PENDING cbs t
  end.

(** [do ... while (activecnt && !loop_done && !(flags & (EVRUN_ONCE | EVRUN_NOWAIT)))];
    running out of passes is [Spin]. *)
Fixpoint ev_run_loop (b : ev_backend) (l : ev_loop) (flags : Z) (ps : list pass) (t : thread) :
  exec (ending Z * thread) :=
  match ps with
  | [] => Spin
  | p :: ps =>
      match EV_INVOKE_PENDING (forks p ++ prepares p) t with
      | (Raised, t) => Done (Raised, t)
      | (Aborted, t) => Done (Aborted, t)
      | (Returned _, t) =>
          if done_before p then Done (Returned (activecnt p), t) else
          let! r := backend_poll b l p t in
          match r with
          | (Raised, t) => Done (Raised, t)
          | (Aborted, t) => Done (Aborted, t)
          | (Returned _, t) =>
              match EV_INVOKE_PENDING (pending p) t with
              | (Raised, t) => Done (Raised, t)
              | (Aborted, t) => Done (Aborted, t)
              | (Returned _, t) =>
                  if negb (activecnt p =? 0) && negb (done_after p) &&
                     (Z.land flags (Z.lor EVRUN_ONCE EVRUN_NOWAIT) =? 0)
                  then ev_run_loop b l flags ps t
                  else Done (Returned (activecnt p), t)
              end
          end
      end
  end.

(** [first] are the callbacks that were pending before the run. *)
Definition ev_run (b : ev_backend) (l : ev_loop) (flags : Z) (first : list callback) (ps : list pass)
  (t : thread) : exec (ending Z * thread) :=
  match EV_INVOKE_PENDING first t with
  | (Raised, t) => Done (Raised, t)
  | (Aborted, t) => Done (Aborted, t)
  | (Returned _, t) => ev_run_loop b l flags ps t
  end.

Definition lev_ev_run (b : ev_backend) (l : ev_loop) (v_run : Z) (first : list callback) (ps : list pass)
  (t : thread) : exec (ending bool * thread) :=
  let run := signed 32 v_run in
  let l := ev_set_loop_release_cb Release_lock Acquire_lock l in
  let! r := ev_run b l run first ps t in
  Done (match r.1 with
        | Returned n => Returned (negb (n =? 0))
        | Raised => Raised
        | Aborted => Aborted
        end, r.2).

(** [ev_sleep] is what the system's sleep does to the error numbers. *)
Definition lev_sleep (ev_sleep : double -> errors -> errors) (v_ts : Z) (t : thread) : exec thread :=
  if locked t then
    let t := Thread false (caml_release (errs t)) (trace t) in
    let t := note Waited (ev_sleep (lev_span_to_seconds v_ts)) t in
    Done (Thread true (caml_acquire (errs t)) (trace t))
  else Fault.
End Running.

(** ** Errors of libev on Windows *)

(** What is written on the standard error before [abort]; [FormatMessageA] may fail. *)
Definition lev_syserr_cb (strerror : Z -> list Z) (FormatMessageA : Z -> option (list Z))
  (msg : option (list Z)) (e : errors) : list Z :=
  let saved_errno := errno e in
  let saved_wsa_error := wsa_error e in
  let msg := default (bytes_of_string "(libev) system error") msg in
  msg ++ bytes_of_string ": errno=" ++ bytes_of_string (pretty saved_errno) ++
  bytes_of_string " (" ++ strerror saved_errno ++ bytes_of_string ")" ++
  bytes_of_string ", WSAGetLastError=" ++ bytes_of_string (pretty saved_wsa_error) ++
  (if saved_wsa_error =? 0 then []
   else match FormatMessageA saved_wsa_error with
        | None | Some [] => []
        | Some message => bytes_of_string " (" ++ strip_trailing_crlf message ++ bytes_of_string ")"
        end) ++
  [10].

(** The function is given to libev before a loop is made, on Windows only. *)
Definition setup_syserr_cb (windows : bool) : M unit :=
  if windows then _ ← sys "ev_set_syserr_cb" []; mret tt else mret tt.

(** ** Theorems *)

Section RunningLaws.
Context (windows : bool) (caml_release caml_acquire : errors -> errors).

(** Error numbers that agree as far as the platform has them. *)
Definition agree (a b : errors) : Prop :=
  errno a = errno b /\ (windows = true -> wsa_error a = wsa_error b).

#[local] Instance agree_equivalence : Equivalence agree.
Proof.
  split.
  - intros a. split; done.
  - intros a b [H1 H2]. split; [done|]. intros H. symmetry. auto.
  - intros a b c [H1 H2] [H3 H4]. split; [congruence|]. intros H. rewrite H2, H4; done.
Qed.

Lemma lock_agree (runtime : errors -> errors) (e : errors) : agree (release_lock windows runtime e) e.
Proof. split; [done|]. cbn. intros ->. done. Qed.

(** What the system and the callbacks do depends on the error numbers of the platform only. *)
Abbreviation respects f := (Proper (agree ==> agree) f).
Definition callback_ok (cb : callback) : Prop := respects (ocaml cb).
Definition pass_ok (p : pass) : Prop :=
  Forall callback_ok (forks p ++ prepares p) /\ respects (sets (polled p)) /\
  respects (bookkeeping p) /\ Forall callback_ok (pending p).

(** A pass after which the loop is left at the latest. *)
Definition stops (flags : Z) (p : pass) : Prop :=
  done_before p = true \/ done_after p = true \/ activecnt p = 0 \/
  Z.land flags (Z.lor EVRUN_ONCE EVRUN_NOWAIT) <> 0.

(** The lock is given up exactly in the waits of the system.  libev's own sleep on Windows
    keeps it. *)
Definition proper_moment (k : ev_backend) (m : moment) : Prop :=
  match m with
  | Waited with_lock => with_lock = false
  | Called with_lock => with_lock = true
  | Slept with_lock => with_lock = true /\ windows = true /\ k = Select
  end.
Definition unlocked (m : moment) : moment := match m with Waited _ => Waited false | m => m end.

Section Simulation.
Context (k : ev_backend).

(** The thread [t] of a run with lev's functions and the thread [b] of one without. *)
Record same (b t : thread) : Prop := {
  same_lock : locked b = true /\ locked t = true;
  same_errs : agree (errs t) (errs b);
  same_trace : trace t = map unlocked (trace b);
  same_moments : Forall (proper_moment k) (trace t) }.

Abbreviation invoke := (EV_INVOKE_PENDING).
Abbreviation poll := (backend_poll windows caml_release caml_acquire k).
Abbreviation lev_loop := (ev_set_loop_release_cb Release_lock Acquire_lock new_loop).

Lemma note_same m f b t : same b t -> respects f ->
  unlocked (m true) = m true -> proper_moment k (m true) -> same (note m f b) (note m f t).
Proof.
  intros [[L1 L2] HE HT HM] Hf Hu Hp. unfold note. rewrite L1, L2. split; cbn.
  - done.
  - apply Hf, HE.
  - rewrite map_app, HT. cbn. rewrite Hu. done.
  - apply Forall_app. split; [done|]. constructor; [done|constructor].
Qed.

Lemma set_errs_same f b t : same b t -> respects f ->
  same (set_errs (f (errs b)) b) (set_errs (f (errs t)) t).
Proof. intros [HL HE HT HM] Hf. split; cbn; try done. apply Hf, HE. Qed.

Lemma invoke_same cbs b t : Forall callback_ok cbs -> same b t ->
  (invoke cbs t).1 = (invoke cbs b).1 /\ same (invoke cbs b).2 (invoke cbs t).2.
Proof.
  intros Hc. revert b t. induction Hc as [|cb cbs Ho Hc IH]; intros b t Hs; [done|]. cbn [EV_INVOKE_PENDING].
  assert (Hn : same (note Called (ocaml cb) b) (note Called (ocaml cb) t)) by (apply note_same; done).
  destruct (raises cb); [done|]. apply IH, Hn.
Qed.

(** The wait itself, between the two functions. *)
Lemma wait_same f b t : same b t -> respects f ->
  exists t1 t2, EV_RELEASE_CB windows caml_release caml_acquire lev_loop t = Done t1 /\
    EV_ACQUIRE_CB windows caml_release caml_acquire lev_loop (note Waited f t1) = Done t2 /\
    same (note Waited f b) t2.
Proof.
  intros [[L1 L2] HE HT HM] Hf. unfold EV_RELEASE_CB, EV_ACQUIRE_CB. cbn [call_cb release_cb acquire_cb ev_set_loop_release_cb].
  unfold release. rewrite L2. do 2 eexists. split; [done|]. split; [done|]. unfold note. rewrite L1. split; cbn -[agree].
  - done.
  - etransitivity; [apply lock_agree|]. apply Hf. etransitivity; [apply lock_agree|done].
  - rewrite map_app, HT. done.
  - apply Forall_app. split; [done|]. constructor; [done|constructor].
Qed.

Lemma select_errno_agree a b : windows = true -> agree a b -> agree (select_errno a) (select_errno b).
Proof. intros Hw [H1 H2]. specialize (H2 Hw). unfold select_errno. rewrite H2. split; done. Qed.

Lemma poll_same p b t : pass_ok p -> same b t ->
  exists r b' t', poll lev_loop p t = Done (r, t') /\ poll new_loop p b = Done (r, b') /\ same b' t'.
Proof.
  intros (_ & Hs & Hb & _) H. destruct (wait_same (sets (polled p)) b t H Hs) as (t1 & t2 & E1 & E2 & H2).
  set (b2 := note Waited (sets (polled p)) b) in *. pose proof (proj1 (same_errs _ _ H2)) as He.
  pose proof (set_errs_same (bookkeeping p) b2 t2 H2 Hb) as H3.
  destruct k eqn:Ek; cbn [backend_poll]; unfold select_poll, poll_poll, kqueue_poll, epoll_poll, ev_syserr;
    rewrite E1; cbn [exec_bind]; rewrite E2; cbn [exec_bind EV_RELEASE_CB EV_ACQUIRE_CB call_cb release_cb
      acquire_cb new_loop]; fold b2.
  2-4: rewrite He; destruct (_ && _); eauto 10.
  destruct (res (polled p) <? 0); [|eauto 10]. destruct windows eqn:Ew; cbn [andb negb].
  - assert (H4 : same (set_errs (select_errno (errs b2)) b2) (set_errs (select_errno (errs t2)) t2)).
    { destruct H2 as [HL HE HT HM]. split; cbn -[agree]; try done. apply select_errno_agree; done. }
    pose proof (proj1 (same_errs _ _ H4)) as He4. cbn [errs set_errs] in He4 |- *. rewrite He4.
    destruct (_ =? EINVAL).
    + destruct (blocks p); [|eauto 10]. do 3 eexists. split; [done|]. split; [done|].
      apply note_same; [done|done|done|]. rewrite Ek. done.
    + destruct (_ && _); [eauto 10|]. do 3 eexists. split; [done|]. split; [done|].
      apply (set_errs_same (bookkeeping p) _ _ H4 Hb).
  - rewrite He. destruct (_ && _); eauto 10.
Qed.

Lemma run_loop_same flags ps b t : Forall pass_ok ps -> Exists (stops flags) ps -> same b t ->
  exists r b' t', ev_run_loop windows caml_release caml_acquire k lev_loop flags ps t = Done (r, t') /\
    ev_run_loop windows caml_release caml_acquire k new_loop flags ps b = Done (r, b') /\ same b' t'.
Proof.
  intros Hp. revert b t. induction Hp as [|p ps Hp Hps IH]; intros b t Hx H; [inversion Hx|].
  cbn [ev_run_loop]. destruct (invoke_same (forks p ++ prepares p) b t (proj1 Hp) H) as [E1 H1].
  destruct (invoke _ t) as [r1 t1], (invoke _ b) as [r1' b1]. cbn [fst snd] in E1, H1. subst r1'.
  destruct r1; [|eauto 10..]. destruct (done_before p) eqn:Ed; [eauto 10|].
  destruct (poll_same p b1 t1 Hp H1) as (r2 & b2 & t2 & -> & -> & H2). cbn [exec_bind].
  destruct r2; [|eauto 10..].
  destruct (invoke_same (pending p) b2 t2 ltac:(apply Hp) H2) as [E3 H3].
  destruct (invoke _ t2) as [r3 t3], (invoke _ b2) as [r3' b3]. cbn [fst snd] in E3, H3. subst r3'.
  destruct r3; [|eauto 10..]. destruct (_ && _) eqn:Eg; [|eauto 10]. apply IH; [|done].
  rewrite !andb_true_iff, !negb_true_iff, Z.eqb_neq, Z.eqb_eq in Eg. destruct Eg as [[Ha Hd] Hf].
  inversion Hx as [? ? Hst|]; subst; [|done]. unfold stops in Hst. intuition congruence.
Qed.
End Simulation.

Lemma nonzero_bool (n : Z) : negb (n =? 0) = bool_decide (n <> 0).
Proof. destruct (Z.eqb_spec n 0); [rewrite bool_decide_false by lia|rewrite bool_decide_true by lia]; done. Qed.

(** C18.  A run of the loop through the binding does what a run of libev without the two
    functions does: with every backend lev builds, on whatever the system answers and the
    callbacks do, it ends in the same way (returns, lets an exception through or aborts)
    after the same waits and calls, with the error numbers of the platform that these alone
    leave, whatever the runtime's lock functions make of them.  It never releases a lock it
    does not hold nor takes it twice, holds it in the end, and every call of OCaml code
    happens with the lock and every wait of the system without it; libev's own sleep after
    an [EINVAL] of [select] on Windows keeps the lock. *)
Theorem ev_run_lock (k : ev_backend) (l : ev_loop) (v_run : Z) (first : list callback) (ps : list pass)
  (e : errors) :
  Forall callback_ok first -> Forall pass_ok ps -> Exists (stops (signed 32 v_run)) ps ->
  exists r bare t,
    ev_run windows caml_release caml_acquire k new_loop (signed 32 v_run) first ps (Thread true e []) =
      Done (r, bare) /\
    lev_ev_run windows caml_release caml_acquire k l v_run first ps (Thread true e []) =
      Done (match r with
            | Returned n => Returned (bool_decide (n <> 0))
            | Raised => Raised
            | Aborted => Aborted
            end, t) /\
    locked t = true /\ agree (errs t) (errs bare) /\ trace t = map unlocked (trace bare) /\
    Forall (proper_moment k) (trace t).
Proof.
  intros Hf Hp Hx. unfold lev_ev_run, ev_run. cbv zeta.
  change (ev_set_loop_release_cb Release_lock Acquire_lock l)
    with (ev_set_loop_release_cb Release_lock Acquire_lock new_loop).
  assert (H0 : same k (Thread true e []) (Thread true e [])) by (split; done).
  destruct (invoke_same k first _ _ Hf H0) as [_ H1].
  destruct (EV_INVOKE_PENDING first (Thread true e [])) as [r1 t1]. cbn [snd] in H1.
  destruct r1; [|exists Raised, t1, t1; destruct H1 as [[_ ?] ? ? ?]; done
                |exists Aborted, t1, t1; destruct H1 as [[_ ?] ? ? ?]; done].
  destruct (run_loop_same k _ ps t1 t1 Hp Hx H1) as (r & b & t & -> & -> & [[_ HL] HE HT HM]).
  exists r, b, t. split; [done|]. split; [|done]. destruct r; [|done..]. cbn. rewrite nonzero_bool. done.
Qed.
End RunningLaws.

(** On Linux, a runtime that clobbers both numbers, a wait that is interrupted, a callback. *)
Definition clobbered : errors := {| errno := 99; wsa_error := 98 |}.
Definition interrupted : pass := {|
  forks := []; prepares := []; done_before := false; blocks := true;
  polled := {| res := -1; sets := fun _ => {| errno := EINTR; wsa_error := 0 |} |};
  bookkeeping := fun e => e; pending := [{| ocaml := fun e => e; raises := false |}];
  done_after := false; activecnt := 1 |}.

Lemma interrupted_ok : pass_ok false interrupted.
Proof.
  split; [constructor|]. split; [intros a b _; split; [reflexivity|discriminate]|].
  split; [intros a b H; exact H|]. constructor; [intros a b H; exact H|constructor].
Qed.

Lemma ev_run_lock_witness :
  exists t, lev_ev_run false (fun _ => clobbered) (fun _ => clobbered) Epoll new_loop EVRUN_ONCE [] [interrupted]
      (Thread true {| errno := 0; wsa_error := 0 |} []) = Done (Returned true, t) /\
    trace t = [Waited false; Called true].
Proof.
  destruct (ev_run_lock false (fun _ => clobbered) (fun _ => clobbered) Epoll new_loop EVRUN_ONCE [] [interrupted]
    {| errno := 0; wsa_error := 0 |}) as (r & bare & t & E1 & E2 & _ & _ & HT & _).
  - constructor.
  - constructor; [apply interrupted_ok|constructor].
  - constructor. right. right. right. vm_compute. discriminate.
  - vm_compute in E1. injection E1 as <- <-. exists t. split; [exact E2|exact HT].
Defined.

(** libev's own sleep keeps the lock: on Windows, when there is nothing but timers. *)
Definition nothing_to_select : pass := {|
  forks := []; prepares := []; done_before := false; blocks := true;
  polled := {| res := -1; sets := fun _ => {| errno := 0; wsa_error := WSABASEERR + EINVAL |} |};
  bookkeeping := fun e => e; pending := []; done_after := false; activecnt := 1 |}.

Lemma windows_sleep_keeps_lock :
  lev_ev_run true (fun e => e) (fun e => e) Select new_loop EVRUN_ONCE [] [nothing_to_select]
    (Thread true {| errno := 0; wsa_error := 0 |} []) =
  Done (Returned true, Thread true {| errno := EINVAL; wsa_error := WSABASEERR + EINVAL |} [Waited false; Slept true]).
Proof. reflexivity. Qed.

(** *** The message is one line *)

Lemma strip_blank l : Forall (fun c => c = 13 \/ c = 10) l -> strip_trailing_crlf l = [].
Proof. induction 1 as [|c l Hc _ IH]; [done|]. cbn [strip_trailing_crlf]. rewrite IH. by destruct Hc as [-> | ->]. Qed.

(** Only the end of the lines is taken away. *)
Lemma strip_trailing_text text l : Forall (fun c => c <> 13 /\ c <> 10) text ->
  Forall (fun c => c = 13 \/ c = 10) l -> strip_trailing_crlf (text ++ l) = text.
Proof.
  induction 1 as [|c text [H1 H2] _ IH]; intros Hl; [by apply strip_blank|]. cbn [app strip_trailing_crlf].
  rewrite IH by done. destruct text; [|done].
  rewrite (proj2 (Z.eqb_neq _ _) H1), (proj2 (Z.eqb_neq _ _) H2). done.
Qed.
