(* ===== verification/LevConfig.v ===== *)
(** * The configuration of libev

    [src/lev/src/config.h] turns what the C compiler says of the platform into macros
    [HAVE_...]; libev deduces from them, from the groups of features it is built
    with and from further macros of the platform which backends and system calls it uses.
    A group of directives gives the list of the macros it defines. *)

From Stdlib Require Import ZArith Lia.
From stdpp Require Import base numbers list.
From S2P Require Import Prelude.
Local Open Scope Z_scope.

(** The headers and the macros by their names. *)
Inductive header :=
  linux_aio_abi_h | linux_fs_h | poll_h | sys_epoll_h | sys_event_h | sys_eventfd_h | sys_inotify_h
  | sys_select_h | sys_signalfd_h | sys_timerfd_h.
Inductive macro :=
  EV_MULTIPLICITY | HAVE_AIO_ABI_H | HAVE_CLOCK_GETTIME | HAVE_CLOCK_SYSCALL | HAVE_EPOLL
  | HAVE_EPOLL_CTL | HAVE_EVENTFD | HAVE_FLOOR | HAVE_INOTIFY_INIT | HAVE_KERNEL_RWF_T | HAVE_KQUEUE
  | HAVE_LINUX_FS_H | HAVE_NANOSLEEP | HAVE_POLL | HAVE_POLL_H | HAVE_PORT_CREATE | HAVE_PORT_H
  | HAVE_SELECT | HAVE_SIGNALFD | HAVE_SIGNALFD_H | HAVE_SYS_EPOLL_H | HAVE_SYS_EVENT_H
  | HAVE_SYS_INOTIFY_H | HAVE_SYS_SELECT_H | HAVE_SYS_SIGNALFD_H | HAVE_SYS_TIMERFD_H.
#[global] Instance header_eq_dec : EqDecision header.
Proof. solve_decision. Defined.
#[global] Instance macro_eq_dec : EqDecision macro.
Proof. solve_decision. Defined.

(** What the compiler knows: its own macros, the headers it can include, and what the
    headers of the system define. *)
Record platform := {
  MSC_VER : bool; WIN32 : bool; APPLE : bool; unix : bool; linux : bool; alpha : bool;
  ANDROID : bool; AIX : bool; FreeBSD : bool; DragonFly : bool; OPTIMIZE_SIZE : bool;
  has_include : header -> bool;
  CLOCK_MONOTONIC : bool; SYS_clock_gettime : bool; SYS_io_getevents : bool;
  SYS_io_uring_register : bool; SYS_io_uring_setup : bool; LINUX_VERSION_CODE : Z;
  IN_DONT_FOLLOW : bool; TFD_TIMER_CANCEL_ON_SET : bool; TFD_CLOEXEC : bool; TFD_NONBLOCK : bool }.

Definition defined (name : macro) (macros : list macro) : bool := existsb (fun m => bool_decide (m = name)) macros.
Definition when (b : bool) (macros : list macro) : list macro := if b then macros else [].

(** The branch for other compilers than Visual C, up to the header of kqueue. *)
Definition config_headers (p : platform) : list macro :=
  when (has_include p sys_inotify_h) [HAVE_SYS_INOTIFY_H] ++
  when (WIN32 p) [HAVE_SYS_SELECT_H; HAVE_SELECT] ++
  when (has_include p sys_select_h) [HAVE_SYS_SELECT_H; HAVE_SELECT] ++
  when (has_include p poll_h) [HAVE_POLL_H; HAVE_POLL] ++
  when (has_include p sys_epoll_h) [HAVE_SYS_EPOLL_H; HAVE_EPOLL; HAVE_EPOLL_CTL] ++
  when (has_include p sys_timerfd_h) [HAVE_SYS_TIMERFD_H] ++
  when (has_include p sys_signalfd_h) [HAVE_SYS_SIGNALFD_H; HAVE_SIGNALFD_H] ++
  when (has_include p sys_eventfd_h) [HAVE_SYS_SIGNALFD_H; HAVE_SIGNALFD_H] ++
  when (has_include p sys_inotify_h) [HAVE_INOTIFY_INIT] ++
  when (has_include p linux_fs_h) [HAVE_LINUX_FS_H] ++
  when (has_include p linux_aio_abi_h) [HAVE_AIO_ABI_H] ++
  when (has_include p sys_event_h) [HAVE_SYS_EVENT_H].

(** The rest of that branch, which tests a macro defined before. *)
Definition config_systems (p : platform) (macros : list macro) : list macro :=
  when (defined HAVE_SYS_EVENT_H macros && (APPLE p || unix p)) [HAVE_KQUEUE] ++
  when (linux p || unix p || APPLE p) [HAVE_NANOSLEEP].

Definition config (p : platform) : list macro :=
  [EV_MULTIPLICITY] ++
  (if MSC_VER p then [HAVE_SYS_SELECT_H; HAVE_SELECT]
   else let macros := config_headers p in macros ++ config_systems p macros) ++
  [HAVE_FLOOR].

(** ** What libev makes of the macros *)

Inductive feature :=
| Use_floor | Use_clock_syscall | Use_monotonic | Use_nanosleep | Use_select | Use_poll | Use_epoll
| Use_linuxaio | Use_iouring | Use_kqueue | Use_port | Use_inotify | Use_signalfd | Use_eventfd | Use_timerfd.

(** The macros each feature needs, in the block of [ev.c] that deduces the configuration,
    when the build sets no [EV_USE_...] itself; [None] for the one that is always off. *)
Definition needs (f : feature) : option (list macro) :=
  match f with
  | Use_floor => Some [HAVE_FLOOR]
  | Use_clock_syscall => Some [HAVE_CLOCK_SYSCALL]
  | Use_monotonic => Some [HAVE_CLOCK_GETTIME]
  | Use_nanosleep => Some [HAVE_NANOSLEEP]
  | Use_select => Some [HAVE_SELECT; HAVE_SYS_SELECT_H]
  | Use_poll => Some [HAVE_POLL; HAVE_POLL_H]
  | Use_epoll => Some [HAVE_EPOLL_CTL; HAVE_SYS_EPOLL_H]
  | Use_linuxaio => None
  | Use_iouring => Some [HAVE_LINUX_FS_H; HAVE_SYS_TIMERFD_H; HAVE_KERNEL_RWF_T]
  | Use_kqueue => Some [HAVE_KQUEUE; HAVE_SYS_EVENT_H]
  | Use_port => Some [HAVE_PORT_H; HAVE_PORT_CREATE]
  | Use_inotify => Some [HAVE_INOTIFY_INIT; HAVE_SYS_INOTIFY_H]
  | Use_signalfd => Some [HAVE_SIGNALFD; HAVE_SYS_SIGNALFD_H]
  | Use_eventfd => Some [HAVE_EVENTFD]
  | Use_timerfd => Some [HAVE_SYS_TIMERFD_H]
  end.

(** The groups of features of [ev.h]: [EV_FEATURE_WATCHERS], [BACKENDS] and [OS]. *)
Definition EV_FEATURES (p : platform) : Z := if OPTIMIZE_SIZE p then 0x7c else 0x7f.
Definition EV_FEATURE_WATCHERS (p : platform) : bool := negb (Z.land (EV_FEATURES p) 16 =? 0).
Definition EV_FEATURE_BACKENDS (p : platform) : bool := negb (Z.land (EV_FEATURES p) 32 =? 0).
Definition EV_FEATURE_OS (p : platform) : bool := negb (Z.land (EV_FEATURES p) 64 =? 0).
Definition EV_STAT_ENABLE : platform -> bool := EV_FEATURE_WATCHERS.
Definition EV_PERIODIC_ENABLE : platform -> bool := EV_FEATURE_WATCHERS.

(** The value a feature gets when its macros are there. *)
Definition group (p : platform) (f : feature) : bool :=
  match f with
  | Use_floor | Use_clock_syscall | Use_monotonic | Use_linuxaio => true
  | Use_select | Use_poll | Use_epoll | Use_iouring | Use_kqueue | Use_port => EV_FEATURE_BACKENDS p
  | Use_nanosleep | Use_inotify | Use_signalfd | Use_eventfd | Use_timerfd => EV_FEATURE_OS p
  end.

(** The first block; the monotonic clock is also used with the system call.  It decides
    every feature, so the defaults that follow it in [ev.c] do not apply. *)
Definition deduced (p : platform) (f : feature) (macros : list macro) : bool :=
  match needs f with
  | None => false
  | Some l => forallb (fun name => defined name macros) l && group p f
  end ||
  match f with Use_monotonic => defined HAVE_CLOCK_SYSCALL macros | _ => false end.

Definition KERNEL_VERSION_4_14 : Z := Z.lor (Z.shiftl 4 16) (Z.shiftl 14 8).

(** The blocks after it, which turn features off, or on, for some systems. *)
Definition use (p : platform) (f : feature) (macros : list macro) : bool :=
  let clock_syscall := deduced p Use_clock_syscall macros && negb (ANDROID p) && SYS_clock_gettime p in
  let epoll := deduced p Use_epoll macros in
  match f with
  | Use_select => deduced p f macros && negb (ANDROID p)
  | Use_poll => deduced p f macros && negb (AIX p)
  | Use_clock_syscall => clock_syscall
  | Use_monotonic => (deduced p f macros || clock_syscall) && CLOCK_MONOTONIC p
  | Use_inotify =>
      deduced p f macros && EV_STAT_ENABLE p && negb (FreeBSD p || DragonFly p) && IN_DONT_FOLLOW p
  | Use_iouring =>
      deduced p f macros && negb (linux p && (LINUX_VERSION_CODE p <? KERNEL_VERSION_4_14)) &&
      (SYS_io_uring_setup p || (negb (SYS_io_uring_register p) && linux p && negb (alpha p))) && epoll
  | Use_linuxaio => deduced p f macros && SYS_io_getevents p && epoll
  | Use_kqueue => deduced p f macros || FreeBSD p || DragonFly p
  | Use_timerfd =>
      deduced p f macros && TFD_TIMER_CANCEL_ON_SET p && TFD_CLOEXEC p && TFD_NONBLOCK p &&
      EV_PERIODIC_ENABLE p
  | _ => deduced p f macros
  end.

(** [ev_supported_backends], with the bits of the backends. *)
Definition ev_supported_backends (ev_linux_version : Z) (p : platform) (macros : list macro) : Z :=
  let add (b : bool) flag flags := if b then Z.lor flags flag else flags in
  let flags := add (use p Use_port macros) 0x20 0 in
  let flags := add (use p Use_kqueue macros) 0x08 flags in
  let flags := add (use p Use_epoll macros) 0x04 flags in
  let flags := add (use p Use_linuxaio macros) 0x40 flags in
  let flags := add (use p Use_iouring macros && (0x050601 <=? ev_linux_version)) 0x80 flags in
  let flags := add (use p Use_poll macros) 0x02 flags in
  add (use p Use_select macros) 0x01 flags.

(** [DEF_BACKEND_SET(supported, ev_supported_backends)] *)
Definition lev_backend_supported (ev_linux_version : Z) (p : platform) : Z :=
  ev_supported_backends ev_linux_version p (config p).

(** ** Which features are on *)

Lemma defined_app name l1 l2 : defined name (l1 ++ l2) = defined name l1 || defined name l2.
Proof. apply existsb_app. Qed.
Lemma defined_when name b l : defined name (when b l) = b && defined name l.
Proof. by destruct b. Qed.

(** The feature each header, or system, is there for, and the systems libev does not use
    it on. *)
Definition available (p : platform) (f : feature) : bool :=
  match f with
  | Use_floor => true
  | Use_select => (MSC_VER p || WIN32 p || has_include p sys_select_h) && negb (ANDROID p)
  | Use_poll => negb (MSC_VER p) && has_include p poll_h && negb (AIX p)
  | Use_epoll => negb (MSC_VER p) && has_include p sys_epoll_h
  | Use_kqueue =>
      (negb (MSC_VER p) && has_include p sys_event_h && (APPLE p || unix p)) || FreeBSD p || DragonFly p
  | Use_inotify =>
      negb (MSC_VER p) && has_include p sys_inotify_h && IN_DONT_FOLLOW p && negb (FreeBSD p || DragonFly p)
  | Use_timerfd =>
      negb (MSC_VER p) && has_include p sys_timerfd_h &&
      TFD_TIMER_CANCEL_ON_SET p && TFD_CLOEXEC p && TFD_NONBLOCK p
  | Use_nanosleep => negb (MSC_VER p) && (linux p || unix p || APPLE p)
  | _ => false
  end.

Ltac macro_tests :=
  unfold config, config_headers, config_systems; repeat rewrite ?defined_app, ?defined_when;
  cbn.

(** What the first block decides on the macros of [config.h]. *)
Definition found (p : platform) (f : feature) : bool :=
  match f with
  | Use_floor => true
  | Use_select => MSC_VER p || WIN32 p || has_include p sys_select_h
  | Use_poll => negb (MSC_VER p) && has_include p poll_h
  | Use_epoll => negb (MSC_VER p) && has_include p sys_epoll_h
  | Use_kqueue => negb (MSC_VER p) && has_include p sys_event_h && (APPLE p || unix p)
  | Use_inotify => negb (MSC_VER p) && has_include p sys_inotify_h
  | Use_timerfd => negb (MSC_VER p) && has_include p sys_timerfd_h
  | Use_nanosleep => negb (MSC_VER p) && (linux p || unix p || APPLE p)
  | _ => false
  end.

Lemma groups_on p f : group p f = true.
Proof.
  destruct f; try done; unfold group, EV_FEATURE_BACKENDS, EV_FEATURE_OS, EV_FEATURES;
    destruct (OPTIMIZE_SIZE p); reflexivity.
Qed.

Lemma config_found p f : deduced p f (config p) = found p f.
Proof.
  unfold deduced. rewrite groups_on.
  destruct f; cbn [needs forallb found]; unfold config; destruct (MSC_VER p); try reflexivity.
  all: macro_tests; rewrite ?andb_false_r, ?andb_true_r, ?orb_false_r, ?orb_true_r; try done.
  all: cbn [orb andb negb]; rewrite ?andb_diag; try done.
  destruct (has_include p sys_event_h), (APPLE p), (unix p); reflexivity.
Qed.

Lemma config_available p f : use p f (config p) = available p f.
Proof.
  assert (Hw : EV_STAT_ENABLE p = true /\ EV_PERIODIC_ENABLE p = true).
  { unfold EV_STAT_ENABLE, EV_PERIODIC_ENABLE, EV_FEATURE_WATCHERS, EV_FEATURES.
    destruct (OPTIMIZE_SIZE p); done. }
  destruct Hw as [Hs Ht]. unfold use. rewrite !config_found, Hs, Ht.
  destruct f; cbn [found available andb orb]; rewrite ?andb_true_r; try done.
  rewrite <- !andb_assoc. do 2 f_equal. apply andb_comm.
Qed.

Definition flag (b : bool) (n : Z) : Z := if b then n else 0.

(** C40.  libev is built with exactly these of its facilities: select where there is a header
    for it or on Windows, but not on Android; poll with its header, but not on AIX; epoll with
    its header; kqueue with its header on macOS and Unix, and always on FreeBSD and DragonFly;
    inotify with its header and [IN_DONT_FOLLOW], but not on these two; timerfd with its header
    and its three flags; nanosleep on Linux, Unix and macOS.  With Visual C no header is looked
    for.
    Whatever the platform, the kernel and the C library, it is built without the monotonic
    clock, signalfd, eventfd, Linux AIO, io_uring and event ports.  The set of backends that
    OCaml gets is that of the four that may be there. *)
Theorem config_features (p : platform) (ev_linux_version : Z) :
  (forall f, use p f (config p) = available p f) /\
  lev_backend_supported ev_linux_version p =
    flag (available p Use_select) 1 + flag (available p Use_poll) 2 +
    flag (available p Use_epoll) 4 + flag (available p Use_kqueue) 8.
Proof.
  split; [intros f; apply config_available|]. unfold lev_backend_supported, ev_supported_backends.
  rewrite !config_available. unfold flag. destruct (available p Use_select), (available p Use_poll),
    (available p Use_epoll), (available p Use_kqueue); reflexivity.
Qed.

(** A Linux system with the headers of its C library and its kernel. *)
Definition sample_linux : platform :=
  {| MSC_VER := false; WIN32 := false; APPLE := false; unix := true; linux := true; alpha := false;
     ANDROID := false; AIX := false; FreeBSD := false; DragonFly := false; OPTIMIZE_SIZE := false;
     has_include := fun h => negb (bool_decide (h = sys_event_h));
     CLOCK_MONOTONIC := true; SYS_clock_gettime := true; SYS_io_getevents := true;
     SYS_io_uring_register := true; SYS_io_uring_setup := true; LINUX_VERSION_CODE := 0x060000;
     IN_DONT_FOLLOW := true; TFD_TIMER_CANCEL_ON_SET := true; TFD_CLOEXEC := true; TFD_NONBLOCK := true |}.

(** There eventfd and signalfd stay unused although their headers are found: the test for
    [sys/eventfd.h] defines the macros of signalfd, and [HAVE_SIGNALFD], which libev tests,
    is defined nowhere. *)
Lemma eventfd_unused :
  has_include sample_linux sys_eventfd_h = true /\ has_include sample_linux sys_signalfd_h = true /\
  use sample_linux Use_eventfd (config sample_linux) = false /\ use sample_linux Use_signalfd (config sample_linux) = false /\
  lev_backend_supported 0x060000 sample_linux = 7.
Proof. vm_compute. repeat split. Qed.
