(* ===== verification/Blake3Impl.v ===== *)
(** * Constants and word helpers of BLAKE3

    [blake3.h] and [blake3_impl.h] of src/src/ocaml-blake3-mini: the sizes, the
    domain flags, the tables, and the inline helpers shared by the portable, the
    NEON and the tree code.  A byte is a [Z] of 8 bits, a [uint32_t] a [Z] of 32
    bits, a C array a list of them. *)

From S2P Require Import Prelude.
From Stdlib Require Import ZArith Lia.
From stdpp Require Import base numbers list.
Local Open Scope Z_scope.

(** ** Sizes ([blake3.h]) *)

Definition BLAKE3_KEY_LEN : Z := 32.
Definition BLAKE3_OUT_LEN : Z := 32.
Definition BLAKE3_BLOCK_LEN : Z := 64.
Definition BLAKE3_CHUNK_LEN : Z := 1024.
Definition BLAKE3_MAX_DEPTH : Z := 54.

(** ** Domain flags ([enum blake3_flags]) *)

Definition CHUNK_START : Z := Z.shiftl 1 0.
Definition CHUNK_END : Z := Z.shiftl 1 1.
Definition PARENT : Z := Z.shiftl 1 2.
Definition ROOT : Z := Z.shiftl 1 3.
Definition KEYED_HASH : Z := Z.shiftl 1 4.
Definition DERIVE_KEY_CONTEXT : Z := Z.shiftl 1 5.
Definition DERIVE_KEY_MATERIAL : Z := Z.shiftl 1 6.

(** [MAX_SIMD_DEGREE_OR_2]. *)
Definition MAX_SIMD_DEGREE_OR_2 (max_simd_degree : Z) : Z :=
  if 2 <? max_simd_degree then max_simd_degree else 2.

(** ** Tables *)

Definition IV : list Z :=
  [0x6A09E667; 0xBB67AE85; 0x3C6EF372; 0xA54FF53A;
   0x510E527F; 0x9B05688C; 0x1F83D9AB; 0x5BE0CD19].

Definition MSG_SCHEDULE : list (list nat) :=
  [[0; 1; 2; 3; 4; 5; 6; 7; 8; 9; 10; 11; 12; 13; 14; 15];
   [2; 6; 3; 10; 7; 0; 4; 13; 1; 11; 12; 5; 9; 14; 15; 8];
   [3; 4; 10; 12; 13; 2; 7; 14; 6; 5; 9; 0; 11; 15; 8; 1];
   [10; 7; 12; 9; 14; 3; 13; 15; 4; 0; 11; 2; 5; 8; 1; 6];
   [12; 13; 9; 11; 15; 10; 14; 8; 7; 2; 5; 3; 0; 1; 6; 4];
   [9; 14; 11; 5; 8; 12; 15; 1; 13; 3; 0; 10; 2; 6; 4; 7];
   [11; 15; 5; 0; 1; 9; 8; 6; 14; 10; 2; 12; 3; 4; 7; 13]]%nat.

(** ** Bit counting *)

(** One rung of the ladder: [if (x & mask) { x >>= n; c += n; }]. *)
Definition ladder_step (mask n : Z) (xc : Z * Z) : Z * Z :=
  let '(x, c) := xc in
  if Z.land x mask =? 0 then (x, c) else (Z.shiftr x n, c + n).

(** The last [#else] branch of [highest_one]: compilers without a builtin. *)
Definition highest_one (x : Z) : Z :=
  let xc := ladder_step 0xffffffff00000000 32 (x, 0) in
  let xc := ladder_step 0x00000000ffff0000 16 xc in
  let xc := ladder_step 0x000000000000ff00 8 xc in
  let xc := ladder_step 0x00000000000000f0 4 xc in
  let xc := ladder_step 0x000000000000000c 2 xc in
  let '(x, c) := xc in
  if Z.land x 0x0000000000000002 =? 0 then c else c + 1.

(** The GNU C branch: [63 ^ __builtin_clzll(x)]; the builtin counts the zero
    bits above the highest set bit of a 64-bit word. *)
Definition builtin_clzll (x : Z) : Z := 63 - Z.log2 x.
Definition highest_one_gnu (x : Z) : Z := Z.lxor 63 (builtin_clzll x).

(** The MSVC branches, for 64-bit and for 32-bit x86; the intrinsic gives the index of
    the highest set bit. *)
Definition BitScanReverse (x : Z) : Z := Z.log2 x.
Definition highest_one_msvc64 (x : Z) : Z := BitScanReverse x.
Definition highest_one_msvc32 (x : Z) : Z :=
  if negb (Z.shiftr x 32 =? 0) then 32 + BitScanReverse (u32 (Z.shiftr x 32))
  else BitScanReverse (u32 x).

(** The [#else] branch of [popcnt]: [while (x != 0) { count += 1; x &= x - 1; }].
    Each pass clears one of the 64 bits. *)
Fixpoint popcnt_loop (fuel : nat) (x count : Z) : Z :=
  match fuel with
  | O => count
  | S n => if x =? 0 then count else popcnt_loop n (Z.land x (u64 (x - 1))) (count + 1)
  end.
Definition popcnt (x : Z) : Z := popcnt_loop 64 x 0.

Definition round_down_to_power_of_2 (x : Z) : Z :=
  u64 (Z.shiftl 1 (highest_one (Z.lor x 1))).

Definition counter_low (counter : Z) : Z := u32 counter.
Definition counter_high (counter : Z) : Z := u32 (Z.shiftr counter 32).

(** ** Little-endian loads and stores *)

(** [p] points to [uint8_t]: what is read from it is a byte. *)
Definition load32 (p : list Z) : Z :=
  Z.lor (Z.lor (Z.lor (Z.shiftl (u8 p.[0]) 0) (Z.shiftl (u8 p.[1]) 8))
               (Z.shiftl (u8 p.[2]) 16)) (Z.shiftl (u8 p.[3]) 24).

Definition load_key_words (key : list Z) : list Z :=
  [load32 (zdrop (0 * 4) key); load32 (zdrop (1 * 4) key);
   load32 (zdrop (2 * 4) key); load32 (zdrop (3 * 4) key);
   load32 (zdrop (4 * 4) key); load32 (zdrop (5 * 4) key);
   load32 (zdrop (6 * 4) key); load32 (zdrop (7 * 4) key)].

Definition load_block_words (block : list Z) : list Z :=
  map (fun i => load32 (zdrop (Z.of_nat i * 4) block)) (seq 0 16).

Definition store32 (w : Z) : list Z :=
  [u8 (Z.shiftr w 0); u8 (Z.shiftr w 8); u8 (Z.shiftr w 16); u8 (Z.shiftr w 24)].

Definition store_cv_words (cv_words : list Z) : list Z :=
  store32 cv_words.[0] ++ store32 cv_words.[1] ++ store32 cv_words.[2] ++
  store32 cv_words.[3] ++ store32 cv_words.[4] ++ store32 cv_words.[5] ++
  store32 cv_words.[6] ++ store32 cv_words.[7].

(** ** Bit counting, specified *)

(** The number of one bits. *)
Fixpoint pos_bit_count (p : positive) : Z :=
  match p with
  | xH => 1
  | xO p => pos_bit_count p
  | xI p => 1 + pos_bit_count p
  end.
Definition bit_count (x : Z) : Z :=
  match x with Zpos p => pos_bit_count p | _ => 0 end.

Lemma ladder_step_spec mask n x c : 0 < n -> mask = Z.shiftl (Z.ones n) n ->
  0 < x < 2 ^ (n + n) ->
  let '(x', c') := ladder_step mask n (x, c) in
  0 < x' < 2 ^ n /\ c' + Z.log2 x' = c + Z.log2 x.
Proof.
  intros Hn -> Hx. unfold ladder_step.
  rewrite (land_high_mask n n x) by (unfold in_width; lia).
  rewrite Z.shiftr_div_pow2 by lia.
  assert (0 < 2 ^ n) by (apply Z.pow_pos_nonneg; lia).
  rewrite Z.pow_add_r in Hx by lia.
  destruct (Z.eqb_spec (x / 2 ^ n * 2 ^ n) 0) as [H0|H0].
  - assert (x / 2 ^ n = 0) by nia. apply Z.div_small_iff in H1; lia.
  - assert (x / 2 ^ n <> 0) by nia.
    assert (0 <= x / 2 ^ n) by (apply Z.div_pos; lia).
    assert (x / 2 ^ n < 2 ^ n) by (apply Z.div_lt_upper_bound; lia).
    split; [lia|]. rewrite <- Z.shiftr_div_pow2, Z.log2_shiftr by lia.
    assert (n <= Z.log2 x); [|lia].
    apply Z.log2_le_pow2; [lia|].
    pose proof (Z.mul_div_le x (2 ^ n)). nia.
Qed.

Lemma highest_one_log2 x : 0 < x < 2 ^ 64 -> highest_one x = Z.log2 x.
Proof.
  intros Hx. unfold highest_one.
  pose proof (ladder_step_spec 0xffffffff00000000 32 x 0 ltac:(lia) eq_refl Hx) as H1.
  destruct (ladder_step _ 32 _) as [x1 c1]. destruct H1 as [Hx1 Hc1].
  pose proof (ladder_step_spec 0x00000000ffff0000 16 x1 c1 ltac:(lia) eq_refl Hx1) as H2.
  destruct (ladder_step _ 16 _) as [x2 c2]. destruct H2 as [Hx2 Hc2].
  pose proof (ladder_step_spec 0x000000000000ff00 8 x2 c2 ltac:(lia) eq_refl Hx2) as H3.
  destruct (ladder_step _ 8 _) as [x3 c3]. destruct H3 as [Hx3 Hc3].
  pose proof (ladder_step_spec 0x00000000000000f0 4 x3 c3 ltac:(lia) eq_refl Hx3) as H4.
  destruct (ladder_step _ 4 _) as [x4 c4]. destruct H4 as [Hx4 Hc4].
  pose proof (ladder_step_spec 0x000000000000000c 2 x4 c4 ltac:(lia) eq_refl Hx4) as H5.
  destruct (ladder_step _ 2 _) as [x5 c5]. destruct H5 as [Hx5 Hc5].
  change (2 ^ 2) with 4 in Hx5.
  assert (x5 = 1 \/ x5 = 2 \/ x5 = 3) as [->|[->| ->]] by lia; simpl in *; lia.
Qed.

Lemma highest_one_gnu_log2 x : 0 < x < 2 ^ 64 -> highest_one_gnu x = Z.log2 x.
Proof.
  intros Hx. unfold highest_one_gnu, builtin_clzll.
  assert (0 <= Z.log2 x < 64)
    by (split; [apply Z.log2_nonneg | apply Z.log2_lt_pow2; lia]).
  assert (Z.log2 x < 2 ^ 6) by lia.
  change 63 with (Z.ones 6).
  assert (Hl : forall y, 0 <= y < 64 -> Z.lxor (Z.ones 6) (Z.ones 6 - y) = y).
  { intros y Hy. replace (Z.ones 6 - y) with (Z.ldiff (Z.ones 6) y).
    - apply Z.bits_inj'. intros i Hi. rewrite Z.lxor_spec, Z.ldiff_spec.
      destruct (Z.lt_ge_cases i 6).
      + rewrite Z.ones_spec_low by lia. destruct (Z.testbit y i); done.
      + rewrite Z.ones_spec_high by lia.
        rewrite (in_width_testbit 6 y) by (unfold in_width; lia). done.
    - symmetry. apply Z.sub_nocarry_ldiff. apply Z.bits_inj'. intros i Hi.
      rewrite Z.ldiff_spec, Z.bits_0. destruct (Z.lt_ge_cases i 6).
      + rewrite Z.ones_spec_low by lia. apply andb_false_r.
      + rewrite (in_width_testbit 6 y) by (unfold in_width; lia). done. }
  apply Hl. lia.
Qed.

Lemma highest_one_msvc32_log2 x : 0 < x < 2 ^ 64 -> highest_one_msvc32 x = Z.log2 x.
Proof.
  intros Hx. unfold highest_one_msvc32, BitScanReverse. rewrite Z.shiftr_div_pow2 by lia.
  destruct (Z.eqb_spec (x / 2 ^ 32) 0) as [H0|H0]; cbn [negb].
  - rewrite wrap_small; [done|]. apply Z.div_small_iff in H0; lia.
  - assert (0 <= x / 2 ^ 32) by (apply Z.div_pos; lia).
    rewrite wrap_small by (split; [lia|]; apply Z.div_lt_upper_bound; lia).
    rewrite <- Z.shiftr_div_pow2, Z.log2_shiftr by lia.
    assert (32 <= Z.log2 x); [|lia]. apply Z.log2_le_pow2; [lia|].
    pose proof (Z.mul_div_le x (2 ^ 32) ltac:(lia)). nia.
Qed.

Lemma bit_count_double x : 0 <= x -> bit_count (2 * x) = bit_count x.
Proof. destruct x; simpl; try done. Qed.

Lemma bit_count_succ_double x : 0 <= x -> bit_count (2 * x + 1) = bit_count x + 1.
Proof.
  destruct x as [|p|p]; [done| |lia]. intros _.
  change (2 * Z.pos p + 1) with (Z.pos p~1). simpl. lia.
Qed.

Lemma bit_count_pos x : 0 < x -> 1 <= bit_count x.
Proof.
  destruct x as [|p|]; try lia. intros _. simpl.
  induction p; simpl; lia.
Qed.

Lemma bit_count_le n x : 0 <= n -> 0 <= x < 2 ^ n -> bit_count x <= n.
Proof.
  intros Hn. revert x. apply (natlike_ind (fun n => forall x, 0 <= x < 2 ^ n -> bit_count x <= n));
    [| |done].
  - intros x Hx. assert (x = 0) as -> by lia. done.
  - clear n Hn. intros n Hn IH x Hx. rewrite Z.pow_succ_r in Hx by done.
    pose proof (Z.div_mod x 2 ltac:(lia)). pose proof (Z.mod_pos_bound x 2 ltac:(lia)).
    assert (bit_count (x / 2) <= n) by (apply IH; lia).
    assert (x mod 2 = 0 \/ x mod 2 = 1) as [Hm|Hm] by lia.
    + replace x with (2 * (x / 2)) by lia. rewrite bit_count_double; lia.
    + replace x with (2 * (x / 2) + 1) by lia. rewrite bit_count_succ_double; lia.
Qed.

Lemma land_pred_odd y : 0 <= y -> Z.land (2 * y + 1) (2 * y) = 2 * y.
Proof.
  intros. apply Z.bits_inj'. intros i Hi. rewrite Z.land_spec.
  destruct (Z.eq_dec i 0) as [->|].
  - rewrite Z.testbit_odd_0, Z.testbit_even_0. done.
  - replace i with (Z.succ (i - 1)) by lia.
    rewrite Z.testbit_odd_succ, Z.testbit_even_succ by lia. apply andb_diag.
Qed.

Lemma land_pred_even y : 0 < y -> Z.land (2 * y) (2 * y - 1) = 2 * Z.land y (y - 1).
Proof.
  intros. replace (2 * y - 1) with (2 * (y - 1) + 1) by lia.
  apply Z.bits_inj'. intros i Hi. rewrite Z.land_spec.
  destruct (Z.eq_dec i 0) as [->|].
  - rewrite !Z.testbit_even_0. done.
  - replace i with (Z.succ (i - 1)) by lia.
    rewrite Z.testbit_odd_succ, !Z.testbit_even_succ by lia.
    rewrite Z.land_spec. done.
Qed.

(** [x & (x - 1)] clears the lowest one bit. *)
Lemma bit_count_clear_lowest x : 0 < x ->
  0 <= Z.land x (x - 1) < x /\ bit_count (Z.land x (x - 1)) = bit_count x - 1.
Proof.
  destruct x as [|p|]; try lia. intros _. induction p as [p _|p IH|].
  - replace (Z.pos p~1 - 1) with (2 * Z.pos p) by lia.
    change (Z.pos p~1) with (2 * Z.pos p + 1). rewrite land_pred_odd by lia.
    rewrite bit_count_succ_double, bit_count_double by lia. lia.
  - change (Z.pos p~0) with (2 * Z.pos p). rewrite land_pred_even by lia.
    rewrite !bit_count_double by lia. lia.
  - done.
Qed.

Lemma popcnt_loop_count fuel x count : 0 <= x < 2 ^ 64 -> bit_count x <= Z.of_nat fuel ->
  popcnt_loop fuel x count = count + bit_count x.
Proof.
  revert x count. induction fuel as [|fuel IH]; intros x count Hx Hf; simpl.
  - destruct (Z.eq_dec x 0) as [->|]; [simpl; lia|].
    pose proof (bit_count_pos x). lia.
  - destruct (Z.eqb_spec x 0) as [->|]; [simpl; lia|].
    destruct (bit_count_clear_lowest x) as [Hl Hc]; [lia|].
    unwrap. rewrite IH; lia.
Qed.

Lemma popcnt_bit_count x : 0 <= x < 2 ^ 64 -> popcnt x = bit_count x.
Proof.
  intros. unfold popcnt. rewrite popcnt_loop_count; [lia|done|].
  apply bit_count_le; lia.
Qed.

Lemma round_down_pow2 x : 0 < x < 2 ^ 64 -> round_down_to_power_of_2 x = 2 ^ Z.log2 x.
Proof.
  intros Hx. unfold round_down_to_power_of_2.
  assert (Hl : Z.log2 (Z.lor x 1) = Z.log2 x).
  { rewrite Z.log2_lor by lia. change (Z.log2 1) with 0.
    pose proof (Z.log2_nonneg x). lia. }
  assert (Hw : in_width 64 (Z.lor x 1)) by (apply in_width_lor; unfold in_width; lia).
  assert (0 < Z.lor x 1).
  { destruct Hw. destruct (Z.eq_dec (Z.lor x 1) 0) as [Hz|]; [|lia].
    apply Z.lor_eq_0_iff in Hz. lia. }
  rewrite highest_one_log2, Hl by (unfold in_width in Hw; lia).
  rewrite Z.shiftl_mul_pow2, Z.mul_1_l by apply Z.log2_nonneg.
  apply wrap_small. split; [apply Z.pow_nonneg; lia|].
  apply Z.pow_lt_mono_r; [lia|lia|]. apply Z.log2_lt_pow2; lia.
Qed.

(** ** Loads and stores *)

Lemma zlen_store32 w : zlen (store32 w) = 4.
Proof. done. Qed.

Lemma zlen_store_cv_words cv : zlen (store_cv_words cv) = 32.
Proof. done. Qed.
#[export] Hint Rewrite zlen_store32 zlen_store_cv_words : len.
