(* ===== verification/Blake3Portable.v ===== *)
(** * The portable compression function

    [blake3_portable.c]: the quarter round, the round function, the compression
    function in its two output forms, and the hashing of whole inputs one after
    another.  A [uint32_t *state] argument that the C code updates in place is
    returned as the new state. *)

From S2P Require Import Prelude Blake3Impl.
From Stdlib Require Import ZArith Lia.
From stdpp Require Import base numbers list.
Local Open Scope Z_scope.

Definition rotr32 (w c : Z) : Z := u32 (Z.lor (Z.shiftr w c) (Z.shiftl w (32 - c))).

Definition g (state : list Z) (a b c d : nat) (x y : Z) : list Z :=
  let state := <[a := u32 (u32 (state.[a] + state.[b]) + x)]> state in
  let state := <[d := rotr32 (Z.lxor state.[d] state.[a]) 16]> state in
  let state := <[c := u32 (state.[c] + state.[d])]> state in
  let state := <[b := rotr32 (Z.lxor state.[b] state.[c]) 12]> state in
  let state := <[a := u32 (u32 (state.[a] + state.[b]) + y)]> state in
  let state := <[d := rotr32 (Z.lxor state.[d] state.[a]) 8]> state in
  let state := <[c := u32 (state.[c] + state.[d])]> state in
  <[b := rotr32 (Z.lxor state.[b] state.[c]) 7]> state.

Definition round_fn (state msg : list Z) (round : nat) : list Z :=
  let schedule := nth round MSG_SCHEDULE [] in
  let m i := msg.[nth i schedule 0%nat] in
  (* Mix the columns. *)
  let state := g state 0 4 8 12 (m 0%nat) (m 1%nat) in
  let state := g state 1 5 9 13 (m 2%nat) (m 3%nat) in
  let state := g state 2 6 10 14 (m 4%nat) (m 5%nat) in
  let state := g state 3 7 11 15 (m 6%nat) (m 7%nat) in
  (* Mix the rows. *)
  let state := g state 0 5 10 15 (m 8%nat) (m 9%nat) in
  let state := g state 1 6 11 12 (m 10%nat) (m 11%nat) in
  let state := g state 2 7 8 13 (m 12%nat) (m 13%nat) in
  g state 3 4 9 14 (m 14%nat) (m 15%nat).

Definition compress_pre (cv block : list Z) (block_len counter flags : Z) : list Z :=
  let block_words := map (fun i => load32 (zdrop (4 * Z.of_nat i) block)) (seq 0 16) in
  let state :=
    [cv.[0]; cv.[1]; cv.[2]; cv.[3]; cv.[4]; cv.[5]; cv.[6]; cv.[7];
     IV.[0]; IV.[1]; IV.[2]; IV.[3];
     counter_low counter; counter_high counter; block_len; flags] in
  let state := round_fn state block_words 0 in
  let state := round_fn state block_words 1 in
  let state := round_fn state block_words 2 in
  let state := round_fn state block_words 3 in
  let state := round_fn state block_words 4 in
  let state := round_fn state block_words 5 in
  round_fn state block_words 6.

Definition blake3_compress_in_place_portable (cv block : list Z)
  (block_len counter flags : Z) : list Z :=
  let state := compress_pre cv block block_len counter flags in
  [Z.lxor state.[0] state.[8]; Z.lxor state.[1] state.[9];
   Z.lxor state.[2] state.[10]; Z.lxor state.[3] state.[11];
   Z.lxor state.[4] state.[12]; Z.lxor state.[5] state.[13];
   Z.lxor state.[6] state.[14]; Z.lxor state.[7] state.[15]].

Definition blake3_compress_xof_portable (cv block : list Z)
  (block_len counter flags : Z) : list Z :=
  let state := compress_pre cv block block_len counter flags in
  store32 (Z.lxor state.[0] state.[8]) ++ store32 (Z.lxor state.[1] state.[9]) ++
  store32 (Z.lxor state.[2] state.[10]) ++ store32 (Z.lxor state.[3] state.[11]) ++
  store32 (Z.lxor state.[4] state.[12]) ++ store32 (Z.lxor state.[5] state.[13]) ++
  store32 (Z.lxor state.[6] state.[14]) ++ store32 (Z.lxor state.[7] state.[15]) ++
  store32 (Z.lxor state.[8] cv.[0]) ++ store32 (Z.lxor state.[9] cv.[1]) ++
  store32 (Z.lxor state.[10] cv.[2]) ++ store32 (Z.lxor state.[11] cv.[3]) ++
  store32 (Z.lxor state.[12] cv.[4]) ++ store32 (Z.lxor state.[13] cv.[5]) ++
  store32 (Z.lxor state.[14] cv.[6]) ++ store32 (Z.lxor state.[15] cv.[7]).

(** The [while (blocks > 0)] loop of [hash_one_portable]; [blocks] counts down. *)
Fixpoint hash_one_loop (blocks : nat) (input cv : list Z)
  (counter flags flags_end block_flags : Z) : list Z :=
  match blocks with
  | O => cv
  | S rest =>
      let block_flags := if (blocks =? 1)%nat then Z.lor block_flags flags_end
                         else block_flags in
      let cv := blake3_compress_in_place_portable cv (ztake BLAKE3_BLOCK_LEN input)
                  BLAKE3_BLOCK_LEN counter block_flags in
      hash_one_loop rest (zdrop BLAKE3_BLOCK_LEN input) cv counter flags flags_end flags
  end.

(** Writes [BLAKE3_OUT_LEN] bytes at [out]; the definition returns them. *)
Definition hash_one_portable (input : list Z) (blocks : nat) (key : list Z)
  (counter flags flags_start flags_end : Z) : list Z :=
  store_cv_words (hash_one_loop blocks input key counter flags flags_end
                    (Z.lor flags flags_start)).

(** Writes [BLAKE3_OUT_LEN] bytes per input, in order. *)
Fixpoint blake3_hash_many_portable (inputs : list (list Z)) (blocks : nat)
  (key : list Z) (counter : Z) (increment_counter : bool)
  (flags flags_start flags_end : Z) : list Z :=
  match inputs with
  | [] => []
  | input :: inputs =>
      hash_one_portable input blocks key counter flags flags_start flags_end ++
      blake3_hash_many_portable inputs blocks key
        (if increment_counter then u64 (counter + 1) else counter)
        increment_counter flags flags_start flags_end
  end.
