(* ===== verification/Blake3Backend.v ===== *)
(** * The interface between the tree code and the compression kernels

    [blake3.c] calls five entry points of [blake3_dispatch.c]:
    [blake3_compress_in_place], [blake3_compress_xof], [blake3_xof_many],
    [blake3_hash_many] and [blake3_simd_degree].  [Backend] is that interface and
    [BackendLaws] what the tree code relies on: the "many" entry points agree
    with the one-block ones, and the SIMD degree is a power of two that fits the
    arrays [blake3.c] sizes with [MAX_SIMD_DEGREE].  Nothing is assumed of the
    compression function itself. *)

From Stdlib Require Import ZArith Lia.
From stdpp Require Import base numbers list.
From S2P Require Import Prelude Blake3Impl.
Local Open Scope Z_scope.

Class Backend := {
  MAX_SIMD_DEGREE : Z;
  blake3_simd_degree : Z;
  blake3_compress_in_place : list Z -> list Z -> Z -> Z -> Z -> list Z;
  blake3_compress_xof : list Z -> list Z -> Z -> Z -> Z -> list Z;
  blake3_xof_many : list Z -> list Z -> Z -> Z -> Z -> nat -> list Z;
  blake3_hash_many :
    list (list Z) -> nat -> list Z -> Z -> bool -> Z -> Z -> Z -> list Z;
}.

(** The chaining value after the first [k] blocks of [m]: block [0] carries
    [start], block [last] carries [end_], every block carries [flags]. *)
Fixpoint blocks_cv (compress : list Z -> list Z -> Z -> Z -> Z -> list Z)
  (key : list Z) (counter flags start : Z) (m : list Z) (k : nat) : list Z :=
  match k with
  | O => key
  | S k' =>
      compress (blocks_cv compress key counter flags start m k')
        (ztake BLAKE3_BLOCK_LEN (zdrop (BLAKE3_BLOCK_LEN * Z.of_nat k') m))
        BLAKE3_BLOCK_LEN counter
        (Z.lor flags (if (k' =? 0)%nat then start else 0))
  end.

(** What [hash_many] computes for one input of [blocks] whole blocks: the last
    block also carries [end_]. *)
Definition hash_one_ref (compress : list Z -> list Z -> Z -> Z -> Z -> list Z)
  (input : list Z) (blocks : nat) (key : list Z)
  (counter flags start end_ : Z) : list Z :=
  match blocks with
  | O => store_cv_words key
  | S k =>
      store_cv_words
        (compress (blocks_cv compress key counter flags start input k)
           (ztake BLAKE3_BLOCK_LEN (zdrop (BLAKE3_BLOCK_LEN * Z.of_nat k) input))
           BLAKE3_BLOCK_LEN counter
           (Z.lor (Z.lor flags (if (k =? 0)%nat then start else 0)) end_))
  end.

Fixpoint hash_many_ref (compress : list Z -> list Z -> Z -> Z -> Z -> list Z)
  (inputs : list (list Z)) (blocks : nat) (key : list Z) (counter : Z)
  (increment_counter : bool) (flags start end_ : Z) : list Z :=
  match inputs with
  | [] => []
  | input :: inputs =>
      hash_one_ref compress input blocks key counter flags start end_ ++
      hash_many_ref compress inputs blocks key
        (if increment_counter then u64 (counter + 1) else counter)
        increment_counter flags start end_
  end.

(** The blocks [counter .. counter + n - 1] of an extended output. *)
Fixpoint xof_many_ref (xof : Z -> list Z) (counter : Z) (n : nat) : list Z :=
  match n with
  | O => []
  | S n => xof (u64 counter) ++ xof_many_ref xof (counter + 1) n
  end.

Class BackendLaws (B : Backend) : Prop := {
  max_simd_pow2 : exists k, 0 <= k <= 4 /\ MAX_SIMD_DEGREE = 2 ^ k;
  simd_degree_pow2 : exists k, 0 <= k /\ blake3_simd_degree = 2 ^ k;
  simd_degree_max : blake3_simd_degree <= MAX_SIMD_DEGREE;
  compress_xof_len : forall cv block block_len counter flags,
    zlen (blake3_compress_xof cv block block_len counter flags) = 64;
  xof_many_spec : forall cv block block_len counter flags n,
    0 <= counter < 2 ^ 64 ->
    blake3_xof_many cv block block_len counter flags n =
    xof_many_ref (fun c => blake3_compress_xof cv block block_len c flags) counter n;
  hash_many_spec : forall inputs blocks key counter inc flags start end_,
    Forall (fun i => BLAKE3_BLOCK_LEN * Z.of_nat blocks <= zlen i) inputs ->
    in_width 64 counter -> Forall (in_width 32) key ->
    in_width 8 flags -> in_width 8 start -> in_width 8 end_ ->
    blake3_hash_many inputs blocks key counter inc flags start end_ =
    hash_many_ref blake3_compress_in_place inputs blocks key counter inc
      flags start end_;
}.

(** ** The references depend on the compression function only through its values *)

Lemma xof_many_ref_ext f g counter n : (forall c, f c = g c) ->
  xof_many_ref f counter n = xof_many_ref g counter n.
Proof.
  intros H. revert counter. induction n as [|n IH]; intros counter; [done|].
  simpl. rewrite H, IH. done.
Qed.

Section Ext.
Context (f g : list Z -> list Z -> Z -> Z -> Z -> list Z).
Context (H : forall cv block block_len counter flags,
  f cv block block_len counter flags = g cv block block_len counter flags).

Lemma blocks_cv_ext key counter flags start m k :
  blocks_cv f key counter flags start m k = blocks_cv g key counter flags start m k.
Proof. induction k as [|k IH]; [done|]. simpl. rewrite IH, H. done. Qed.

Lemma hash_many_ref_ext inputs blocks key counter inc flags start end_ :
  hash_many_ref f inputs blocks key counter inc flags start end_ =
  hash_many_ref g inputs blocks key counter inc flags start end_.
Proof.
  revert counter. induction inputs as [|i inputs IH]; intros counter; [done|].
  cbn [hash_many_ref]. rewrite IH. f_equal. destruct blocks as [|k]; [done|].
  unfold hash_one_ref. rewrite blocks_cv_ext, H. done.
Qed.
End Ext.
