(* ===== verification/Blake3Hasher.v ===== *)
(** * The incremental hasher of [blake3.c]

    Every function of [blake3.c], over a [Backend].  A struct passed by pointer is
    returned as its new value; an [input] pointer with its length is the list of
    the bytes it points to; an output buffer is an array that is read and written
    through [load_range] and [store_range], which fault outside its bounds. *)

From Stdlib Require Import ZArith Lia.
From stdpp Require Import base numbers list.
From S2P Require Import Prelude Blake3Impl Blake3Backend.
Local Open Scope Z_scope.

Record blake3_chunk_state := {
  cs_cv : list Z;
  chunk_counter : Z;
  cs_buf : list Z;
  buf_len : Z;
  blocks_compressed : Z;
  cs_flags : Z;
}.

Record blake3_hasher := {
  h_key : list Z;
  h_chunk : blake3_chunk_state;
  cv_stack_len : Z;
  cv_stack : list Z;
}.

Record output_t := {
  input_cv : list Z;
  o_counter : Z;
  o_block : list Z;
  o_block_len : Z;
  o_flags : Z;
}.

(** Field updates: [self->chunk_counter = c], [self->chunk = c]. *)
Definition set_chunk_counter (self : blake3_chunk_state) (c : Z) : blake3_chunk_state :=
  {| cs_cv := cs_cv self; chunk_counter := c; cs_buf := cs_buf self;
     buf_len := buf_len self; blocks_compressed := blocks_compressed self;
     cs_flags := cs_flags self |}.

Definition set_chunk (self : blake3_hasher) (c : blake3_chunk_state) : blake3_hasher :=
  {| h_key := h_key self; h_chunk := c; cv_stack_len := cv_stack_len self;
     cv_stack := cv_stack self |}.

(** [arr[n] = p; n += 1;] on an array of [cap] pointers, [n] its filled part. *)
Definition push_ptr {A} (cap : Z) (arr : list A) (p : A) : exec (list A) :=
  if zlen arr <? cap then Done (arr ++ [p]) else Fault.

Definition chunk_state_init (key : list Z) (flags : Z) : blake3_chunk_state :=
  {| cs_cv := key; chunk_counter := 0; cs_buf := zeros BLAKE3_BLOCK_LEN;
     buf_len := 0; blocks_compressed := 0; cs_flags := flags |}.

Definition chunk_state_reset (self : blake3_chunk_state) (key : list Z)
  (counter : Z) : blake3_chunk_state :=
  {| cs_cv := key; chunk_counter := counter; cs_buf := zeros BLAKE3_BLOCK_LEN;
     buf_len := 0; blocks_compressed := 0; cs_flags := cs_flags self |}.

Definition chunk_state_len (self : blake3_chunk_state) : Z :=
  BLAKE3_BLOCK_LEN * blocks_compressed self + buf_len self.

Definition chunk_state_fill_buf (self : blake3_chunk_state) (input : list Z) :
  exec (blake3_chunk_state * Z) :=
  let take := u64 (BLAKE3_BLOCK_LEN - buf_len self) in
  let take := if take >? zlen input then zlen input else take in
  let! buf := store_range (cs_buf self) (buf_len self) (ztake take input) in
  Done ({| cs_cv := cs_cv self; chunk_counter := chunk_counter self; cs_buf := buf;
           buf_len := u8 (buf_len self + u8 take);
           blocks_compressed := blocks_compressed self; cs_flags := cs_flags self |},
        take).

Definition chunk_state_maybe_start_flag (self : blake3_chunk_state) : Z :=
  if blocks_compressed self =? 0 then CHUNK_START else 0.

Definition make_output (cv block : list Z) (block_len counter flags : Z) : output_t :=
  {| input_cv := cv; o_block := block; o_block_len := block_len;
     o_counter := counter; o_flags := flags |}.

Definition chunk_state_output (self : blake3_chunk_state) : output_t :=
  let block_flags :=
    Z.lor (Z.lor (cs_flags self) (chunk_state_maybe_start_flag self)) CHUNK_END in
  make_output (cs_cv self) (cs_buf self) (buf_len self) (chunk_counter self)
    block_flags.

Definition parent_output (block key : list Z) (flags : Z) : output_t :=
  make_output key block BLAKE3_BLOCK_LEN 0 (Z.lor flags PARENT).

Definition left_subtree_len (input_len : Z) : Z :=
  let full_chunks := u64 (input_len - 1) / BLAKE3_CHUNK_LEN in
  u64 (round_down_to_power_of_2 full_chunks * BLAKE3_CHUNK_LEN).

Section Hasher.
Context {B : Backend}.

(** The bytes an uninitialised local array of [n] bytes happens to hold. *)
Context (junk : Z -> list Z).

(** Writes the 32 bytes it returns. *)
Definition output_chaining_value (self : output_t) : list Z :=
  store_cv_words (blake3_compress_in_place (input_cv self) (o_block self)
                    (o_block_len self) (o_counter self) (o_flags self)).

(** Writes the bytes it returns at [out]. *)
Definition output_root_bytes (self : output_t) (seek out_len : Z) : list Z :=
  if out_len =? 0 then [] else
  let output_block_counter := seek / 64 in
  let offset_within_block := seek mod 64 in
  let xof c := blake3_compress_xof (input_cv self) (o_block self) (o_block_len self)
                 c (Z.lor (o_flags self) ROOT) in
  let '(head, out_len, output_block_counter) :=
    if negb (offset_within_block =? 0) then
      let wide_buf := xof output_block_counter in
      let available_bytes := 64 - offset_within_block in
      let bytes := if out_len >? available_bytes then available_bytes else out_len in
      (ztake bytes (zdrop offset_within_block wide_buf), out_len - bytes,
       u64 (output_block_counter + 1))
    else ([], out_len, output_block_counter) in
  let body :=
    if negb (out_len / 64 =? 0) then
      blake3_xof_many (input_cv self) (o_block self) (o_block_len self)
        output_block_counter (Z.lor (o_flags self) ROOT) (Z.to_nat (out_len / 64))
    else [] in
  let output_block_counter := u64 (output_block_counter + out_len / 64) in
  let out_len := out_len - Z.land out_len (2 ^ 64 - 64) in
  let tail := if negb (out_len =? 0) then ztake out_len (xof output_block_counter)
              else [] in
  head ++ body ++ tail.

(** [blake3_compress_in_place] on the chunk's own chaining value, then
    [self->blocks_compressed += 1]. *)
Definition chunk_state_compress (self : blake3_chunk_state) (block : list Z) :
  blake3_chunk_state :=
  {| cs_cv := blake3_compress_in_place (cs_cv self) block BLAKE3_BLOCK_LEN
                (chunk_counter self)
                (Z.lor (cs_flags self) (chunk_state_maybe_start_flag self));
     chunk_counter := chunk_counter self; cs_buf := cs_buf self;
     buf_len := buf_len self; blocks_compressed := u8 (blocks_compressed self + 1);
     cs_flags := cs_flags self |}.

(** [self->buf_len = 0; memset(self->buf, 0, BLAKE3_BLOCK_LEN);] *)
Definition chunk_state_clear_buf (self : blake3_chunk_state) : blake3_chunk_state :=
  {| cs_cv := cs_cv self; chunk_counter := chunk_counter self;
     cs_buf := zeros BLAKE3_BLOCK_LEN; buf_len := 0;
     blocks_compressed := blocks_compressed self; cs_flags := cs_flags self |}.

Definition chunk_state_update (self : blake3_chunk_state) (input : list Z) :
  exec blake3_chunk_state :=
  let! (self, input) :=
    if 0 <? buf_len self then
      let! (self, take) := chunk_state_fill_buf self input in
      let input := zdrop take input in
      if 0 <? zlen input then
        Done (chunk_state_clear_buf (chunk_state_compress self (cs_buf self)), input)
      else Done (self, input)
    else Done (self, input) in
  let! (self, input) :=
    while (length input) (fun '(_, input) => BLAKE3_BLOCK_LEN <? zlen input)
      (fun '(self, input) =>
         Done (chunk_state_compress self (ztake BLAKE3_BLOCK_LEN input),
               zdrop BLAKE3_BLOCK_LEN input)) (self, input) in
  let! (self, _) := chunk_state_fill_buf self input in
  Done self.

(** [blake3_hash_many(..., out)]: it reads [blocks] blocks from each input and
    writes one chaining value per input at the start of [out]. *)
Definition hash_many_into (inputs : list (list Z)) (blocks : nat) (key : list Z)
  (counter : Z) (increment_counter : bool) (flags flags_start flags_end : Z)
  (out : list Z) : exec (list Z) :=
  let! _ := c_assert (forallb (fun i => BLAKE3_BLOCK_LEN * Z.of_nat blocks <=? zlen i)
                        inputs) in
  store_range out 0 (blake3_hash_many inputs blocks key counter increment_counter
                       flags flags_start flags_end).

Definition compress_chunks_parallel (input key : list Z) (counter flags : Z)
  (out : list Z) : exec (Z * list Z) :=
  let input_len := zlen input in
  let! (input_position, chunks_array) :=
    while (length input)
      (fun '(pos, _) => BLAKE3_CHUNK_LEN <=? u64 (input_len - pos))
      (fun '(pos, arr) =>
         let! arr := push_ptr MAX_SIMD_DEGREE arr (zdrop pos input) in
         Done (pos + BLAKE3_CHUNK_LEN, arr)) (0, []) in
  let chunks_array_len := zlen chunks_array in
  let! out := hash_many_into chunks_array
                (Z.to_nat (BLAKE3_CHUNK_LEN / BLAKE3_BLOCK_LEN)) key counter true
                flags CHUNK_START CHUNK_END out in
  if input_len >? input_position then
    let counter := u64 (counter + chunks_array_len) in
    let chunk_state := set_chunk_counter (chunk_state_init key flags) counter in
    let! chunk_state := chunk_state_update chunk_state (zdrop input_position input) in
    let output := chunk_state_output chunk_state in
    let! out := store_range out (chunks_array_len * BLAKE3_OUT_LEN)
                  (output_chaining_value output) in
    Done (chunks_array_len + 1, out)
  else Done (chunks_array_len, out).

Definition compress_parents_parallel (child_chaining_values : list Z)
  (num_chaining_values : Z) (key : list Z) (flags : Z) (out : list Z) :
  exec (Z * list Z) :=
  let! parents_array :=
    while (Z.to_nat num_chaining_values)
      (fun arr => 2 <=? u64 (num_chaining_values - 2 * zlen arr))
      (fun arr => push_ptr (MAX_SIMD_DEGREE_OR_2 MAX_SIMD_DEGREE) arr
                    (zdrop (2 * zlen arr * BLAKE3_OUT_LEN) child_chaining_values)) [] in
  let parents_array_len := zlen parents_array in
  let! out := hash_many_into parents_array 1 key 0 false (Z.lor flags PARENT) 0 0 out in
  if num_chaining_values >? 2 * parents_array_len then
    let! odd := load_range child_chaining_values (2 * parents_array_len * BLAKE3_OUT_LEN)
                  BLAKE3_OUT_LEN in
    let! out := store_range out (parents_array_len * BLAKE3_OUT_LEN) odd in
    Done (parents_array_len + 1, out)
  else Done (parents_array_len, out).

(** The recursion halves the number of chunks: [fuel] levels are enough for
    [2 ^ fuel] chunks. *)
Fixpoint compress_subtree_wide (fuel : nat) (input key : list Z)
  (counter flags : Z) (out : list Z) : exec (Z * list Z) :=
  let input_len := zlen input in
  if input_len <=? blake3_simd_degree * BLAKE3_CHUNK_LEN then
    compress_chunks_parallel input key counter flags out
  else
    match fuel with
    | O => Spin
    | S fuel =>
        let left_input_len := left_subtree_len input_len in
        let left_input := ztake left_input_len input in
        let right_input := zdrop left_input_len input in
        let right_chunk_counter :=
          u64 (counter + left_input_len / BLAKE3_CHUNK_LEN) in
        let cv_array :=
          junk (2 * MAX_SIMD_DEGREE_OR_2 MAX_SIMD_DEGREE * BLAKE3_OUT_LEN) in
        let degree := blake3_simd_degree in
        let degree := if (BLAKE3_CHUNK_LEN <? left_input_len) && (degree =? 1)
                      then 2 else degree in
        (* right_cvs = &cv_array[degree * BLAKE3_OUT_LEN] *)
        let! (left_n, cv_array) :=
          compress_subtree_wide fuel left_input key counter flags cv_array in
        let! (right_n, right_cvs) :=
          compress_subtree_wide fuel right_input key right_chunk_counter flags
            (zdrop (degree * BLAKE3_OUT_LEN) cv_array) in
        let cv_array := ztake (degree * BLAKE3_OUT_LEN) cv_array ++ right_cvs in
        if left_n =? 1 then
          let! both := load_range cv_array 0 (2 * BLAKE3_OUT_LEN) in
          let! out := store_range out 0 both in
          Done (2, out)
        else
          compress_parents_parallel cv_array (left_n + right_n) key flags out
    end.

(** At most [2 ^ 54] chunks fit in a [uint64_t] byte count. *)
Definition subtree_fuel : nat := 64.

(** Writes the [2 * BLAKE3_OUT_LEN] bytes it returns. *)
Definition compress_subtree_to_parent_node (input key : list Z)
  (counter flags : Z) : exec (list Z) :=
  let max_or_2 := MAX_SIMD_DEGREE_OR_2 MAX_SIMD_DEGREE in
  let cv_array := junk (max_or_2 * BLAKE3_OUT_LEN) in
  let! (num_cvs, cv_array) :=
    compress_subtree_wide subtree_fuel input key counter flags cv_array in
  let! _ := c_assert (num_cvs <=? max_or_2) in
  let! (num_cvs, cv_array) :=
    if 2 <? max_or_2 then
      let out_array := junk (max_or_2 * BLAKE3_OUT_LEN / 2) in
      let! (num_cvs, cv_array, _) :=
        while (Z.to_nat num_cvs) (fun '(num_cvs, _, _) => 2 <? num_cvs)
          (fun '(num_cvs, cv_array, out_array) =>
             let! (num_cvs, out_array) :=
               compress_parents_parallel cv_array num_cvs key flags out_array in
             let! cvs := load_range out_array 0 (num_cvs * BLAKE3_OUT_LEN) in
             let! cv_array := store_range cv_array 0 cvs in
             Done (num_cvs, cv_array, out_array)) (num_cvs, cv_array, out_array) in
      Done (num_cvs, cv_array)
    else Done (num_cvs, cv_array) in
  load_range cv_array 0 (2 * BLAKE3_OUT_LEN).

(** [self->cv_stack] is not cleared: it keeps what the struct held. *)
Definition hasher_init_base (key : list Z) (flags : Z) (stack : list Z) :
  blake3_hasher :=
  {| h_key := key; h_chunk := chunk_state_init key flags; cv_stack_len := 0;
     cv_stack := stack |}.

Definition CV_STACK_SIZE : Z := (BLAKE3_MAX_DEPTH + 1) * BLAKE3_OUT_LEN.

Definition blake3_hasher_init : blake3_hasher :=
  hasher_init_base IV 0 (junk CV_STACK_SIZE).

Definition blake3_hasher_init_keyed (key : list Z) : blake3_hasher :=
  hasher_init_base (load_key_words key) KEYED_HASH (junk CV_STACK_SIZE).

(** One pass of its loop: the two top entries become their parent. *)
Definition hasher_merge_step (self : blake3_hasher) : exec blake3_hasher :=
  let off := (cv_stack_len self - 2) * BLAKE3_OUT_LEN in
  let! parent_node := load_range (cv_stack self) off BLAKE3_BLOCK_LEN in
  let output := parent_output parent_node (h_key self) (cs_flags (h_chunk self)) in
  let! stack := store_range (cv_stack self) off (output_chaining_value output) in
  Done {| h_key := h_key self; h_chunk := h_chunk self;
          cv_stack_len := u8 (cv_stack_len self - 1); cv_stack := stack |}.

Definition hasher_merge_cv_stack (self : blake3_hasher) (total_len : Z) :
  exec blake3_hasher :=
  let post_merge_stack_len := popcnt total_len in
  while (Z.to_nat (cv_stack_len self))
    (fun self => post_merge_stack_len <? cv_stack_len self) hasher_merge_step self.

Definition hasher_push_cv (self : blake3_hasher) (new_cv : list Z) (counter : Z) :
  exec blake3_hasher :=
  let! self := hasher_merge_cv_stack self counter in
  let! stack := store_range (cv_stack self) (cv_stack_len self * BLAKE3_OUT_LEN)
                  (ztake BLAKE3_OUT_LEN new_cv) in
  Done {| h_key := h_key self; h_chunk := h_chunk self;
          cv_stack_len := u8 (cv_stack_len self + 1); cv_stack := stack |}.

(** [while (((subtree_len - 1) & count_so_far) != 0) subtree_len /= 2;] *)
Definition shrink_subtree_len (subtree_len count_so_far : Z) : exec Z :=
  while 64 (fun subtree_len =>
              negb (Z.land (u64 (subtree_len - 1)) count_so_far =? 0))
    (fun subtree_len => Done (subtree_len / 2)) subtree_len.

(** One pass of the [while (input_len > BLAKE3_CHUNK_LEN)] loop. *)
Definition hasher_update_subtree (self : blake3_hasher) (input : list Z) :
  exec (blake3_hasher * list Z) :=
  let subtree_len := round_down_to_power_of_2 (zlen input) in
  let count_so_far := u64 (chunk_counter (h_chunk self) * BLAKE3_CHUNK_LEN) in
  let! subtree_len := shrink_subtree_len subtree_len count_so_far in
  let subtree_chunks := subtree_len / BLAKE3_CHUNK_LEN in
  let! self :=
    if subtree_len <=? BLAKE3_CHUNK_LEN then
      let chunk_state := chunk_state_init (h_key self) (cs_flags (h_chunk self)) in
      let chunk_state :=
        set_chunk_counter chunk_state (chunk_counter (h_chunk self)) in
      let! chunk_state := chunk_state_update chunk_state (ztake subtree_len input) in
      let output := chunk_state_output chunk_state in
      hasher_push_cv self (output_chaining_value output) (chunk_counter chunk_state)
    else
      let! cv_pair :=
        compress_subtree_to_parent_node (ztake subtree_len input) (h_key self)
          (chunk_counter (h_chunk self)) (cs_flags (h_chunk self)) in
      let! self := hasher_push_cv self cv_pair (chunk_counter (h_chunk self)) in
      hasher_push_cv self (zdrop BLAKE3_OUT_LEN cv_pair)
        (u64 (chunk_counter (h_chunk self) + subtree_chunks / 2)) in
  let self := set_chunk self
    (set_chunk_counter (h_chunk self)
       (u64 (chunk_counter (h_chunk self) + subtree_chunks))) in
  Done (self, zdrop subtree_len input).

Definition blake3_hasher_update_base (self : blake3_hasher) (input : list Z) :
  exec blake3_hasher :=
  if zlen input =? 0 then Done self else
  (* Finish a partial chunk first; [None] is the early return. *)
  let! (self, rest) :=
    if 0 <? chunk_state_len (h_chunk self) then
      let take := u64 (BLAKE3_CHUNK_LEN - chunk_state_len (h_chunk self)) in
      let take := if take >? zlen input then zlen input else take in
      let! chunk := chunk_state_update (h_chunk self) (ztake take input) in
      let self := set_chunk self chunk in
      let input := zdrop take input in
      if 0 <? zlen input then
        let output := chunk_state_output (h_chunk self) in
        let! self := hasher_push_cv self (output_chaining_value output)
                       (chunk_counter (h_chunk self)) in
        let self := set_chunk self
          (chunk_state_reset (h_chunk self) (h_key self)
             (u64 (chunk_counter (h_chunk self) + 1))) in
        Done (self, Some input)
      else Done (self, None)
    else Done (self, Some input) in
  match rest with
  | None => Done self
  | Some input =>
      let! (self, input) :=
        while (length input) (fun '(_, input) => BLAKE3_CHUNK_LEN <? zlen input)
          (fun '(self, input) => hasher_update_subtree self input) (self, input) in
      if 0 <? zlen input then
        let! chunk := chunk_state_update (h_chunk self) input in
        let self := set_chunk self chunk in
        hasher_merge_cv_stack self (chunk_counter (h_chunk self))
      else Done self
  end.

Definition blake3_hasher_update (self : blake3_hasher) (input : list Z) :
  exec blake3_hasher :=
  blake3_hasher_update_base self input.

(** Writes the bytes it returns at [out]. *)
Definition blake3_hasher_finalize_seek (self : blake3_hasher) (seek out_len : Z) :
  exec (list Z) :=
  if out_len =? 0 then Done [] else
  if cv_stack_len self =? 0 then
    Done (output_root_bytes (chunk_state_output (h_chunk self)) seek out_len)
  else
    let! (cvs_remaining, output) :=
      if 0 <? chunk_state_len (h_chunk self) then
        Done (cv_stack_len self, chunk_state_output (h_chunk self))
      else
        let cvs_remaining := u64 (cv_stack_len self - 2) in
        let! block := load_range (cv_stack self) (cvs_remaining * 32) BLAKE3_BLOCK_LEN in
        Done (cvs_remaining,
              parent_output block (h_key self) (cs_flags (h_chunk self))) in
    let! (_, output) :=
      while (Z.to_nat cvs_remaining) (fun '(cvs_remaining, _) => 0 <? cvs_remaining)
        (fun '(cvs_remaining, output) =>
           let cvs_remaining := cvs_remaining - 1 in
           let! left_cv := load_range (cv_stack self) (cvs_remaining * 32) 32 in
           let parent_block := left_cv ++ output_chaining_value output in
           Done (cvs_remaining,
                 parent_output parent_block (h_key self) (cs_flags (h_chunk self))))
        (cvs_remaining, output) in
    Done (output_root_bytes output seek out_len).

Definition blake3_hasher_finalize (self : blake3_hasher) (out_len : Z) :
  exec (list Z) :=
  blake3_hasher_finalize_seek self 0 out_len.

Definition blake3_hasher_init_derive_key_raw (context : list Z) :
  exec blake3_hasher :=
  let context_hasher := hasher_init_base IV DERIVE_KEY_CONTEXT (junk CV_STACK_SIZE) in
  let! context_hasher := blake3_hasher_update context_hasher context in
  let! context_key := blake3_hasher_finalize context_hasher BLAKE3_KEY_LEN in
  let context_key_words := load_key_words context_key in
  Done (hasher_init_base context_key_words DERIVE_KEY_MATERIAL (junk CV_STACK_SIZE)).

Definition blake3_hasher_init_derive_key (context : list Z) : exec blake3_hasher :=
  blake3_hasher_init_derive_key_raw (c_string context).

Definition blake3_hasher_reset (self : blake3_hasher) : blake3_hasher :=
  {| h_key := h_key self; h_chunk := chunk_state_reset (h_chunk self) (h_key self) 0;
     cv_stack_len := 0; cv_stack := cv_stack self |}.
End Hasher.
