(* ===== verification/Blake3Spec.v ===== *)
(** * What BLAKE3 computes

    The abstract specification the incremental hasher is verified against: the
    hash of a whole message as a tree, independent of how the message is split
    over calls, of the SIMD degree and of the stack of chaining values.  A message
    longer than one chunk is a parent over the largest power of two of chunks that
    leaves at least one byte to the right; a chunk is a chain of blocks; the output
    is read from the root node at any offset. *)

From Stdlib Require Import ZArith Lia.
From stdpp Require Import base numbers list list_numbers.
From S2P Require Import Prelude Blake3Impl Blake3Backend Blake3Hasher.
Local Open Scope Z_scope.

(** A block shorter than 64 bytes is padded with zeros. *)
Definition pad_block (m : list Z) : list Z := m ++ zeros (BLAKE3_BLOCK_LEN - zlen m).

(** The whole blocks of a chunk that come before its last block, which is never
    empty unless the chunk is. *)
Definition whole_blocks (m : list Z) : nat := ((length m - 1) / 64)%nat.

(** The bytes of the left subtree of a message of [n > 1024] bytes. *)
Definition left_len (n : Z) : Z := BLAKE3_CHUNK_LEN * 2 ^ Z.log2 ((n - 1) / BLAKE3_CHUNK_LEN).

Section Spec.
Context {B : Backend}.
Context (key : list Z) (flags : Z).

Definition start_flag (k : nat) : Z := if (k =? 0)%nat then CHUNK_START else 0.

Definition chunk_cv (ctr : Z) (m : list Z) (k : nat) : list Z :=
  blocks_cv blake3_compress_in_place key ctr flags CHUNK_START m k.

Definition chunk_node (ctr : Z) (m : list Z) : output_t :=
  let k := whole_blocks m in
  {| input_cv := chunk_cv ctr m k;
     o_counter := ctr;
     o_block := pad_block (zdrop (64 * Z.of_nat k) m);
     o_block_len := zlen m - 64 * Z.of_nat k;
     o_flags := Z.lor (Z.lor flags (start_flag k)) CHUNK_END |}.

Definition parent_node (l r : list Z) : output_t :=
  {| input_cv := key; o_counter := 0; o_block := l ++ r; o_block_len := 64;
     o_flags := Z.lor flags PARENT |}.

(** The top node of the tree over [m], whose first chunk has index [ctr]. *)
Fixpoint tree_node (fuel : nat) (ctr : Z) (m : list Z) : output_t :=
  match fuel with
  | O => chunk_node ctr m
  | S fuel =>
      if zlen m <=? BLAKE3_CHUNK_LEN then chunk_node ctr m
      else
        let n := left_len (zlen m) in
        parent_node
          (output_chaining_value (tree_node fuel ctr (ztake n m)))
          (output_chaining_value
             (tree_node fuel (ctr + n / BLAKE3_CHUNK_LEN) (zdrop n m)))
  end.

(** The tree is never deeper than the message is long. *)
Definition subtree_node (ctr : Z) (m : list Z) : output_t := tree_node (length m) ctr m.
Definition subtree_cv (ctr : Z) (m : list Z) : list Z :=
  output_chaining_value (subtree_node ctr m).
End Spec.

Section Output.
Context {B : Backend}.

(** Block [c] of the extended output of the root node [n]. *)
Definition root_block (n : output_t) (c : Z) : list Z :=
  blake3_compress_xof (input_cv n) (o_block n) (o_block_len n) c (Z.lor (o_flags n) ROOT).

(** Bytes [seek .. seek + len - 1] of the extended output. *)
Definition root_bytes (n : output_t) (seek len : Z) : list Z :=
  map (fun i => (root_block n (i / 64)).[Z.to_nat (i mod 64)]) (seqZ seek len).

(** The hash of [m] in the mode given by the key and the flags. *)
Definition blake3_spec (key : list Z) (flags : Z) (m : list Z) (seek len : Z) : list Z :=
  root_bytes (subtree_node key flags 0 m) seek len.
End Output.

(** ** The shape of the tree *)

Lemma pow2_pos j : 0 <= j -> 1 <= 2 ^ j.
Proof. intros. assert (0 < 2 ^ j) by (apply Z.pow_pos_nonneg; lia). lia. Qed.

Lemma left_len_split n j : 0 <= j ->
  1024 * 2 ^ j < n <= 1024 * 2 ^ (j + 1) -> left_len n = 1024 * 2 ^ j.
Proof.
  intros Hj Hn. unfold left_len, BLAKE3_CHUNK_LEN. f_equal. f_equal.
  rewrite Z.pow_add_r in Hn by lia.
  apply Z.log2_unique; [done|]. unfold Z.succ. rewrite Z.pow_add_r by lia.
  split; [apply Z.div_le_lower_bound; lia | apply Z.div_lt_upper_bound; lia].
Qed.

(** Every message longer than a chunk lies between two tree sizes. *)
Lemma chunk_height n : 1024 < n ->
  exists j, 0 <= j /\ 1024 * 2 ^ j < n <= 1024 * 2 ^ (j + 1).
Proof.
  intros Hn. set (q := (n - 1) / 1024).
  assert (1 <= q) by (apply Z.div_le_lower_bound; lia).
  exists (Z.log2 q). split; [apply Z.log2_nonneg|].
  destruct (Z.log2_spec q) as [Hlo Hhi]; [lia|].
  unfold Z.succ in Hhi.
  pose proof (Z.div_mod (n - 1) 1024 ltac:(lia)) as Hdm.
  pose proof (Z.mod_pos_bound (n - 1) 1024 ltac:(lia)).
  fold q in Hdm. lia.
Qed.

Section Tree.
Context {B : Backend}.
Context (key : list Z) (flags : Z).
Implicit Types m l r : list Z.

Lemma tree_node_small fuel ctr m : zlen m <= 1024 ->
  tree_node key flags fuel ctr m = chunk_node key flags ctr m.
Proof.
  intros. destruct fuel; simpl; [done|].
  rewrite (proj2 (Z.leb_le _ _)) by (unfold BLAKE3_CHUNK_LEN; lia). done.
Qed.

Lemma tree_node_fuel f1 f2 ctr m :
  zlen m <= 1024 * 2 ^ Z.of_nat f1 -> zlen m <= 1024 * 2 ^ Z.of_nat f2 ->
  tree_node key flags f1 ctr m = tree_node key flags f2 ctr m.
Proof.
  revert f2 ctr m. induction f1 as [|f1 IH]; intros f2 ctr m H1 H2.
  { change (2 ^ Z.of_nat 0) with 1 in H1. rewrite !tree_node_small by lia. done. }
  destruct (Z.le_gt_cases (zlen m) 1024) as [|Hbig];
    [rewrite !tree_node_small by done; done|].
  destruct f2 as [|f2]; [change (2 ^ Z.of_nat 0) with 1 in H2; lia|].
  destruct (chunk_height (zlen m) Hbig) as (j & Hj & Hm).
  rewrite !Nat2Z.inj_succ in H1, H2. unfold Z.succ in H1, H2.
  simpl. rewrite (proj2 (Z.leb_gt _ _)) by (unfold BLAKE3_CHUNK_LEN; lia).
  rewrite (left_len_split _ j) by lia.
  assert (Hjf : forall f, zlen m <= 1024 * 2 ^ (Z.of_nat f + 1) -> 2 ^ j <= 2 ^ Z.of_nat f).
  { intros f Hf. apply Z.pow_le_mono_r; [lia|].
    destruct (Z.le_gt_cases j (Z.of_nat f)) as [|Hgt]; [done|exfalso].
    assert (2 ^ (Z.of_nat f + 1) <= 2 ^ j) by (apply Z.pow_le_mono_r; lia). lia. }
  pose proof (Hjf f1 H1). pose proof (Hjf f2 H2).
  rewrite Z.pow_add_r in Hm by lia.
  f_equal; f_equal; apply IH; len.
Qed.

Lemma length_fuel m : zlen m <= 1024 * 2 ^ Z.of_nat (length m).
Proof.
  unfold zlen. pose proof (Z.pow_gt_lin_r 2 (Z.of_nat (length m)) ltac:(lia) ltac:(lia)).
  lia.
Qed.

Lemma subtree_node_chunk ctr m : zlen m <= 1024 ->
  subtree_node key flags ctr m = chunk_node key flags ctr m.
Proof. apply tree_node_small. Qed.

(** A full left subtree of [2 ^ j] chunks next to at most as many on the right. *)
Lemma subtree_node_split ctr j l r : 0 <= j ->
  zlen l = 1024 * 2 ^ j -> 0 < zlen r <= 1024 * 2 ^ j ->
  subtree_node key flags ctr (l ++ r) =
  parent_node key flags (subtree_cv key flags ctr l) (subtree_cv key flags (ctr + 2 ^ j) r).
Proof.
  intros Hj Hl Hr. unfold subtree_node at 1, subtree_cv, subtree_node.
  pose proof (pow2_pos j Hj).
  rewrite (tree_node_fuel _ (S (Z.to_nat j))).
  2: apply length_fuel.
  2: { rewrite Nat2Z.inj_succ, Z2Nat.id by lia. unfold Z.succ.
       rewrite Z.pow_add_r by lia. len. }
  simpl. rewrite (proj2 (Z.leb_gt _ _)) by (unfold BLAKE3_CHUNK_LEN; len).
  rewrite (left_len_split _ j) by (rewrite ?Z.pow_add_r by lia; len).
  rewrite ztake_app_le, (ztake_all _ l), zdrop_app_ge, zdrop_0 by len.
  replace (1024 * 2 ^ j / BLAKE3_CHUNK_LEN) with (2 ^ j)
    by (unfold BLAKE3_CHUNK_LEN; rewrite Z.mul_comm, Z.div_mul; lia).
  f_equal; f_equal; apply tree_node_fuel; try apply length_fuel;
    rewrite Z2Nat.id by lia; lia.
Qed.

Lemma chunk_cv_app ctr m r k : 64 * Z.of_nat k <= zlen m ->
  chunk_cv key flags ctr (m ++ r) k = chunk_cv key flags ctr m k.
Proof.
  unfold chunk_cv. induction k as [|k IH]; intros Hk; simpl; [done|].
  rewrite Nat2Z.inj_succ in Hk.
  rewrite IH by lia. f_equal. unfold BLAKE3_BLOCK_LEN.
  rewrite zdrop_app_le by lia. apply ztake_app_le. len.
Qed.
End Tree.
