(* ===== verification/Blake3Root.v ===== *)
(** * The extended output

    [output_root_bytes] of [blake3.c] writes the bytes [seek .. seek + out_len - 1]
    of the root node's output: a partial first block, whole blocks through
    [blake3_xof_many], a partial last block. *)

From Stdlib Require Import ZArith Lia.
From stdpp Require Import base numbers list list_numbers.
From S2P Require Import Prelude Blake3Impl Blake3Backend Blake3Hasher Blake3Spec.
Local Open Scope Z_scope.

Section Root.
Context {B : Backend} {L : BackendLaws B}.
Implicit Types n : output_t.

Lemma zlen_root_block n c : zlen (root_block n c) = 64.
Proof. apply compress_xof_len. Qed.

Lemma zlen_root_bytes n seek len : 0 <= len -> zlen (root_bytes n seek len) = len.
Proof. intros. unfold root_bytes. rewrite zlen_map. unfold zlen. rewrite length_seqZ. lia. Qed.

Lemma root_bytes_nil n seek len : len <= 0 -> root_bytes n seek len = [].
Proof. intros. unfold root_bytes. rewrite seqZ_nil by done. done. Qed.

Lemma root_bytes_app n seek a b : 0 <= a -> 0 <= b ->
  root_bytes n seek (a + b) = root_bytes n seek a ++ root_bytes n (seek + a) b.
Proof. intros. unfold root_bytes. rewrite seqZ_app, map_app by done. done. Qed.

(** Bytes of a single block. *)
Lemma root_bytes_in_block n c o len : 0 <= c -> 0 <= o -> 0 <= len -> o + len <= 64 ->
  root_bytes n (64 * c + o) len = ztake len (zdrop o (root_block n c)).
Proof.
  intros Hc Ho Hl Hle. apply list_eq. intros i.
  pose proof (zlen_root_block n c) as Hz. unfold root_bytes, ztake, zdrop.
  destruct (decide (i < Z.to_nat len)%nat) as [Hi|Hi].
  - change (@map Z Z) with (@fmap list _ Z Z). rewrite list_lookup_fmap, lookup_seqZ_lt by lia.
    rewrite lookup_take_lt, lookup_drop by lia. simpl.
    replace (64 * c + o + Z.of_nat i) with (o + Z.of_nat i + c * 64) by lia.
    rewrite Z.div_add, Z.mod_add, Z.div_small, Z.mod_small, Z.add_0_l by lia.
    destruct (lookup_lt_is_Some_2 (root_block n c) (Z.to_nat o + i)) as [x Hx].
    { unfold zlen in Hz. lia. }
    rewrite Hx, nth_lookup. replace (Z.to_nat (o + Z.of_nat i)) with (Z.to_nat o + i)%nat by lia.
    rewrite Hx. done.
  - rewrite !lookup_ge_None_2; [done| |].
    + rewrite length_take. lia.
    + rewrite length_map, length_seqZ. lia.
Qed.

Lemma xof_many_root n c k : 0 <= c -> c + Z.of_nat k <= 2 ^ 64 ->
  xof_many_ref (root_block n) c k = root_bytes n (64 * c) (64 * Z.of_nat k).
Proof.
  revert c. induction k as [|k IH]; intros c Hc Hk; [rewrite root_bytes_nil by lia; done|].
  simpl. rewrite IH, wrap_small by lia.
  replace (64 * Z.of_nat (S k)) with (64 + 64 * Z.of_nat k) by lia.
  rewrite root_bytes_app by lia.
  replace (64 * (c + 1)) with (64 * c + 64) by lia. f_equal.
  replace (64 * c) with (64 * c + 0) by lia.
  rewrite root_bytes_in_block by lia. rewrite zdrop_0, ztake_all; [done| |lia].
  rewrite zlen_root_block. lia.
Qed.

Lemma low_six_bits x : 0 <= x < 2 ^ 64 -> x - Z.land x (2 ^ 64 - 64) = x mod 64.
Proof.
  intros Hx. change (2 ^ 64 - 64) with (Z.shiftl (Z.ones 58) 6).
  rewrite land_high_mask by (unfold in_width; lia). change (2 ^ 6) with 64.
  pose proof (Z.div_mod x 64 ltac:(lia)). lia.
Qed.

(** The part after the partial first block. *)
Lemma aligned_bytes n c len : 0 <= c < 2 ^ 64 -> 0 <= len < 2 ^ 64 -> 64 * c + len <= 2 ^ 64 ->
  (if negb (len / 64 =? 0) then
     blake3_xof_many (input_cv n) (o_block n) (o_block_len n) c (Z.lor (o_flags n) ROOT)
       (Z.to_nat (len / 64))
   else []) ++
  (if negb (len - Z.land len (2 ^ 64 - 64) =? 0) then
     ztake (len - Z.land len (2 ^ 64 - 64)) (root_block n (u64 (c + len / 64)))
   else []) = root_bytes n (64 * c) len.
Proof.
  intros Hc Hl Hw. rewrite low_six_bits by done.
  pose proof (Z.div_mod len 64 ltac:(lia)) as Hdm.
  pose proof (Z.mod_pos_bound len 64 ltac:(lia)).
  set (q := len / 64) in *. set (o := len mod 64) in *.
  assert (0 <= q) by (apply Z.div_pos; lia).
  rewrite Hdm, root_bytes_app by lia. f_equal.
  - destruct (Z.eqb_spec q 0) as [->|]; simpl; [rewrite root_bytes_nil by lia; done|].
    rewrite xof_many_spec by lia. change (fun c => _) with (root_block n).
    rewrite xof_many_root by lia. f_equal. lia.
  - destruct (Z.eqb_spec o 0) as [->|]; simpl; [rewrite root_bytes_nil by lia; done|].
    rewrite wrap_small by lia. replace (64 * c + 64 * q) with (64 * (c + q) + 0) by lia.
    rewrite root_bytes_in_block by lia. rewrite zdrop_0 by lia. done.
Qed.

Lemma output_root_bytes_ok n seek out_len : 0 <= seek -> 0 <= out_len ->
  seek + out_len < 2 ^ 64 -> output_root_bytes n seek out_len = root_bytes n seek out_len.
Proof.
  intros Hs Ho Hw. unfold output_root_bytes.
  destruct (Z.eqb_spec out_len 0) as [->|]; [rewrite root_bytes_nil by lia; done|].
  pose proof (Z.div_mod seek 64 ltac:(lia)) as Hdm.
  pose proof (Z.mod_pos_bound seek 64 ltac:(lia)).
  set (q := seek / 64) in *. set (o := seek mod 64) in *.
  assert (0 <= q) by (apply Z.div_pos; lia).
  change (fun c => blake3_compress_xof _ _ _ c _) with (root_block n). cbv zeta.
  destruct (Z.eqb_spec o 0) as [Ho0|Ho0]; cbn [negb].
  - replace seek with (64 * q) by lia. rewrite <- (aligned_bytes n q out_len) by lia. done.
  - set (bytes := if out_len >? 64 - o then 64 - o else out_len).
    assert (Hb : bytes = Z.min out_len (64 - o))
      by (unfold bytes; destruct (Z.gtb_spec out_len (64 - o)); lia).
    assert (Hsplit : root_bytes n seek out_len =
      root_bytes n seek bytes ++ root_bytes n (seek + bytes) (out_len - bytes))
      by (rewrite <- root_bytes_app by lia; f_equal; lia).
    rewrite Hsplit. f_equal.
    { rewrite Hdm. rewrite root_bytes_in_block by lia. done. }
    destruct (Z.eq_dec (out_len - bytes) 0) as [->|].
    { rewrite root_bytes_nil by lia. done. }
    rewrite (wrap_small 64 (q + 1)) by lia.
    replace (seek + bytes) with (64 * (q + 1)) by lia.
    rewrite <- (aligned_bytes n (q + 1) (out_len - bytes)) by lia. done.
Qed.
End Root.
