(* ===== verification/Blake3Chunk.v ===== *)
(** * The chunk state machine

    [chunk_state_init], [chunk_state_fill_buf], [chunk_state_update] and
    [chunk_state_output] of [blake3.c] against the chunk of the specification:
    the state is a function of the bytes absorbed so far, however they were split
    over calls. *)

From Stdlib Require Import ZArith Lia.
From stdpp Require Import base numbers list list_numbers.
From S2P Require Import Prelude Blake3Impl Blake3Backend Blake3Hasher Blake3Spec.
Local Open Scope Z_scope.

Section Chunk.
Context {B : Backend}.
Context (key : list Z) (flags : Z).
Implicit Types m input : list Z.

(** The state after [m], of which the first [k] blocks have been compressed. *)
Definition chunk_at (ctr : Z) (k : nat) m : blake3_chunk_state :=
  {| cs_cv := chunk_cv key flags ctr m k;
     chunk_counter := ctr;
     cs_buf := pad_block (zdrop (64 * Z.of_nat k) m);
     buf_len := zlen m - 64 * Z.of_nat k;
     blocks_compressed := Z.of_nat k;
     cs_flags := flags |}.

(** The state [blake3.c] keeps after [m]: the last block stays in the buffer. *)
Definition chunk_of (ctr : Z) m : blake3_chunk_state := chunk_at ctr (whole_blocks m) m.

Lemma whole_blocks_unique m k :
  64 * Z.of_nat k < zlen m <= 64 * Z.of_nat k + 64 -> whole_blocks m = k.
Proof.
  unfold whole_blocks, zlen. intros. symmetry. apply (Nat.div_unique _ _ _ (length m - 1 - 64 * k)); lia.
Qed.

Lemma whole_blocks_spec m : 0 < zlen m ->
  64 * Z.of_nat (whole_blocks m) < zlen m <= 64 * Z.of_nat (whole_blocks m) + 64.
Proof.
  unfold whole_blocks, zlen. intros.
  pose proof (Nat.div_mod (length m - 1) 64 ltac:(lia)).
  pose proof (Nat.mod_upper_bound (length m - 1) 64 ltac:(lia)). lia.
Qed.

Lemma whole_blocks_nil m : zlen m = 0 -> whole_blocks m = 0%nat.
Proof. intros ->%zlen_nil_inv. done. Qed.

Lemma whole_blocks_le m : 64 * Z.of_nat (whole_blocks m) <= zlen m.
Proof.
  destruct (Z.eq_dec (zlen m) 0) as [H|]; [rewrite whole_blocks_nil; lia|].
  pose proof (whole_blocks_spec m). pose proof (zlen_nonneg m). lia.
Qed.

Lemma start_flag_at ctr k m :
  chunk_state_maybe_start_flag (chunk_at ctr k m) = start_flag k.
Proof.
  unfold chunk_state_maybe_start_flag, start_flag. simpl.
  destruct k; simpl; done.
Qed.

Lemma chunk_state_init_of ctr :
  set_chunk_counter (chunk_state_init key flags) ctr = chunk_of ctr [].
Proof. done. Qed.

Lemma chunk_state_reset_of self ctr : cs_flags self = flags ->
  chunk_state_reset self key ctr = chunk_of ctr [].
Proof. unfold chunk_state_reset. intros ->. done. Qed.

Lemma chunk_state_output_of ctr m :
  chunk_state_output (chunk_of ctr m) = chunk_node key flags ctr m.
Proof.
  unfold chunk_state_output, chunk_of. rewrite start_flag_at. done.
Qed.

Lemma chunk_state_len_of ctr m : chunk_state_len (chunk_of ctr m) = zlen m.
Proof.
  unfold chunk_state_len, BLAKE3_BLOCK_LEN. simpl.
  pose proof (whole_blocks_le m). lia.
Qed.

Lemma pad_block_store m input : zlen m + zlen input <= 64 ->
  store_range (pad_block m) (zlen m) input = Done (pad_block (m ++ input)).
Proof.
  intros H. unfold pad_block, BLAKE3_BLOCK_LEN. rewrite store_range_ok by len.
  f_equal. rewrite ztake_app_le, ztake_all by len.
  rewrite <- app_assoc. f_equal. f_equal.
  rewrite zdrop_app_ge by len. unfold zdrop, zeros. rewrite drop_replicate.
  f_equal. len.
Qed.

Lemma fill_buf_at ctr k m input :
  64 * Z.of_nat k <= zlen m <= 64 * Z.of_nat k + 64 ->
  let take := Z.min (64 * Z.of_nat k + 64 - zlen m) (zlen input) in
  chunk_state_fill_buf (chunk_at ctr k m) input =
  Done (chunk_at ctr k (m ++ ztake take input), take).
Proof.
  intros Hm take. unfold chunk_state_fill_buf. simpl. unfold BLAKE3_BLOCK_LEN.
  pose proof (zlen_nonneg input).
  rewrite (wrap_small 64 (64 - _)) by lia.
  replace (if 64 - (zlen m - 64 * Z.of_nat k) >? zlen input then zlen input
           else 64 - (zlen m - 64 * Z.of_nat k)) with take
    by (unfold take; rewrite Z.gtb_ltb; destruct (Z.ltb_spec (zlen input) (64 - (zlen m - 64 * Z.of_nat k))); lia).
  replace (zlen m - 64 * Z.of_nat k) with (zlen (zdrop (64 * Z.of_nat k) m)) by len.
  rewrite pad_block_store by len. simpl.
  unfold chunk_at. rewrite chunk_cv_app by lia.
  rewrite zdrop_app_le by lia. do 3 f_equal.
  unwrap. rewrite (wrap_small 8) by len. len.
Qed.

Lemma compress_at ctr k m block : (k < 16)%nat ->
  zlen m = 64 * Z.of_nat k + 64 -> block = zdrop (64 * Z.of_nat k) m ->
  chunk_state_clear_buf (chunk_state_compress (chunk_at ctr k m) block) =
  chunk_at ctr (S k) m.
Proof.
  intros Hk Hm ->. unfold chunk_state_clear_buf, chunk_state_compress.
  rewrite start_flag_at. unfold chunk_at. simpl. rewrite (wrap_small 8) by lia.
  f_equal.
  - unfold chunk_cv. simpl. f_equal. unfold BLAKE3_BLOCK_LEN.
    rewrite ztake_all by len. done.
  - rewrite zdrop_all by lia. done.
  - lia.
  - lia.
Qed.

(** Inside the loop the buffer is empty, so clearing it changes nothing. *)
Lemma compress_input_at ctr k m input : (k < 16)%nat ->
  zlen m = 64 * Z.of_nat k -> 64 <= zlen input ->
  chunk_state_compress (chunk_at ctr k m) (ztake 64 input) =
  chunk_at ctr (S k) (m ++ ztake 64 input).
Proof.
  intros Hk Hm Hi. unfold chunk_state_compress. rewrite start_flag_at.
  unfold chunk_at. simpl. rewrite (wrap_small 8) by lia. f_equal.
  - unfold chunk_cv. simpl. fold (chunk_cv key flags ctr (m ++ ztake 64 input) k).
    rewrite chunk_cv_app by lia. f_equal. unfold BLAKE3_BLOCK_LEN.
    rewrite zdrop_app_ge, zdrop_0, (ztake_all 64 (ztake 64 input)) by len. done.
  - rewrite !zdrop_all by len. done.
  - len.
  - lia.
Qed.

(** Progress through the input: [rest] is still to be absorbed. *)
Definition chunk_progress (ctr : Z) (total : list Z) (s : blake3_chunk_state * list Z) : Prop :=
  exists k m, s.1 = chunk_at ctr k m /\ m ++ s.2 = total /\
    (zlen m = 64 * Z.of_nat k /\ (s.2 = [] -> total = []) \/
     s.2 = [] /\ 64 * Z.of_nat k < zlen m <= 64 * Z.of_nat k + 64).

Lemma chunk_loop ctr total s fuel : zlen total <= 1024 ->
  chunk_progress ctr total s -> (length s.2 <= fuel)%nat ->
  exists s', while fuel (fun '(_, input) => BLAKE3_BLOCK_LEN <? zlen input)
    (fun '(self, input) =>
       Done (chunk_state_compress self (ztake BLAKE3_BLOCK_LEN input),
             zdrop BLAKE3_BLOCK_LEN input)) s = Done s' /\
    chunk_progress ctr total s' /\ zlen s'.2 <= 64.
Proof.
  intros Ht Hp Hf.
  destruct (while_total (chunk_progress ctr total) (fun s => length s.2)
    (fun '(_, input) => BLAKE3_BLOCK_LEN <? zlen input)
    (fun '(self, input) =>
       Done (chunk_state_compress self (ztake BLAKE3_BLOCK_LEN input),
             zdrop BLAKE3_BLOCK_LEN input))) with (fuel := fuel) (s := s)
    as (s' & Hw & Hs' & Hc); [|done|done|].
  - intros [st input] (k & m & Hst & Htot & Hk) Hc. simpl in *.
    unfold BLAKE3_BLOCK_LEN in *. apply Z.ltb_lt in Hc.
    destruct Hk as [[Hk _]|[-> _]]; [|rewrite zlen_nil in Hc; lia].
    eexists. split; [done|]. split.
    + exists (S k), (m ++ ztake 64 input). simpl.
      assert (zlen total = zlen m + zlen input) by (rewrite <- Htot; len).
      split; [rewrite Hst; apply compress_input_at; lia|].
      split; [rewrite <- app_assoc, ztake_zdrop; done|].
      left. split; [len|]. intros Hd.
      assert (zlen (zdrop 64 input) = 0) by (rewrite Hd; done). len.
    + simpl. unfold zlen, zdrop in *. rewrite length_drop. lia.
  - exists s'. destruct s' as [st' i']. unfold BLAKE3_BLOCK_LEN in *.
    apply Z.ltb_ge in Hc. done.
Qed.

Lemma chunk_finish ctr total s : zlen total <= 1024 ->
  chunk_progress ctr total s -> zlen s.2 <= 64 ->
  exists t, chunk_state_fill_buf s.1 s.2 = Done (chunk_of ctr total, t).
Proof.
  intros Ht (k & m & Hs & Htot & Hk) Hi. rewrite Hs.
  assert (Hz : zlen total = zlen m + zlen s.2) by (rewrite <- Htot; len).
  pose proof (zlen_nonneg s.2).
  rewrite fill_buf_at by lia.
  rewrite ztake_all by (destruct Hk as [[? ?]|[H1 H2]]; [|rewrite H1, zlen_nil]; lia).
  eexists. rewrite Htot. unfold chunk_of.
  enough (whole_blocks total = k) as -> by done.
  destruct Hk as [[Hm Hnil]|[Hnil Hm]].
  - destruct (Z.eq_dec (zlen s.2) 0) as [H0|H0].
    + apply zlen_nil_inv in H0. rewrite (Hnil H0) in *. rewrite zlen_nil in *.
      rewrite whole_blocks_nil by done. lia.
    + apply whole_blocks_unique. lia.
  - rewrite Hnil, zlen_nil in Hz. apply whole_blocks_unique. lia.
Qed.

Lemma chunk_state_update_of ctr m input : zlen m + zlen input <= 1024 ->
  chunk_state_update (chunk_of ctr m) input = Done (chunk_of ctr (m ++ input)).
Proof.
  intros Hlen. set (total := m ++ input).
  assert (Ht : zlen total <= 1024) by (unfold total; len).
  unfold chunk_state_update.
  match goal with |- exec_bind ?first _ = _ =>
    assert (exists s, first = Done s /\ chunk_progress ctr total s) as (s & -> & Hp) end.
  - destruct (Z.ltb_spec 0 (buf_len (chunk_of ctr m))) as [Hb|Hb]; simpl in Hb.
    + assert (0 < zlen m) by (pose proof (whole_blocks_le m); len).
      pose proof (whole_blocks_spec m ltac:(lia)) as Hw.
      unfold chunk_of. set (k := whole_blocks m) in *.
      rewrite fill_buf_at by lia. simpl.
      set (t := Z.min _ _).
      destruct (Z.ltb_spec 0 (zlen (zdrop t input))) as [Hr|Hr]; eexists; (split; [done|]).
      * exists (S k), (m ++ ztake t input). simpl.
        split; [|split; [rewrite <- app_assoc, ztake_zdrop; done|]].
        -- rewrite zlen_zdrop in Hr. apply compress_at; [len| |].
           ++ len.
           ++ unfold pad_block. unfold BLAKE3_BLOCK_LEN.
              rewrite zlen_zdrop.
              replace (zeros _) with (@nil Z); [apply app_nil_r|].
              unfold zeros. replace (Z.to_nat _) with 0%nat; [done|]. len.
        -- left. split; [rewrite zlen_zdrop in Hr; len|].
           intros Hd. apply (f_equal zlen) in Hd. rewrite zlen_nil in Hd. lia.
      * assert (Hd : zdrop t input = []) by (apply zlen_nil_inv; pose proof (zlen_nonneg (zdrop t input)); lia).
        exists k, (m ++ ztake t input). simpl.
        split; [done|]. split; [rewrite <- app_assoc, ztake_zdrop; done|].
        right. split; [done|]. rewrite zlen_zdrop in Hr. unfold t in *. len.
    + eexists. split; [done|]. exists (whole_blocks m), m. simpl.
      split; [done|]. split; [done|]. left.
      assert (zlen m = 0) as Hm0.
      { destruct (Z.eq_dec (zlen m) 0); [done|].
        pose proof (zlen_nonneg m). pose proof (whole_blocks_spec m). lia. }
      rewrite whole_blocks_nil by done. split; [lia|]. intros ->.
      unfold total. rewrite (zlen_nil_inv m Hm0). done.
  - simpl. destruct s as [st rest].
    destruct (chunk_loop ctr total (st, rest) (length rest) Ht Hp) as ([st' rest'] & -> & Hp' & Hr');
      [done|].
    simpl. destruct (chunk_finish ctr total (st', rest') Ht Hp' Hr') as (t & Hfin).
    simpl in Hfin. rewrite Hfin. done.
Qed.

(** A whole chunk through [hash_many]: sixteen blocks, the first and the last
    flagged. *)
Lemma hash_one_chunk ctr m rest : zlen m = 1024 ->
  hash_one_ref blake3_compress_in_place (m ++ rest) 16 key ctr flags CHUNK_START CHUNK_END =
  subtree_cv key flags ctr m.
Proof.
  intros Hm. unfold subtree_cv. rewrite subtree_node_chunk by lia.
  unfold hash_one_ref, output_chaining_value, chunk_node.
  rewrite (whole_blocks_unique m 15) by lia.
  cbn [input_cv o_block o_block_len o_counter o_flags].
  fold (chunk_cv key flags ctr (m ++ rest) 15). rewrite chunk_cv_app by lia.
  do 2 f_equal; unfold BLAKE3_BLOCK_LEN; [|lia].
  rewrite zdrop_app_le by lia.
  rewrite ztake_app_le by len. rewrite ztake_all by len.
  unfold pad_block, BLAKE3_BLOCK_LEN. rewrite zlen_zdrop.
  replace (zeros _) with (@nil Z); [rewrite app_nil_r; done|].
  unfold zeros. rewrite Hm. done.
Qed.
End Chunk.
