(* ===== verification/Blake3Wide.v ===== *)
(** * Subtrees many chaining values wide

    [compress_chunks_parallel], [compress_parents_parallel],
    [compress_subtree_wide] and [compress_subtree_to_parent_node] of [blake3.c]
    against the tree of the specification, for every SIMD degree.  The chaining
    values of one level are a list; merging them in pairs, an odd one carried
    over, keeps the tree they stand for. *)

From Stdlib Require Import ZArith Lia.
From stdpp Require Import base numbers list list_numbers.
From S2P Require Import Prelude Blake3Impl Blake3Backend Blake3Hasher.
From S2P Require Import Blake3Spec Blake3Chunk.
Local Open Scope Z_scope.

(** ** Arrays of chaining values *)

Definition is_cv (x : list Z) : Prop := zlen x = 32.

Lemma zlen_concat_cvs xs : Forall is_cv xs -> zlen (concat xs) = 32 * zlen xs.
Proof.
  induction 1 as [|x xs Hx _ IH]; [done|]. simpl. unfold is_cv in Hx.
  rewrite zlen_app, zlen_cons, IH. lia.
Qed.

(** Writing at the front of a buffer. *)
Definition overwrite (out bs : list Z) : list Z := bs ++ zdrop (zlen bs) out.

Lemma store_range_front out bs : zlen bs <= zlen out ->
  store_range out 0 bs = Done (overwrite out bs).
Proof.
  intros. rewrite store_range_ok by lia. rewrite ztake_0 by lia. done.
Qed.

Lemma store_range_after out a bs : zlen a + zlen bs <= zlen out ->
  store_range (overwrite out a) (zlen a) bs = Done (overwrite out (a ++ bs)).
Proof.
  intros. unfold overwrite. pose proof (zlen_nonneg a). pose proof (zlen_nonneg bs).
  rewrite store_range_ok by len. f_equal.
  rewrite ztake_app_le, ztake_all by lia. rewrite <- app_assoc. do 2 f_equal.
  rewrite zdrop_app_ge by lia. rewrite zdrop_zdrop, zlen_app by lia. f_equal. lia.
Qed.

Lemma store_range_at (a c bs : list Z) off : off = zlen a -> zlen bs <= zlen c ->
  store_range (a ++ c) off bs = Done (a ++ bs ++ zdrop (zlen bs) c).
Proof.
  intros -> H. pose proof (zlen_nonneg a). rewrite store_range_ok by len.
  rewrite ztake_app_le, ztake_all by lia.
  pose proof (zlen_nonneg bs). rewrite zdrop_app_ge by lia. do 4 f_equal. lia.
Qed.

Lemma zlen_overwrite out bs : zlen bs <= zlen out -> zlen (overwrite out bs) = zlen out.
Proof. intros. unfold overwrite. len. Qed.

Lemma load_range_mid (a b c : list Z) off n : off = zlen a -> n = zlen b ->
  load_range (a ++ b ++ c) off n = Done b.
Proof.
  intros -> ->. pose proof (zlen_nonneg a). pose proof (zlen_nonneg b).
  rewrite load_range_ok by len. f_equal.
  rewrite zdrop_app_ge, zdrop_0 by lia. rewrite ztake_app_le, ztake_all by lia. done.
Qed.

Lemma load_range_front (b c : list Z) n : n = zlen b -> load_range (b ++ c) 0 n = Done b.
Proof. intros ->. apply (load_range_mid [] b c); done. Qed.

(** ** Trees over lists of chaining values *)

Section Wide.
Context {B : Backend}.
Context (key : list Z) (flags : Z).
Implicit Types xs l r : list (list Z).

Definition parent_cv (a b : list Z) : list Z :=
  output_chaining_value (parent_node key flags a b).

(** The tree over [xs] has chaining value [c]. *)
Inductive tree_cv : list (list Z) -> list Z -> Prop :=
| tree_cv_one x : tree_cv [x] x
| tree_cv_split j l r a b :
    0 <= j -> zlen l = 2 ^ j -> 0 < zlen r <= 2 ^ j ->
    tree_cv l a -> tree_cv r b -> tree_cv (l ++ r) (parent_cv a b).

(** The two children of the top node of the tree over [xs]. *)
Definition tops xs (a b : list Z) : Prop :=
  exists j l r, 0 <= j /\ xs = l ++ r /\ zlen l = 2 ^ j /\ 0 < zlen r <= 2 ^ j /\
    tree_cv l a /\ tree_cv r b.

(** One level of parents; an odd chaining value is carried over. *)
Fixpoint pairs xs : list (list Z) :=
  match xs with
  | x :: y :: xs => parent_cv x y :: pairs xs
  | _ => xs
  end.

Lemma pairs_ind (P : list (list Z) -> Prop) :
  P [] -> (forall x, P [x]) -> (forall x y xs, P xs -> P (x :: y :: xs)) -> forall xs, P xs.
Proof.
  intros H0 H1 H2. fix IH 1. intros [|x [|y xs]]; [done|apply H1|apply H2, IH].
Qed.

Lemma zlen_pairs xs : zlen (pairs xs) = (zlen xs + 1) / 2.
Proof.
  induction xs as [|x|x y xs IH] using pairs_ind; [done|done|].
  simpl. rewrite !zlen_cons, IH. replace (1 + (1 + zlen xs) + 1) with (zlen xs + 1 + 1 * 2) by lia.
  rewrite Z.div_add by lia. lia.
Qed.

Lemma is_cv_parent a b : is_cv (parent_cv a b).
Proof. done. Qed.

Lemma pairs_is_cv xs : Forall is_cv xs -> Forall is_cv (pairs xs).
Proof.
  induction xs as [|x|x y xs IH] using pairs_ind; simpl; [done|done|].
  rewrite !Forall_cons. intros (_ & _ & ?). split; [apply is_cv_parent | auto].
Qed.

Lemma pairs_app_even n l r : zlen l = 2 * n -> pairs (l ++ r) = pairs l ++ pairs r.
Proof.
  revert n. induction l as [|x|x y l IH] using pairs_ind; intros n Hn.
  - done.
  - exfalso. rewrite zlen_cons, zlen_nil in Hn. lia.
  - simpl. rewrite !zlen_cons in Hn. f_equal. apply (IH (n - 1)). lia.
Qed.

Lemma tree_cv_pos xs c : tree_cv xs c -> 0 < zlen xs.
Proof.
  induction 1; [done|]. rewrite zlen_app. lia.
Qed.

Lemma tree_cv_single x c : tree_cv [x] c -> c = x.
Proof.
  intros H. remember [x] as xs eqn:Hxs. destruct H as [y|j l r a b Hj Hl Hr _ _].
  - congruence.
  - apply (f_equal zlen) in Hxs. rewrite zlen_app, zlen_cons, zlen_nil in Hxs.
    pose proof (pow2_pos j Hj). lia.
Qed.

Lemma one_elem {A} (l : list A) : zlen l = 1 -> exists x, l = [x].
Proof.
  destruct l as [|x [|y l]]; intros H; [done|eauto|].
  exfalso. rewrite !zlen_cons in H. pose proof (zlen_nonneg l). lia.
Qed.

Lemma pairs_tree_cv xs c : tree_cv xs c -> tree_cv (pairs xs) c.
Proof.
  induction 1 as [x|j l r a b Hj Hl Hr Ha IHa Hb IHb]; [constructor|].
  destruct (Z.eq_dec j 0) as [->|Hj0].
  - change (2 ^ 0) with 1 in *.
    destruct (one_elem l Hl) as [x ->]. destruct (one_elem r) as [y ->]; [lia|].
    apply tree_cv_single in Ha, Hb. subst. constructor.
  - assert (Hp : 2 ^ j = 2 * 2 ^ (j - 1))
      by (rewrite <- Z.pow_succ_r by lia; f_equal; lia).
    rewrite (pairs_app_even (2 ^ (j - 1))) by lia.
    apply tree_cv_split with (j - 1); [lia| | |done|done].
    + rewrite zlen_pairs, Hl, Hp. symmetry.
      apply (Z.div_unique _ _ _ 1); lia.
    + rewrite zlen_pairs. split.
      * apply Z.div_str_pos. lia.
      * assert ((zlen r + 1) / 2 < 2 ^ (j - 1) + 1); [|lia].
        apply Z.div_lt_upper_bound; lia.
Qed.

Lemma pairs_tops xs a b : tops xs a b -> 2 < zlen xs -> tops (pairs xs) a b.
Proof.
  intros (j & l & r & Hj & -> & Hl & Hr & Ha & Hb) Hlen. rewrite zlen_app in Hlen.
  assert (j <> 0) by (intros ->; change (2 ^ 0) with 1 in *; lia).
  assert (Hp : 2 ^ j = 2 * 2 ^ (j - 1))
    by (rewrite <- Z.pow_succ_r by lia; f_equal; lia).
  exists (j - 1), (pairs l), (pairs r).
  split; [lia|]. split; [apply (pairs_app_even (2 ^ (j - 1))); lia|].
  split; [|split; [split|]].
  - rewrite zlen_pairs, Hl, Hp. symmetry. apply (Z.div_unique _ _ _ 1); lia.
  - rewrite zlen_pairs. apply Z.div_str_pos. lia.
  - rewrite zlen_pairs.
    assert ((zlen r + 1) / 2 < 2 ^ (j - 1) + 1); [|lia].
    apply Z.div_lt_upper_bound; lia.
  - split; apply pairs_tree_cv; done.
Qed.

Lemma tops_two x y a b : tops [x; y] a b -> a = x /\ b = y.
Proof.
  intros (j & l & r & Hj & Heq & Hl & Hr & Ha & Hb).
  pose proof (pow2_pos j Hj).
  assert (Hlen : zlen l + zlen r = 2).
  { rewrite <- zlen_app, <- Heq. done. }
  destruct (one_elem l) as [x' ->]; [lia|]. destruct (one_elem r) as [y' ->]; [lia|].
  simplify_eq/=. apply tree_cv_single in Ha, Hb. done.
Qed.

Lemma tops_len xs a b : tops xs a b -> 2 <= zlen xs.
Proof.
  intros (j & l & r & Hj & -> & Hl & Hr & _). pose proof (pow2_pos j Hj).
  rewrite zlen_app. lia.
Qed.

(** Reduced to two values, a level is the two children themselves. *)
Lemma tops_small xs a b : tops xs a b -> zlen xs <= 2 -> xs = [a; b].
Proof.
  intros HT Hlen. pose proof (tops_len _ _ _ HT) as H2.
  destruct xs as [|x [|y [|z xs]]]; rewrite ?zlen_cons, ?(@zlen_nil (list Z)) in *; try lia.
  - destruct (tops_two _ _ _ _ HT) as [-> ->]. done.
  - pose proof (zlen_nonneg xs). lia.
Qed.

Lemma tops_tree_cv xs a b : tops xs a b -> tree_cv xs (parent_cv a b).
Proof. intros (j & l & r & Hj & -> & ?). econstructor; naive_solver. Qed.
End Wide.
