(* ===== verification/Blake3Subtree.v ===== *)
(** * The subtree functions of [blake3.c]

    Functional correctness, termination and memory safety of
    [compress_chunks_parallel], [compress_parents_parallel],
    [compress_subtree_wide] and [compress_subtree_to_parent_node]: they return,
    every access is inside the arrays they declare, and they write the chaining
    values the specification gives, for every backend that satisfies
    [BackendLaws]. *)

From Stdlib Require Import ZArith Lia.
From stdpp Require Import base numbers list list_numbers.
From S2P Require Import Prelude Blake3Impl Blake3Backend Blake3Hasher.
From S2P Require Import Blake3Spec Blake3Chunk Blake3Wide.
Local Open Scope Z_scope.

(** Pointers [base, base + step, ...] into an array. *)
Definition ptrs (step : Z) (m : list Z) (k : nat) : list (list Z) :=
  map (fun i => zdrop (step * Z.of_nat i) m) (seq 0 k).

Lemma zlen_ptrs step m k : zlen (ptrs step m k) = Z.of_nat k.
Proof. unfold ptrs, zlen. rewrite length_map, length_seq. done. Qed.

Lemma ptrs_snoc step m k :
  ptrs step m (S k) = ptrs step m k ++ [zdrop (step * Z.of_nat k) m].
Proof. unfold ptrs. rewrite seq_S, map_app. done. Qed.

Lemma ptrs_cons step m k : 0 <= step ->
  ptrs step m (S k) = m :: ptrs step (zdrop step m) k.
Proof.
  intros. unfold ptrs. simpl. f_equal.
  - rewrite Z.mul_0_r. apply zdrop_0. lia.
  - rewrite <- seq_shift, map_map. apply map_ext. intros i.
    rewrite zdrop_zdrop by lia. f_equal. lia.
Qed.

(** The pointers leave room for one more block of [n] bytes each. *)
Lemma ptrs_readable step n m k :
  0 <= step -> (k = 0%nat \/ step * (Z.of_nat k - 1) + n <= zlen m) -> 0 <= n ->
  Forall (fun i => n <= zlen i) (ptrs step m k).
Proof.
  intros Hs Hk Hn. apply Forall_forall. intros x Hx.
  apply list_elem_of_In in Hx. unfold ptrs in Hx. apply in_map_iff in Hx as (i & <- & Hi).
  apply in_seq in Hi. rewrite zlen_zdrop. nia.
Qed.

Lemma forallb_readable (n : Z) (inputs : list (list Z)) :
  Forall (fun i => n <= zlen i) inputs ->
  forallb (fun i => n <=? zlen i) inputs = true.
Proof.
  intros H. apply forallb_forall. intros x Hx. apply Z.leb_le.
  rewrite Forall_forall in H. apply H, list_elem_of_In. done.
Qed.

Section Subtree.
Context {B : Backend} {L : BackendLaws B}.
Context (key : list Z) (flags : Z).
Context (Hkey : Forall (in_width 32) key) (Hflags : in_width 8 flags).
Implicit Types m out : list Z.

Abbreviation cv := (subtree_cv key flags).
Abbreviation pcv := (parent_cv key flags).
Abbreviation max_or_2 := (MAX_SIMD_DEGREE_OR_2 MAX_SIMD_DEGREE).

Lemma is_cv_subtree ctr m : is_cv (cv ctr m).
Proof. done. Qed.

(** ** The widths of the arrays *)

Lemma degree_bounds : 1 <= blake3_simd_degree <= MAX_SIMD_DEGREE /\ MAX_SIMD_DEGREE <= 16 /\
  MAX_SIMD_DEGREE <= max_or_2 /\ 2 <= max_or_2 <= 16 /\ (max_or_2 = 2 * (max_or_2 / 2)).
Proof.
  destruct max_simd_pow2 as (k & Hk & HM). destruct simd_degree_pow2 as (d & Hd & HD).
  pose proof simd_degree_max as Hle. pose proof (pow2_pos d Hd) as Hpos.
  rewrite HM in *. rewrite HD in *.
  assert (k = 0 \/ k = 1 \/ k = 2 \/ k = 3 \/ k = 4) as [->|[->|[->|[->| ->]]]] by lia;
    match goal with |- context [MAX_SIMD_DEGREE_OR_2 ?x] =>
      let v := eval vm_compute in (MAX_SIMD_DEGREE_OR_2 x) in
      change (MAX_SIMD_DEGREE_OR_2 x) with v
    end; repeat split; lia.
Qed.

Lemma degree_pow2 : exists i, 0 <= i /\ Z.max 2 blake3_simd_degree = 2 ^ i.
Proof.
  destruct simd_degree_pow2 as (d & Hd & ->).
  destruct (Z.eq_dec d 0) as [->|]; [exists 1; done|].
  exists d. assert (2 ^ 1 <= 2 ^ d) by (apply Z.pow_le_mono_r; lia).
  change (2 ^ 1) with 2 in *. lia.
Qed.

(** ** One level of parents *)

Lemma hash_many_parents xs rest k : Forall is_cv xs -> 2 * Z.of_nat k <= zlen xs ->
  hash_many_ref blake3_compress_in_place (ptrs 64 (concat xs ++ rest) k) 1 key 0 false
    (Z.lor flags PARENT) 0 0 = concat (take k (pairs key flags xs)).
Proof.
  revert xs. induction k as [|k IH]; intros xs Hxs Hk.
  { rewrite take_0. done. }
  destruct xs as [|x [|y xs]]; [rewrite zlen_nil in Hk; lia|rewrite zlen_cons, zlen_nil in Hk; lia|].
  rewrite !zlen_cons in Hk. rewrite !Forall_cons in Hxs. destruct Hxs as (Hx & Hy & Hxs).
  rewrite ptrs_cons by lia.
  assert (Hz : zdrop 64 (concat (x :: y :: xs) ++ rest) = concat xs ++ rest).
  { simpl. rewrite <- !app_assoc. unfold is_cv in *.
    rewrite zdrop_app_ge, zdrop_app_ge, zdrop_0 by lia. done. }
  rewrite Hz. cbn [hash_many_ref pairs take concat]. rewrite IH by (done || lia).
  f_equal. unfold parent_cv, output_chaining_value, parent_node, hash_one_ref.
  cbn [input_cv o_block o_block_len o_counter o_flags blocks_cv Nat.eqb].
  rewrite !Z.lor_0_r. do 2 f_equal. unfold BLAKE3_BLOCK_LEN. simpl concat.
  rewrite zdrop_0 by lia. rewrite <- !app_assoc. unfold is_cv in *.
  rewrite ztake_app_ge, ztake_app_ge, ztake_0 by lia. rewrite app_nil_r. done.
Qed.

Lemma pairs_take k xs : zlen xs = 2 * Z.of_nat k \/ zlen xs = 2 * Z.of_nat k + 1 ->
  pairs key flags xs = take k (pairs key flags xs) ++ drop (2 * k) xs.
Proof.
  revert xs. induction k as [|k IH]; intros xs Hk.
  - destruct xs as [|x [|y xs]]; [done|done|]. rewrite !zlen_cons in Hk.
    pose proof (zlen_nonneg xs). lia.
  - destruct xs as [|x [|y xs]]; [rewrite zlen_nil in Hk; lia|rewrite zlen_cons, zlen_nil in Hk; lia|].
    rewrite !zlen_cons in Hk. replace (2 * S k)%nat with (S (S (2 * k))) by lia.
    simpl. f_equal. apply IH. lia.
Qed.

Lemma parents_loop child num cap fuel : 0 <= num < 2 ^ 64 -> num <= 2 * cap + 1 ->
  (Z.to_nat num <= fuel)%nat ->
  while fuel (fun arr => 2 <=? u64 (num - 2 * zlen arr))
    (fun arr => push_ptr cap arr (zdrop (2 * zlen arr * BLAKE3_OUT_LEN) child)) [] =
  Done (ptrs 64 child (Z.to_nat (num / 2))).
Proof.
  intros Hnum Hcap Hfuel.
  destruct (while_total (fun arr => exists k, arr = ptrs 64 child k /\ 2 * Z.of_nat k <= num)
    (fun arr => Z.to_nat (num - 2 * zlen arr))
    (fun arr => 2 <=? u64 (num - 2 * zlen arr))
    (fun arr => push_ptr cap arr (zdrop (2 * zlen arr * BLAKE3_OUT_LEN) child)))
    with (fuel := fuel) (s := @nil (list Z)) as (arr & -> & (k & -> & Hk) & Hc).
  - intros arr (k & -> & Hk) Hc. rewrite zlen_ptrs in *.
    rewrite wrap_small in Hc by lia. apply Z.leb_le in Hc.
    unfold push_ptr. rewrite zlen_ptrs. rewrite (proj2 (Z.ltb_lt _ _)) by lia.
    eexists. split; [done|]. split.
    + exists (S k). rewrite ptrs_snoc. split; [|lia]. do 3 f_equal.
      unfold BLAKE3_OUT_LEN. lia.
    + rewrite zlen_app, zlen_ptrs, zlen_cons, zlen_nil. lia.
  - exists 0%nat. split; [done|lia].
  - unfold zlen. simpl. lia.
  - f_equal. f_equal. rewrite zlen_ptrs in Hc. rewrite wrap_small in Hc by lia.
    apply Z.leb_gt in Hc.
    assert (num / 2 = Z.of_nat k) by (symmetry; apply (Z.div_unique _ _ _ (num - 2 * Z.of_nat k)); lia).
    lia.
Qed.

(** The hashing step: the parents of the whole pairs. *)
Lemma parents_hashed xs rest out k : Forall is_cv xs -> 2 * Z.of_nat k <= zlen xs ->
  32 * Z.of_nat k <= zlen out ->
  hash_many_into (ptrs 64 (concat xs ++ rest) k) 1 key 0 false (Z.lor flags PARENT) 0 0 out =
  Done (overwrite out (concat (take k (pairs key flags xs)))).
Proof.
  intros Hxs Hk Hout.
  assert (Hread : Forall (fun i => BLAKE3_BLOCK_LEN * Z.of_nat 1 <= zlen i)
                    (ptrs 64 (concat xs ++ rest) k)).
  { apply ptrs_readable; [lia| |unfold BLAKE3_BLOCK_LEN; lia].
    rewrite zlen_app, zlen_concat_cvs by done. unfold BLAKE3_BLOCK_LEN.
    pose proof (zlen_nonneg rest). lia. }
  unfold hash_many_into. rewrite forallb_readable by done. simpl.
  rewrite hash_many_spec; try done.
  2: apply in_width_lor; done.
  rewrite hash_many_parents by (done || lia). apply store_range_front.
  rewrite zlen_concat_cvs by (apply Forall_take, pairs_is_cv; done).
  unfold zlen in *. rewrite length_take. lia.
Qed.

Lemma zlen_take_pairs k xs : zlen xs = 2 * Z.of_nat k \/ zlen xs = 2 * Z.of_nat k + 1 ->
  zlen (take k (pairs key flags xs)) = Z.of_nat k.
Proof.
  intros Hk. pose proof (zlen_pairs key flags xs) as Hp.
  assert (Z.of_nat k <= (zlen xs + 1) / 2) by (apply Z.div_le_lower_bound; lia).
  unfold zlen in *. rewrite length_take. lia.
Qed.

Lemma compress_parents_parallel_ok xs rest out :
  Forall is_cv xs -> zlen xs <= 2 * max_or_2 -> 32 * zlen (pairs key flags xs) <= zlen out ->
  compress_parents_parallel (concat xs ++ rest) (zlen xs) key flags out =
  Done (zlen (pairs key flags xs), overwrite out (concat (pairs key flags xs))).
Proof.
  intros Hxs Hn Hout. pose proof degree_bounds as Hd. pose proof (zlen_nonneg xs).
  unfold compress_parents_parallel. rewrite parents_loop by lia. cbn [exec_bind].
  set (k := Z.to_nat (zlen xs / 2)).
  assert (Hk : zlen xs = 2 * Z.of_nat k \/ zlen xs = 2 * Z.of_nat k + 1).
  { pose proof (Z.div_mod (zlen xs) 2 ltac:(lia)). pose proof (Z.mod_pos_bound (zlen xs) 2 ltac:(lia)).
    assert (0 <= zlen xs / 2) by (apply Z.div_pos; lia). lia. }
  pose proof (pairs_take k xs Hk) as Hpt. pose proof (zlen_take_pairs k xs Hk) as Hlt.
  assert (Htk : Forall is_cv (take k (pairs key flags xs)))
    by (apply Forall_take, pairs_is_cv; done).
  assert (Hps : zlen (pairs key flags xs) = Z.of_nat k + zlen (drop (2 * k) xs))
    by (rewrite Hpt at 1; rewrite zlen_app, Hlt; done).
  pose proof (zlen_nonneg (drop (2 * k) xs)).
  rewrite parents_hashed by (done || lia). cbn [exec_bind].
  set (ts := take k (pairs key flags xs)) in *.
  rewrite zlen_ptrs, Z.gtb_ltb.
  destruct (Z.ltb_spec (2 * Z.of_nat k) (zlen xs)) as [Hodd|Heven].
  - destruct (one_elem (drop (2 * k) xs)) as [x Hx].
    { unfold zlen in *. rewrite length_drop. lia. }
    rewrite Hx in Hpt, Hps. rewrite zlen_cons, zlen_nil in Hps.
    assert (Hxs2 : concat xs ++ rest = concat (take (2 * k) xs) ++ x ++ rest).
    { rewrite <- (take_drop (2 * k) xs) at 1. rewrite Hx, concat_app, <- app_assoc.
      cbn [concat]. rewrite app_nil_r. done. }
    assert (Hxcv : is_cv x).
    { pose proof (Forall_drop _ (2 * k) _ Hxs) as Hf. rewrite Hx in Hf.
      apply Forall_inv in Hf. done. }
    unfold BLAKE3_OUT_LEN. rewrite Hxs2, load_range_mid; cycle 1.
    { rewrite zlen_concat_cvs by (apply Forall_take; done).
      unfold zlen in *. rewrite length_take. lia. }
    { done. }
    cbn [exec_bind]. rewrite Hpt in Hout |- *. rewrite concat_app. cbn [concat].
    rewrite app_nil_r. rewrite zlen_app, zlen_cons, zlen_nil, Hlt in Hout |- *.
    replace (Z.of_nat k * 32) with (zlen (concat ts))
      by (rewrite zlen_concat_cvs, Hlt by done; lia).
    rewrite store_range_after; [done|].
    rewrite zlen_concat_cvs, Hlt by done. unfold is_cv in Hxcv. lia.
  - rewrite drop_ge, app_nil_r in Hpt by (unfold zlen in *; lia).
    rewrite <- Hpt in *. cbn [exec_bind]. rewrite Hlt. done.
Qed.

(** ** The chunk level *)

(** The chaining values of the first [n] chunks of [m]. *)
Fixpoint chunk_cvs (ctr : Z) m (n : nat) : list (list Z) :=
  match n with
  | O => []
  | S n => cv ctr (ztake 1024 m) :: chunk_cvs (ctr + 1) (zdrop 1024 m) n
  end.

Lemma zlen_chunk_cvs ctr m n : zlen (chunk_cvs ctr m n) = Z.of_nat n.
Proof.
  revert ctr m. induction n as [|n IH]; intros ctr m; [done|].
  simpl. rewrite zlen_cons, IH. lia.
Qed.

Lemma chunk_cvs_is_cv ctr m n : Forall is_cv (chunk_cvs ctr m n).
Proof. revert ctr m. induction n; intros; simpl; constructor; done. Qed.

Lemma chunk_cvs_app n1 n2 ctr l r : zlen l = 1024 * Z.of_nat n1 ->
  chunk_cvs ctr (l ++ r) (n1 + n2) =
  chunk_cvs ctr l n1 ++ chunk_cvs (ctr + Z.of_nat n1) r n2.
Proof.
  revert ctr l. induction n1 as [|n1 IH]; intros ctr l Hl.
  - rewrite (zlen_nil_inv l) by lia. simpl. f_equal. lia.
  - simpl. rewrite ztake_app_le, zdrop_app_le by lia. f_equal.
    rewrite IH by len. f_equal. f_equal. lia.
Qed.

Lemma chunk_cvs_snoc n ctr m :
  chunk_cvs ctr m (n + 1) =
  chunk_cvs ctr m n ++ [cv (ctr + Z.of_nat n) (ztake 1024 (zdrop (1024 * Z.of_nat n) m))].
Proof.
  revert ctr m. induction n as [|n IH]; intros ctr m; simpl.
  - rewrite Z.add_0_r, zdrop_0 by lia. done.
  - rewrite IH, zdrop_zdrop by lia.
    replace (ctr + 1 + Z.of_nat n) with (ctr + Z.of_nat (S n)) by lia.
    replace (1024 + 1024 * Z.of_nat n) with (1024 * Z.of_nat (S n)) by lia. done.
Qed.

Lemma subtree_cv_split ctr j l r : 0 <= j ->
  zlen l = 1024 * 2 ^ j -> 0 < zlen r <= 1024 * 2 ^ j ->
  cv ctr (l ++ r) = pcv (cv ctr l) (cv (ctr + 2 ^ j) r).
Proof. intros. unfold subtree_cv at 1. rewrite (subtree_node_split _ _ _ j) by done. done. Qed.

Lemma chunk_cvs_tree n ctr m : 1024 * (Z.of_nat n - 1) < zlen m <= 1024 * Z.of_nat n ->
  0 < zlen m -> tree_cv key flags (chunk_cvs ctr m n) (cv ctr m).
Proof.
  revert ctr m. induction n as [n IH] using lt_wf_ind. intros ctr m Hn Hm.
  destruct (Z.le_gt_cases (zlen m) 1024) as [Hle|Hgt].
  { assert (n = 1%nat) as -> by lia. simpl. rewrite ztake_all by done. constructor. }
  destruct (chunk_height (zlen m) Hgt) as (j & Hj & Hjm).
  rewrite Z.pow_add_r in Hjm by lia. pose proof (pow2_pos j Hj).
  rewrite <- (ztake_zdrop (1024 * 2 ^ j) m).
  replace n with (Z.to_nat (2 ^ j) + (n - Z.to_nat (2 ^ j)))%nat by lia.
  rewrite chunk_cvs_app, Z2Nat.id by len. rewrite (subtree_cv_split _ j) by len.
  apply tree_cv_split with j; rewrite ?zlen_chunk_cvs; try lia; apply IH; len.
Qed.

Lemma chunk_cvs_tops n ctr j l r : 0 <= j ->
  zlen l = 1024 * 2 ^ j -> 0 < zlen r <= 1024 * 2 ^ j ->
  1024 * (Z.of_nat n - 1) < zlen l + zlen r <= 1024 * Z.of_nat n ->
  tops key flags (chunk_cvs ctr (l ++ r) n) (cv ctr l) (cv (ctr + 2 ^ j) r).
Proof.
  intros Hj Hl Hr Hn. pose proof (pow2_pos j Hj).
  replace n with (Z.to_nat (2 ^ j) + (n - Z.to_nat (2 ^ j)))%nat by lia.
  rewrite chunk_cvs_app, Z2Nat.id by lia.
  eexists j, _, _. split; [done|]. split; [done|]. rewrite !zlen_chunk_cvs.
  repeat split; try lia; apply chunk_cvs_tree; lia.
Qed.

Lemma hash_many_chunks k ctr m : 1024 * Z.of_nat k <= zlen m ->
  0 <= ctr -> ctr + Z.of_nat k < 2 ^ 64 ->
  hash_many_ref blake3_compress_in_place (ptrs 1024 m k) 16 key ctr true
    flags CHUNK_START CHUNK_END = concat (chunk_cvs ctr m k).
Proof.
  revert ctr m. induction k as [|k IH]; intros ctr m Hk H0 Hw; [done|].
  rewrite ptrs_cons by lia. cbn [hash_many_ref chunk_cvs concat].
  rewrite wrap_small by lia. rewrite IH by len. f_equal.
  rewrite <- (ztake_zdrop 1024 m) at 1. apply hash_one_chunk. len.
Qed.

Lemma chunks_loop m fuel : zlen m < 2 ^ 64 -> zlen m <= MAX_SIMD_DEGREE * 1024 ->
  (length m <= fuel)%nat ->
  while fuel (fun '(pos, _) => BLAKE3_CHUNK_LEN <=? u64 (zlen m - pos))
    (fun '(pos, arr) =>
       let! arr := push_ptr MAX_SIMD_DEGREE arr (zdrop pos m) in
       Done (pos + BLAKE3_CHUNK_LEN, arr)) (0, []) =
  Done (1024 * (zlen m / 1024), ptrs 1024 m (Z.to_nat (zlen m / 1024))).
Proof.
  intros Hw Hcap Hfuel. pose proof (zlen_nonneg m).
  edestruct (while_total (fun s : Z * list (list Z) => exists k,
      s = (1024 * Z.of_nat k, ptrs 1024 m k) /\ 1024 * Z.of_nat k <= zlen m)
    (fun s => Z.to_nat (zlen m - s.1))) with (fuel := fuel) (s := (0, @nil (list Z)))
    as (s' & Hs & (k & -> & Hk) & Hc).
  4: { rewrite Hs. f_equal. unfold BLAKE3_CHUNK_LEN in Hc.
       rewrite wrap_small in Hc by lia. apply Z.leb_gt in Hc.
       assert (zlen m / 1024 = Z.of_nat k) as ->
         by (symmetry; apply (Z.div_unique _ _ _ (zlen m - 1024 * Z.of_nat k)); lia).
       rewrite Nat2Z.id. done. }
  - intros s (k & -> & Hk) Hc. unfold BLAKE3_CHUNK_LEN in *.
    rewrite wrap_small in Hc by lia. apply Z.leb_le in Hc.
    unfold push_ptr. rewrite zlen_ptrs, (proj2 (Z.ltb_lt _ _)) by lia. simpl.
    eexists. split; [done|]. split; [|simpl; lia].
    exists (S k). rewrite ptrs_snoc. split; [f_equal; lia|lia].
  - exists 0%nat. split; [done|lia].
  - unfold zlen in *. simpl. lia.
Qed.

Lemma chunks_hashed k ctr m out : 1024 * Z.of_nat k <= zlen m ->
  0 <= ctr -> ctr + Z.of_nat k < 2 ^ 64 -> 32 * Z.of_nat k <= zlen out ->
  hash_many_into (ptrs 1024 m k) (Z.to_nat (BLAKE3_CHUNK_LEN / BLAKE3_BLOCK_LEN)) key ctr
    true flags CHUNK_START CHUNK_END out =
  Done (overwrite out (concat (chunk_cvs ctr m k))).
Proof.
  intros Hk H0 Hw Hout. change (Z.to_nat (BLAKE3_CHUNK_LEN / BLAKE3_BLOCK_LEN)) with 16%nat.
  assert (Hread : Forall (fun i => BLAKE3_BLOCK_LEN * Z.of_nat 16 <= zlen i) (ptrs 1024 m k)).
  { apply ptrs_readable; unfold BLAKE3_BLOCK_LEN; lia. }
  unfold hash_many_into. rewrite forallb_readable by done. cbn [c_assert exec_bind].
  rewrite hash_many_spec; try done.
  2: unfold in_width; lia.
  rewrite hash_many_chunks by lia. apply store_range_front.
  rewrite zlen_concat_cvs, zlen_chunk_cvs by apply chunk_cvs_is_cv. lia.
Qed.

(** The trailing partial chunk, hashed through a chunk state of its own. *)
Lemma partial_chunk_ok ctr m : zlen m <= 1024 ->
  exists cs, chunk_state_update (set_chunk_counter (chunk_state_init key flags) ctr) m = Done cs /\
    output_chaining_value (chunk_state_output cs) = cv ctr m /\ chunk_counter cs = ctr.
Proof.
  intros Hm. rewrite chunk_state_init_of, chunk_state_update_of by len.
  eexists. split; [done|]. rewrite chunk_state_output_of.
  unfold subtree_cv. rewrite subtree_node_chunk by done. done.
Qed.

Lemma compress_chunks_parallel_ok n ctr m out :
  1024 * (Z.of_nat n - 1) < zlen m <= 1024 * Z.of_nat n -> (0 < n)%nat ->
  zlen m <= MAX_SIMD_DEGREE * 1024 -> 0 <= ctr -> ctr + Z.of_nat n < 2 ^ 64 ->
  32 * Z.of_nat n <= zlen out ->
  compress_chunks_parallel m key ctr flags out =
  Done (Z.of_nat n, overwrite out (concat (chunk_cvs ctr m n))).
Proof.
  intros Hn Hpos Hmax H0 Hw Hout. pose proof degree_bounds.
  unfold compress_chunks_parallel. rewrite chunks_loop by lia. cbn [exec_bind].
  set (k := Z.to_nat (zlen m / 1024)).
  assert (Hk : Z.of_nat k = zlen m / 1024) by (apply Z2Nat.id, Z.div_pos; lia).
  pose proof (Z.div_mod (zlen m) 1024 ltac:(lia)) as Hdm.
  pose proof (Z.mod_pos_bound (zlen m) 1024 ltac:(lia)).
  rewrite <- Hk in *. rewrite chunks_hashed by lia. cbn [exec_bind].
  rewrite zlen_ptrs, Z.gtb_ltb.
  destruct (Z.ltb_spec (1024 * Z.of_nat k) (zlen m)) as [Hpart|Hfull].
  - assert (n = k + 1)%nat as -> by lia. rewrite wrap_small by lia.
    destruct (partial_chunk_ok (ctr + Z.of_nat k) (zdrop (1024 * Z.of_nat k) m))
      as (cs & -> & Hcv & _); [len|]. cbn [exec_bind]. rewrite Hcv.
    rewrite chunk_cvs_snoc, concat_app, (ztake_all 1024) by len. cbn [concat].
    rewrite app_nil_r. unfold BLAKE3_OUT_LEN.
    assert (Hz : zlen (concat (chunk_cvs ctr m k)) = Z.of_nat k * 32).
    { rewrite zlen_concat_cvs, zlen_chunk_cvs by apply chunk_cvs_is_cv. lia. }
    rewrite <- Hz, store_range_after; [simpl; rewrite Nat2Z.inj_add; done|].
    rewrite Hz. change (zlen (cv _ _)) with 32. lia.
  - assert (n = k) as -> by lia. done.
Qed.

(** ** Whole subtrees *)

(** The widest level: at least two chaining values are kept. *)
Abbreviation W := (Z.max 2 blake3_simd_degree).

(** [xs] are the chaining values of one level of the tree over [m]: the single
    value of a chunk, or a level that stands for the two children of the top
    node.  The level has at most [W] values, and is full when the tree is. *)
Definition wide_cvs (ctr : Z) m (xs : list (list Z)) : Prop :=
  Forall is_cv xs /\
  (zlen m <= 1024 /\ xs = [cv ctr m] \/
   exists j l r, 0 <= j /\ m = l ++ r /\ zlen l = 1024 * 2 ^ j /\
     0 < zlen r <= 1024 * 2 ^ j /\ tops key flags xs (cv ctr l) (cv (ctr + 2 ^ j) r)) /\
  (forall a, 0 <= a -> zlen m <= 1024 * 2 ^ a ->
     zlen xs <= Z.min (2 ^ a) W /\ (zlen m = 1024 * 2 ^ a -> zlen xs = Z.min (2 ^ a) W)).

Lemma wide_tree ctr m xs : wide_cvs ctr m xs -> tree_cv key flags xs (cv ctr m).
Proof.
  intros (_ & [(_ & ->)|(j & l & r & Hj & -> & Hl & Hr & Ht)] & _); [constructor|].
  rewrite (subtree_cv_split _ j) by done. apply tops_tree_cv. done.
Qed.

Lemma chunk_count n : 0 < n -> exists k, (0 < k)%nat /\ 1024 * (Z.of_nat k - 1) < n <= 1024 * Z.of_nat k.
Proof.
  intros Hn. exists (Z.to_nat ((n + 1023) / 1024)).
  pose proof (Z.div_mod (n + 1023) 1024 ltac:(lia)).
  pose proof (Z.mod_pos_bound (n + 1023) 1024 ltac:(lia)). lia.
Qed.

(** A message longer than a chunk, cut where the tree cuts it. *)
Lemma tree_cut m : 1024 < zlen m ->
  exists j, 0 <= j /\ m = ztake (1024 * 2 ^ j) m ++ zdrop (1024 * 2 ^ j) m /\
    zlen (ztake (1024 * 2 ^ j) m) = 1024 * 2 ^ j /\
    0 < zlen (zdrop (1024 * 2 ^ j) m) <= 1024 * 2 ^ j /\
    1024 * 2 ^ j < zlen m <= 1024 * 2 ^ (j + 1).
Proof.
  intros Hm. destruct (chunk_height (zlen m) Hm) as (j & Hj & Hjm). exists j.
  rewrite ztake_zdrop. pose proof (pow2_pos j Hj).
  pose proof Hjm as Hjm'. rewrite Z.pow_add_r in Hjm by lia.
  repeat split; try done; try lia; len.
Qed.

Lemma wide_chunks n ctr m : 1024 * (Z.of_nat n - 1) < zlen m <= 1024 * Z.of_nat n ->
  (0 < n)%nat -> Z.of_nat n <= blake3_simd_degree -> wide_cvs ctr m (chunk_cvs ctr m n).
Proof.
  intros Hn Hpos HD. split; [apply chunk_cvs_is_cv|]. rewrite zlen_chunk_cvs. split; [|lia].
  destruct (Z.le_gt_cases (zlen m) 1024) as [Hle|Hgt]; [left|right].
  - assert (n = 1%nat) as -> by lia. simpl. rewrite ztake_all by done. done.
  - destruct (tree_cut m Hgt) as (j & Hj & Hm & Hl & Hr & _).
    exists j, (ztake (1024 * 2 ^ j) m), (zdrop (1024 * 2 ^ j) m).
    do 4 (split; [done|]). rewrite Hm at 1. apply chunk_cvs_tops; try done.
    rewrite <- zlen_app, <- Hm. lia.
Qed.

(** Two full-width halves of which the left one is a single chunk. *)
Lemma wide_two ctr l r : zlen l = 1024 -> 0 < zlen r <= 1024 ->
  blake3_simd_degree = 1 -> wide_cvs ctr (l ++ r) ([cv ctr l] ++ [cv (ctr + 1) r]).
Proof.
  intros Hl Hr HD. split; [repeat constructor|]. split.
  - right. exists 0, l, r. change (2 ^ 0) with 1. do 4 (split; [done || lia|]).
    exists 0, [cv ctr l], [cv (ctr + 1) r]. repeat split; try done; try lia; constructor.
  - rewrite HD. intros a Ha Hlen. rewrite zlen_app in Hlen. rewrite !zlen_app.
    assert (1 <= a) by (destruct (Z.eq_dec a 0) as [->|]; [change (2 ^ 0) with 1 in *|]; lia).
    assert (2 ^ 1 <= 2 ^ a) by (apply Z.pow_le_mono_r; lia). change (2 ^ 1) with 2 in *.
    change (zlen [_]) with 1. lia.
Qed.

(** Two halves whose level is as wide as it gets: their parents. *)
Lemma wide_parents ctr j l r xl xr : 1 <= j -> W <= 2 ^ j ->
  zlen l = 1024 * 2 ^ j -> 0 < zlen r <= 1024 * 2 ^ j ->
  wide_cvs ctr l xl -> wide_cvs (ctr + 2 ^ j) r xr ->
  zlen xl = W /\ 0 < zlen xr <= W /\
  wide_cvs ctr (l ++ r) (pairs key flags (xl ++ xr)).
Proof.
  intros Hj HW Hl Hr HL HR.
  pose proof (wide_tree _ _ _ HL) as TL. pose proof (wide_tree _ _ _ HR) as TR.
  destruct HL as (Cl & _ & Wl), HR as (Cr & _ & Wr).
  destruct (Wl j) as [_ El]; [lia|lia|]. specialize (El Hl).
  destruct (Wr j) as [Lr Er]; [lia|lia|].
  pose proof (tree_cv_pos _ _ _ _ TR) as Pr.
  split; [lia|]. split; [lia|].
  assert (Hp : 2 ^ (j + 1) = 2 * 2 ^ j) by (rewrite Z.pow_add_r by lia; lia).
  assert (HT : tops key flags (pairs key flags (xl ++ xr)) (cv ctr l) (cv (ctr + 2 ^ j) r)).
  { apply pairs_tops; [|len]. destruct degree_pow2 as (i & Hi & HWi).
    exists i, xl, xr. repeat split; try done; lia. }
  split; [apply pairs_is_cv, Forall_app; done|]. split.
  - right. exists j, l, r. repeat split; try done; lia.
  - intros a Ha Hlen. rewrite zlen_pairs, !zlen_app in *.
    assert (j < a) by (apply (Z.pow_lt_mono_r_iff 2); lia).
    assert (2 ^ (j + 1) <= 2 ^ a) by (apply Z.pow_le_mono_r; lia).
    assert (Hup : (zlen xl + zlen xr + 1) / 2 < W + 1) by (apply Z.div_lt_upper_bound; lia).
    split; [lia|]. intros Heq.
    assert (2 ^ a <= 2 ^ (j + 1)) by lia.
    assert (Hxr : zlen xr = W) by lia.
    rewrite El, Hxr. replace (Z.min (2 ^ j) W + W + 1) with (1 + W * 2) by lia.
    rewrite Z.div_add by lia. change (1 / 2) with 0. lia.
Qed.

Lemma left_subtree_len_ok n j : 0 <= j -> n < 2 ^ 64 ->
  1024 * 2 ^ j < n <= 1024 * 2 ^ (j + 1) -> left_subtree_len n = 1024 * 2 ^ j.
Proof.
  intros Hj Hw Hn. pose proof (pow2_pos j Hj).
  pose proof (left_len_split n j Hj Hn) as Hs. unfold left_len in Hs.
  unfold left_subtree_len, BLAKE3_CHUNK_LEN in *. rewrite (wrap_small 64 (n - 1)) by lia.
  rewrite round_down_pow2, Z.mul_comm, Hs; [rewrite wrap_small by lia; done|].
  split; [apply Z.div_str_pos; lia|apply Z.div_lt_upper_bound; lia].
Qed.

(** The right half starts where the left half ends: the array is contiguous. *)
Lemma halves_contiguous arr xl xr off : Forall is_cv xl -> off = 32 * zlen xl ->
  exists rest, ztake off (overwrite arr (concat xl)) ++
    overwrite (zdrop off (overwrite arr (concat xl))) (concat xr) = concat (xl ++ xr) ++ rest.
Proof.
  intros Hxl ->. rewrite <- zlen_concat_cvs by done. unfold overwrite at 1 2.
  eexists. rewrite ztake_app_le, ztake_all by lia. rewrite concat_app, <- app_assoc.
  unfold overwrite. reflexivity.
Qed.

(** The half of the input that fills its own level. *)
Lemma wide_width ctr m xs j : 0 <= j -> zlen m = 1024 * 2 ^ j -> wide_cvs ctr m xs ->
  zlen xs = Z.min (2 ^ j) W.
Proof. intros Hj Hm (_ & _ & H). destruct (H j) as [_ E]; [done|lia|auto]. Qed.

Lemma wide_at_most ctr m xs : wide_cvs ctr m xs -> zlen xs <= W.
Proof.
  intros (_ & _ & H). destruct (H (Z.of_nat (length m))) as [E _]; [lia| |lia].
  apply length_fuel.
Qed.

Lemma wide_chunk ctr m xs : wide_cvs ctr m xs -> zlen m <= 1024 -> xs = [cv ctr m].
Proof.
  intros (_ & [(_ & ->)|(j & l & r & Hj & -> & Hl & Hr & _)] & _) Hm; [done|].
  rewrite zlen_app in Hm. pose proof (pow2_pos j Hj). lia.
Qed.

(** Only two single chunks give a left half of one chaining value. *)
Lemma single_halves j : 0 <= j -> blake3_simd_degree <= 2 ^ j -> Z.min (2 ^ j) W = 1 ->
  j = 0 /\ blake3_simd_degree = 1.
Proof.
  intros Hj HD Hmin. pose proof degree_bounds. destruct (Z.eq_dec j 0) as [->|].
  - change (2 ^ 0) with 1 in *. lia.
  - assert (2 ^ 1 <= 2 ^ j) by (apply Z.pow_le_mono_r; lia). change (2 ^ 1) with 2 in *. lia.
Qed.

(** The subtree is cut at most [fuel] levels up and at least one full vector of
    chunks up. *)
Lemma split_height fuel j n : 0 <= j -> blake3_simd_degree * 1024 < n ->
  1024 * 2 ^ j < n <= 1024 * 2 ^ (j + 1) -> n <= 1024 * 2 ^ Z.of_nat (S fuel) ->
  2 ^ j <= 2 ^ Z.of_nat fuel /\ blake3_simd_degree <= 2 ^ j /\ 1 <= 2 ^ j.
Proof.
  intros Hj HD Hn Hf. destruct simd_degree_pow2 as (d & Hd & Hdeg). rewrite Hdeg in *.
  assert (j < Z.of_nat (S fuel)) by (apply (Z.pow_lt_mono_r_iff 2); lia).
  assert (d < j + 1) by (apply (Z.pow_lt_mono_r_iff 2); lia).
  repeat split; [| |apply pow2_pos; done]; apply Z.pow_le_mono_r; lia.
Qed.

(** [degree], the offset of the right half in the array, is the width of the
    left one. *)
Lemma right_cvs_offset j : 0 <= j -> blake3_simd_degree <= 2 ^ j ->
  (if (1024 <? 1024 * 2 ^ j) && (blake3_simd_degree =? 1) then 2 else blake3_simd_degree) =
  Z.min (2 ^ j) W.
Proof.
  intros Hj HD. pose proof degree_bounds as HB. destruct (Z.eq_dec j 0) as [->|].
  - change (2 ^ 0) with 1 in *. simpl. lia.
  - assert (2 ^ 1 <= 2 ^ j) by (apply Z.pow_le_mono_r; lia). change (2 ^ 1) with 2 in *.
    rewrite (proj2 (Z.ltb_lt _ _)) by lia. simpl.
    destruct (Z.eqb_spec blake3_simd_degree 1); lia.
Qed.

Section Junk.
Context (junk : Z -> list Z) (Hjunk : forall n, 0 <= n -> zlen (junk n) = n).

Lemma compress_subtree_wide_ok fuel ctr m out :
  0 < zlen m <= 1024 * 2 ^ Z.of_nat fuel -> 0 <= ctr -> 1024 * ctr + zlen m < 2 ^ 64 ->
  32 * max_or_2 <= zlen out ->
  exists xs, wide_cvs ctr m xs /\
    compress_subtree_wide junk fuel m key ctr flags out =
    Done (zlen xs, overwrite out (concat xs)).
Proof.
  revert ctr m out. induction fuel as [|fuel IH]; intros ctr m out Hm H0 Hw Hout;
    pose proof degree_bounds as HD; simpl; unfold BLAKE3_CHUNK_LEN.
  all: destruct (Z.leb_spec (zlen m) (blake3_simd_degree * 1024)) as [Hsmall|Hbig].
  1,3: destruct (chunk_count (zlen m)) as (n & Hn0 & Hn); [lia|];
    exists (chunk_cvs ctr m n); split; [apply wide_chunks; lia|];
    rewrite zlen_chunk_cvs; apply compress_chunks_parallel_ok; lia.
  { change (2 ^ Z.of_nat 0) with 1 in Hm. lia. }
  destruct (tree_cut m) as (j & Hj & Hcut & Hl & Hr & Hjm); [lia|].
  rewrite (left_subtree_len_ok _ j) by lia.
  set (l := ztake (1024 * 2 ^ j) m) in *. set (r := zdrop (1024 * 2 ^ j) m) in *.
  assert (Hzm : zlen m = zlen l + zlen r) by (rewrite Hcut at 1; apply zlen_app).
  destruct (split_height fuel j (zlen m)) as (Hjf & HDj & Hp); [lia..|].
  rewrite right_cvs_offset by lia.
  replace (1024 * 2 ^ j / 1024) with (2 ^ j) by (rewrite Z.mul_comm, Z.div_mul; lia).
  rewrite (wrap_small 64 (ctr + 2 ^ j)) by lia.
  unfold BLAKE3_OUT_LEN.
  destruct (IH ctr l (junk (2 * max_or_2 * 32))) as (xl & HL & ->);
    [lia..|rewrite Hjunk; lia|]. cbn [exec_bind].
  pose proof (wide_width _ _ _ j Hj Hl HL) as Exl. rewrite <- Exl.
  pose proof (wide_at_most _ _ _ HL) as Bxl.
  assert (Cl : Forall is_cv xl) by apply HL.
  destruct (IH (ctr + 2 ^ j) r
    (zdrop (zlen xl * 32) (overwrite (junk (2 * max_or_2 * 32)) (concat xl)))) as (xr & HR & ->).
  1-3: lia.
  { rewrite zlen_zdrop, zlen_overwrite, Hjunk;
      rewrite ?zlen_concat_cvs, ?Hjunk by (done || lia); lia. }
  cbn [exec_bind].
  destruct (halves_contiguous (junk (2 * max_or_2 * 32)) xl xr (zlen xl * 32))
    as [rest ->]; [done|lia|].
  pose proof (wide_at_most _ _ _ HR) as Bxr.
  assert (Cr : Forall is_cv xr) by apply HR.
  assert (Cx : Forall is_cv (xl ++ xr)) by (apply Forall_app; done).
  rewrite Hcut.
  destruct (Z.eqb_spec (zlen xl) 1) as [Hone|Hmany].
  - destruct (single_halves j) as (-> & HD1); [lia..|].
    change (2 ^ 0) with 1 in *. rewrite (wide_chunk _ _ _ HL), (wide_chunk _ _ _ HR) in * by lia.
    exists ([cv ctr l] ++ [cv (ctr + 1) r]). split; [apply wide_two; lia|].
    rewrite load_range_front by done. cbn [exec_bind].
    rewrite store_range_front by (change (zlen (concat _)) with 64; lia). done.
  - destruct (wide_parents ctr j l r xl xr) as (Wl & Wr & HP); [| |done..|].
    { destruct (Z.eq_dec j 0) as [->|]; [change (2 ^ 0) with 1 in *|]; lia. }
    { destruct (Z.eq_dec j 0) as [->|]; [change (2 ^ 0) with 1 in *; lia|].
      assert (2 ^ 1 <= 2 ^ j) by (apply Z.pow_le_mono_r; lia).
      change (2 ^ 1) with 2 in *. lia. }
    eexists. split; [exact HP|]. rewrite <- zlen_app.
    apply compress_parents_parallel_ok; [done|rewrite zlen_app; lia|].
    pose proof (wide_at_most _ _ _ HP). lia.
Qed.

(** The state of the reduction loop of [compress_subtree_to_parent_node]. *)
Definition reducing (a b : list Z) (s : Z * list Z * list Z) : Prop :=
  let '(num_cvs, cv_array, out_array) := s in
  exists ys rest, num_cvs = zlen ys /\ cv_array = concat ys ++ rest /\
    Forall is_cv ys /\ tops key flags ys a b /\
    zlen cv_array = max_or_2 * 32 /\ zlen out_array = max_or_2 * 32 / 2.

Lemma reduce_step a b num_cvs cv_array out_array :
  reducing a b (num_cvs, cv_array, out_array) -> 2 < num_cvs ->
  exists s', (let! (num_cvs, out_array) :=
       compress_parents_parallel cv_array num_cvs key flags out_array in
     let! cvs := load_range out_array 0 (num_cvs * BLAKE3_OUT_LEN) in
     let! cv_array := store_range cv_array 0 cvs in
     Done (num_cvs, cv_array, out_array)) = Done s' /\
    reducing a b s' /\ s'.1.1 < num_cvs.
Proof.
  intros (ys & rest & -> & -> & Hys & HT & Hcv & Hout) Hn. pose proof degree_bounds as HD.
  rewrite zlen_app, zlen_concat_cvs in Hcv by done. pose proof (zlen_nonneg rest).
  assert (Hps := pairs_is_cv key flags ys Hys).
  pose proof (zlen_pairs key flags ys) as Hlp.
  assert (zlen (pairs key flags ys) < max_or_2 / 2 + 1)
    by (rewrite Hlp; apply Z.div_lt_upper_bound; lia).
  assert (zlen (pairs key flags ys) < zlen ys) by (rewrite Hlp; apply Z.div_lt_upper_bound; lia).
  assert (Hhalf : max_or_2 * 32 / 2 = max_or_2 / 2 * 32)
    by (symmetry; apply (Z.div_unique _ _ _ 0); lia).
  assert (Hc : zlen (concat (pairs key flags ys)) = 32 * zlen (pairs key flags ys))
    by (apply zlen_concat_cvs; done).
  rewrite compress_parents_parallel_ok by (done || lia). cbn [exec_bind].
  unfold overwrite, BLAKE3_OUT_LEN. rewrite load_range_front by lia. cbn [exec_bind].
  rewrite store_range_front by (rewrite zlen_app, !zlen_concat_cvs by done; lia).
  cbn [exec_bind]. eexists. split; [done|]. split; [|done].
  eexists (pairs key flags ys), _. split; [done|]. split; [unfold overwrite; done|].
  split; [done|]. split; [apply pairs_tops; done|].
  split; [rewrite zlen_overwrite; rewrite zlen_app, !zlen_concat_cvs by done; lia|].
  rewrite zlen_app, zlen_zdrop, Hc. pose proof (zlen_nonneg (pairs key flags ys)). lia.
Qed.

Lemma reduce_loop a b s : reducing a b s ->
  exists s', while (Z.to_nat s.1.1) (fun '(num_cvs, _, _) => 2 <? num_cvs)
    (fun '(num_cvs, cv_array, out_array) =>
       let! (num_cvs, out_array) :=
         compress_parents_parallel cv_array num_cvs key flags out_array in
       let! cvs := load_range out_array 0 (num_cvs * BLAKE3_OUT_LEN) in
       let! cv_array := store_range cv_array 0 cvs in
       Done (num_cvs, cv_array, out_array)) s = Done s' /\
    exists rest, s'.1.2 = (a ++ b) ++ rest.
Proof.
  intros Hs.
  edestruct (while_total (reducing a b) (fun s => Z.to_nat s.1.1)) as (s' & -> & Hs' & Hc);
    [|exact Hs|done|].
  { intros [[num cvs] outs] Hr Hc. apply Z.ltb_lt in Hc.
    destruct (reduce_step _ _ _ _ _ Hr Hc) as (s1 & E & Hr1 & Hlt).
    exists s1. split; [exact E|]. split; [done|]. simpl. lia. }
  exists s'. split; [done|]. destruct s' as [[num cvs] outs].
  destruct Hs' as (ys & rest & -> & -> & Hys & HT & _). apply Z.ltb_ge in Hc.
  rewrite (tops_small _ _ _ _ _ HT) by done. exists rest. simpl. rewrite app_nil_r. done.
Qed.

Lemma height_unique i j (l r l' r' : list Z) : 0 <= i -> 0 <= j -> l ++ r = l' ++ r' ->
  zlen l = 1024 * 2 ^ i -> 0 < zlen r <= 1024 * 2 ^ i ->
  zlen l' = 1024 * 2 ^ j -> 0 < zlen r' <= 1024 * 2 ^ j -> i = j /\ l = l' /\ r = r'.
Proof.
  intros Hi Hj Heq Hl Hr Hl' Hr'.
  pose proof (left_len_split (zlen l + zlen r) i Hi) as Ei.
  pose proof (left_len_split (zlen l + zlen r) j Hj) as Ej.
  rewrite !Z.pow_add_r in Ei, Ej by lia.
  pose proof (f_equal zlen Heq) as Hz. rewrite !zlen_app in Hz.
  assert (E : 1024 * 2 ^ i = 1024 * 2 ^ j) by (rewrite <- Ei, <- Ej; lia).
  split; [apply (Z.pow_inj_r 2); lia|]. apply app_inj_1; [|done]. unfold zlen in *. lia.
Qed.

Lemma compress_subtree_to_parent_node_ok ctr j l r : 0 <= j -> 0 <= ctr ->
  zlen l = 1024 * 2 ^ j -> 0 < zlen r <= 1024 * 2 ^ j ->
  1024 * ctr + zlen l + zlen r < 2 ^ 64 ->
  compress_subtree_to_parent_node junk (l ++ r) key ctr flags =
  Done (cv ctr l ++ cv (ctr + 2 ^ j) r).
Proof.
  intros Hj H0 Hl Hr Hw. pose proof degree_bounds as HD. pose proof (pow2_pos j Hj).
  unfold compress_subtree_to_parent_node.
  destruct (compress_subtree_wide_ok subtree_fuel ctr (l ++ r) (junk (max_or_2 * BLAKE3_OUT_LEN)))
    as (xs & HX & ->); [|done|..].
  { rewrite zlen_app. change (2 ^ Z.of_nat subtree_fuel) with 18446744073709551616. lia. }
  { rewrite zlen_app. lia. }
  { rewrite Hjunk; unfold BLAKE3_OUT_LEN; lia. }
  cbn [exec_bind]. pose proof (wide_at_most _ _ _ HX) as HWx.
  destruct HX as (Cx & [(Hs & _)|(i & l' & r' & Hi & Heq & Hl' & Hr' & HT)] & _).
  { rewrite zlen_app in Hs. lia. }
  destruct (height_unique j i l r l' r') as (<- & <- & <-); try done.
  rewrite (proj2 (Z.leb_le _ _)) by lia. cbn [c_assert exec_bind].
  set (arr := overwrite _ _). set (a := cv ctr l) in *. set (b := cv (ctr + 2 ^ j) r) in *.
  assert (Hred : reducing a b (zlen xs, arr, junk (max_or_2 * BLAKE3_OUT_LEN / 2))).
  { exists xs. eexists. split; [done|]. split; [unfold arr, overwrite; done|].
    split; [done|]. split; [done|]. unfold arr, BLAKE3_OUT_LEN.
    rewrite zlen_overwrite; rewrite ?zlen_concat_cvs, !Hjunk by (done || lia || (apply Z.div_pos; lia)); lia. }
  assert (Hfin : forall rest, load_range ((a ++ b) ++ rest) 0 (2 * BLAKE3_OUT_LEN) = Done (a ++ b))
    by (intros; apply load_range_front; done).
  destruct (Z.ltb_spec 2 max_or_2) as [Hwide|Hnarrow].
  - destruct (reduce_loop _ _ _ Hred) as ([[num cvs] outs] & HL & rest & Hc).
    simpl in HL, Hc. rewrite HL. cbn [exec_bind]. rewrite Hc. apply Hfin.
  - cbn [exec_bind]. unfold arr, overwrite. rewrite (tops_small _ _ _ _ _ HT) by lia.
    cbn [concat]. rewrite app_nil_r. apply Hfin.
Qed.
End Junk.
End Subtree.
