(* ===== verification/Blake3Stack.v ===== *)
(** * The stack of chaining values

    The lazily merged [cv_stack] of [blake3_hasher]: which subtrees of the message
    its entries stand for, [hasher_merge_cv_stack] and [hasher_push_cv], and the
    fold of [blake3_hasher_finalize_seek] over it. *)

From Stdlib Require Import ZArith Lia.
From stdpp Require Import base numbers list list_numbers.
From S2P Require Import Prelude Blake3Impl Blake3Backend Blake3Hasher.
From S2P Require Import Blake3Spec Blake3Chunk Blake3Wide Blake3Subtree.
Local Open Scope Z_scope.

Section Stack.
Context {B : Backend}.
Context (key : list Z) (flags : Z).
Implicit Types M : list Z.
Implicit Types S : list (list Z).

Abbreviation cv := (subtree_cv key flags).
Abbreviation pcv := (parent_cv key flags).

(** ** The stack as a function of the message *)

(** The bytes of the [q]-th subtree of [2 ^ j] chunks, and its chaining value. *)
Definition span M (q j : Z) : list Z :=
  ztake (1024 * 2 ^ j) (zdrop (1024 * (q * 2 ^ j)) M).
Definition sub M (q j : Z) : list Z := cv (q * 2 ^ j) (span M q j).

(** The fully merged stack for [q] subtrees of [2 ^ j] chunks: one entry for each
    one bit of [q], the largest subtree first. *)
Fixpoint mstack_pos M (j : Z) (p : positive) : list (list Z) :=
  match p with
  | xH => [sub M 0 j]
  | xO p => mstack_pos M (j + 1) p
  | xI p => mstack_pos M (j + 1) p ++ [sub M (2 * Z.pos p) j]
  end.
Definition mstack M (j q : Z) : list (list Z) :=
  match q with Z.pos p => mstack_pos M j p | _ => [] end.

Lemma mstack_even M j q : 0 <= q -> mstack M j (2 * q) = mstack M (j + 1) q.
Proof. destruct q; done || lia. Qed.

Lemma mstack_odd M j q : 0 <= q ->
  mstack M j (2 * q + 1) = mstack M (j + 1) q ++ [sub M (2 * q) j].
Proof. destruct q as [|p|p]; [done|done|lia]. Qed.

(** Induction on the binary digits. *)
Lemma binary_ind (P : Z -> Prop) : P 0 -> (forall q, 0 < q -> P q -> P (2 * q)) ->
  (forall q, 0 <= q -> P q -> P (2 * q + 1)) -> forall q, 0 <= q -> P q.
Proof.
  intros H0 He Ho q Hq. destruct q as [|p|p]; [done| |lia].
  clear Hq. induction p as [p IH|p IH|].
  - change (Z.pos p~1) with (2 * Z.pos p + 1). auto with lia.
  - change (Z.pos p~0) with (2 * Z.pos p). auto with lia.
  - apply (Ho 0); [lia|done].
Qed.

Lemma bit_count_succ q : 0 <= q -> bit_count (q + 1) <= bit_count q + 1.
Proof.
  revert q. refine (binary_ind _ _ _ _); [done|intros q Hq IH..].
  - rewrite bit_count_succ_double, bit_count_double by lia. lia.
  - replace (2 * q + 1 + 1) with (2 * (q + 1)) by lia.
    rewrite bit_count_double, bit_count_succ_double by lia. lia.
Qed.

Lemma zlen_mstack M q : 0 <= q -> forall j, zlen (mstack M j q) = bit_count q.
Proof.
  revert q. refine (binary_ind _ _ _ _); [done|intros q Hq IH j..].
  - rewrite mstack_even, bit_count_double by lia. apply IH.
  - rewrite mstack_odd, bit_count_succ_double, zlen_app, IH by lia. done.
Qed.

Lemma mstack_is_cv M q : 0 <= q -> forall j, Forall is_cv (mstack M j q).
Proof.
  revert q. refine (binary_ind _ _ _ _); [constructor|intros q Hq IH j..].
  - rewrite mstack_even by lia. apply IH.
  - rewrite mstack_odd by lia. apply Forall_app. split; [apply IH|]. repeat constructor.
Qed.

Lemma mstack_shift M q i : 0 <= q -> 0 <= i -> forall j, mstack M j (q * 2 ^ i) = mstack M (j + i) q.
Proof.
  intros Hq Hi. revert i Hi. apply (natlike_ind (fun i => forall j, _)).
  - intros j. change (2 ^ 0) with 1. rewrite Z.mul_1_r, Z.add_0_r. done.
  - intros i Hi IH j. rewrite Z.pow_succ_r by done.
    replace (q * (2 * 2 ^ i)) with (2 * (q * 2 ^ i)) by lia.
    rewrite mstack_even by lia. rewrite IH. f_equal. lia.
Qed.

(** Later input does not change the entries. *)
Lemma span_app M X q j : 0 <= q -> 0 <= j -> 1024 * ((q + 1) * 2 ^ j) <= zlen M ->
  span (M ++ X) q j = span M q j.
Proof.
  intros Hq Hj HM. pose proof (pow2_pos j Hj). unfold span.
  rewrite zdrop_app_le by nia. apply ztake_app_le. rewrite zlen_zdrop. nia.
Qed.

Lemma sub_app M X q j : 0 <= q -> 0 <= j -> 1024 * ((q + 1) * 2 ^ j) <= zlen M ->
  sub (M ++ X) q j = sub M q j.
Proof. intros. unfold sub. rewrite span_app by done. done. Qed.

Lemma mstack_app M X q : 0 <= q -> forall j, 0 <= j -> 1024 * (q * 2 ^ j) <= zlen M ->
  mstack (M ++ X) j q = mstack M j q.
Proof.
  revert q. refine (binary_ind _ _ _ _); [done|intros q Hq IH j Hj HM..];
    pose proof (pow2_pos j Hj); assert (2 ^ (j + 1) = 2 * 2 ^ j) by (rewrite Z.pow_add_r; lia).
  - rewrite !mstack_even by lia. apply IH; [lia|nia].
  - rewrite !mstack_odd by lia. rewrite IH, sub_app by nia. done.
Qed.

(** ** Merging *)

Lemma zlen_span M q j : 0 <= q -> 0 <= j -> 1024 * ((q + 1) * 2 ^ j) <= zlen M ->
  zlen (span M q j) = 1024 * 2 ^ j.
Proof. intros Hq Hj HM. pose proof (pow2_pos j Hj). unfold span. len. Qed.

Lemma span_merge M q j : 0 <= q -> 0 <= j ->
  span M q (j + 1) = span M (2 * q) j ++ span M (2 * q + 1) j.
Proof.
  intros Hq Hj. pose proof (pow2_pos j Hj). unfold span.
  rewrite Z.pow_add_r by lia. change (2 ^ 1) with 2.
  replace (q * (2 ^ j * 2)) with (2 * q * 2 ^ j) by lia.
  rewrite <- (ztake_zdrop (1024 * 2 ^ j) (zdrop (1024 * (2 * q * 2 ^ j)) M)) at 1.
  set (X := zdrop (1024 * (2 * q * 2 ^ j)) M).
  assert (HX : zdrop (1024 * ((2 * q + 1) * 2 ^ j)) M = zdrop (1024 * 2 ^ j) X).
  { unfold X. rewrite zdrop_zdrop by nia. f_equal. lia. }
  rewrite HX. destruct (Z.le_gt_cases (zlen X) (1024 * 2 ^ j)).
  - rewrite (zdrop_all _ X), app_nil_r by done. rewrite ztake_ztake.
    rewrite (ztake_all _ (@nil Z)), app_nil_r by (unfold zlen; simpl; lia). f_equal. lia.
  - rewrite ztake_app_ge by len. f_equal. f_equal. len.
Qed.

Lemma sub_merge M q j : 0 <= q -> 0 <= j -> 1024 * ((q + 1) * 2 ^ (j + 1)) <= zlen M ->
  pcv (sub M (2 * q) j) (sub M (2 * q + 1) j) = sub M q (j + 1).
Proof.
  intros Hq Hj HM. pose proof (pow2_pos j Hj).
  assert (Hp : 2 ^ (j + 1) = 2 * 2 ^ j) by (rewrite Z.pow_add_r; lia). rewrite Hp in HM.
  unfold sub. rewrite span_merge by done.
  rewrite (subtree_cv_split _ _ _ j); rewrite ?zlen_span by nia; try lia.
  rewrite Hp. do 2 f_equal; lia.
Qed.

(** The stack before merging: [c] chunks seen, the last entry pushed as it came. *)
Definition unmerged M (c : Z) S : Prop :=
  exists j q, 0 <= j /\ 0 <= q /\ c = (q + 1) * 2 ^ j /\ S = mstack M j q ++ [sub M q j].

Definition mergeable M (c : Z) S : Prop := S = mstack M 0 c \/ unmerged M c S.

(** One merge of the two last entries, or none is due. *)
Lemma unmerged_step M c S : unmerged M c S -> 1024 * c <= zlen M ->
  S = mstack M 0 c /\ zlen S = bit_count c \/
  bit_count c < zlen S /\
  exists S0 a b, S = S0 ++ [a; b] /\ is_cv a /\ is_cv b /\ Forall is_cv S0 /\
    unmerged M c (S0 ++ [pcv a b]).
Proof.
  intros (j & q & Hj & Hq & -> & ->) HM. pose proof (pow2_pos j Hj).
  assert (Hbc : bit_count ((q + 1) * 2 ^ j) = bit_count (q + 1)).
  { rewrite <- (zlen_mstack M ((q + 1) * 2 ^ j)) with (j := 0) by lia.
    rewrite mstack_shift by lia. apply zlen_mstack. lia. }
  rewrite Hbc, zlen_app, zlen_mstack by done. change (zlen [sub M q j]) with 1.
  destruct (Zeven_odd_dec q) as [He|Ho].
  - left. apply Zeven_ex in He as [k ->]. rewrite mstack_shift by lia.
    rewrite mstack_odd, mstack_even, bit_count_succ_double, bit_count_double by lia.
    rewrite Z.add_0_l. split; [done|lia].
  - right. apply Zodd_ex in Ho as [k ->]. 
    replace (2 * k + 1 + 1) with (2 * (k + 1)) in * by lia.
    rewrite bit_count_double, bit_count_succ_double by lia. split.
    { pose proof (bit_count_succ k). lia. }
    exists (mstack M (j + 1) k), (sub M (2 * k) j), (sub M (2 * k + 1) j).
    assert (Hp : 2 ^ (j + 1) = 2 * 2 ^ j) by (rewrite Z.pow_add_r; lia).
    rewrite mstack_odd, <- app_assoc by lia.
    do 3 (split; [done|]). split; [apply mstack_is_cv; lia|].
    exists (j + 1), k. rewrite sub_merge by (lia || nia). repeat split; try lia; done.
Qed.

(** ** The array that holds the stack *)

Definition stack_rep (h : blake3_hasher) S : Prop :=
  zlen (cv_stack h) = CV_STACK_SIZE /\ cv_stack_len h = zlen S /\ Forall is_cv S /\
  exists rest, cv_stack h = concat S ++ rest.

Lemma stack_rep_bound h S : stack_rep h S -> zlen S <= 55.
Proof.
  intros (Hs & _ & HS & rest & Hc). rewrite Hc, zlen_app, zlen_concat_cvs in Hs by done.
  change CV_STACK_SIZE with 1760 in Hs. pose proof (zlen_nonneg rest). lia.
Qed.

(** Same key and chunk, new stack. *)
Definition same_but_stack (h h' : blake3_hasher) : Prop :=
  h_key h' = h_key h /\ h_chunk h' = h_chunk h.

Lemma hasher_merge_step_ok h S0 a b :
  h_key h = key -> cs_flags (h_chunk h) = flags -> stack_rep h (S0 ++ [a; b]) ->
  is_cv a -> is_cv b -> Forall is_cv S0 ->
  exists h', hasher_merge_step h = Done h' /\ same_but_stack h h' /\ stack_rep h' (S0 ++ [pcv a b]).
Proof.
  intros Hk Hf HR Ha Hb H0. pose proof (stack_rep_bound _ _ HR) as Hbound.
  destruct HR as (Hs & Hl & HS & rest & Hc). unfold hasher_merge_step. rewrite Hl, Hc, Hk, Hf.
  rewrite zlen_app in *. change (zlen [a; b]) with 2 in *. pose proof (zlen_nonneg S0).
  unfold BLAKE3_OUT_LEN, BLAKE3_BLOCK_LEN, is_cv in *.
  assert (Hz0 : zlen (concat S0) = 32 * zlen S0) by (apply zlen_concat_cvs; done).
  rewrite concat_app, <- app_assoc in *. cbn [concat] in *. rewrite app_nil_r in *.
  rewrite load_range_mid by (rewrite ?zlen_app; lia). cbn [exec_bind].
  change (output_chaining_value _) with (pcv a b).
  assert (Hp : zlen (pcv a b) = 32) by done. rewrite Hc, !zlen_app in Hs.
  rewrite store_range_at by (rewrite ?zlen_app, ?Hp; pose proof (zlen_nonneg rest); lia).
  cbn [exec_bind]. eexists. split; [done|]. split; [done|].
  split; cbn [cv_stack cv_stack_len].
  { rewrite !zlen_app, zlen_zdrop, !zlen_app, Hp. pose proof (zlen_nonneg rest). lia. }
  split; [rewrite zlen_app, wrap_small by lia; change (zlen [pcv a b]) with 1; lia|].
  split; [apply Forall_app; split; [done|repeat constructor]|].
  exists (zdrop (zlen (pcv a b)) ((a ++ b) ++ rest)). rewrite concat_app. cbn [concat].
  rewrite app_nil_r, <- (app_assoc (concat S0)). done.
Qed.

Lemma mergeable_guard M c S h : mergeable M c S -> stack_rep h S -> 0 <= c ->
  1024 * c <= zlen M < 2 ^ 64 ->
  if popcnt c <? cv_stack_len h then
    exists S0 a b, S = S0 ++ [a; b] /\ is_cv a /\ is_cv b /\ Forall is_cv S0 /\
      unmerged M c (S0 ++ [pcv a b])
  else S = mstack M 0 c.
Proof.
  intros HM (_ & Hl & _) Hc HZ. rewrite popcnt_bit_count, Hl by lia.
  destruct HM as [-> |HU].
  - rewrite zlen_mstack, Z.ltb_irrefl by done. done.
  - destruct (unmerged_step _ _ _ HU) as [(E & Hlen)|(Hlt & HS)]; [lia| |].
    + rewrite Hlen, Z.ltb_irrefl. done.
    + rewrite (proj2 (Z.ltb_lt _ _)) by done. done.
Qed.

Lemma hasher_merge_cv_stack_ok M c S h :
  h_key h = key -> cs_flags (h_chunk h) = flags -> stack_rep h S -> mergeable M c S ->
  0 <= c -> 1024 * c <= zlen M < 2 ^ 64 ->
  exists h', hasher_merge_cv_stack h c = Done h' /\ same_but_stack h h' /\
    stack_rep h' (mstack M 0 c).
Proof.
  intros Hk Hf HR HM Hc HZ. unfold hasher_merge_cv_stack.
  edestruct (while_total (fun h' => same_but_stack h h' /\
      exists S, stack_rep h' S /\ mergeable M c S) (fun h' => Z.to_nat (cv_stack_len h')))
    as (h' & -> & (Hsame & S' & HR' & HM') & Hg).
  2: { split; [done|]. eauto. }
  2: done.
  - intros h1 ((Hk1 & Hc1) & S1 & HR1 & HM1) Hg.
    pose proof (mergeable_guard _ _ _ _ HM1 HR1 Hc HZ) as HS. cbv beta in Hg.
    rewrite Hg in HS. destruct HS as (S0 & a & b & -> & Ha & Hb & H0 & HU).
    destruct (hasher_merge_step_ok h1 S0 a b) as (h2 & E & (Hk2 & Hc2) & HR2); try done; try congruence.
    exists h2. split; [exact E|]. split; [split; [split; congruence|]|].
    + eexists. split; [exact HR2|]. right. done.
    + destruct HR1 as (_ & Hl1 & _), HR2 as (_ & Hl2 & _). rewrite Hl1, Hl2, !zlen_app.
      change (zlen [a; b]) with 2. change (zlen [pcv a b]) with 1.
      pose proof (zlen_nonneg S0). lia.
  - exists h'. split; [done|]. split; [done|].
    pose proof (mergeable_guard _ _ _ _ HM' HR' Hc HZ) as HS.
    cbv beta in Hg. rewrite Hg in HS. subst. done.
Qed.

Lemma hasher_push_cv_ok M c S h new_cv :
  h_key h = key -> cs_flags (h_chunk h) = flags -> stack_rep h S -> mergeable M c S ->
  0 <= c -> 1024 * c <= zlen M < 2 ^ 64 -> 32 <= zlen new_cv ->
  exists h', hasher_push_cv h new_cv c = Done h' /\ same_but_stack h h' /\
    stack_rep h' (mstack M 0 c ++ [ztake 32 new_cv]).
Proof.
  intros Hk Hf HR HM Hc HZ Hn. unfold hasher_push_cv.
  destruct (hasher_merge_cv_stack_ok M c S h) as (h1 & -> & Hsame & HR1); try done.
  cbn [exec_bind]. destruct HR1 as (Hs & Hl & HS & rest & Hcv).
  assert (Hbc : bit_count c <= 54) by (apply bit_count_le; lia).
  pose proof (zlen_nonneg (mstack M 0 c)). rewrite zlen_mstack in * by done.
  unfold BLAKE3_OUT_LEN. rewrite Hl, Hcv.
  assert (Hz : zlen (concat (mstack M 0 c)) = 32 * bit_count c)
    by (rewrite zlen_concat_cvs, zlen_mstack by done; done).
  assert (Ht : zlen (ztake 32 new_cv) = 32) by len.
  rewrite Hcv, zlen_app, Hz in Hs. change CV_STACK_SIZE with 1760 in Hs.
  rewrite store_range_at by (rewrite ?Ht; lia). cbn [exec_bind].
  eexists. split; [done|]. split; [done|]. split; cbn [cv_stack cv_stack_len].
  { rewrite !zlen_app, zlen_zdrop, Hz, Ht. change CV_STACK_SIZE with 1760. lia. }
  split; [rewrite zlen_app, zlen_mstack, wrap_small by lia; done|].
  split; [apply Forall_app; split; [done|by repeat constructor]|].
  exists (zdrop (zlen (ztake 32 new_cv)) rest). rewrite concat_app. cbn [concat].
  rewrite app_nil_r, <- app_assoc. done.
Qed.

(** Pushing the chaining value of the next subtree keeps the stack mergeable. *)
Lemma hasher_push_sub_ok M c S h new_cv j q :
  h_key h = key -> cs_flags (h_chunk h) = flags -> stack_rep h S -> mergeable M c S ->
  0 <= j -> 0 <= q -> c = q * 2 ^ j -> 1024 * c <= zlen M < 2 ^ 64 ->
  32 <= zlen new_cv -> ztake 32 new_cv = sub M q j ->
  exists h', hasher_push_cv h new_cv c = Done h' /\ same_but_stack h h' /\
    stack_rep h' (mstack M j q ++ [sub M q j]).
Proof.
  intros Hk Hf HR HM Hj Hq -> HZ Hn Hcv. pose proof (pow2_pos j Hj).
  destruct (hasher_push_cv_ok M (q * 2 ^ j) S h new_cv) as (h' & E & Hsame & HR');
    try done; [lia|].
  exists h'. split; [done|]. split; [done|]. rewrite Hcv in HR'.
  rewrite mstack_shift in HR' by done. done.
Qed.

(** ** Folding the stack into the root *)

Definition fold_parent (x : list Z) (o : output_t) : output_t :=
  parent_node key flags x (output_chaining_value o).

Lemma fold_mstack M q : 0 <= q -> forall j, 0 <= j ->
  1024 * (q * 2 ^ j) < zlen M <= 1024 * ((q + 1) * 2 ^ j) ->
  foldr fold_parent (subtree_node key flags (q * 2 ^ j) (zdrop (1024 * (q * 2 ^ j)) M))
    (mstack M j q) = subtree_node key flags 0 M.
Proof.
  revert q. refine (binary_ind _ _ _ _); [|intros q Hq IH j Hj HM..].
  { intros j Hj _. simpl. rewrite zdrop_0 by lia. done. }
  all: pose proof (pow2_pos j Hj);
    assert (Hp : 2 ^ (j + 1) = 2 * 2 ^ j) by (rewrite Z.pow_add_r; lia).
  - rewrite mstack_even by lia. specialize (IH (j + 1) ltac:(lia)). rewrite Hp in IH.
    replace (2 * q * 2 ^ j) with (q * (2 * 2 ^ j)) in * by lia. apply IH. lia.
  - rewrite mstack_odd, foldr_app by lia. cbn [foldr].
    specialize (IH (j + 1) ltac:(lia)). rewrite Hp in IH. rewrite <- IH by lia. f_equal.
    unfold fold_parent, sub. change (output_chaining_value (subtree_node key flags ?c ?m)) with (cv c m).
    replace (zdrop (1024 * (q * (2 * 2 ^ j))) M)
      with (span M (2 * q) j ++ zdrop (1024 * ((2 * q + 1) * 2 ^ j)) M).
    + rewrite (subtree_node_split _ _ _ j); try done.
      * replace (q * (2 * 2 ^ j)) with (2 * q * 2 ^ j) by lia.
        replace (2 * q * 2 ^ j + 2 ^ j) with ((2 * q + 1) * 2 ^ j) by lia. done.
      * apply zlen_span; lia.
      * rewrite zlen_zdrop. lia.
    + unfold span. replace (q * (2 * 2 ^ j)) with (2 * q * 2 ^ j) by lia.
      rewrite <- (ztake_zdrop (1024 * 2 ^ j) (zdrop (1024 * (2 * q * 2 ^ j)) M)) at 2.
      f_equal. rewrite zdrop_zdrop by lia. f_equal. lia.
Qed.
End Stack.
