(* ===== verification/Blake3Update.v ===== *)
(** * The incremental hasher against the specification

    The invariant of [blake3_hasher] between calls, that [blake3_hasher_update]
    keeps it for every split of the input, and that [blake3_hasher_finalize_seek]
    then returns the bytes of the specification. *)

From Stdlib Require Import ZArith Lia.
From stdpp Require Import base numbers list list_numbers.
From S2P Require Import Prelude Blake3Impl Blake3Backend Blake3Hasher Blake3Spec.
From S2P Require Import Blake3Root Blake3Chunk Blake3Wide Blake3Subtree Blake3Stack.
Local Open Scope Z_scope.

(** ** The size of the next subtree *)

Lemma shrink_guard c k : 0 <= c -> 0 <= k -> 1024 * 2 ^ k < 2 ^ 64 ->
  Z.land (u64 (1024 * 2 ^ k - 1)) (1024 * c) = 1024 * (c mod 2 ^ k).
Proof.
  intros Hc Hk Hw. pose proof (pow2_pos k Hk). rewrite wrap_small by lia.
  assert (Hp : 1024 * 2 ^ k = 2 ^ (10 + k)) by (rewrite Z.pow_add_r by lia; done).
  rewrite Z.land_comm. replace (1024 * 2 ^ k - 1) with (Z.ones (10 + k))
    by (rewrite Z.ones_equiv, Hp; lia).
  rewrite Z.land_ones, <- Hp by lia. rewrite Z.mul_mod_distr_l by lia. done.
Qed.

(** The loop returns: the size is a power of two of chunks that fits in the input
    and divides the chunks seen so far. *)
Lemma shrink_subtree_len_ok n c : 1024 < n < 2 ^ 64 -> 0 <= c -> 1024 * c < 2 ^ 64 ->
  exists k q, 0 <= k /\ 0 <= q /\ c = q * 2 ^ k /\ 1024 * 2 ^ k <= n /\
    shrink_subtree_len (round_down_to_power_of_2 n) (u64 (c * BLAKE3_CHUNK_LEN)) =
    Done (1024 * 2 ^ k).
Proof.
  intros Hn Hc Hw. rewrite round_down_pow2 by lia.
  replace (u64 (c * BLAKE3_CHUNK_LEN)) with (1024 * c)
    by (unfold BLAKE3_CHUNK_LEN; rewrite wrap_small; lia).
  destruct (Z.log2_spec n) as [Hlo _]; [lia|].
  assert (Hlog : 10 <= Z.log2 n) by (apply Z.log2_le_pow2; lia).
  unfold shrink_subtree_len.
  edestruct (while_total (fun s => exists k, 0 <= k /\ s = 1024 * 2 ^ k /\ s <= n)
    (fun s => Z.to_nat (Z.log2 s))) with (fuel := 64%nat) (s := 2 ^ Z.log2 n)
    as (s' & -> & (k & Hk & -> & Hle) & Hg).
  - intros s (k & Hk & -> & Hle) Hg. cbv beta in Hg. rewrite shrink_guard in Hg by lia.
    destruct (Z.eq_dec k 0) as [->|]; [change (2 ^ 0) with 1 in Hg; rewrite Z.mod_1_r in Hg; done|].
    assert (Hp : 2 ^ k = 2 * 2 ^ (k - 1)) by (rewrite <- Z.pow_succ_r by lia; f_equal; lia).
    pose proof (pow2_pos (k - 1) ltac:(lia)).
    assert (Hh : 1024 * 2 ^ k / 2 = 1024 * 2 ^ (k - 1))
      by (symmetry; apply (Z.div_unique _ _ _ 0); lia).
    eexists. split; [done|]. rewrite Hh. split; [exists (k - 1); repeat split; lia|].
    rewrite Hp. replace (1024 * (2 * 2 ^ (k - 1))) with (2 * (1024 * 2 ^ (k - 1))) by lia.
    rewrite Z.log2_double by lia. pose proof (Z.log2_nonneg (1024 * 2 ^ (k - 1))). lia.
  - exists (Z.log2 n - 10). split; [lia|]. split; [|done].
    replace (Z.log2 n) with (10 + (Z.log2 n - 10)) at 1 by lia. rewrite Z.pow_add_r by lia. done.
  - cbv beta. rewrite Z.log2_pow2 by lia.
    assert (Z.log2 n < 64) by (apply Z.log2_lt_pow2; lia). lia.
  - cbv beta in Hg. rewrite shrink_guard in Hg by lia. apply negb_false_iff, Z.eqb_eq in Hg.
    pose proof (pow2_pos k Hk). exists k, (c / 2 ^ k).
    pose proof (Z.div_mod c (2 ^ k) ltac:(lia)).
    assert (0 <= c / 2 ^ k) by (apply Z.div_pos; lia). repeat split; lia || done.
Qed.

Section Update.
Context {B : Backend} {L : BackendLaws B}.
Context (junk : Z -> list Z) (Hjunk : forall n, 0 <= n -> zlen (junk n) = n).
Context (key : list Z) (flags : Z).
Context (Hkey : Forall (in_width 32) key) (Hflags : in_width 8 flags).
Implicit Types M input : list Z.
Implicit Types S : list (list Z).

Abbreviation cv := (subtree_cv key flags).
Abbreviation chunk_of := (chunk_of key flags).
Abbreviation sub := (sub key flags).
Abbreviation mstack := (mstack key flags).
Abbreviation mergeable := (mergeable key flags).

(** The message is a whole number of chunks and its last two stack entries are the
    children of one node. *)
Definition paired M (c : Z) S : Prop :=
  exists j q, 0 <= j /\ 0 <= q /\ c = (q + 1) * 2 ^ (j + 1) /\
    S = mstack M (j + 1) q ++ [sub M (2 * q) j; sub M (2 * q + 1) j].

(** [h] has absorbed the message [M]. *)
Definition hasher_inv (h : blake3_hasher) M : Prop :=
  h_key h = key /\ zlen M < 2 ^ 64 /\
  exists c S, 0 <= c /\ 1024 * c <= zlen M <= 1024 * c + 1024 /\
    h_chunk h = chunk_of c (zdrop (1024 * c) M) /\ stack_rep h S /\
    (1024 * c < zlen M /\ S = mstack M 0 c \/
     zlen M = 1024 * c /\ (c = 0 /\ S = [] \/ paired M c S)).

Lemma paired_unmerged M c S : paired M c S -> unmerged key flags M c S.
Proof.
  intros (j & q & Hj & Hq & -> & ->). exists j, (2 * q + 1).
  split; [done|]. split; [lia|]. split; [rewrite Z.pow_add_r by lia; lia|].
  rewrite mstack_odd, <- app_assoc by done. done.
Qed.

(** Between chunks, [c] chunks of [M] absorbed. *)
Definition boundary M (c : Z) S (h : blake3_hasher) : Prop :=
  h_key h = key /\ h_chunk h = chunk_of c [] /\ stack_rep h S /\ mergeable M c S.

Lemma next_span M c k q : c = q * 2 ^ k -> ztake (1024 * 2 ^ k) (zdrop (1024 * c) M) = span M q k.
Proof. intros ->. done. Qed.

(** A single chunk at a time. *)
Lemma subtree_chunk_ok M c S h : boundary M c S h -> 0 <= c -> 1024 * c + 1024 <= zlen M < 2 ^ 64 ->
  exists h', (let chunk_state := set_chunk_counter (chunk_state_init key flags) c in
     let! chunk_state := chunk_state_update chunk_state (span M c 0) in
     hasher_push_cv h (output_chaining_value (chunk_state_output chunk_state))
       (chunk_counter chunk_state)) = Done h' /\
    same_but_stack h h' /\ stack_rep h' (mstack M 0 c ++ [sub M c 0]).
Proof.
  intros (Hk & Hch & HR & HM) Hc HZ.
  assert (Hsp : zlen (span M c 0) = 1024) by (rewrite zlen_span; change (2 ^ 0) with 1; lia).
  destruct (partial_chunk_ok key flags c (span M c 0)) as (cs & E & Hcv & Hctr); [lia|].
  cbv zeta. rewrite E. cbn [exec_bind]. rewrite Hcv, Hctr.
  apply hasher_push_sub_ok with (S := S); try done.
  - rewrite Hch. done.
  - change (2 ^ 0) with 1. lia.
  - lia.
  - unfold Blake3Stack.sub. rewrite Z.mul_1_r. done.
Qed.

(** A larger subtree: both children of its top node are pushed. *)
Lemma subtree_pair_ok M c S h j q : boundary M c S h -> 0 <= j -> 0 <= q ->
  c = q * 2 ^ (j + 1) -> 1024 * ((q + 1) * 2 ^ (j + 1)) <= zlen M < 2 ^ 64 ->
  exists h', (let! cv_pair :=
        compress_subtree_to_parent_node junk (span M q (j + 1)) key c flags in
      let! self := hasher_push_cv h cv_pair c in
      hasher_push_cv self (zdrop BLAKE3_OUT_LEN cv_pair)
        (u64 (chunk_counter (h_chunk self) + 2 ^ (j + 1) / 2))) = Done h' /\
    same_but_stack h h' /\
    stack_rep h' (mstack M (j + 1) q ++ [sub M (2 * q) j; sub M (2 * q + 1) j]).
Proof.
  intros (Hk & Hch & HR & HM) Hj Hq Hc HZ. pose proof (pow2_pos j Hj).
  assert (Hp : 2 ^ (j + 1) = 2 * 2 ^ j) by (rewrite Z.pow_add_r; lia). rewrite Hp in *.
  rewrite span_merge by done.
  assert (Hl : zlen (span M (2 * q) j) = 1024 * 2 ^ j) by (apply zlen_span; nia).
  assert (Hr : zlen (span M (2 * q + 1) j) = 1024 * 2 ^ j) by (apply zlen_span; nia).
  rewrite (compress_subtree_to_parent_node_ok key flags Hkey Hflags junk Hjunk c j) by nia.
  replace (2 * 2 ^ j / 2) with (2 ^ j) by (rewrite Z.mul_comm, Z.div_mul; lia).
  cbn [exec_bind].
  replace (cv c (span M (2 * q) j)) with (sub M (2 * q) j)
    by (unfold Blake3Stack.sub; f_equal; lia).
  replace (cv (c + 2 ^ j) (span M (2 * q + 1) j)) with (sub M (2 * q + 1) j)
    by (unfold Blake3Stack.sub; f_equal; lia).
  assert (Ha : is_cv (sub M (2 * q) j)) by done. assert (Hb : is_cv (sub M (2 * q + 1) j)) by done.
  unfold is_cv in *. set (a := sub M (2 * q) j) in *. set (b := sub M (2 * q + 1) j) in *.
  destruct (hasher_push_sub_ok key flags M c S h (a ++ b) j (2 * q)) as (h1 & -> & (Hk1 & Hc1) & HR1);
    try done; try lia.
  { rewrite Hch. done. }
  cbn [exec_bind]. unfold BLAKE3_OUT_LEN. rewrite zdrop_app_ge, zdrop_0 by lia.
  rewrite Hc1, Hch. cbn [chunk_counter Blake3Chunk.chunk_of chunk_at].
  rewrite wrap_small by lia.
  destruct (hasher_push_sub_ok key flags M (c + 2 ^ j) (mstack M j (2 * q) ++ [a]) h1 b j (2 * q + 1))
    as (h2 & -> & (Hk2 & Hc2) & HR2); try done; try lia; try nia.
  - congruence.
  - rewrite Hc1, Hch. done.
  - right. exists j, (2 * q). repeat split; try done; lia.
  - exists h2. split; [done|]. split; [split; congruence|].
    rewrite mstack_odd, <- app_assoc in HR2 by done. exact HR2.
Qed.

(** One pass of the subtree loop. *)
Lemma hasher_update_subtree_ok M c S h :
  boundary M c S h -> 0 <= c -> 1024 * c + 1024 < zlen M < 2 ^ 64 ->
  exists h' d S', hasher_update_subtree junk h (zdrop (1024 * c) M) =
      Done (h', zdrop (1024 * (c + d)) M) /\
    boundary M (c + d) S' h' /\ 0 < d /\ 1024 * (c + d) <= zlen M /\
    (zlen M = 1024 * (c + d) -> paired M (c + d) S').
Proof.
  intros HB Hc HZ. pose proof HB as (Hk & Hch & HR & HM).
  unfold hasher_update_subtree. rewrite Hk, Hch. cbn [chunk_counter cs_flags Blake3Chunk.chunk_of chunk_at].
  assert (Hin : zlen (zdrop (1024 * c) M) = zlen M - 1024 * c) by len.
  destruct (shrink_subtree_len_ok (zlen (zdrop (1024 * c) M)) c)
    as (k & q & Hk0 & Hq & Hcq & Hfit & ->); [lia..|]. cbn [exec_bind].
  pose proof (pow2_pos k Hk0). unfold BLAKE3_CHUNK_LEN.
  replace (1024 * 2 ^ k / 1024) with (2 ^ k) by (rewrite Z.mul_comm, Z.div_mul; lia).
  rewrite (next_span M c k q Hcq), zdrop_zdrop by lia.
  replace (1024 * c + 1024 * 2 ^ k) with (1024 * (c + 2 ^ k)) by lia.
  assert (Hnext : forall h' S', same_but_stack h h' -> stack_rep h' S' -> mergeable M (c + 2 ^ k) S' ->
    boundary M (c + 2 ^ k) S' (set_chunk h' (set_chunk_counter (h_chunk h')
      (u64 (chunk_counter (h_chunk h') + 2 ^ k))))).
  { intros h' S' (Hk' & Hc') HR' HM'. rewrite Hc', Hch. cbn [chunk_counter Blake3Chunk.chunk_of chunk_at].
    rewrite wrap_small by lia. split; [simpl; congruence|]. split; [done|]. split; done. }
  destruct (Z.leb_spec (1024 * 2 ^ k) 1024) as [Hone|Hmany].
  - assert (k = 0) as ->.
    { destruct (Z.eq_dec k 0); [done|]. assert (2 ^ 1 <= 2 ^ k) by (apply Z.pow_le_mono_r; lia).
      change (2 ^ 1) with 2 in *. lia. }
    change (2 ^ 0) with 1 in *. assert (q = c) as -> by lia.
    destruct (subtree_chunk_ok M c S h HB) as (h' & E & Hsame & HR'); [lia..|].
    cbv zeta in E. rewrite E. cbn [exec_bind].
    eexists _, 1, _. split; [done|]. split; [apply Hnext; [done|exact HR'|]|lia].
    right. exists 0, c. change (2 ^ 0) with 1. repeat split; done || lia.
  - assert (1 <= k) by (destruct (Z.eq_dec k 0) as [->|]; [change (2 ^ 0) with 1 in *|]; lia).
    replace k with (k - 1 + 1) in * by lia. set (j := k - 1) in *.
    destruct (subtree_pair_ok M c S h j q HB) as (h' & E & Hsame & HR'); [lia..|].
    rewrite E. cbn [exec_bind].
    assert (HP : paired M (c + 2 ^ (j + 1))
      (mstack M (j + 1) q ++ [sub M (2 * q) j; sub M (2 * q + 1) j])).
    { exists j, q. repeat split; lia || done. }
    eexists _, _, _. split; [done|].
    split; [apply Hnext; [done|exact HR'|right; apply paired_unmerged; done]|].
    split; [lia|]. split; [lia|done].
Qed.

(** The subtree loop: it ends with at most one chunk of input left. *)
Lemma subtree_loop M c S h fuel : boundary M c S h -> 0 <= c -> 1024 * c < zlen M < 2 ^ 64 ->
  (length (zdrop (1024 * c) M) <= fuel)%nat ->
  exists h' d S', while fuel (fun '(_, input) => BLAKE3_CHUNK_LEN <? zlen input)
      (fun '(self, input) => hasher_update_subtree junk self input) (h, zdrop (1024 * c) M) =
      Done (h', zdrop (1024 * d) M) /\
    boundary M d S' h' /\ 0 <= d /\ 1024 * d <= zlen M <= 1024 * d + 1024 /\
    (zlen M = 1024 * d -> paired M d S').
Proof.
  intros HB Hc HZ Hfuel.
  edestruct (while_total (fun s : blake3_hasher * list Z => exists d S, s.2 = zdrop (1024 * d) M /\
      boundary M d S s.1 /\ 0 <= d /\ 1024 * d <= zlen M /\ (zlen M = 1024 * d -> paired M d S))
    (fun s => length s.2)) with (s := (h, zdrop (1024 * c) M)) (fuel := fuel)
    as ([h' input'] & -> & (d & S' & E & HB' & Hd & HdM & HP) & Hg).
  - intros [h1 input1] (d & S1 & E & HB1 & Hd & HdM & HP) Hg. simpl in E. subst input1.
    apply Z.ltb_lt in Hg. unfold BLAKE3_CHUNK_LEN in Hg. rewrite zlen_zdrop in Hg.
    destruct (hasher_update_subtree_ok M d S1 h1) as (h2 & e & S2 & -> & HB2 & He & HeM & HP2);
      [done|lia..|].
    eexists. split; [done|]. split; [exists (d + e), S2; repeat split; first [done|lia|apply HB2]|].
    simpl. apply Nat2Z.inj_lt. fold (zlen (zdrop (1024 * (d + e)) M)).
    fold (zlen (zdrop (1024 * d) M)). rewrite !zlen_zdrop. lia.
  - exists c, S. repeat split; first [done|lia|apply HB].
  - done.
  - apply Z.ltb_ge in Hg. simpl in E, HB'. subst input'. unfold BLAKE3_CHUNK_LEN in Hg.
    rewrite zlen_zdrop in Hg. exists h', d, S'. repeat split; first [done|lia|apply HB'].
Qed.

(** From a chunk boundary, the rest of the input. *)
Lemma update_tail_ok M c S h : boundary M c S h -> 0 <= c -> 1024 * c < zlen M < 2 ^ 64 ->
  exists h', (let! (self, input) :=
      while (length (zdrop (1024 * c) M)) (fun '(_, input) => BLAKE3_CHUNK_LEN <? zlen input)
        (fun '(self, input) => hasher_update_subtree junk self input) (h, zdrop (1024 * c) M) in
      if 0 <? zlen input then
        let! chunk := chunk_state_update (h_chunk self) input in
        let self := set_chunk self chunk in
        hasher_merge_cv_stack self (chunk_counter (h_chunk self))
      else Done self) = Done h' /\ hasher_inv h' M.
Proof.
  intros HB Hc HZ.
  destruct (subtree_loop M c S h _ HB Hc HZ (Nat.le_refl _)) as
    (h1 & d & S1 & -> & (Hk & Hch & HR & HM) & Hd & HdM & HP). cbn [exec_bind].
  destruct (Z.ltb_spec 0 (zlen (zdrop (1024 * d) M))) as [Hrest|Hnone]; rewrite zlen_zdrop in *.
  - rewrite Hch, chunk_state_update_of by len. cbn [exec_bind app].
    cbn [set_chunk h_chunk chunk_counter Blake3Chunk.chunk_of chunk_at].
    destruct (hasher_merge_cv_stack_ok key flags M d S1 (set_chunk h1 (chunk_of d (zdrop (1024 * d) M))))
      as (h2 & -> & (Hk2 & Hc2) & HR2); try done; [lia|].
    exists h2. split; [done|]. split; [rewrite Hk2; done|]. split; [lia|].
    exists d, (mstack M 0 d). repeat split; try done; try lia; try apply HR2. left. lia || (split; [lia|done]).
  - exists h1. split; [done|]. split; [done|]. split; [lia|].
    exists d, S1. rewrite zdrop_all by lia. repeat split; try done; try lia; try apply HR.
    right. split; [lia|]. right. apply HP. lia.
Qed.

Lemma paired_app M X c S : paired M c S -> 1024 * c <= zlen M -> paired (M ++ X) c S.
Proof.
  intros (j & q & Hj & Hq & -> & ->) HM. exists j, q. repeat split; try done.
  assert (Hp : 2 ^ (j + 1) = 2 * 2 ^ j) by (rewrite Z.pow_add_r; lia).
  pose proof (pow2_pos j Hj). rewrite mstack_app, !sub_app; done || lia || nia.
Qed.

Lemma inv_boundary h M X c S : h_key h = key -> h_chunk h = chunk_of c (zdrop (1024 * c) M) ->
  stack_rep h S -> zlen M = 1024 * c -> (c = 0 /\ S = [] \/ paired M c S) ->
  boundary (M ++ X) c S h.
Proof.
  intros Hk Hch HR HZ HS. rewrite zdrop_all in Hch by lia. split; [done|]. split; [done|].
  split; [done|]. destruct HS as [(-> & ->)|HP]; [left; done|right].
  apply paired_unmerged, paired_app; [done|lia].
Qed.

(** A full chunk is pushed and the chunk state starts over. *)
Lemma push_full_chunk_ok M c S h : h_key h = key -> h_chunk h = chunk_of c (span M c 0) ->
  stack_rep h S -> mergeable M c S -> 0 <= c -> 1024 * (c + 1) <= zlen M < 2 ^ 64 ->
  exists h1, hasher_push_cv h (output_chaining_value (chunk_state_output (h_chunk h)))
      (chunk_counter (h_chunk h)) = Done h1 /\
    exists S', boundary M (c + 1) S' (set_chunk h1 (chunk_state_reset (h_chunk h1) (h_key h1)
      (u64 (chunk_counter (h_chunk h1) + 1)))).
Proof.
  intros Hk Hch HR HM Hc HZ. rewrite Hch, chunk_state_output_of.
  assert (Hz : zlen (span M c 0) = 1024) by (rewrite zlen_span; change (2 ^ 0) with 1; lia).
  assert (Hcv : output_chaining_value (chunk_node key flags c (span M c 0)) = sub M c 0).
  { unfold Blake3Stack.sub, subtree_cv. rewrite subtree_node_chunk by lia.
    change (2 ^ 0) with 1. rewrite Z.mul_1_r. done. }
  rewrite Hcv. cbn [chunk_counter Blake3Chunk.chunk_of chunk_at].
  destruct (hasher_push_sub_ok key flags M c S h (sub M c 0) 0 c)
    as (h1 & -> & (Hk1 & Hc1) & HR1); try done; try lia.
  { rewrite Hch. done. }
  exists h1. split; [done|]. exists (mstack M 0 c ++ [sub M c 0]).
  rewrite Hc1, Hk1, Hch, Hk. cbn [chunk_counter Blake3Chunk.chunk_of chunk_at].
  rewrite wrap_small by lia. split; [simpl; congruence|].
  split; [apply chunk_state_reset_of; done|]. split; [done|].
  right. exists 0, c. change (2 ^ 0) with 1. repeat split; done || lia.
Qed.

(** Filling the partial chunk; [None] when the input ends in it. *)
Lemma finish_chunk_ok h M input c : h_key h = key -> 0 <= c ->
  h_chunk h = chunk_of c (zdrop (1024 * c) M) -> stack_rep h (mstack M 0 c) ->
  1024 * c < zlen M <= 1024 * c + 1024 -> zlen M + zlen input < 2 ^ 64 ->
  let take := Z.min (1024 * c + 1024 - zlen M) (zlen input) in
  exists h' rest, (let! chunk := chunk_state_update (h_chunk h) (ztake take input) in
      let self := set_chunk h chunk in
      let input := zdrop take input in
      if 0 <? zlen input then
        let output := chunk_state_output (h_chunk self) in
        let! self := hasher_push_cv self (output_chaining_value output)
                       (chunk_counter (h_chunk self)) in
        let self := set_chunk self
          (chunk_state_reset (h_chunk self) (h_key self)
             (u64 (chunk_counter (h_chunk self) + 1))) in
        Done (self, Some input)
      else Done (self, None)) = Done (h', rest) /\
    match rest with
    | None => hasher_inv h' (M ++ input)
    | Some i => i = zdrop (1024 * (c + 1)) (M ++ input) /\ 0 < zlen i /\
        exists S, boundary (M ++ input) (c + 1) S h'
    end.
Proof.
  intros Hk Hc Hch HR HM Hw take. pose proof (zlen_nonneg input) as Hi.
  assert (Hmi : forall n, 0 <= n -> zdrop (1024 * c) M ++ ztake n input =
    ztake (zlen M - 1024 * c + n) (zdrop (1024 * c) (M ++ input))).
  { intros n Hn. rewrite zdrop_app_le by lia. rewrite ztake_app_ge by len. do 2 f_equal. len. }
  rewrite Hch, chunk_state_update_of by (unfold take; len). cbn [exec_bind]. cbv zeta.
  rewrite Hmi by lia. cbn [set_chunk h_chunk h_key chunk_counter Blake3Chunk.chunk_of chunk_at].
  change (chunk_at key flags ?a _ ?b) with (chunk_of a b). rewrite zlen_zdrop.
  destruct (Z.ltb_spec 0 (Z.min (zlen input) (Z.max 0 (zlen input - take)))) as [Hmore|Hend].
  - replace (zlen M - 1024 * c + take) with (1024 * 1) by (unfold take in *; lia).
    assert (Hsp : ztake (1024 * 1) (zdrop (1024 * c) (M ++ input)) = span (M ++ input) c 0)
      by (unfold span; change (2 ^ 0) with 1; do 3 f_equal; lia).
    rewrite Hsp.
    destruct (push_full_chunk_ok (M ++ input) c (mstack M 0 c)
      (set_chunk h (chunk_of c (span (M ++ input) c 0)))) as (h1 & E & HS); try done.
    { left. symmetry. apply mstack_app; [done|done|]. change (2 ^ 0) with 1. lia. }
    { rewrite zlen_app. unfold take in *. lia. }
    cbn [set_chunk h_chunk chunk_counter Blake3Chunk.chunk_of chunk_at] in E. rewrite E.
    cbn [exec_bind]. eexists _, _. split; [done|]. cbv beta iota.
    rewrite zlen_zdrop. split; [|split; [lia|done]].
    rewrite zdrop_app_ge by lia. f_equal. unfold take in *. lia.
  - eexists _, _. split; [done|]. split; [done|]. split; [rewrite zlen_app; lia|].
    exists c, (mstack M 0 c). rewrite zlen_app.
    split; [done|]. split; [unfold take in *; lia|]. split.
    { cbn [set_chunk h_chunk]. rewrite ztake_all; [done|]. rewrite zlen_zdrop, zlen_app.
      unfold take in *. lia. }
    split; [done|]. left. split; [lia|]. symmetry.
    apply mstack_app; [done|done|]. change (2 ^ 0) with 1. lia.
Qed.

Lemma blake3_hasher_update_ok h M input : hasher_inv h M -> zlen M + zlen input < 2 ^ 64 ->
  exists h', blake3_hasher_update junk h input = Done h' /\ hasher_inv h' (M ++ input).
Proof.
  intros HI Hw. unfold blake3_hasher_update, blake3_hasher_update_base.
  destruct (Z.eqb_spec (zlen input) 0) as [H0|H0].
  { rewrite (zlen_nil_inv input H0), app_nil_r. eauto. }
  pose proof (zlen_nonneg input).
  destruct HI as (Hk & _ & c & S & Hc & HZ & Hch & HR & HS).
  rewrite Hch, chunk_state_len_of, zlen_zdrop.
  destruct HS as [(Hpart & ->)|(Hfull & HS)].
  - rewrite (proj2 (Z.ltb_lt _ _)) by lia. cbv zeta.
    set (take := if _ >? _ then _ else _).
    assert (Ht : take = Z.min (1024 * c + 1024 - zlen M) (zlen input)).
    { unfold take, BLAKE3_CHUNK_LEN. rewrite wrap_small by lia. match goal with |- context [?a >? ?b] => destruct (Z.gtb_spec a b) end; lia. }
    rewrite Ht.
    destruct (finish_chunk_ok h M input c) as (h1 & rest & E & Hrest); [done || lia..|].
    cbv zeta in E. rewrite Hch in E. rewrite E. cbn [exec_bind].
    destruct rest as [i|]; [|eauto].
    destruct Hrest as (-> & Hi & S & HB). rewrite zlen_zdrop, zlen_app in Hi.
    apply (update_tail_ok _ _ S); [done|lia|rewrite zlen_app; lia].
  - rewrite (proj2 (Z.ltb_ge _ _)) by lia. cbn [exec_bind].
    pose proof (update_tail_ok (M ++ input) c S h) as HT.
    rewrite zdrop_app_ge, zdrop_0 in HT by lia.
    apply HT; [apply inv_boundary; done|done|rewrite zlen_app; lia].
Qed.

(** ** Finalization *)

Lemma finalize_fold h Q S rest o fuel : h_key h = key -> cs_flags (h_chunk h) = flags ->
  cv_stack h = concat S ++ rest -> Forall is_cv S -> Q = zlen S -> (length S <= fuel)%nat ->
  while fuel (fun '(cvs_remaining, _) => 0 <? cvs_remaining)
    (fun '(cvs_remaining, output) =>
       let cvs_remaining := cvs_remaining - 1 in
       let! left_cv := load_range (cv_stack h) (cvs_remaining * 32) 32 in
       let parent_block := left_cv ++ output_chaining_value output in
       Done (cvs_remaining, parent_output parent_block (h_key h) (cs_flags (h_chunk h))))
    (Q, o) = Done (0, foldr (fold_parent key flags) o S).
Proof.
  intros Hk Hf. rewrite Hk, Hf. clear Hk Hf. intros Hcv HS -> Hfuel. revert rest Hcv o fuel Hfuel.
  induction S as [|x S IH] using rev_ind; intros rest Hcv o fuel Hfuel.
  { destruct fuel; done. }
  apply Forall_app in HS as [HS Hx]. apply Forall_inv in Hx.
  rewrite zlen_app, foldr_app. change (zlen [x]) with 1. pose proof (zlen_nonneg S).
  rewrite length_app in Hfuel. simpl in Hfuel. destruct fuel as [|fuel]; [lia|].
  cbn [while]. rewrite (proj2 (Z.ltb_lt _ _)) by lia.
  rewrite Hcv, concat_app, <- app_assoc. cbn [concat]. rewrite app_nil_r.
  rewrite load_range_mid by (rewrite ?zlen_concat_cvs by done; done || lia). cbn [exec_bind].
  replace (zlen S + 1 - 1) with (zlen S) by lia. rewrite Hcv in IH.
  rewrite concat_app, <- app_assoc in IH. cbn [concat] in IH. rewrite app_nil_r in IH.
  rewrite (IH HS (x ++ rest)) by (done || lia). done.
Qed.

Lemma paired_node M j q : 0 <= j -> 0 <= q -> zlen M = 1024 * ((q + 1) * 2 ^ (j + 1)) ->
  parent_output (sub M (2 * q) j ++ sub M (2 * q + 1) j) key flags =
  subtree_node key flags (q * 2 ^ (j + 1)) (zdrop (1024 * (q * 2 ^ (j + 1))) M).
Proof.
  intros Hj Hq HM. pose proof (pow2_pos j Hj).
  assert (Hp : 2 ^ (j + 1) = 2 * 2 ^ j) by (rewrite Z.pow_add_r; lia).
  replace (zdrop (1024 * (q * 2 ^ (j + 1))) M) with (span M q (j + 1))
    by (unfold span; apply ztake_all; rewrite zlen_zdrop; nia).
  rewrite span_merge by done. rewrite Hp in *.
  rewrite (subtree_node_split _ _ _ j); rewrite ?zlen_span by nia; try lia.
  replace (q * (2 * 2 ^ j)) with (2 * q * 2 ^ j) by lia.
  replace (2 * q * 2 ^ j + 2 ^ j) with ((2 * q + 1) * 2 ^ j) by lia. done.
Qed.

Lemma blake3_hasher_finalize_seek_ok h M seek out_len : hasher_inv h M ->
  0 <= seek -> 0 <= out_len -> seek + out_len < 2 ^ 64 ->
  blake3_hasher_finalize_seek h seek out_len = Done (blake3_spec key flags M seek out_len).
Proof.
  intros (Hk & HM & c & S & Hc & HZ & Hch & HR & HS) Hs Ho Hw. unfold blake3_spec.
  unfold blake3_hasher_finalize_seek.
  destruct (Z.eqb_spec out_len 0) as [->|]; [rewrite root_bytes_nil by lia; done|].
  pose proof HR as (Hsz & Hl & HC & rest & Hcv). rewrite Hl.
  assert (Hfl : cs_flags (h_chunk h) = flags) by (rewrite Hch; done).
  destruct HS as [(Hpart & ->)|(Hfull & [(-> & ->)|HP])].
  - assert (Hnode : chunk_state_output (h_chunk h) =
      subtree_node key flags (c * 2 ^ 0) (zdrop (1024 * (c * 2 ^ 0)) M)).
    { change (2 ^ 0) with 1. rewrite Z.mul_1_r, Hch, chunk_state_output_of.
      rewrite subtree_node_chunk by len. done. }
    pose proof (fold_mstack key flags M c Hc 0) as HF. rewrite <- Hnode in HF.
    change (2 ^ 0) with 1 in HF. rewrite <- HF by lia.
    destruct (Z.eqb_spec (zlen (mstack M 0 c)) 0) as [Hempty|Hne].
    { rewrite (zlen_nil_inv _ Hempty). apply f_equal, output_root_bytes_ok; done. }
    rewrite Hch at 1. rewrite chunk_state_len_of, zlen_zdrop, (proj2 (Z.ltb_lt _ _)) by lia.
    cbn [exec_bind]. rewrite (finalize_fold h _ (mstack M 0 c) rest); try done; [|unfold zlen; lia].
    cbn [exec_bind]. apply f_equal, output_root_bytes_ok; done.
  - rewrite Z.eqb_refl. rewrite output_root_bytes_ok by done. do 2 f_equal.
    rewrite Hch, chunk_state_output_of, zdrop_0 by lia. rewrite subtree_node_chunk by lia. done.
  - destruct HP as (j & q & Hj & Hq & Hcq & ->). pose proof (zlen_nonneg (mstack M (j + 1) q)).
    set (a := sub M (2 * q) j) in *. set (b := sub M (2 * q + 1) j) in *.
    pose proof (stack_rep_bound _ _ HR) as Hbound. rewrite zlen_app in *.
    change (zlen [a; b]) with 2 in *. rewrite (proj2 (Z.eqb_neq _ _)) by lia.
    rewrite Hch at 1. rewrite chunk_state_len_of, zlen_zdrop, (proj2 (Z.ltb_ge _ _)) by lia.
    rewrite wrap_small by lia. apply Forall_app in HC as [HC0 _].
    rewrite concat_app, <- app_assoc in Hcv. cbn [concat] in Hcv. rewrite app_nil_r in Hcv.
    replace (zlen (mstack M (j + 1) q) + 2 - 2) with (zlen (mstack M (j + 1) q)) by lia.
    rewrite Hcv at 1. rewrite load_range_mid; [|rewrite zlen_concat_cvs by done; lia|done].
    cbn [exec_bind]. rewrite (finalize_fold h _ (mstack M (j + 1) q) ((a ++ b) ++ rest));
      try done; [|unfold zlen; lia]. cbn [exec_bind].
    rewrite output_root_bytes_ok by done. do 2 f_equal.
    rewrite <- (fold_mstack key flags M q Hq (j + 1)) by lia. f_equal.
    rewrite Hk, Hfl. apply paired_node; lia.
Qed.
End Update.
