(* ===== verification/Blake3PortableLaws.v ===== *)
(** * The portable backend

    [blake3_portable.c] meets the interface the tree code relies on: the loop of
    [hash_one_portable] computes the chained blocks, [blake3_hash_many_portable]
    one chaining value per input.  The words of the compression function stay in
    32 bits. *)

From Stdlib Require Import ZArith Lia.
From stdpp Require Import base numbers list.
From S2P Require Import Prelude Blake3Impl Blake3Portable Blake3Backend.
Local Open Scope Z_scope.

(** [blake3_xof_many]'s loop over [blake3_compress_xof]. *)
Fixpoint xof_many_loop (xof : Z -> list Z) (counter : Z) (i outblocks : nat) : list Z :=
  match outblocks with
  | O => []
  | S n => xof (u64 (counter + Z.of_nat i)) ++ xof_many_loop xof counter (S i) n
  end.

Lemma xof_many_loop_ref xof counter i n :
  xof_many_loop xof counter i n = xof_many_ref xof (counter + Z.of_nat i) n.
Proof.
  revert i. induction n as [|n IH]; intros i; [done|]. simpl. rewrite IH. do 2 f_equal. lia.
Qed.

(** A build without SIMD kernels. *)
#[global] Instance portable : Backend := {|
  MAX_SIMD_DEGREE := 1;
  blake3_simd_degree := 1;
  blake3_compress_in_place := blake3_compress_in_place_portable;
  blake3_compress_xof := blake3_compress_xof_portable;
  blake3_xof_many cv block block_len counter flags outblocks :=
    xof_many_loop (fun c => blake3_compress_xof_portable cv block block_len c flags)
      counter 0 outblocks;
  blake3_hash_many := blake3_hash_many_portable;
|}.

Section HashOne.
Context (input key : list Z) (counter flags start end_ : Z).

Abbreviation compress := blake3_compress_in_place_portable.
Abbreviation cv_after := (blocks_cv compress key counter flags start input).

Lemma hash_one_loop_from j i : (0 < j)%nat ->
  hash_one_loop j (zdrop (64 * Z.of_nat i) input) (cv_after i) counter flags end_
    (Z.lor flags (if (i =? 0)%nat then start else 0)) =
  compress (cv_after (i + j - 1))
    (ztake 64 (zdrop (64 * Z.of_nat (i + j - 1)) input)) 64 counter
    (Z.lor (Z.lor flags (if (i + j - 1 =? 0)%nat then start else 0)) end_).
Proof.
  revert i. induction j as [|j IH]; intros i Hj; [lia|]. cbn [hash_one_loop].
  destruct j as [|j].
  - rewrite Nat.eqb_refl. cbn [hash_one_loop]. replace (i + 1 - 1)%nat with i by lia. done.
  - rewrite (proj2 (Nat.eqb_neq _ _)) by lia.
    unfold BLAKE3_BLOCK_LEN. rewrite zdrop_zdrop by lia.
    specialize (IH (S i) ltac:(lia)).
    replace (S i + S j - 1)%nat with (i + S (S j) - 1)%nat in IH by lia. rewrite <- IH.
    replace (64 * Z.of_nat i + 64) with (64 * Z.of_nat (S i)) by lia.
    rewrite (proj2 (Nat.eqb_neq (S i) 0)), Z.lor_0_r by lia. done.
Qed.

Lemma hash_one_portable_ref blocks :
  hash_one_portable input blocks key counter flags start end_ =
  hash_one_ref compress input blocks key counter flags start end_.
Proof.
  unfold hash_one_portable. destruct blocks as [|k]; [done|].
  pose proof (hash_one_loop_from (S k) 0 ltac:(lia)) as E.
  rewrite zdrop_0 in E by lia. change (0 + S k - 1)%nat with (k - 0)%nat in E.
  rewrite Nat.sub_0_r in E. unfold hash_one_ref. f_equal. exact E.
Qed.
End HashOne.

Lemma hash_many_portable_ref inputs blocks key counter inc flags start end_ :
  blake3_hash_many_portable inputs blocks key counter inc flags start end_ =
  hash_many_ref blake3_compress_in_place_portable inputs blocks key counter inc
    flags start end_.
Proof.
  revert counter. induction inputs as [|i inputs IH]; intros counter; [done|].
  cbn [blake3_hash_many_portable hash_many_ref]. rewrite hash_one_portable_ref, IH. done.
Qed.

#[global] Instance portable_laws : BackendLaws portable.
Proof.
  split.
  - exists 0. done.
  - exists 0. done.
  - done.
  - done.
  - intros. simpl. rewrite xof_many_loop_ref, Z.add_0_r. done.
  - intros. apply hash_many_portable_ref.
Qed.
