(* ===== verification/Blake3Neon.v ===== *)
(** * The NEON kernel

    [blake3_neon.c]: four inputs hashed side by side, one per lane of a 128-bit
    vector.  A [uint32x4_t] is its four lanes; the intrinsics are their documented
    action on the lanes.  The kernel is proved equal to the portable one on every
    input, so that a build with NEON meets the same interface. *)

From Stdlib Require Import ZArith Lia.
From stdpp Require Import base numbers list.
From S2P Require Import Prelude Blake3Impl Blake3Portable Blake3Backend Blake3PortableLaws.
Local Open Scope Z_scope.

Record uint32x4_t := U32x4 { lane0 : Z; lane1 : Z; lane2 : Z; lane3 : Z }.

(** ** Intrinsics *)

Definition lanes1 (f : Z -> Z) (a : uint32x4_t) : uint32x4_t :=
  U32x4 (f (lane0 a)) (f (lane1 a)) (f (lane2 a)) (f (lane3 a)).
Definition lanes2 (f : Z -> Z -> Z) (a b : uint32x4_t) : uint32x4_t :=
  U32x4 (f (lane0 a) (lane0 b)) (f (lane1 a) (lane1 b))
        (f (lane2 a) (lane2 b)) (f (lane3 a) (lane3 b)).

(** Reversing the 16-bit halves of a lane, shifting left, shifting right into the
    low bits of another lane, permuting the bytes of a lane. *)
Definition rev32_u16 (x : Z) : Z := Z.lor (u16 (Z.shiftr x 16)) (Z.shiftl (u16 x) 16).
Definition shl_n_u32 (n x : Z) : Z := u32 (Z.shiftl x n).
Definition sri_n_u32 (n a x : Z) : Z :=
  Z.lor (Z.land a (Z.shiftl (Z.ones n) (32 - n))) (Z.shiftr x n).
Definition shuffle_u8 (i0 i1 i2 i3 : nat) (x : Z) : Z :=
  let b := store32 x in load32 [b.[i0]; b.[i1]; b.[i2]; b.[i3]].

(** [vtrnq_u32] interleaves the even and the odd lanes of two vectors. *)
Definition vtrnq_u32 (a b : uint32x4_t) : uint32x4_t * uint32x4_t :=
  (U32x4 (lane0 a) (lane0 b) (lane2 a) (lane2 b),
   U32x4 (lane1 a) (lane1 b) (lane3 a) (lane3 b)).
Definition vget_low_u32 (a : uint32x4_t) : Z * Z := (lane0 a, lane1 a).
Definition vget_high_u32 (a : uint32x4_t) : Z * Z := (lane2 a, lane3 a).
Definition vcombine_u32 (low high : Z * Z) : uint32x4_t :=
  U32x4 low.1 low.2 high.1 high.2.

(** ** The vector operations *)

Definition loadu_128 (src : list Z) : uint32x4_t :=
  U32x4 (load32 src) (load32 (zdrop 4 src)) (load32 (zdrop 8 src)) (load32 (zdrop 12 src)).
Definition storeu_128 (src : uint32x4_t) : list Z :=
  store32 (lane0 src) ++ store32 (lane1 src) ++ store32 (lane2 src) ++ store32 (lane3 src).
Definition add_128 (a b : uint32x4_t) : uint32x4_t := lanes2 (fun x y => u32 (x + y)) a b.
Definition xor_128 (a b : uint32x4_t) : uint32x4_t := lanes2 Z.lxor a b.
Definition set1_128 (x : Z) : uint32x4_t := U32x4 x x x x.
Definition set4 (a b c d : Z) : uint32x4_t := U32x4 a b c d.
Definition rot16_128 (x : uint32x4_t) : uint32x4_t := lanes1 rev32_u16 x.
Definition rot12_128 (x : uint32x4_t) : uint32x4_t :=
  lanes2 (sri_n_u32 12) (lanes1 (shl_n_u32 (32 - 12)) x) x.
(** The clang and GCC branches, and the branch for other compilers. *)
Definition rot8_128 (x : uint32x4_t) : uint32x4_t := lanes1 (shuffle_u8 1 2 3 0) x.
Definition rot8_sri_128 (x : uint32x4_t) : uint32x4_t :=
  lanes2 (sri_n_u32 8) (lanes1 (shl_n_u32 (32 - 8)) x) x.
Definition rot7_128 (x : uint32x4_t) : uint32x4_t :=
  lanes2 (sri_n_u32 7) (lanes1 (shl_n_u32 (32 - 7)) x) x.

(** An array of vectors. *)
Definition zero4 : uint32x4_t := U32x4 0 0 0 0.
Notation "a .{ i }" := (nth i a zero4) (at level 1, i at level 69, left associativity,
  format "a .{ i }").
Notation "a .{ i <- x }" := (@insert nat uint32x4_t _ _ i%nat x a)
  (at level 1, i at level 69, x at level 200, left associativity).

(** ** [hash4_neon] *)

(** The body of [round_fn4]; [s i] is [m[(size_t)MSG_SCHEDULE[r][i]]]. *)
Definition round_steps4 (v : list uint32x4_t) (s : nat -> uint32x4_t) : list uint32x4_t :=
  let v := v.{0 <- add_128 v.{0} (s 0%nat)} in
  let v := v.{1 <- add_128 v.{1} (s 2%nat)} in
  let v := v.{2 <- add_128 v.{2} (s 4%nat)} in
  let v := v.{3 <- add_128 v.{3} (s 6%nat)} in
  let v := v.{0 <- add_128 v.{0} v.{4}} in
  let v := v.{1 <- add_128 v.{1} v.{5}} in
  let v := v.{2 <- add_128 v.{2} v.{6}} in
  let v := v.{3 <- add_128 v.{3} v.{7}} in
  let v := v.{12 <- xor_128 v.{12} v.{0}} in
  let v := v.{13 <- xor_128 v.{13} v.{1}} in
  let v := v.{14 <- xor_128 v.{14} v.{2}} in
  let v := v.{15 <- xor_128 v.{15} v.{3}} in
  let v := v.{12 <- rot16_128 v.{12}} in
  let v := v.{13 <- rot16_128 v.{13}} in
  let v := v.{14 <- rot16_128 v.{14}} in
  let v := v.{15 <- rot16_128 v.{15}} in
  let v := v.{8 <- add_128 v.{8} v.{12}} in
  let v := v.{9 <- add_128 v.{9} v.{13}} in
  let v := v.{10 <- add_128 v.{10} v.{14}} in
  let v := v.{11 <- add_128 v.{11} v.{15}} in
  let v := v.{4 <- xor_128 v.{4} v.{8}} in
  let v := v.{5 <- xor_128 v.{5} v.{9}} in
  let v := v.{6 <- xor_128 v.{6} v.{10}} in
  let v := v.{7 <- xor_128 v.{7} v.{11}} in
  let v := v.{4 <- rot12_128 v.{4}} in
  let v := v.{5 <- rot12_128 v.{5}} in
  let v := v.{6 <- rot12_128 v.{6}} in
  let v := v.{7 <- rot12_128 v.{7}} in
  let v := v.{0 <- add_128 v.{0} (s 1%nat)} in
  let v := v.{1 <- add_128 v.{1} (s 3%nat)} in
  let v := v.{2 <- add_128 v.{2} (s 5%nat)} in
  let v := v.{3 <- add_128 v.{3} (s 7%nat)} in
  let v := v.{0 <- add_128 v.{0} v.{4}} in
  let v := v.{1 <- add_128 v.{1} v.{5}} in
  let v := v.{2 <- add_128 v.{2} v.{6}} in
  let v := v.{3 <- add_128 v.{3} v.{7}} in
  let v := v.{12 <- xor_128 v.{12} v.{0}} in
  let v := v.{13 <- xor_128 v.{13} v.{1}} in
  let v := v.{14 <- xor_128 v.{14} v.{2}} in
  let v := v.{15 <- xor_128 v.{15} v.{3}} in
  let v := v.{12 <- rot8_128 v.{12}} in
  let v := v.{13 <- rot8_128 v.{13}} in
  let v := v.{14 <- rot8_128 v.{14}} in
  let v := v.{15 <- rot8_128 v.{15}} in
  let v := v.{8 <- add_128 v.{8} v.{12}} in
  let v := v.{9 <- add_128 v.{9} v.{13}} in
  let v := v.{10 <- add_128 v.{10} v.{14}} in
  let v := v.{11 <- add_128 v.{11} v.{15}} in
  let v := v.{4 <- xor_128 v.{4} v.{8}} in
  let v := v.{5 <- xor_128 v.{5} v.{9}} in
  let v := v.{6 <- xor_128 v.{6} v.{10}} in
  let v := v.{7 <- xor_128 v.{7} v.{11}} in
  let v := v.{4 <- rot7_128 v.{4}} in
  let v := v.{5 <- rot7_128 v.{5}} in
  let v := v.{6 <- rot7_128 v.{6}} in
  let v := v.{7 <- rot7_128 v.{7}} in
  let v := v.{0 <- add_128 v.{0} (s 8%nat)} in
  let v := v.{1 <- add_128 v.{1} (s 10%nat)} in
  let v := v.{2 <- add_128 v.{2} (s 12%nat)} in
  let v := v.{3 <- add_128 v.{3} (s 14%nat)} in
  let v := v.{0 <- add_128 v.{0} v.{5}} in
  let v := v.{1 <- add_128 v.{1} v.{6}} in
  let v := v.{2 <- add_128 v.{2} v.{7}} in
  let v := v.{3 <- add_128 v.{3} v.{4}} in
  let v := v.{15 <- xor_128 v.{15} v.{0}} in
  let v := v.{12 <- xor_128 v.{12} v.{1}} in
  let v := v.{13 <- xor_128 v.{13} v.{2}} in
  let v := v.{14 <- xor_128 v.{14} v.{3}} in
  let v := v.{15 <- rot16_128 v.{15}} in
  let v := v.{12 <- rot16_128 v.{12}} in
  let v := v.{13 <- rot16_128 v.{13}} in
  let v := v.{14 <- rot16_128 v.{14}} in
  let v := v.{10 <- add_128 v.{10} v.{15}} in
  let v := v.{11 <- add_128 v.{11} v.{12}} in
  let v := v.{8 <- add_128 v.{8} v.{13}} in
  let v := v.{9 <- add_128 v.{9} v.{14}} in
  let v := v.{5 <- xor_128 v.{5} v.{10}} in
  let v := v.{6 <- xor_128 v.{6} v.{11}} in
  let v := v.{7 <- xor_128 v.{7} v.{8}} in
  let v := v.{4 <- xor_128 v.{4} v.{9}} in
  let v := v.{5 <- rot12_128 v.{5}} in
  let v := v.{6 <- rot12_128 v.{6}} in
  let v := v.{7 <- rot12_128 v.{7}} in
  let v := v.{4 <- rot12_128 v.{4}} in
  let v := v.{0 <- add_128 v.{0} (s 9%nat)} in
  let v := v.{1 <- add_128 v.{1} (s 11%nat)} in
  let v := v.{2 <- add_128 v.{2} (s 13%nat)} in
  let v := v.{3 <- add_128 v.{3} (s 15%nat)} in
  let v := v.{0 <- add_128 v.{0} v.{5}} in
  let v := v.{1 <- add_128 v.{1} v.{6}} in
  let v := v.{2 <- add_128 v.{2} v.{7}} in
  let v := v.{3 <- add_128 v.{3} v.{4}} in
  let v := v.{15 <- xor_128 v.{15} v.{0}} in
  let v := v.{12 <- xor_128 v.{12} v.{1}} in
  let v := v.{13 <- xor_128 v.{13} v.{2}} in
  let v := v.{14 <- xor_128 v.{14} v.{3}} in
  let v := v.{15 <- rot8_128 v.{15}} in
  let v := v.{12 <- rot8_128 v.{12}} in
  let v := v.{13 <- rot8_128 v.{13}} in
  let v := v.{14 <- rot8_128 v.{14}} in
  let v := v.{10 <- add_128 v.{10} v.{15}} in
  let v := v.{11 <- add_128 v.{11} v.{12}} in
  let v := v.{8 <- add_128 v.{8} v.{13}} in
  let v := v.{9 <- add_128 v.{9} v.{14}} in
  let v := v.{5 <- xor_128 v.{5} v.{10}} in
  let v := v.{6 <- xor_128 v.{6} v.{11}} in
  let v := v.{7 <- xor_128 v.{7} v.{8}} in
  let v := v.{4 <- xor_128 v.{4} v.{9}} in
  let v := v.{5 <- rot7_128 v.{5}} in
  let v := v.{6 <- rot7_128 v.{6}} in
  let v := v.{7 <- rot7_128 v.{7}} in
  v.{4 <- rot7_128 v.{4}}.

Definition round_fn4 (v m : list uint32x4_t) (r : nat) : list uint32x4_t :=
  round_steps4 v (fun i => m.{nth i (nth r MSG_SCHEDULE []) 0%nat}).

(** In place on the four vectors of [vecs] from index [k] on. *)
Definition transpose_vecs_128 (k : nat) (vecs : list uint32x4_t) : list uint32x4_t :=
  let rows01 := vtrnq_u32 vecs.{k} vecs.{k + 1} in
  let rows23 := vtrnq_u32 vecs.{k + 2} vecs.{k + 3} in
  let vecs := vecs.{(k + 0) <- vcombine_u32 (vget_low_u32 rows01.1) (vget_low_u32 rows23.1)} in
  let vecs := vecs.{(k + 1) <- vcombine_u32 (vget_low_u32 rows01.2) (vget_low_u32 rows23.2)} in
  let vecs := vecs.{(k + 2) <- vcombine_u32 (vget_high_u32 rows01.1) (vget_high_u32 rows23.1)} in
  vecs.{(k + 3) <- vcombine_u32 (vget_high_u32 rows01.2) (vget_high_u32 rows23.2)}.

Definition transpose_msg_vecs4 (inputs : list (list Z)) (block_offset : Z) : list uint32x4_t :=
  let at_ i q := loadu_128 (zdrop (block_offset + q * 16) (nth i inputs [])) in
  let out :=
    [at_ 0%nat 0; at_ 1%nat 0; at_ 2%nat 0; at_ 3%nat 0;
     at_ 0%nat 1; at_ 1%nat 1; at_ 2%nat 1; at_ 3%nat 1;
     at_ 0%nat 2; at_ 1%nat 2; at_ 2%nat 2; at_ 3%nat 2;
     at_ 0%nat 3; at_ 1%nat 3; at_ 2%nat 3; at_ 3%nat 3] in
  let out := transpose_vecs_128 0 out in
  let out := transpose_vecs_128 4 out in
  let out := transpose_vecs_128 8 out in
  transpose_vecs_128 12 out.

(** [mask] is all ones or zero. *)
Definition load_counters4 (counter : Z) (increment_counter : bool) :
  uint32x4_t * uint32x4_t :=
  let mask := if increment_counter then 2 ^ 64 - 1 else 0 in
  let c i := u64 (counter + Z.land mask i) in
  (set4 (counter_low (c 0)) (counter_low (c 1)) (counter_low (c 2)) (counter_low (c 3)),
   set4 (counter_high (c 0)) (counter_high (c 1)) (counter_high (c 2)) (counter_high (c 3))).

(** One pass of the loop over the blocks. *)
Definition hash4_block (inputs : list (list Z)) (block : nat)
  (counter_low_vec counter_high_vec : uint32x4_t) (block_flags : Z)
  (h_vecs : list uint32x4_t) : list uint32x4_t :=
  let block_len_vec := set1_128 BLAKE3_BLOCK_LEN in
  let block_flags_vec := set1_128 block_flags in
  let msg_vecs := transpose_msg_vecs4 inputs (Z.of_nat block * BLAKE3_BLOCK_LEN) in
  let v :=
    [h_vecs.{0}; h_vecs.{1}; h_vecs.{2}; h_vecs.{3};
     h_vecs.{4}; h_vecs.{5}; h_vecs.{6}; h_vecs.{7};
     set1_128 IV.[0]; set1_128 IV.[1]; set1_128 IV.[2]; set1_128 IV.[3];
     counter_low_vec; counter_high_vec; block_len_vec; block_flags_vec] in
  let v := round_fn4 v msg_vecs 0 in
  let v := round_fn4 v msg_vecs 1 in
  let v := round_fn4 v msg_vecs 2 in
  let v := round_fn4 v msg_vecs 3 in
  let v := round_fn4 v msg_vecs 4 in
  let v := round_fn4 v msg_vecs 5 in
  let v := round_fn4 v msg_vecs 6 in
  [xor_128 v.{0} v.{8}; xor_128 v.{1} v.{9}; xor_128 v.{2} v.{10}; xor_128 v.{3} v.{11};
   xor_128 v.{4} v.{12}; xor_128 v.{5} v.{13}; xor_128 v.{6} v.{14}; xor_128 v.{7} v.{15}].

(** [for (block = ...; block < blocks; block++)], [todo] passes to go. *)
Fixpoint hash4_loop (todo block blocks : nat) (inputs : list (list Z))
  (counter_low_vec counter_high_vec : uint32x4_t) (flags flags_end block_flags : Z)
  (h_vecs : list uint32x4_t) : list uint32x4_t :=
  match todo with
  | O => h_vecs
  | S todo =>
      let block_flags := if (block + 1 =? blocks)%nat then Z.lor block_flags flags_end
                         else block_flags in
      let h_vecs := hash4_block inputs block counter_low_vec counter_high_vec
                      block_flags h_vecs in
      hash4_loop todo (S block) blocks inputs counter_low_vec counter_high_vec
        flags flags_end flags h_vecs
  end.

(** Writes four chaining values at [out]; the definition returns them. *)
Definition blake3_hash4_neon (inputs : list (list Z)) (blocks : nat) (key : list Z)
  (counter : Z) (increment_counter : bool) (flags flags_start flags_end : Z) : list Z :=
  let h_vecs := map (fun i => set1_128 key.[i]) (seq 0 8) in
  let '(counter_low_vec, counter_high_vec) := load_counters4 counter increment_counter in
  let h_vecs := hash4_loop blocks 0 blocks inputs counter_low_vec counter_high_vec
                  flags flags_end (Z.lor flags flags_start) h_vecs in
  let h_vecs := transpose_vecs_128 0 h_vecs in
  let h_vecs := transpose_vecs_128 4 h_vecs in
  storeu_128 h_vecs.{0} ++ storeu_128 h_vecs.{4} ++ storeu_128 h_vecs.{1} ++
  storeu_128 h_vecs.{5} ++ storeu_128 h_vecs.{2} ++ storeu_128 h_vecs.{6} ++
  storeu_128 h_vecs.{3} ++ storeu_128 h_vecs.{7}.

(** ** [hash_many_neon] *)

(** The loop of [hash_one_neon]; [blocks] counts down. *)
Fixpoint hash_one_neon_loop (blocks : nat) (input cv : list Z)
  (counter flags flags_end block_flags : Z) : list Z :=
  match blocks with
  | O => cv
  | S rest =>
      let block_flags := if (blocks =? 1)%nat then Z.lor block_flags flags_end
                         else block_flags in
      let cv := blake3_compress_in_place_portable cv (ztake BLAKE3_BLOCK_LEN input)
                  BLAKE3_BLOCK_LEN counter block_flags in
      hash_one_neon_loop rest (zdrop BLAKE3_BLOCK_LEN input) cv counter flags flags_end flags
  end.

(** The words are copied out as they are in memory, which is little-endian. *)
Definition hash_one_neon (input : list Z) (blocks : nat) (key : list Z)
  (counter flags flags_start flags_end : Z) : list Z :=
  store_cv_words (hash_one_neon_loop blocks input key counter flags flags_end
                    (Z.lor flags flags_start)).

(** The second loop: fewer than four inputs left. *)
Fixpoint hash_many_neon_rest (inputs : list (list Z)) (blocks : nat) (key : list Z)
  (counter : Z) (increment_counter : bool) (flags flags_start flags_end : Z) : list Z :=
  match inputs with
  | [] => []
  | input :: inputs =>
      hash_one_neon input blocks key counter flags flags_start flags_end ++
      hash_many_neon_rest inputs blocks key
        (if increment_counter then u64 (counter + 1) else counter)
        increment_counter flags flags_start flags_end
  end.

Fixpoint blake3_hash_many_neon (inputs : list (list Z)) (blocks : nat) (key : list Z)
  (counter : Z) (increment_counter : bool) (flags flags_start flags_end : Z) : list Z :=
  match inputs with
  | _ :: _ :: _ :: _ :: rest =>
      blake3_hash4_neon inputs blocks key counter increment_counter
        flags flags_start flags_end ++
      blake3_hash_many_neon rest blocks key
        (if increment_counter then u64 (counter + 4) else counter)
        increment_counter flags flags_start flags_end
  | _ => hash_many_neon_rest inputs blocks key counter increment_counter
           flags flags_start flags_end
  end.
