(* ===== verification/Blake3NeonLaws.v ===== *)
(** * The NEON kernel computes what the portable one does

    Lane by lane: the rotations by shuffles and shift-inserts, the interleaved
    round function, the transposed message loads, the per-lane counters; then
    [blake3_hash_many_neon] against [blake3_hash_many_portable]. *)

From Stdlib Require Import ZArith Lia.
From stdpp Require Import base numbers list.
From S2P Require Import Prelude Blake3Impl Blake3Portable Blake3Backend Blake3PortableLaws.
From S2P Require Import Blake3Neon.
Local Open Scope Z_scope.

(** ** Rotations *)

(** [bit_cases]: compare two words bit by bit, splitting on the shift bounds. *)
Ltac bit_step :=
  match goal with
  | |- context [Z.testbit (Z.lor _ _) _] => rewrite Z.lor_spec
  | |- context [Z.testbit (Z.land _ _) _] => rewrite Z.land_spec
  | |- context [Z.testbit (wrap _ _) _] => rewrite wrap_testbit by lia
  | |- context [Z.testbit (Z.shiftr _ _) _] => rewrite Z.shiftr_spec by lia
  | |- context [Z.testbit (Z.shiftl _ _) _] => rewrite Z.shiftl_spec by lia
  | |- context [Z.testbit _ ?k] => rewrite (Z.testbit_neg_r _ k) by lia
  | |- context [?a <? ?b] => destruct (Z.ltb_spec a b)
  end.

Lemma rotr32_testbit x n i : in_width 32 x -> 0 < n < 32 -> 0 <= i ->
  Z.testbit (rotr32 x n) i =
  (i <? 32) && (if i + n <? 32 then Z.testbit x (i + n) else Z.testbit x (i + n - 32)).
Proof.
  intros Hx Hn Hi. unfold rotr32. rewrite wrap_testbit by lia. f_equal.
  rewrite Z.lor_spec, Z.shiftr_spec, Z.shiftl_spec by lia.
  destruct (Z.ltb_spec (i + n) 32).
  - rewrite (Z.testbit_neg_r x (i - (32 - n))), orb_false_r by lia. done.
  - rewrite (in_width_testbit 32 x Hx (i + n)) by lia. simpl. f_equal. lia.
Qed.

Lemma rotr32_width x n : in_width 32 (rotr32 x n).
Proof. apply wrap_width. lia. Qed.

Lemma word_ext x y : in_width 32 x -> in_width 32 y ->
  (forall i, 0 <= i < 32 -> Z.testbit x i = Z.testbit y i) -> x = y.
Proof.
  intros Hx Hy H. apply Z.bits_inj'. intros i Hi.
  destruct (Z.lt_ge_cases i 32); [apply H; lia|].
  rewrite (in_width_testbit 32 x Hx), (in_width_testbit 32 y Hy) by lia. done.
Qed.

Lemma shiftl_width w x n : 0 <= n -> 0 <= w -> in_width w x -> in_width (w + n) (Z.shiftl x n).
Proof.
  intros Hn Hw [H0 H1]. unfold in_width. rewrite Z.shiftl_mul_pow2, Z.pow_add_r by lia.
  assert (0 < 2 ^ n) by (apply Z.pow_pos_nonneg; lia). nia.
Qed.

Lemma in_width_mono w w' x : w <= w' -> in_width w x -> in_width w' x.
Proof.
  intros Hle [H0 H1]. split; [done|]. eapply Z.lt_le_trans; [exact H1|].
  destruct (Z.lt_ge_cases w 0); [rewrite (Z.pow_neg_r 2 w) in H1 by done; lia|].
  apply Z.pow_le_mono_r; lia.
Qed.

Lemma shiftr_width w x n : 0 <= n -> in_width w x -> in_width w (Z.shiftr x n).
Proof.
  intros Hn [H0 H1]. rewrite Z.shiftr_div_pow2 by done.
  assert (0 < 2 ^ n) by (apply Z.pow_pos_nonneg; lia).
  split; [apply Z.div_pos; lia|]. eapply Z.le_lt_trans; [|exact H1].
  apply Z.div_le_upper_bound; nia.
Qed.

Lemma rev32_u16_width x : in_width 32 (rev32_u16 x).
Proof.
  apply in_width_lor; [lia| |apply (shiftl_width 16 _ 16); try lia; apply wrap_width; lia].
  apply (in_width_mono 16); [lia|]. apply wrap_width. lia.
Qed.

Lemma load32_width p : in_width 32 (load32 p).
Proof.
  unfold load32. repeat (apply in_width_lor; [lia| |]);
    match goal with |- in_width _ (Z.shiftl _ ?n) =>
      apply (in_width_mono (8 + n)); [lia|]; apply shiftl_width; try lia; apply wrap_width; lia
    end.
Qed.

Lemma sri_width n x : 0 < n < 32 -> in_width 32 x -> in_width 32 (sri_n_u32 n (shl_n_u32 (32 - n) x) x).
Proof.
  intros Hn Hx. apply in_width_lor; [lia| |apply shiftr_width; done || lia].
  apply in_width_land; [lia|apply wrap_width; lia|].
  apply Z.shiftl_nonneg. rewrite Z.ones_equiv. assert (0 < 2 ^ n) by (apply Z.pow_pos_nonneg; lia). lia.
Qed.

Lemma rot16_lane x : in_width 32 x -> rev32_u16 x = rotr32 x 16.
Proof.
  intros Hx. apply word_ext; [apply rev32_u16_width|apply rotr32_width|]. intros i Hi.
  rewrite rotr32_testbit by (done || lia). unfold rev32_u16.
  rewrite Z.lor_spec, Z.shiftl_spec, !wrap_testbit, Z.shiftr_spec by lia.
  repeat bit_step; simpl; rewrite ?orb_false_r; try lia; f_equal; lia.
Qed.

Lemma sri_lane n x : 0 < n < 32 -> in_width 32 x ->
  sri_n_u32 n (shl_n_u32 (32 - n) x) x = rotr32 x n.
Proof.
  intros Hn Hx. apply word_ext; [apply sri_width; done|apply rotr32_width|]. intros i Hi.
  rewrite rotr32_testbit by (done || lia). unfold sri_n_u32, shl_n_u32.
  rewrite Z.lor_spec, Z.land_spec, wrap_testbit, !Z.shiftl_spec, Z.shiftr_spec by lia.
  rewrite (proj2 (Z.ltb_lt i 32)) by lia. simpl.
  destruct (Z.ltb_spec (i + n) 32).
  - rewrite (Z.testbit_neg_r (Z.ones n)), andb_false_r by lia. done.
  - rewrite Z.ones_spec_low, andb_true_r, (in_width_testbit 32 x Hx (i + n)), orb_false_r by lia.
    f_equal. lia.
Qed.

Lemma rot8_lane x : in_width 32 x -> shuffle_u8 1 2 3 0 x = rotr32 x 8.
Proof.
  intros Hx. apply word_ext; [apply load32_width|apply rotr32_width|]. intros i Hi.
  rewrite rotr32_testbit by (done || lia). unfold shuffle_u8, load32, store32. cbn [nth].
  rewrite !Z.lor_spec, !Z.shiftl_spec by lia.
  destruct (Z.lt_ge_cases i 8); [|destruct (Z.lt_ge_cases i 16); [|destruct (Z.lt_ge_cases i 24)]].
  all: repeat bit_step; simpl; rewrite ?orb_false_r; try lia; f_equal; lia.
Qed.

(** ** One quarter round *)

Lemma add_swap a b x : u32 (u32 (a + x) + b) = u32 (u32 (a + b) + x).
Proof. unfold wrap. rewrite !Zplus_mod_idemp_l. f_equal. lia. Qed.

(** The quarter round in the order of [round_fn4] and with its rotations is the one
    of the portable code. *)
Lemma neon_quarter a b c d x y :
  in_width 32 a -> in_width 32 b -> in_width 32 c -> in_width 32 d ->
  let a1 := u32 (u32 (a + x) + b) in
  let d1 := rev32_u16 (Z.lxor d a1) in
  let c1 := u32 (c + d1) in
  let b1 := sri_n_u32 12 (shl_n_u32 (32 - 12) (Z.lxor b c1)) (Z.lxor b c1) in
  let a2 := u32 (u32 (a1 + y) + b1) in
  let d2 := shuffle_u8 1 2 3 0 (Z.lxor d1 a2) in
  let c2 := u32 (c1 + d2) in
  let b2 := sri_n_u32 7 (shl_n_u32 (32 - 7) (Z.lxor b1 c2)) (Z.lxor b1 c2) in
  let a1' := u32 (u32 (a + b) + x) in
  let d1' := rotr32 (Z.lxor d a1') 16 in
  let c1' := u32 (c + d1') in
  let b1' := rotr32 (Z.lxor b c1') 12 in
  let a2' := u32 (u32 (a1' + b1') + y) in
  let d2' := rotr32 (Z.lxor d1' a2') 8 in
  let c2' := u32 (c1' + d2') in
  let b2' := rotr32 (Z.lxor b1' c2') 7 in
  (a2 = a2' /\ b2 = b2' /\ c2 = c2' /\ d2 = d2') /\
  in_width 32 a2 /\ in_width 32 b2 /\ in_width 32 c2 /\ in_width 32 d2.
Proof.
  intros Ha Hb Hc Hd. cbv zeta.
  rewrite (add_swap a b x). set (a1 := u32 (u32 (a + b) + x)).
  assert (in_width 32 a1) by (apply wrap_width; lia).
  rewrite rot16_lane by auto with width. set (d1 := rotr32 (Z.lxor d a1) 16).
  assert (in_width 32 d1) by apply rotr32_width.
  set (c1 := u32 (c + d1)). assert (in_width 32 c1) by (apply wrap_width; lia).
  rewrite (sri_lane 12) by (lia || auto with width). set (b1 := rotr32 (Z.lxor b c1) 12).
  assert (in_width 32 b1) by apply rotr32_width.
  rewrite (add_swap a1 b1 y). set (a2 := u32 (u32 (a1 + b1) + y)).
  assert (in_width 32 a2) by (apply wrap_width; lia).
  rewrite rot8_lane by auto with width. set (d2 := rotr32 (Z.lxor d1 a2) 8).
  assert (in_width 32 d2) by apply rotr32_width.
  set (c2 := u32 (c1 + d2)). assert (in_width 32 c2) by (apply wrap_width; lia).
  rewrite (sri_lane 7) by (lia || auto with width). split; [done|].
  split; [done|]. split; [apply rotr32_width|done].
Qed.

(** ** Lanes of the vector code *)

Definition lane (i : nat) (v : uint32x4_t) : Z :=
  match i with 0%nat => lane0 v | 1%nat => lane1 v | 2%nat => lane2 v | _ => lane3 v end.

Lemma lane_lanes1 i f a : lane i (lanes1 f a) = f (lane i a).
Proof. destruct i as [|[|[|i]]]; done. Qed.
Lemma lane_lanes2 i f a b : lane i (lanes2 f a b) = f (lane i a) (lane i b).
Proof. destruct i as [|[|[|i]]]; done. Qed.
Lemma lane_add i a b : lane i (add_128 a b) = u32 (lane i a + lane i b).
Proof. apply lane_lanes2. Qed.
Lemma lane_xor i a b : lane i (xor_128 a b) = Z.lxor (lane i a) (lane i b).
Proof. apply lane_lanes2. Qed.
Lemma lane_rot16 i a : lane i (rot16_128 a) = rev32_u16 (lane i a).
Proof. apply lane_lanes1. Qed.
Lemma lane_rot8 i a : lane i (rot8_128 a) = shuffle_u8 1 2 3 0 (lane i a).
Proof. apply lane_lanes1. Qed.
Lemma lane_rot12 i a : lane i (rot12_128 a) =
  sri_n_u32 12 (shl_n_u32 (32 - 12) (lane i a)) (lane i a).
Proof. unfold rot12_128. rewrite lane_lanes2, lane_lanes1. done. Qed.
Lemma lane_rot7 i a : lane i (rot7_128 a) =
  sri_n_u32 7 (shl_n_u32 (32 - 7) (lane i a)) (lane i a).
Proof. unfold rot7_128. rewrite lane_lanes2, lane_lanes1. done. Qed.
(** [lanes]: push a lane projection to the leaves. *)
Ltac lanes :=
  repeat first [rewrite lane_add | rewrite lane_xor | rewrite lane_rot16
               | rewrite lane_rot12 | rewrite lane_rot8 | rewrite lane_rot7].
Lemma lane_set1 i x : lane i (set1_128 x) = x.
Proof. destruct i as [|[|[|i]]]; done. Qed.

(** A quarter round of the vector code, its steps gathered from [round_fn4]. *)
Definition g4 (v : list uint32x4_t) (a b c d : nat) (x y : uint32x4_t) : list uint32x4_t :=
  let v := v.{a <- add_128 v.{a} x} in
  let v := v.{a <- add_128 v.{a} v.{b}} in
  let v := v.{d <- xor_128 v.{d} v.{a}} in
  let v := v.{d <- rot16_128 v.{d}} in
  let v := v.{c <- add_128 v.{c} v.{d}} in
  let v := v.{b <- xor_128 v.{b} v.{c}} in
  let v := v.{b <- rot12_128 v.{b}} in
  let v := v.{a <- add_128 v.{a} y} in
  let v := v.{a <- add_128 v.{a} v.{b}} in
  let v := v.{d <- xor_128 v.{d} v.{a}} in
  let v := v.{d <- rot8_128 v.{d}} in
  let v := v.{c <- add_128 v.{c} v.{d}} in
  let v := v.{b <- xor_128 v.{b} v.{c}} in
  v.{b <- rot7_128 v.{b}}.

Definition words (i : nat) (v : list uint32x4_t) : Prop :=
  length v = 16%nat /\ Forall (fun u => in_width 32 (lane i u)) v.

(** The quadruples of the columns and of the diagonals. *)
Definition quads : list (nat * nat * nat * nat) :=
  [(0, 4, 8, 12); (1, 5, 9, 13); (2, 6, 10, 14); (3, 7, 11, 15);
   (0, 5, 10, 15); (1, 6, 11, 12); (2, 7, 8, 13); (3, 4, 9, 14)]%nat.

(** The vectors of the quarter round are explicit: its lane [i] is an instance of
    [neon_quarter]. *)
Ltac quarter_lane :=
  cbv [g4 g insert list_insert nth map words length];
  match goal with |- context [lane ?i (add_128 (add_128 (add_128 (add_128 ?a ?x) ?b) ?y) _)] =>
    match goal with |- context [lane i (rot8_128 (xor_128 (rot16_128 (xor_128 ?d _)) _))] =>
    match goal with |- context [lane i (add_128 (add_128 ?c (rot16_128 _)) (rot8_128 _))] =>
      destruct (neon_quarter (lane i a) (lane i b) (lane i c) (lane i d) (lane i x) (lane i y))
        as ((Ea & Eb & Ec & Ed) & Wa & Wb & Wc & Wd); [done..|]
    end end end;
  cbv zeta in *; split;
  [ repeat (apply (f_equal2 cons); [first [reflexivity | lanes; assumption]|]); reflexivity
  | split; [reflexivity|];
    repeat (apply Forall_cons; split; [first [assumption | lanes; assumption]|]);
    apply Forall_nil; exact I ].

Lemma g4_lane i v q x y : In q quads -> words i v ->
  let '(a, b, c, d) := q in
  map (lane i) (g4 v a b c d x y) = g (map (lane i) v) a b c d (lane i x) (lane i y) /\
  words i (g4 v a b c d x y).
Proof.
  intros Hq (Hlen & HF).
  do 16 (destruct v as [|? v]; [done|]). destruct v; [|done]. clear Hlen.
  rewrite !Forall_cons in HF. destruct_and! HF.
  cbn [In quads] in Hq.
  repeat destruct Hq as [<- |Hq]; [..|done].
  all: quarter_lane.
Qed.

(** ** The round function *)

(** A round as a sequence of quarter rounds, each with two message words. *)
Definition g4_step (s : nat -> uint32x4_t) (v : list uint32x4_t)
  (step : nat * nat * nat * nat * nat) : list uint32x4_t :=
  let '(a, b, c, d, j) := step in g4 v a b c d (s j) (s (S j)).
Definition g_step (s : nat -> Z) (state : list Z)
  (step : nat * nat * nat * nat * nat) : list Z :=
  let '(a, b, c, d, j) := step in g state a b c d (s j) (s (S j)).
Definition steps : list (nat * nat * nat * nat * nat) :=
  zip quads [0; 2; 4; 6; 8; 10; 12; 14]%nat.

(** The interleaved steps of [round_fn4], gathered by columns and diagonals. *)
Lemma round_steps4_quarters v s : length v = 16%nat ->
  round_steps4 v s = foldl (g4_step s) v steps.
Proof.
  intros Hlen. do 16 (destruct v as [|? v]; [discriminate Hlen|]).
  destruct v; [|discriminate Hlen]. clear Hlen.
  cbn [foldl g4_step steps zip zip_with quads].
  cbv [round_steps4 g4 insert list_insert nth]. reflexivity.
Qed.

Lemma lane_nth i (m : list uint32x4_t) k : (map (lane i) m).[k] = lane i m.{k}.
Proof.
  replace 0 with (lane i zero4) by (destruct i as [|[|[|i]]]; done). apply map_nth.
Qed.

Lemma steps_lane i s l v : incl l steps -> words i v ->
  map (lane i) (foldl (g4_step s) v l) =
    foldl (g_step (fun j => lane i (s j))) (map (lane i) v) l /\
  words i (foldl (g4_step s) v l).
Proof.
  revert v. induction l as [|[[[[a b] c] d] j] l IH]; intros v Hl Hv; [done|].
  assert (Hq : In (a, b, c, d) quads).
  { change quads with (map fst steps). apply (in_map fst steps (a, b, c, d, j)).
    apply Hl. left. done. }
  destruct (g4_lane i v (a, b, c, d) (s j) (s (S j)) Hq Hv) as [E W].
  cbn [foldl g4_step g_step]. rewrite <- E. apply IH; [|done].
  intros x Hx. apply Hl. right. done.
Qed.

Lemma round_lane i v m r : words i v ->
  map (lane i) (round_fn4 v m r) = round_fn (map (lane i) v) (map (lane i) m) r /\
  words i (round_fn4 v m r).
Proof.
  intros Hv. unfold round_fn4. rewrite round_steps4_quarters by apply Hv.
  destruct (steps_lane i (fun k => m.{nth k (nth r MSG_SCHEDULE []) 0%nat}) steps v
    (incl_refl _) Hv) as [E W].
  split; [|exact W]. rewrite E. unfold round_fn. rewrite !lane_nth. reflexivity.
Qed.

(** Seven rounds. *)
Lemma rounds_lane i v m l : words i v ->
  map (lane i) (foldl (fun v r => round_fn4 v m r) v l) =
    foldl (fun s r => round_fn s (map (lane i) m) r) (map (lane i) v) l /\
  words i (foldl (fun v r => round_fn4 v m r) v l).
Proof.
  revert v. induction l as [|r l IH]; intros v Hv; [done|].
  destruct (round_lane i v m r Hv) as [E W]. cbn [foldl]. rewrite <- E. apply IH. done.
Qed.

Lemma lane_width i (v : list uint32x4_t) k :
  Forall (fun u => in_width 32 (lane i u)) v -> in_width 32 (lane i v.{k}).
Proof.
  intros HF. destruct (decide (k < length v)%nat) as [Hk|Hk].
  - rewrite Forall_nth in HF. apply HF. done.
  - rewrite nth_overflow by lia. destruct i as [|[|[|i]]]; done.
Qed.

Lemma words_nth i v k : words i v -> in_width 32 (lane i v.{k}).
Proof. intros [_ HF]. apply lane_width. done. Qed.

(** ** Message loads *)

Lemma load32_ext p q : (forall j, (j < 4)%nat -> p.[j] = q.[j]) -> load32 p = load32 q.
Proof. intros H. unfold load32. rewrite !H by lia. done. Qed.

Lemma nth_zdrop (l : list Z) n j : 0 <= n -> (zdrop n l).[j] = l.[Z.to_nat n + j].
Proof. intros. unfold zdrop. rewrite !nth_lookup, lookup_drop. done. Qed.

Lemma nth_ztake (l : list Z) n j : (j < Z.to_nat n)%nat -> (ztake n l).[j] = l.[j].
Proof. intros. unfold ztake. rewrite !nth_lookup, lookup_take_lt by done. done. Qed.

(** Reading a word of a block does not look past the block. *)
Lemma load32_block p w : (w < 16)%nat ->
  load32 (zdrop (4 * Z.of_nat w) (ztake 64 p)) = load32 (zdrop (4 * Z.of_nat w) p).
Proof.
  intros Hw. apply load32_ext. intros j Hj. rewrite !nth_zdrop, nth_ztake by lia. done.
Qed.

Definition block_words (block : list Z) : list Z :=
  map (fun i => load32 (zdrop (4 * Z.of_nat i) block)) (seq 0 16).

Lemma block_words_ztake p : block_words (ztake 64 p) = block_words p.
Proof. apply map_ext_in. intros w Hw. apply in_seq in Hw. apply load32_block. lia. Qed.

Lemma compress_pre_rounds cv block block_len counter flags :
  compress_pre cv block block_len counter flags =
  foldl (fun s r => round_fn s (block_words block) r)
    [cv.[0]; cv.[1]; cv.[2]; cv.[3]; cv.[4]; cv.[5]; cv.[6]; cv.[7];
     IV.[0]; IV.[1]; IV.[2]; IV.[3];
     counter_low counter; counter_high counter; block_len; flags] [0;1;2;3;4;5;6]%nat.
Proof. unfold compress_pre. cbv zeta. cbn [foldl]. reflexivity. Qed.

Lemma transpose_msg_lane i inputs off : (i < 4)%nat -> 0 <= off ->
  map (lane i) (transpose_msg_vecs4 inputs off) = block_words (zdrop off (nth i inputs [])).
Proof.
  intros Hi Hoff. unfold block_words. cbn [seq map]. rewrite !zdrop_zdrop by lia.
  destruct i as [|[|[|[|i]]]]; [..|lia];
    cbv [transpose_msg_vecs4 transpose_vecs_128 insert list_insert nth map lane Nat.add
         vtrnq_u32 vcombine_u32 vget_low_u32 vget_high_u32 fst snd
         lane0 lane1 lane2 lane3 loadu_128];
    rewrite !zdrop_zdrop by lia;
    repeat (apply (f_equal2 cons); [f_equal; f_equal; lia|]); reflexivity.
Qed.

(** ** A block, the loop over the blocks *)

Lemma portable_words i v : words i v -> Forall (in_width 32) (map (lane i) v).
Proof. intros [_ H]. apply Forall_fmap. exact H. Qed.

Definition xor_halves4 (v : list uint32x4_t) : list uint32x4_t :=
  [xor_128 v.{0} v.{8}; xor_128 v.{1} v.{9}; xor_128 v.{2} v.{10}; xor_128 v.{3} v.{11};
   xor_128 v.{4} v.{12}; xor_128 v.{5} v.{13}; xor_128 v.{6} v.{14}; xor_128 v.{7} v.{15}].
Definition xor_halves (s : list Z) : list Z :=
  [Z.lxor s.[0] s.[8]; Z.lxor s.[1] s.[9]; Z.lxor s.[2] s.[10]; Z.lxor s.[3] s.[11];
   Z.lxor s.[4] s.[12]; Z.lxor s.[5] s.[13]; Z.lxor s.[6] s.[14]; Z.lxor s.[7] s.[15]].

Lemma hash4_block_rounds inputs block clo chi block_flags h :
  hash4_block inputs block clo chi block_flags h =
  xor_halves4 (foldl (fun v r =>
      round_fn4 v (transpose_msg_vecs4 inputs (Z.of_nat block * BLAKE3_BLOCK_LEN)) r)
    [h.{0}; h.{1}; h.{2}; h.{3}; h.{4}; h.{5}; h.{6}; h.{7};
     set1_128 IV.[0]; set1_128 IV.[1]; set1_128 IV.[2]; set1_128 IV.[3];
     clo; chi; set1_128 BLAKE3_BLOCK_LEN; set1_128 block_flags] [0;1;2;3;4;5;6]%nat).
Proof. unfold hash4_block. cbv zeta. cbn [foldl]. reflexivity. Qed.

Lemma xor_halves_lane i v : words i v ->
  map (lane i) (xor_halves4 v) = xor_halves (map (lane i) v) /\
  length (xor_halves4 v) = 8%nat /\ Forall (fun u => in_width 32 (lane i u)) (xor_halves4 v).
Proof.
  intros W. unfold xor_halves4, xor_halves. split; [|split; [done|]].
  - cbn [map]. rewrite !lane_nth, !lane_xor. done.
  - repeat (apply Forall_cons; split); try apply Forall_nil; try exact I.
    all: rewrite lane_xor; apply in_width_lxor; [lia|apply words_nth; done..].
Qed.

Section Lane.
Context (inputs : list (list Z)) (i : nat) (Hi : (i < 4)%nat).
Context (clo chi : uint32x4_t) (counter : Z).
Context (Hlo : lane i clo = counter_low counter) (Hhi : lane i chi = counter_high counter).

(** Eight words of chaining value. *)
Definition cv_words (h : list uint32x4_t) : Prop :=
  length h = 8%nat /\ Forall (fun u => in_width 32 (lane i u)) h.

Lemma hash4_block_lane block block_flags h : cv_words h -> in_width 8 block_flags ->
  map (lane i) (hash4_block inputs block clo chi block_flags h) =
    blake3_compress_in_place_portable (map (lane i) h)
      (ztake 64 (zdrop (64 * Z.of_nat block) (nth i inputs []))) 64 counter block_flags /\
  cv_words (hash4_block inputs block clo chi block_flags h).
Proof.
  intros (Hlen & HF) Hfl. rewrite hash4_block_rounds.
  match goal with |- context [foldl _ ?v0 _] => set (v := v0) end.
  set (m := transpose_msg_vecs4 _ _).
  assert (W : words i v).
  { split; [done|].
    assert (Hh : forall k, in_width 32 (lane i h.{k})) by (intros k; apply lane_width; done).
    unfold v. repeat (apply Forall_cons; split); rewrite ?lane_set1, ?Hlo, ?Hhi; try done.
    - apply wrap_width. lia.
    - apply wrap_width. lia.
    - apply (in_width_mono 8); done. }
  assert (Hm : map (lane i) m = block_words (ztake 64 (zdrop (64 * Z.of_nat block) (nth i inputs [])))).
  { unfold m. rewrite block_words_ztake, transpose_msg_lane by (unfold BLAKE3_BLOCK_LEN; lia).
    do 2 f_equal. unfold BLAKE3_BLOCK_LEN. lia. }
  destruct (rounds_lane i v m [0;1;2;3;4;5;6]%nat W) as [E7 W7].
  destruct (xor_halves_lane i _ W7) as [Ex Hx]. split; [|exact Hx]. rewrite Ex, E7.
  unfold blake3_compress_in_place_portable. rewrite compress_pre_rounds.
  rewrite Hm. unfold v. cbn [map]. rewrite !lane_set1, Hlo, Hhi, !lane_nth. reflexivity.
Qed.

Lemma hash4_loop_lane todo block blocks flags flags_end block_flags h :
  (block + todo = blocks)%nat -> cv_words h ->
  in_width 8 flags -> in_width 8 flags_end -> in_width 8 block_flags ->
  let h' := hash4_loop todo block blocks inputs clo chi flags flags_end block_flags h in
  map (lane i) h' =
    hash_one_loop todo (zdrop (64 * Z.of_nat block) (nth i inputs [])) (map (lane i) h)
      counter flags flags_end block_flags /\
  cv_words h'.
Proof.
  intros Hb Hh Hf He. revert block h block_flags Hb Hh.
  induction todo as [|todo IH]; intros block h block_flags Hb Hh Hbf; [done|].
  cbn [hash4_loop hash_one_loop]. cbv zeta.
  replace (S todo =? 1)%nat with (block + 1 =? blocks)%nat.
  2: { destruct (Nat.eqb_spec (block + 1) blocks), (Nat.eqb_spec (S todo) 1); done || lia. }
  set (bf := if (block + 1 =? blocks)%nat then Z.lor block_flags flags_end else block_flags).
  assert (Hbf' : in_width 8 bf)
    by (unfold bf; destruct (block + 1 =? blocks)%nat; auto with width).
  destruct (hash4_block_lane block bf h Hh Hbf') as [E W].
  destruct (IH (S block) (hash4_block inputs block clo chi bf h) flags) as [E' W'];
    [lia|done..|]. split; [|exact W'].
  rewrite E', E. unfold BLAKE3_BLOCK_LEN. rewrite zdrop_zdrop by lia. do 2 f_equal. lia.
Qed.
End Lane.

(** ** Four inputs, then all of them *)

Lemma load_counters_lane i counter (inc : bool) : (i < 4)%nat ->
  let c := if inc then u64 (counter + Z.of_nat i) else u64 counter in
  lane i (load_counters4 counter inc).1 = counter_low c /\
  lane i (load_counters4 counter inc).2 = counter_high c.
Proof.
  intros Hi. unfold load_counters4.
  destruct i as [|[|[|[|i]]]]; [..|lia]; destruct inc; cbv zeta; cbn [fst snd lane set4 lane0 lane1 lane2 lane3];
    rewrite ?Z.land_0_l, ?Z.add_0_r; done.
Qed.

(** The transposed stores write the four chaining values one after the other. *)
Lemma store_transposed h : length h = 8%nat ->
  let h' := transpose_vecs_128 4 (transpose_vecs_128 0 h) in
  storeu_128 h'.{0} ++ storeu_128 h'.{4} ++ storeu_128 h'.{1} ++ storeu_128 h'.{5} ++
  storeu_128 h'.{2} ++ storeu_128 h'.{6} ++ storeu_128 h'.{3} ++ storeu_128 h'.{7} =
  store_cv_words (map (lane 0) h) ++ store_cv_words (map (lane 1) h) ++
  store_cv_words (map (lane 2) h) ++ store_cv_words (map (lane 3) h).
Proof.
  intros Hlen. do 8 (destruct h as [|? h]; [discriminate Hlen|]).
  destruct h; [|discriminate Hlen]. reflexivity.
Qed.

Lemma key_nth (key : list Z) k : (k < 8)%nat -> (map (fun j => key.[j]) (seq 0 8)).[k] = key.[k].
Proof. intros Hk. do 8 (destruct k as [|k]; [done|]). lia. Qed.

Lemma key_words i key : Forall (in_width 32) key ->
  let h0 := map (fun j => set1_128 key.[j]) (seq 0 8) in
  cv_words i h0 /\ map (lane i) h0 = map (fun j => key.[j]) (seq 0 8).
Proof.
  intros Hk h0. split; [split; [done|]|].
  - unfold h0. apply Forall_fmap, Forall_forall. intros k _. simpl. rewrite lane_set1.
    destruct (decide (k < length key)%nat).
    + rewrite Forall_nth in Hk. apply Hk. done.
    + rewrite nth_overflow by lia. done.
  - unfold h0. rewrite map_map. apply map_ext. intros k. apply lane_set1.
Qed.

(** Only the first eight words of the chaining value are used. *)
Lemma hash_one_loop_cv blocks input cv cv' counter flags end_ block_flags :
  (forall k, (k < 8)%nat -> cv.[k] = cv'.[k]) ->
  store_cv_words (hash_one_loop blocks input cv counter flags end_ block_flags) =
  store_cv_words (hash_one_loop blocks input cv' counter flags end_ block_flags).
Proof.
  intros H. destruct blocks as [|n]; cbn [hash_one_loop].
  - unfold store_cv_words. rewrite !H by lia. done.
  - cbv zeta. do 2 f_equal. unfold blake3_compress_in_place_portable.
    rewrite !compress_pre_rounds, !H by lia. reflexivity.
Qed.

Lemma hash4_neon_lanes inputs blocks key counter (inc : bool) flags start end_ :
  Forall (in_width 32) key -> in_width 64 counter ->
  in_width 8 flags -> in_width 8 start -> in_width 8 end_ ->
  let one i := hash_one_portable (nth i inputs []) blocks key
    (if inc then u64 (counter + Z.of_nat i) else counter) flags start end_ in
  blake3_hash4_neon inputs blocks key counter inc flags start end_ =
  one 0%nat ++ one 1%nat ++ one 2%nat ++ one 3%nat.
Proof.
  intros Hk Hc Hf Hs He one. unfold blake3_hash4_neon.
  destruct (load_counters4 counter inc) as [clo chi] eqn:Hctr.
  set (h0 := map (fun i => set1_128 key.[i]) (seq 0 8)).
  set (h := hash4_loop blocks 0 blocks inputs clo chi flags end_ (Z.lor flags start) h0).
  assert (Hlane : forall i, (i < 4)%nat ->
    store_cv_words (map (lane i) h) = one i /\ length h = 8%nat).
  { intros i Hi. destruct (load_counters_lane i counter inc Hi) as [Hlo Hhi].
    rewrite Hctr in Hlo, Hhi. cbn [fst snd] in Hlo, Hhi.
    destruct (key_words i key Hk) as [Hw0 Hm0]. fold h0 in Hw0, Hm0.
    destruct (hash4_loop_lane inputs i Hi clo chi _ Hlo Hhi blocks 0 blocks flags end_
      (Z.lor flags start) h0) as [E W]; auto with width.
    fold h in E, W. split; [|apply W]. rewrite E, zdrop_0, Hm0 by lia.
    unfold one, hash_one_portable.
    rewrite (hash_one_loop_cv _ _ _ key) by (intros; apply key_nth; lia).
    do 2 f_equal. destruct inc; [done|]. apply wrap_small. done. }
  rewrite store_transposed by apply (Hlane 0%nat ltac:(lia)).
  rewrite !(fun i H => proj1 (Hlane i H)) by lia. done.
Qed.

Lemma hash_one_neon_portable input blocks key counter flags start end_ :
  hash_one_neon input blocks key counter flags start end_ =
  hash_one_portable input blocks key counter flags start end_.
Proof. reflexivity. Qed.

Lemma hash_many_neon_rest_portable inputs blocks key counter inc flags start end_ :
  hash_many_neon_rest inputs blocks key counter inc flags start end_ =
  blake3_hash_many_portable inputs blocks key counter inc flags start end_.
Proof.
  revert counter. induction inputs as [|x inputs IH]; intros counter; [reflexivity|].
  cbn [hash_many_neon_rest blake3_hash_many_portable].
  rewrite hash_one_neon_portable, IH. reflexivity.
Qed.

Lemma u64_add_add c a b : u64 (u64 (c + a) + b) = u64 (c + (a + b)).
Proof. unfold wrap. rewrite Zplus_mod_idemp_l. f_equal. lia. Qed.

Lemma hash_many_neon_portable inputs blocks key counter inc flags start end_ :
  Forall (in_width 32) key -> in_width 64 counter ->
  in_width 8 flags -> in_width 8 start -> in_width 8 end_ ->
  blake3_hash_many_neon inputs blocks key counter inc flags start end_ =
  blake3_hash_many_portable inputs blocks key counter inc flags start end_.
Proof.
  intros Hk Hc Hf Hs He. revert counter Hc.
  induction inputs as [inputs IH] using (induction_ltof1 _ length). intros counter Hc.
  destruct inputs as [|a [|b [|c [|d rest]]]]; try apply hash_many_neon_rest_portable.
  cbn [blake3_hash_many_neon]. rewrite hash4_neon_lanes by assumption.
  rewrite IH; [|unfold ltof; cbn [length]; lia|destruct inc; [apply wrap_width; lia|exact Hc]].
  cbn [blake3_hash_many_portable nth]. rewrite <- !app_assoc.
  destruct inc; cbv iota; [|reflexivity]. rewrite !u64_add_add.
  change (Z.of_nat 0) with 0. rewrite Z.add_0_r, (wrap_small 64 counter) by exact Hc. reflexivity.
Qed.

(** A build with NEON: four lanes, the compression function is the portable one. *)
Definition neon : Backend := {|
  MAX_SIMD_DEGREE := 4;
  blake3_simd_degree := 4;
  blake3_compress_in_place := blake3_compress_in_place_portable;
  blake3_compress_xof := blake3_compress_xof_portable;
  blake3_xof_many cv block block_len counter flags outblocks :=
    xof_many_loop (fun c => blake3_compress_xof_portable cv block block_len c flags)
      counter 0 outblocks;
  blake3_hash_many := blake3_hash_many_neon;
|}.

#[global] Instance neon_laws : BackendLaws neon.
Proof.
  split.
  - exists 2. done.
  - exists 2. done.
  - done.
  - done.
  - intros. simpl. rewrite xof_many_loop_ref, Z.add_0_r. reflexivity.
  - intros. cbn [blake3_hash_many neon]. rewrite hash_many_neon_portable by assumption.
    apply hash_many_portable_ref.
Qed.
