(* ===== verification/Blake3Dispatch.v ===== *)
(** * Choosing a kernel

    [blake3_dispatch.c]: CPU feature detection with its cache, and the choice of
    the kernel for each operation, as a function of the build configuration and of
    what [cpuid] and [xgetbv] report.  The x86 kernels are assembly and are not
    modelled: they are parameters nothing is assumed of.  The interface of the tree code
    is discharged where the dispatcher runs C code only; for the rest it is shown that
    no kernel runs that the CPU or the operating system does not support. *)

From Stdlib Require Import ZArith Lia.
From stdpp Require Import base numbers list.
From S2P Require Import Prelude Blake3Impl Blake3Portable Blake3Backend Blake3PortableLaws.
From S2P Require Import Blake3Neon Blake3NeonLaws.
Local Open Scope Z_scope.

(** ** The machine and the build *)

Record regs := { eax : Z; ebx : Z; ecx : Z; edx : Z }.

(** What the instructions of the same names return on the CPU at hand. *)
Record cpu := { cpuid : Z -> regs; cpuidex : Z -> Z -> regs; xgetbv : Z }.

(** The preprocessor symbols the file looks at. *)
Record build := {
  IS_X86 : bool;
  amd64 : bool;
  WIN32 : bool;
  NO_AVX512 : bool;
  NO_AVX2 : bool;
  NO_SSE41 : bool;
  NO_SSE2 : bool;
  USE_NEON : bool;
}.

(** [enum cpu_feature] *)
Definition SSE2 : Z := Z.shiftl 1 0.
Definition SSSE3 : Z := Z.shiftl 1 1.
Definition SSE41 : Z := Z.shiftl 1 2.
Definition AVX : Z := Z.shiftl 1 3.
Definition AVX2 : Z := Z.shiftl 1 4.
Definition AVX512F : Z := Z.shiftl 1 5.
Definition AVX512VL : Z := Z.shiftl 1 6.
Definition UNDEFINED : Z := Z.shiftl 1 30.

(** [x & m] as a condition. *)
Definition has (x m : Z) : bool := negb (Z.land x m =? 0).

(** [if (c) features |= f;] *)
Definition add_if (c : bool) (f features : Z) : Z := if c then Z.lor features f else features.

(** The value of a [uint32_t] converted to [int]. *)
Definition to_int32 (x : Z) : Z := if x <? 2 ^ 31 then x else x - 2 ^ 32.

(** The detection of [get_cpu_features], run when nothing is cached. *)
Definition detect_features (b : build) (c : cpu) : Z :=
  let max_id := to_int32 (eax (cpuid c 0)) in
  let r := cpuid c 1 in
  let features := if amd64 b then Z.lor 0 SSE2
                  else add_if (has (edx r) (Z.shiftl 1 26)) SSE2 0 in
  let features := add_if (has (ecx r) (Z.shiftl 1 9)) SSSE3 features in
  let features := add_if (has (ecx r) (Z.shiftl 1 19)) SSE41 features in
  if has (ecx r) (Z.shiftl 1 27) then
    let mask := xgetbv c in
    if Z.land mask 6 =? 6 then
      let features := add_if (has (ecx r) (Z.shiftl 1 28)) AVX features in
      if 7 <=? max_id then
        let r7 := cpuidex c 7 0 in
        let features := add_if (has (ebx r7) (Z.shiftl 1 5)) AVX2 features in
        if Z.land mask 224 =? 224 then
          let features := add_if (has (ebx r7) (Z.shiftl 1 31)) AVX512VL features in
          add_if (has (ebx r7) (Z.shiftl 1 16)) AVX512F features
        else features
      else features
    else features
  else features.

(** Returns the features and the new value of [g_cpu_features]. *)
Definition get_cpu_features (b : build) (c : cpu) (g_cpu_features : Z) : Z * Z :=
  let features := g_cpu_features in
  if negb (features =? UNDEFINED) then (features, g_cpu_features)
  else if IS_X86 b then let features := detect_features b c in (features, features)
  else (0, g_cpu_features).

(** ** The choice *)

(** The instruction sets the assembly kernels are written for. *)
Inductive isa := Isa_sse2 | Isa_sse41 | Isa_avx2 | Isa_avx512.

Record kernels := {
  k_compress_in_place : isa -> list Z -> list Z -> Z -> Z -> Z -> list Z;
  k_compress_xof : isa -> list Z -> list Z -> Z -> Z -> Z -> list Z;
  k_hash_many : isa -> list (list Z) -> nat -> list Z -> Z -> bool -> Z -> Z -> Z -> list Z;
  k_xof_many : list Z -> list Z -> Z -> Z -> Z -> nat -> list Z;
}.

Section Dispatch.
Context (b : build) (K : kernels) (features : Z).

(** The kernel [blake3_compress_in_place] and [blake3_compress_xof] branch to;
    [None] is the portable code. *)
Definition compress_choice : option isa :=
  if IS_X86 b then
    if negb (NO_AVX512 b) && has features AVX512VL then Some Isa_avx512
    else if negb (NO_SSE41 b) && has features SSE41 then Some Isa_sse41
    else if negb (NO_SSE2 b) && has features SSE2 then Some Isa_sse2
    else None
  else None.

Definition dispatch_compress_in_place (cv block : list Z) (block_len counter flags : Z) : list Z :=
  match compress_choice with
  | Some i => k_compress_in_place K i cv block block_len counter flags
  | None => blake3_compress_in_place_portable cv block block_len counter flags
  end.

Definition dispatch_compress_xof (cv block : list Z) (block_len counter flags : Z) : list Z :=
  match compress_choice with
  | Some i => k_compress_xof K i cv block block_len counter flags
  | None => blake3_compress_xof_portable cv block block_len counter flags
  end.

(** Whether [blake3_xof_many] branches to the AVX-512 kernel. *)
Definition xof_many_choice : bool :=
  IS_X86 b && negb (WIN32 b) && negb (NO_AVX512 b) && has features AVX512VL.

Definition dispatch_xof_many (cv block : list Z) (block_len counter flags : Z)
  (outblocks : nat) : list Z :=
  if (outblocks =? 0)%nat then []
  else if xof_many_choice then
    k_xof_many K cv block block_len counter flags outblocks
  else
    xof_many_loop (fun c => dispatch_compress_xof cv block block_len c flags)
      counter 0 outblocks.

(** The kernel [blake3_hash_many] branches to. *)
Definition hash_many_choice : option isa :=
  if IS_X86 b then
    if negb (NO_AVX512 b) &&
       (Z.land features (Z.lor AVX512F AVX512VL) =? Z.lor AVX512F AVX512VL)
    then Some Isa_avx512
    else if negb (NO_AVX2 b) && has features AVX2 then Some Isa_avx2
    else if negb (NO_SSE41 b) && has features SSE41 then Some Isa_sse41
    else if negb (NO_SSE2 b) && has features SSE2 then Some Isa_sse2
    else None
  else None.

Definition dispatch_hash_many (inputs : list (list Z)) (blocks : nat) (key : list Z)
  (counter : Z) (increment_counter : bool) (flags flags_start flags_end : Z) : list Z :=
  match hash_many_choice with
  | Some i => k_hash_many K i inputs blocks key counter increment_counter
                flags flags_start flags_end
  | None =>
      if USE_NEON b then
        blake3_hash_many_neon inputs blocks key counter increment_counter
          flags flags_start flags_end
      else
        blake3_hash_many_portable inputs blocks key counter increment_counter
          flags flags_start flags_end
  end.

Definition dispatch_simd_degree : Z :=
  if IS_X86 b && negb (NO_AVX512 b) &&
     (Z.land features (Z.lor AVX512F AVX512VL) =? Z.lor AVX512F AVX512VL) then 16
  else if IS_X86 b && negb (NO_AVX2 b) && has features AVX2 then 8
  else if IS_X86 b && negb (NO_SSE41 b) && has features SSE41 then 4
  else if IS_X86 b && negb (NO_SSE2 b) && has features SSE2 then 4
  else if USE_NEON b then 4
  else 1.

(** [MAX_SIMD_DEGREE] of [blake3_impl.h]. *)
Definition build_max_simd_degree : Z :=
  if IS_X86 b then 16 else if USE_NEON b then 4 else 1.
End Dispatch.

(** The functions the tree code calls, on a CPU with the given features. *)
Definition dispatched (b : build) (K : kernels) (features : Z) : Backend := {|
  MAX_SIMD_DEGREE := build_max_simd_degree b;
  blake3_simd_degree := dispatch_simd_degree b features;
  blake3_compress_in_place := dispatch_compress_in_place b K features;
  blake3_compress_xof := dispatch_compress_xof b K features;
  blake3_xof_many := dispatch_xof_many b K features;
  blake3_hash_many := dispatch_hash_many b K features;
|}.

(** ** What the detection reports *)

(** The operating system saves the AVX, respectively the AVX-512, registers. *)
Definition avx_state (c : cpu) : bool :=
  has (ecx (cpuid c 1)) (Z.shiftl 1 27) && (Z.land (xgetbv c) 6 =? 6).
Definition leaf7 (c : cpu) : bool := 7 <=? to_int32 (eax (cpuid c 0)).
Definition avx512_state (c : cpu) : bool :=
  avx_state c && leaf7 c && (Z.land (xgetbv c) 224 =? 224).

(** The CPU and the operating system can run a kernel; the wide kernels
    ([hash_many]) for AVX-512 also need the foundation instructions. *)
Definition supports (b : build) (c : cpu) (wide : bool) (i : isa) : bool :=
  match i with
  | Isa_sse2 => amd64 b || has (edx (cpuid c 1)) (Z.shiftl 1 26)
  | Isa_sse41 => has (ecx (cpuid c 1)) (Z.shiftl 1 19)
  | Isa_avx2 => avx_state c && leaf7 c && has (ebx (cpuidex c 7 0)) (Z.shiftl 1 5)
  | Isa_avx512 =>
      avx512_state c && has (ebx (cpuidex c 7 0)) (Z.shiftl 1 31) &&
      (negb wide || has (ebx (cpuidex c 7 0)) (Z.shiftl 1 16))
  end.

Lemma has_bit x k : 0 <= k -> has x (Z.shiftl 1 k) = Z.testbit x k.
Proof.
  intros Hk. unfold has. rewrite Z.shiftl_1_l. destruct (Z.testbit x k) eqn:E.
  - apply negb_true_iff, Z.eqb_neq. intros H. apply (f_equal (fun z => Z.testbit z k)) in H.
    rewrite Z.land_spec, Z.pow2_bits_true, E, Z.testbit_0_l in H by done. done.
  - apply negb_false_iff, Z.eqb_eq. apply Z.bits_inj'. intros i Hi.
    rewrite Z.land_spec, Z.testbit_0_l. destruct (Z.eq_dec k i) as [<-|Hne].
    + rewrite E. done.
    + rewrite Z.pow2_bits_false by done. apply andb_false_r.
Qed.

Lemma add_if_bit cond k f j : 0 <= k -> 0 <= j ->
  Z.testbit (add_if cond (Z.shiftl 1 k) f) j = Z.testbit f j || (cond && (k =? j)).
Proof.
  intros Hk Hj. unfold add_if. destruct cond; [|rewrite orb_false_r; done].
  rewrite Z.lor_spec, Z.shiftl_1_l. f_equal. destruct (Z.eqb_spec k j) as [<-|Hne].
  - apply Z.pow2_bits_true. done.
  - apply Z.pow2_bits_false. done.
Qed.

(** Each feature bit, in terms of what the instructions report. *)
Lemma detect_features_bits b c j : 0 <= j ->
  Z.testbit (detect_features b c) j =
  (supports b c false Isa_sse2 && (0 =? j)) ||
  (has (ecx (cpuid c 1)) (Z.shiftl 1 9) && (1 =? j)) ||
  (supports b c false Isa_sse41 && (2 =? j)) ||
  (avx_state c && has (ecx (cpuid c 1)) (Z.shiftl 1 28) && (3 =? j)) ||
  (supports b c false Isa_avx2 && (4 =? j)) ||
  (supports b c false Isa_avx512 && (6 =? j)) ||
  (avx512_state c && has (ebx (cpuidex c 7 0)) (Z.shiftl 1 16) && (5 =? j)).
Proof.
  intros Hj. unfold detect_features, supports, avx512_state, avx_state, leaf7. cbv zeta.
  set (f0 := if amd64 b then _ else _).
  assert (H0 : Z.testbit f0 j =
    (amd64 b || has (edx (cpuid c 1)) (Z.shiftl 1 26)) && (0 =? j)).
  { unfold f0, SSE2. destruct (amd64 b).
    - change (Z.lor 0 (Z.shiftl 1 0)) with (add_if true (Z.shiftl 1 0) 0).
      rewrite add_if_bit, Z.testbit_0_l by lia. done.
    - rewrite add_if_bit, Z.testbit_0_l by lia. done. }
  destruct (has (ecx (cpuid c 1)) (Z.shiftl 1 27)), (Z.land (xgetbv c) 6 =? 6),
    (7 <=? to_int32 (eax (cpuid c 0))), (Z.land (xgetbv c) 224 =? 224);
    unfold SSSE3, SSE41, AVX, AVX2, AVX512F, AVX512VL; rewrite !add_if_bit, H0 by lia;
    cbn [andb orb negb]; rewrite ?andb_true_r, ?orb_false_r; reflexivity.
Qed.

Lemma avx512_bits f : (Z.land f (Z.lor AVX512F AVX512VL) =? Z.lor AVX512F AVX512VL) =
  Z.testbit f 5 && Z.testbit f 6.
Proof.
  apply eq_true_iff_eq. rewrite Z.eqb_eq, andb_true_iff. split.
  - intros H. split.
    + apply (f_equal (fun z => Z.testbit z 5)) in H. rewrite Z.land_spec in H.
      apply andb_true_iff in H. apply H.
    + apply (f_equal (fun z => Z.testbit z 6)) in H. rewrite Z.land_spec in H.
      apply andb_true_iff in H. apply H.
  - intros [H5 H6]. apply Z.bits_inj'. intros i Hi. rewrite Z.land_spec.
    destruct (Z.eq_dec i 5) as [->|]; [rewrite H5; done|].
    destruct (Z.eq_dec i 6) as [->|]; [rewrite H6; done|].
    unfold AVX512F, AVX512VL. rewrite Z.lor_spec, !Z.shiftl_1_l, !Z.pow2_bits_false by lia.
    apply andb_false_r.
Qed.

Lemma detect_features_spec b c :
  let f := detect_features b c in
  has f SSE2 = supports b c false Isa_sse2 /\
  has f SSE41 = supports b c false Isa_sse41 /\
  has f AVX2 = supports b c false Isa_avx2 /\
  has f AVX512VL = supports b c false Isa_avx512 /\
  (Z.land f (Z.lor AVX512F AVX512VL) =? Z.lor AVX512F AVX512VL) = supports b c true Isa_avx512 /\
  f <> UNDEFINED.
Proof.
  cbv zeta. unfold SSE2, SSE41, AVX2. rewrite avx512_bits. unfold AVX512VL.
  rewrite !has_bit, !detect_features_bits by lia. cbn [Z.eqb Pos.eqb].
  rewrite ?andb_false_r, ?andb_true_r, ?orb_false_r. cbn [orb].
  repeat split.
  - cbn [supports negb orb]. destruct (avx512_state c), (has (ebx (cpuidex c 7 0)) (Z.shiftl 1 31)),
      (has (ebx (cpuidex c 7 0)) (Z.shiftl 1 16)); done.
  - intros H. apply (f_equal (fun z => Z.testbit z 30)) in H.
    rewrite detect_features_bits in H by lia. cbn [Z.eqb Pos.eqb] in H.
    rewrite ?andb_false_r in H. done.
Qed.

(** A value of [g_cpu_features] some sequence of calls leaves behind. *)
Inductive features_cache (b : build) (c : cpu) : Z -> Prop :=
| cache_initial : features_cache b c UNDEFINED
| cache_called g : features_cache b c g -> features_cache b c (get_cpu_features b c g).2.

Lemma features_cache_values b c g : features_cache b c g ->
  g = UNDEFINED \/ IS_X86 b = true /\ g = detect_features b c.
Proof.
  induction 1 as [|g _ [->|[Hx ->]]]; [left; done| |right].
  - unfold get_cpu_features. simpl. destruct (IS_X86 b); auto.
  - unfold get_cpu_features. destruct (detect_features_spec b c) as (_ & _ & _ & _ & _ & Hne).
    rewrite (proj2 (Z.eqb_neq _ _)) by done. done.
Qed.

Lemma get_cpu_features_value b c g : features_cache b c g ->
  (get_cpu_features b c g).1 = if IS_X86 b then detect_features b c else 0.
Proof.
  intros H. destruct (features_cache_values b c g H) as [->|[Hx ->]].
  - unfold get_cpu_features. simpl. destruct (IS_X86 b); done.
  - unfold get_cpu_features. destruct (detect_features_spec b c) as (_ & _ & _ & _ & _ & Hne).
    rewrite (proj2 (Z.eqb_neq _ _)), Hx by done. done.
Qed.

(** ** The choice is sound *)

(** The kernels with those taken out that the CPU or the operating system lacks. *)
Definition only_supported (b : build) (c : cpu) (K : kernels) : kernels := {|
  k_compress_in_place i :=
    if supports b c false i then k_compress_in_place K i else fun _ _ _ _ _ => [];
  k_compress_xof i :=
    if supports b c false i then k_compress_xof K i else fun _ _ _ _ _ => [];
  k_hash_many i :=
    if supports b c true i then k_hash_many K i else fun _ _ _ _ _ _ _ _ => [];
  k_xof_many :=
    if supports b c false Isa_avx512 then k_xof_many K else fun _ _ _ _ _ _ => [];
|}.

(** The kernels a build contains. *)
Definition compiled (b : build) (i : isa) : bool :=
  IS_X86 b && negb match i with
                   | Isa_sse2 => NO_SSE2 b
                   | Isa_sse41 => NO_SSE41 b
                   | Isa_avx2 => NO_AVX2 b
                   | Isa_avx512 => NO_AVX512 b
                   end.

(** The CPU can run no assembly kernel the build contains: every build for another
    architecture, every x86 build without assembly, and others on old CPUs. *)
Definition runs_c_only (b : build) (c : cpu) : bool :=
  forallb (fun i => negb (compiled b i && supports b c false i)) [Isa_sse2; Isa_sse41; Isa_avx2; Isa_avx512].

Lemma supports_narrow b c i : supports b c true i = true -> supports b c false i = true.
Proof. destruct i; cbn; rewrite ?andb_true_iff; naive_solver. Qed.

Lemma runs_c_only_none b c i : runs_c_only b c = true -> compiled b i = true ->
  supports b c false i = true -> False.
Proof.
  unfold runs_c_only. rewrite forallb_forall. intros H Hc Hs.
  specialize (H i ltac:(destruct i; cbn; tauto)). rewrite Hc, Hs in H. done.
Qed.

(** The first branch of a chain of choices that is taken. *)
Ltac next_choice :=
  match goal with
  | |- (if ?x then Some _ else _) = _ -> _ =>
      let E := fresh "E" in
      destruct x eqn:E; [apply andb_true_iff in E; intros [= <-]; apply and_comm, E|]
  end.

(** A kernel that is supported is not taken out. *)
Ltac keep_supported H :=
  cbn [k_compress_in_place k_compress_xof k_hash_many k_xof_many only_supported];
  rewrite (proj1 H); done.

Section Sound.
Context (b : build) (c : cpu) (K : kernels).
Context (g : Z) (Hg : features_cache b c g).

Abbreviation features := (get_cpu_features b c g).1.

Lemma compress_choice_supported i : compress_choice b features = Some i ->
  supports b c false i = true /\ compiled b i = true.
Proof.
  unfold compress_choice, compiled. rewrite get_cpu_features_value by done.
  destruct (IS_X86 b); [|done]. cbn [andb].
  destruct (detect_features_spec b c) as (H1 & H2 & _ & H4 & _).
  rewrite H1, H2, H4.
  repeat next_choice. discriminate.
Qed.

Lemma hash_many_choice_supported i : hash_many_choice b features = Some i ->
  supports b c true i = true /\ compiled b i = true.
Proof.
  unfold hash_many_choice, compiled. rewrite get_cpu_features_value by done.
  destruct (IS_X86 b); [|done]. cbn [andb].
  destruct (detect_features_spec b c) as (H1 & H2 & H3 & _ & H5 & _).
  rewrite H1, H2, H3, H5.
  repeat next_choice. discriminate.
Qed.

Lemma xof_many_choice_supported : xof_many_choice b features = true ->
  supports b c false Isa_avx512 = true /\ compiled b Isa_avx512 = true.
Proof.
  intros E. apply compress_choice_supported. unfold xof_many_choice in E.
  rewrite !andb_true_iff in E. destruct E as [[[Hx _] Ha] Hv].
  unfold compress_choice. rewrite Hx, Ha, Hv. done.
Qed.

Lemma dispatched_only_supported :
  dispatched b K features = dispatched b (only_supported b c K) features.
Proof.
  unfold dispatched. f_equal.
  - unfold dispatch_compress_in_place. destruct (compress_choice b features) as [i|] eqn:E; [|done].
    keep_supported (compress_choice_supported i E).
  - unfold dispatch_compress_xof. destruct (compress_choice b features) as [i|] eqn:E; [|done].
    keep_supported (compress_choice_supported i E).
  - unfold dispatch_xof_many, dispatch_compress_xof. destruct (xof_many_choice b features) eqn:E.
    + keep_supported (xof_many_choice_supported E).
    + destruct (compress_choice b features) as [i|] eqn:E'; [|done].
      keep_supported (compress_choice_supported i E').
  - unfold dispatch_hash_many. destruct (hash_many_choice b features) as [i|] eqn:E; [|done].
    keep_supported (hash_many_choice_supported i E).
Qed.

Context (Hc : runs_c_only b c = true).

Lemma compress_choice_none : compress_choice b features = None.
Proof.
  destruct (compress_choice b features) as [i|] eqn:E; [exfalso|done].
  destruct (compress_choice_supported i E) as [Hs Hi]. apply (runs_c_only_none b c i Hc Hi Hs).
Qed.

Lemma hash_many_choice_none : hash_many_choice b features = None.
Proof.
  destruct (hash_many_choice b features) as [i|] eqn:E; [exfalso|done].
  destruct (hash_many_choice_supported i E) as [Hs%supports_narrow Hi].
  apply (runs_c_only_none b c i Hc Hi Hs).
Qed.

Lemma xof_many_choice_none : xof_many_choice b features = false.
Proof.
  apply not_true_iff_false. intros E. destruct (xof_many_choice_supported E) as [Hs Hi].
  apply (runs_c_only_none b c _ Hc Hi Hs).
Qed.

Lemma dispatch_compress_in_place_portable cv block block_len counter flags :
  dispatch_compress_in_place b K features cv block block_len counter flags =
  blake3_compress_in_place_portable cv block block_len counter flags.
Proof. unfold dispatch_compress_in_place. rewrite compress_choice_none. done. Qed.

Lemma dispatch_compress_xof_portable cv block block_len counter flags :
  dispatch_compress_xof b K features cv block block_len counter flags =
  blake3_compress_xof_portable cv block block_len counter flags.
Proof. unfold dispatch_compress_xof. rewrite compress_choice_none. done. Qed.

#[global] Instance dispatched_laws : BackendLaws (dispatched b K features).
Proof.
  split; cbn [MAX_SIMD_DEGREE blake3_simd_degree blake3_compress_in_place blake3_compress_xof
              blake3_xof_many blake3_hash_many dispatched].
  - unfold build_max_simd_degree. destruct (IS_X86 b); [exists 4; done|].
    destruct (USE_NEON b); [exists 2|exists 0]; done.
  - unfold dispatch_simd_degree.
    repeat match goal with |- context [if ?x then _ else _] => destruct x end;
      (exists 4; done) || (exists 3; done) || (exists 2; done) || (exists 0; done).
  - unfold dispatch_simd_degree, build_max_simd_degree. destruct (IS_X86 b); cbn [andb].
    + repeat match goal with |- context [if ?x then _ else _] => destruct x end; lia.
    + destruct (USE_NEON b); lia.
  - intros. rewrite dispatch_compress_xof_portable. done.
  - intros cv block block_len counter flags n Hn. unfold dispatch_xof_many.
    destruct (Nat.eqb_spec n 0) as [->|_]; [done|].
    rewrite xof_many_choice_none, xof_many_loop_ref, Z.add_0_r. done.
  - intros. rewrite (hash_many_ref_ext _ _ dispatch_compress_in_place_portable).
    unfold dispatch_hash_many. rewrite hash_many_choice_none.
    destruct (USE_NEON b); [rewrite hash_many_neon_portable by done|];
      apply hash_many_portable_ref.
Qed.
End Sound.
