(* ===== verification/Blake3Correct.v ===== *)
(** * BLAKE3: the main theorems

    What a client of [blake3.h] can rely on, for every backend that meets the
    interface, for every split of the message over calls, whatever uninitialised
    memory holds; and that every build on every CPU is such a backend. *)

From Stdlib Require Import ZArith Lia.
From stdpp Require Import base numbers list list_numbers.
From S2P Require Import Prelude Blake3Impl Blake3Portable Blake3Backend Blake3Hasher Blake3Spec.
From S2P Require Import Blake3Root Blake3Chunk Blake3Wide Blake3Subtree Blake3Stack Blake3Update.
From S2P Require Import Blake3PortableLaws Blake3Neon Blake3NeonLaws Blake3Dispatch.
Local Open Scope Z_scope.

(** A client's sequence of updates. *)
Fixpoint update_all {B : Backend} (junk : Z -> list Z) (h : blake3_hasher)
  (inputs : list (list Z)) : exec blake3_hasher :=
  match inputs with
  | [] => Done h
  | input :: inputs =>
      let! h := blake3_hasher_update junk h input in update_all junk h inputs
  end.

(** Local arrays have the size they are declared with, whatever they hold. *)
Definition sized (junk : Z -> list Z) : Prop := forall n, 0 <= n -> zlen (junk n) = n.

Lemma sized_zeros : sized zeros.
Proof. intros n Hn. rewrite zlen_zeros. lia. Qed.

(** ** Invariant lemmas *)

Lemma stack_rep_nil key flags c stack : zlen stack = CV_STACK_SIZE ->
  stack_rep {| h_key := key; h_chunk := chunk_of key flags c []; cv_stack_len := 0;
               cv_stack := stack |} [].
Proof. intros H. split; [done|]. split; [done|]. split; [constructor|]. exists stack. done. Qed.

Lemma fresh_inv {B : Backend} key flags stack : zlen stack = CV_STACK_SIZE ->
  hasher_inv key flags {| h_key := key; h_chunk := chunk_of key flags 0 []; cv_stack_len := 0;
    cv_stack := stack |} [].
Proof.
  intros H. split; [done|]. split; [done|]. exists 0, [].
  split; [done|]. split; [done|]. split; [done|].
  split; [apply stack_rep_nil; done|]. right. split; [done|]. left. done.
Qed.

Lemma init_inv {B : Backend} key flags stack : zlen stack = CV_STACK_SIZE ->
  hasher_inv key flags (hasher_init_base key flags stack) [].
Proof. apply fresh_inv. Qed.

Lemma reset_inv {B : Backend} key flags h m : hasher_inv key flags h m ->
  hasher_inv key flags (blake3_hasher_reset h) [].
Proof.
  intros (Hk & _ & c & S & _ & _ & Hch & (Hsz & _) & _). unfold blake3_hasher_reset.
  rewrite Hk, (chunk_state_reset_of key flags) by (rewrite Hch; done). apply fresh_inv. done.
Qed.

Lemma IV_width : Forall (in_width 32) IV.
Proof.
  unfold IV. repeat (apply Forall_cons; split; [split; done|]). apply Forall_nil. done.
Qed.

Lemma load_key_words_width key : Forall (in_width 32) (load_key_words key).
Proof. unfold load_key_words. repeat constructor; apply load32_width. Qed.

Section Client.
Context {B : Backend} {L : BackendLaws B}.
Context (junk : Z -> list Z) (Hjunk : sized junk).
Context (key : list Z) (flags : Z).
Context (Hkey : Forall (in_width 32) key) (Hflags : in_width 8 flags).

Lemma update_all_inv inputs h m : hasher_inv key flags h m ->
  zlen m + zlen (concat inputs) < 2 ^ 64 ->
  exists h', update_all junk h inputs = Done h' /\ hasher_inv key flags h' (m ++ concat inputs).
Proof.
  revert h m. induction inputs as [|i inputs IH]; intros h m Hi Hlen; cbn [update_all concat].
  - rewrite app_nil_r. eauto.
  - cbn [concat] in Hlen. rewrite zlen_app in Hlen. pose proof (zlen_nonneg (concat inputs)).
    destruct (blake3_hasher_update_ok junk Hjunk key flags Hkey Hflags h m i Hi) as (h1 & -> & Hi1);
      [lia|]. cbn [exec_bind]. rewrite app_assoc. apply IH; [done|]. rewrite zlen_app. lia.
Qed.

Lemma session_ok inputs h seek out_len : hasher_inv key flags h [] ->
  zlen (concat inputs) < 2 ^ 64 -> 0 <= seek -> 0 <= out_len -> seek + out_len < 2 ^ 64 ->
  exists h', update_all junk h inputs = Done h' /\ hasher_inv key flags h' (concat inputs) /\
    blake3_hasher_finalize_seek h' seek out_len =
    Done (blake3_spec key flags (concat inputs) seek out_len).
Proof.
  intros Hi Hlen Hs Ho Hw. destruct (update_all_inv inputs h [] Hi) as (h' & E & Hi'); [done|].
  exists h'. split; [done|]. split; [done|]. apply blake3_hasher_finalize_seek_ok; done.
Qed.
End Client.

(** ** The specification depends on the backend through its compression function only *)

Section SpecExt.
Context (B1 B2 : Backend).
Context (Hc : forall cv block block_len counter flags,
  @blake3_compress_in_place B1 cv block block_len counter flags =
  @blake3_compress_in_place B2 cv block block_len counter flags).
Context (Hx : forall cv block block_len counter flags,
  @blake3_compress_xof B1 cv block block_len counter flags =
  @blake3_compress_xof B2 cv block block_len counter flags).

Lemma output_chaining_value_ext o :
  @output_chaining_value B1 o = @output_chaining_value B2 o.
Proof. unfold output_chaining_value. rewrite Hc. done. Qed.

Lemma chunk_node_ext key flags ctr m :
  @chunk_node B1 key flags ctr m = @chunk_node B2 key flags ctr m.
Proof. unfold chunk_node, chunk_cv. rewrite (blocks_cv_ext _ _ Hc). done. Qed.

Lemma tree_node_ext key flags fuel ctr m :
  @tree_node B1 key flags fuel ctr m = @tree_node B2 key flags fuel ctr m.
Proof.
  revert ctr m. induction fuel as [|n IH]; intros ctr m; simpl; [apply chunk_node_ext|].
  destruct (zlen m <=? BLAKE3_CHUNK_LEN); [apply chunk_node_ext|].
  rewrite !IH, !output_chaining_value_ext. done.
Qed.

Lemma blake3_spec_ext key flags m seek len :
  @blake3_spec B1 key flags m seek len = @blake3_spec B2 key flags m seek len.
Proof.
  unfold blake3_spec, root_bytes, subtree_node. rewrite tree_node_ext.
  apply map_ext. intros i. unfold root_block. rewrite Hx. done.
Qed.
End SpecExt.

(** ** Builds and CPUs, for the witnesses *)

(** Kernels that compute nothing. *)
Definition no_kernels : kernels := {|
  k_compress_in_place _ _ _ _ _ _ := [];
  k_compress_xof _ _ _ _ _ _ := [];
  k_hash_many _ _ _ _ _ _ _ _ _ := [];
  k_xof_many _ _ _ _ _ _ := [];
|}.

(** An ARM build with NEON; its CPU has neither [cpuid] nor [xgetbv]. *)
Definition linux_arm64 : build := {|
  IS_X86 := false; amd64 := false; WIN32 := false; NO_AVX512 := false; NO_AVX2 := false;
  NO_SSE41 := false; NO_SSE2 := false; USE_NEON := true |}.
Definition cortex : cpu := {|
  cpuid _ := {| eax := 0; ebx := 0; ecx := 0; edx := 0 |};
  cpuidex _ _ := {| eax := 0; ebx := 0; ecx := 0; edx := 0 |};
  xgetbv := 0 |}.

(** An x86-64 Linux build on a CPU with AVX2 but without AVX-512. *)
Definition linux_amd64 : build := {|
  IS_X86 := true; amd64 := true; WIN32 := false; NO_AVX512 := false; NO_AVX2 := false;
  NO_SSE41 := false; NO_SSE2 := false; USE_NEON := false |}.
Definition haswell : cpu := {|
  cpuid leaf := {| eax := 13; ebx := 0; ecx := 0x18080200; edx := 0x04000000 |};
  cpuidex leaf sub := {| eax := 0; ebx := 0x20; ecx := 0; edx := 0 |};
  xgetbv := 7 |}.

(** ** The hasher *)

(** C1.  For every backend, mode (key words and flags), contents of uninitialised
    memory and split of the message over calls of [blake3_hasher_update]: all calls
    return without a fault, and [blake3_hasher_finalize_seek] then writes exactly the
    bytes [seek .. seek + out_len - 1] of the BLAKE3 tree hash of the concatenation. *)
Theorem blake3_incremental_correct {B : Backend} {L : BackendLaws B} (junk : Z -> list Z)
  (key : list Z) (flags : Z) (stack : list Z) (inputs : list (list Z)) (seek out_len : Z) :
  sized junk -> Forall (in_width 32) key -> in_width 8 flags -> zlen stack = CV_STACK_SIZE ->
  zlen (concat inputs) < 2 ^ 64 -> 0 <= seek -> 0 <= out_len -> seek + out_len < 2 ^ 64 ->
  exists h, update_all junk (hasher_init_base key flags stack) inputs = Done h /\
    blake3_hasher_finalize_seek h seek out_len =
    Done (blake3_spec key flags (concat inputs) seek out_len).
Proof.
  intros Hj Hk Hf Hs Hlen H0 H1 H2.
  destruct (session_ok junk Hj key flags Hk Hf inputs _ seek out_len (init_inv key flags stack Hs))
    as (h & E & _ & Hfin); [done..|]. eauto.
Qed.

Lemma blake3_incremental_correct_witness :
  exists h, update_all (B := neon) zeros (hasher_init_base IV KEYED_HASH (zeros CV_STACK_SIZE))
      [[1; 2; 3]; []; [4]] = Done h /\
    blake3_hasher_finalize_seek (B := neon) h 70 50 =
    Done (blake3_spec (B := neon) IV KEYED_HASH [1; 2; 3; 4] 70 50).
Proof.
  apply (blake3_incremental_correct (B := neon) zeros IV KEYED_HASH (zeros CV_STACK_SIZE)
    [[1; 2; 3]; []; [4]] 70 50); try done.
  - apply sized_zeros.
  - apply IV_width.
Defined.

(** C2.  Every build that runs C code only computes the same hash: for another
    architecture than x86 with NEON or without, for x86 without the assembly, and for x86
    with assembly on a CPU that supports none of it, the kernels the dispatcher picks from
    the feature bits, cached or not, make a session return the hash that the portable
    compression function defines.  Nothing is assumed of the assembly kernels [K]. *)
Theorem digest_build_independent (b : build) (c : cpu) (K : kernels) (g : Z) (junk : Z -> list Z)
  (key : list Z) (flags : Z) (stack : list Z) (inputs : list (list Z)) (seek out_len : Z) :
  runs_c_only b c = true -> features_cache b c g ->
  sized junk -> Forall (in_width 32) key -> in_width 8 flags -> zlen stack = CV_STACK_SIZE ->
  zlen (concat inputs) < 2 ^ 64 -> 0 <= seek -> 0 <= out_len -> seek + out_len < 2 ^ 64 ->
  let B := dispatched b K (get_cpu_features b c g).1 in
  exists h, update_all (B := B) junk (hasher_init_base key flags stack) inputs = Done h /\
    blake3_hasher_finalize_seek (B := B) h seek out_len =
    Done (blake3_spec (B := portable) key flags (concat inputs) seek out_len).
Proof.
  intros HK Hg Hj Hk Hf Hs Hlen H0 H1 H2 B.
  pose proof (dispatched_laws b c K g Hg HK) as L. fold B in L.
  destruct (session_ok (L := L) junk Hj key flags Hk Hf inputs _ seek out_len
    (init_inv key flags stack Hs)) as (h & E & _ & Hfin); [done..|].
  exists h. split; [exact E|]. rewrite Hfin. f_equal. apply blake3_spec_ext.
  - intros. apply dispatch_compress_in_place_portable; done.
  - intros. apply dispatch_compress_xof_portable; done.
Qed.

Lemma digest_build_independent_witness :
  let B := dispatched linux_arm64 no_kernels
             (get_cpu_features linux_arm64 cortex UNDEFINED).1 in
  exists h, update_all (B := B) zeros (hasher_init_base IV 0 (zeros CV_STACK_SIZE)) [[7]; [8; 9]] = Done h /\
    blake3_hasher_finalize_seek (B := B) h 0 32 =
    Done (blake3_spec (B := portable) IV 0 [7; 8; 9] 0 32).
Proof.
  apply (digest_build_independent linux_arm64 cortex no_kernels UNDEFINED zeros IV 0
    (zeros CV_STACK_SIZE) [[7]; [8; 9]] 0 32); try done.
  - constructor.
  - apply sized_zeros.
  - apply IV_width.
Defined.

(** C31.  Key derivation: initialising from a context string hashes the bytes before
    its NUL in context mode, and the session that follows hashes its input in
    material mode under the 32 bytes that gives. *)
Theorem blake3_derive_key_correct {B : Backend} {L : BackendLaws B} (junk : Z -> list Z)
  (context : list Z) (inputs : list (list Z)) (seek out_len : Z) :
  sized junk -> zlen (c_string context) < 2 ^ 64 ->
  zlen (concat inputs) < 2 ^ 64 -> 0 <= seek -> 0 <= out_len -> seek + out_len < 2 ^ 64 ->
  let key := load_key_words (blake3_spec IV DERIVE_KEY_CONTEXT (c_string context) 0 32) in
  exists h0 h, blake3_hasher_init_derive_key junk context = Done h0 /\
    update_all junk h0 inputs = Done h /\
    blake3_hasher_finalize_seek h seek out_len =
    Done (blake3_spec key DERIVE_KEY_MATERIAL (concat inputs) seek out_len).
Proof.
  intros Hj Hctx Hlen H0 H1 H2 key.
  assert (Hst : zlen (junk CV_STACK_SIZE) = CV_STACK_SIZE) by (apply Hj; done).
  destruct (session_ok junk Hj IV DERIVE_KEY_CONTEXT IV_width ltac:(done) [c_string context] _ 0 32
    (init_inv IV DERIVE_KEY_CONTEXT _ Hst)) as (h1 & E1 & _ & Hf1);
    [cbn [concat]; rewrite ?app_nil_r; done..|].
  cbn [update_all concat] in E1, Hf1. rewrite app_nil_r in Hf1.
  apply exec_bind_Done in E1 as (h1' & E1 & [= ->]).
  destruct (session_ok junk Hj key DERIVE_KEY_MATERIAL (load_key_words_width _) ltac:(done) inputs _
    seek out_len (init_inv key DERIVE_KEY_MATERIAL _ Hst)) as (h & E & _ & Hf); [done..|].
  exists (hasher_init_base key DERIVE_KEY_MATERIAL (junk CV_STACK_SIZE)), h.
  split; [|done]. unfold blake3_hasher_init_derive_key, blake3_hasher_init_derive_key_raw.
  rewrite E1. cbn [exec_bind]. unfold blake3_hasher_finalize, BLAKE3_KEY_LEN. rewrite Hf1. done.
Qed.

Lemma blake3_derive_key_correct_witness :
  let key := load_key_words (blake3_spec (B := portable) IV DERIVE_KEY_CONTEXT [100; 117] 0 32) in
  exists h0 h, blake3_hasher_init_derive_key (B := portable) zeros [100; 117; 0; 5] = Done h0 /\
    update_all (B := portable) zeros h0 [[1]] = Done h /\
    blake3_hasher_finalize_seek (B := portable) h 0 16 =
    Done (blake3_spec (B := portable) key DERIVE_KEY_MATERIAL [1] 0 16).
Proof.
  apply (blake3_derive_key_correct (B := portable) zeros [100; 117; 0; 5] [[1]] 0 16); try done.
  apply sized_zeros.
Defined.

(** C32.  [blake3_hasher_reset] after any session leaves a hasher that behaves like a
    fresh one of the same mode: what was fed before does not show in later output. *)
Theorem blake3_reset_correct {B : Backend} {L : BackendLaws B} (junk : Z -> list Z)
  (key : list Z) (flags : Z) (stack : list Z) (before after : list (list Z)) (seek out_len : Z) :
  sized junk -> Forall (in_width 32) key -> in_width 8 flags -> zlen stack = CV_STACK_SIZE ->
  zlen (concat before) < 2 ^ 64 -> zlen (concat after) < 2 ^ 64 ->
  0 <= seek -> 0 <= out_len -> seek + out_len < 2 ^ 64 ->
  exists h h', update_all junk (hasher_init_base key flags stack) before = Done h /\
    update_all junk (blake3_hasher_reset h) after = Done h' /\
    blake3_hasher_finalize_seek h' seek out_len =
    Done (blake3_spec key flags (concat after) seek out_len).
Proof.
  intros Hj Hk Hf Hs Hb Ha H0 H1 H2.
  destruct (update_all_inv junk Hj key flags Hk Hf before _ [] (init_inv key flags stack Hs))
    as (h & E & Hi); [done|].
  destruct (session_ok junk Hj key flags Hk Hf after _ seek out_len (reset_inv key flags _ _ Hi))
    as (h' & E' & _ & Hfin); [done..|]. eauto 10.
Qed.

Lemma blake3_reset_correct_witness :
  exists h h', update_all (B := portable) zeros (hasher_init_base IV 0 (zeros CV_STACK_SIZE)) [[1; 2]] = Done h /\
    update_all (B := portable) zeros (blake3_hasher_reset h) [[3]] = Done h' /\
    blake3_hasher_finalize_seek (B := portable) h' 0 8 =
    Done (blake3_spec (B := portable) IV 0 [3] 0 8).
Proof.
  apply (blake3_reset_correct (B := portable) zeros IV 0 (zeros CV_STACK_SIZE) [[1; 2]] [[3]] 0 8);
    try done; [apply sized_zeros|apply IV_width].
Defined.

(** C27.  The stack of chaining values never outgrows its array: after any session it
    holds at most [BLAKE3_MAX_DEPTH + 1] entries, and the array keeps its size. *)
Theorem cv_stack_bounded {B : Backend} {L : BackendLaws B} (junk : Z -> list Z)
  (key : list Z) (flags : Z) (stack : list Z) (inputs : list (list Z)) :
  sized junk -> Forall (in_width 32) key -> in_width 8 flags -> zlen stack = CV_STACK_SIZE ->
  zlen (concat inputs) < 2 ^ 64 ->
  exists h, update_all junk (hasher_init_base key flags stack) inputs = Done h /\
    0 <= cv_stack_len h <= BLAKE3_MAX_DEPTH + 1 /\ zlen (cv_stack h) = CV_STACK_SIZE.
Proof.
  intros Hj Hk Hf Hs Hlen.
  destruct (update_all_inv junk Hj key flags Hk Hf inputs _ [] (init_inv key flags stack Hs))
    as (h & E & _ & _ & c & S & _ & _ & _ & HR & _); [done|].
  exists h. split; [done|]. pose proof (stack_rep_bound _ _ HR) as Hb.
  destruct HR as (Hz & Hl & _). rewrite Hl. pose proof (zlen_nonneg S).
  unfold BLAKE3_MAX_DEPTH. split; [lia|done].
Qed.

Lemma cv_stack_bounded_witness :
  exists h, update_all (B := portable) zeros (hasher_init_base IV 0 (zeros CV_STACK_SIZE))
      [[1]; [2; 3]] = Done h /\
    0 <= cv_stack_len h <= BLAKE3_MAX_DEPTH + 1 /\ zlen (cv_stack h) = CV_STACK_SIZE.
Proof.
  apply (cv_stack_bounded (B := portable) zeros IV 0 (zeros CV_STACK_SIZE) [[1]; [2; 3]]);
    try done; [apply sized_zeros|apply IV_width].
Defined.

(** ** Subtrees *)

(** C22.  [compress_subtree_to_parent_node], at every SIMD degree: on an input of more
    than one chunk it returns without a fault the chaining values of the two children
    of the input's tree, the left child over [2 ^ j] chunks. *)
Theorem subtree_to_parent_node_correct {B : Backend} {L : BackendLaws B} (junk : Z -> list Z)
  (key : list Z) (flags ctr j : Z) (left right : list Z) :
  sized junk -> Forall (in_width 32) key -> in_width 8 flags -> 0 <= j -> 0 <= ctr ->
  zlen left = 1024 * 2 ^ j -> 0 < zlen right <= 1024 * 2 ^ j ->
  1024 * ctr + zlen left + zlen right < 2 ^ 64 ->
  compress_subtree_to_parent_node junk (left ++ right) key ctr flags =
  Done (subtree_cv key flags ctr left ++ subtree_cv key flags (ctr + 2 ^ j) right).
Proof.
  intros Hj Hk Hf H0 H1 H2 H3 H4.
  exact (compress_subtree_to_parent_node_ok key flags Hk Hf junk Hj ctr j left right H0 H1 H2 H3 H4).
Qed.

Lemma subtree_to_parent_node_correct_witness :
  compress_subtree_to_parent_node (B := portable) zeros (zeros 1024 ++ [5]) IV 2 0 =
  Done (subtree_cv (B := portable) IV 0 2 (zeros 1024) ++ subtree_cv (B := portable) IV 0 (2 + 2 ^ 0) [5]).
Proof.
  apply (subtree_to_parent_node_correct (B := portable) zeros IV 0 2 0 (zeros 1024) [5]);
    try done; [apply sized_zeros|apply IV_width].
Defined.

(** C10.  [compress_subtree_wide] returns, within its fuel, at least one chaining value
    and at most [max 2 degree] of them, all inside an output buffer of
    [MAX_SIMD_DEGREE_OR_2] entries, and they are the leaves of a tree whose chaining
    value is that of the whole input. *)
Theorem subtree_wide_correct {B : Backend} {L : BackendLaws B} (junk : Z -> list Z)
  (key : list Z) (flags ctr : Z) (input out : list Z) :
  sized junk -> Forall (in_width 32) key -> in_width 8 flags ->
  0 < zlen input -> 0 <= ctr -> 1024 * ctr + zlen input < 2 ^ 64 ->
  BLAKE3_OUT_LEN * MAX_SIMD_DEGREE_OR_2 MAX_SIMD_DEGREE <= zlen out ->
  exists cvs,
    compress_subtree_wide junk subtree_fuel input key ctr flags out =
      Done (zlen cvs, concat cvs ++ zdrop (zlen (concat cvs)) out) /\
    Forall is_cv cvs /\ 1 <= zlen cvs <= Z.max 2 blake3_simd_degree /\
    tree_cv key flags cvs (subtree_cv key flags ctr input).
Proof.
  intros Hj Hk Hf H0 H1 H2 H3. unfold BLAKE3_OUT_LEN in H3.
  destruct (compress_subtree_wide_ok key flags Hk Hf junk Hj subtree_fuel ctr input out)
    as (cvs & HW & E); [|done..|].
  { change (2 ^ Z.of_nat subtree_fuel) with 18446744073709551616. lia. }
  exists cvs. split; [exact E|]. split; [apply HW|].
  pose proof (wide_tree key flags _ _ _ HW) as HT. pose proof (tree_cv_pos _ _ _ _ HT).
  pose proof (wide_at_most key flags _ _ _ HW). split; [lia|done].
Qed.

Lemma subtree_wide_correct_witness :
  exists cvs,
    compress_subtree_wide (B := portable) zeros subtree_fuel (zeros 1025) IV 0 0 (zeros 64) =
      Done (zlen cvs, concat cvs ++ zdrop (zlen (concat cvs)) (zeros 64)) /\
    Forall is_cv cvs /\ 1 <= zlen cvs <= Z.max 2 (@blake3_simd_degree portable) /\
    tree_cv (B := portable) IV 0 cvs (subtree_cv (B := portable) IV 0 0 (zeros 1025)).
Proof.
  apply (subtree_wide_correct (B := portable) zeros IV 0 0 (zeros 1025) (zeros 64));
    try done; [apply sized_zeros|apply IV_width].
Defined.

(** [chunk_state_update]: a chunk state that has absorbed [m] absorbs any input
    that fits in the chunk, in any split, without a fault, and is then the state of
    the concatenation. *)
Theorem chunk_update_correct {B : Backend} (key : list Z) (flags ctr : Z) (m input : list Z) :
  zlen m + zlen input <= BLAKE3_CHUNK_LEN ->
  chunk_state_update (chunk_of key flags ctr m) input = Done (chunk_of key flags ctr (m ++ input)).
Proof. exact (chunk_state_update_of key flags ctr m input). Qed.

Lemma chunk_update_correct_witness :
  chunk_state_update (B := portable) (chunk_of (B := portable) IV 0 3 (zeros 60)) (zeros 100) =
  Done (chunk_of (B := portable) IV 0 3 (zeros 60 ++ zeros 100)).
Proof. apply (chunk_update_correct (B := portable) IV 0 3 (zeros 60) (zeros 100)). done. Defined.

(** [output_root_bytes] writes the bytes at any offset of the extended output:
    the partial first block, the whole blocks and the partial last block together are
    the byte at [seek + i] for each [i < out_len]. *)
Theorem output_root_bytes_correct {B : Backend} {L : BackendLaws B} (o : output_t) (seek out_len : Z) :
  0 <= seek -> 0 <= out_len -> seek + out_len < 2 ^ 64 ->
  output_root_bytes o seek out_len = root_bytes o seek out_len /\
  zlen (output_root_bytes o seek out_len) = out_len.
Proof.
  intros Hs Ho Hw. rewrite output_root_bytes_ok by done. split; [done|].
  apply zlen_root_bytes. done.
Qed.

Lemma output_root_bytes_correct_witness :
  let o := {| input_cv := IV; o_counter := 0; o_block := zeros 64; o_block_len := 3; o_flags := 3 |} in
  output_root_bytes (B := portable) o 63 67 = root_bytes (B := portable) o 63 67 /\
  zlen (output_root_bytes (B := portable) o 63 67) = 67.
Proof.
  apply (output_root_bytes_correct (B := portable)
    {| input_cv := IV; o_counter := 0; o_block := zeros 64; o_block_len := 3; o_flags := 3 |} 63 67);
    done.
Defined.

(** The size of the next subtree in [blake3_hasher_update]: the halving loop ends,
    with a power of two of chunks that fits in the input and divides the number of
    chunks hashed so far, so that the subtree is one of the final tree. *)
Theorem subtree_size_correct (n c : Z) :
  BLAKE3_CHUNK_LEN < n < 2 ^ 64 -> 0 <= c -> BLAKE3_CHUNK_LEN * c < 2 ^ 64 ->
  exists k, 0 <= k /\ (2 ^ k | c) /\ BLAKE3_CHUNK_LEN * 2 ^ k <= n /\
    shrink_subtree_len (round_down_to_power_of_2 n) (u64 (c * BLAKE3_CHUNK_LEN)) =
    Done (BLAKE3_CHUNK_LEN * 2 ^ k).
Proof.
  intros Hn Hc Hw. destruct (shrink_subtree_len_ok n c Hn Hc Hw) as (k & q & Hk & Hq & Hcq & Hfit & E).
  exists k. split; [done|]. split; [exists q; done|]. done.
Qed.

Lemma subtree_size_correct_witness :
  exists k, 0 <= k /\ (2 ^ k | 6) /\ BLAKE3_CHUNK_LEN * 2 ^ k <= 9000 /\
    shrink_subtree_len (round_down_to_power_of_2 9000) (u64 (6 * BLAKE3_CHUNK_LEN)) =
    Done (BLAKE3_CHUNK_LEN * 2 ^ k).
Proof. apply (subtree_size_correct 9000 6); done. Defined.

(** ** Words and kernels *)

Lemma u8_shiftr_byte x k : 0 <= k -> u8 (u8 (Z.shiftr x k)) = u8 (Z.shiftr x k).
Proof. intros. apply wrap_idem. lia. Qed.

Lemma load32_store32 w : in_width 32 w -> load32 (store32 w) = w.
Proof.
  intros Hw. apply word_ext; [apply load32_width|done|]. intros i Hi.
  unfold load32, store32. cbn [nth]. rewrite !wrap_idem by lia.
  rewrite !Z.lor_spec, !Z.shiftl_spec by lia.
  destruct (Z.lt_ge_cases i 8); [|destruct (Z.lt_ge_cases i 16); [|destruct (Z.lt_ge_cases i 24)]].
  all: repeat bit_step; simpl; rewrite ?orb_false_r; try lia; f_equal; lia.
Qed.

(** Storing eight chaining value words and loading them back gives the words:
    [store_cv_words] and [load_key_words] are inverse on 32-bit words. *)
Theorem cv_words_roundtrip (a b c d e f g h : Z) :
  Forall (in_width 32) [a; b; c; d; e; f; g; h] ->
  load_key_words (store_cv_words [a; b; c; d; e; f; g; h]) = [a; b; c; d; e; f; g; h] /\
  Forall (in_width 8) (store_cv_words [a; b; c; d; e; f; g; h]).
Proof.
  intros HF. split.
  - rewrite !Forall_cons in HF. destruct_and! HF.
    transitivity [load32 (store32 a); load32 (store32 b); load32 (store32 c); load32 (store32 d);
      load32 (store32 e); load32 (store32 f); load32 (store32 g); load32 (store32 h)].
    + unfold load_key_words, store_cv_words. cbn [nth].
      repeat (apply (f_equal2 cons); [apply load32_ext; intros [|[|[|[|j]]]] Hj; [reflexivity..|lia]|]).
      reflexivity.
    + rewrite !load32_store32 by done. done.
  - unfold store_cv_words, store32.
    repeat (apply Forall_cons; split; [apply wrap_width; lia|]). apply Forall_nil. done.
Qed.

Lemma cv_words_roundtrip_witness :
  load_key_words (store_cv_words [1; 2; 3; 4; 5; 6; 0xdeadbeef; 8]) = [1; 2; 3; 4; 5; 6; 0xdeadbeef; 8] /\
  Forall (in_width 8) (store_cv_words [1; 2; 3; 4; 5; 6; 0xdeadbeef; 8]).
Proof.
  apply (cv_words_roundtrip 1 2 3 4 5 6 0xdeadbeef 8).
  repeat (apply Forall_cons; split; [split; done|]). apply Forall_nil. done.
Defined.

(** The bit ladder of [highest_one] for compilers without a builtin, the branches
    with one, and the loop of [popcnt]: on every nonzero 64-bit word the branches agree
    and give the index of the highest one bit, and [popcnt] counts the one bits. *)
Theorem bit_counting_correct (x : Z) : 0 < x < 2 ^ 64 ->
  highest_one x = Z.log2 x /\ highest_one_gnu x = highest_one x /\
  highest_one_msvc32 x = highest_one x /\ popcnt x = bit_count x /\
  round_down_to_power_of_2 x = 2 ^ Z.log2 x.
Proof.
  intros Hx. rewrite highest_one_log2, highest_one_gnu_log2, highest_one_msvc32_log2,
    popcnt_bit_count, round_down_pow2 by lia.
  done.
Qed.

Lemma bit_counting_correct_witness :
  highest_one 0x8000000000000001 = Z.log2 0x8000000000000001 /\
  highest_one_gnu 0x8000000000000001 = highest_one 0x8000000000000001 /\
  highest_one_msvc32 0x8000000000000001 = highest_one 0x8000000000000001 /\
  popcnt 0x8000000000000001 = bit_count 0x8000000000000001 /\
  round_down_to_power_of_2 0x8000000000000001 = 2 ^ Z.log2 0x8000000000000001.
Proof. apply (bit_counting_correct 0x8000000000000001). done. Defined.

(** C9.  The NEON kernel is the portable one: on any number of inputs, any number of
    blocks, with or without an incrementing counter (across the 32-bit boundary too),
    [blake3_hash_many_neon] writes the bytes [blake3_hash_many_portable] writes. *)
Theorem neon_equals_portable (inputs : list (list Z)) (blocks : nat) (key : list Z) (counter : Z)
  (increment_counter : bool) (flags flags_start flags_end : Z) :
  Forall (in_width 32) key -> in_width 64 counter ->
  in_width 8 flags -> in_width 8 flags_start -> in_width 8 flags_end ->
  blake3_hash_many_neon inputs blocks key counter increment_counter flags flags_start flags_end =
  blake3_hash_many_portable inputs blocks key counter increment_counter flags flags_start flags_end.
Proof. apply hash_many_neon_portable. Qed.

Lemma neon_equals_portable_witness :
  blake3_hash_many_neon [zeros 64; zeros 64; zeros 64; zeros 64; zeros 64] 1 IV 0xfffffffe true 16 1 2 =
  blake3_hash_many_portable [zeros 64; zeros 64; zeros 64; zeros 64; zeros 64] 1 IV 0xfffffffe true 16 1 2.
Proof.
  apply (neon_equals_portable [zeros 64; zeros 64; zeros 64; zeros 64; zeros 64] 1 IV 0xfffffffe true 16 1 2);
    try (split; done). apply IV_width.
Defined.

(** [blake3_hash_many_portable] computes, for each input, the chained compression
    of its blocks with the start flag on the first and the end flag on the last, under
    consecutive 64-bit counters when asked to. *)
Theorem portable_hash_many_correct (inputs : list (list Z)) (blocks : nat) (key : list Z)
  (counter : Z) (increment_counter : bool) (flags start end_ : Z) :
  blake3_hash_many_portable inputs blocks key counter increment_counter flags start end_ =
  hash_many_ref blake3_compress_in_place_portable inputs blocks key counter increment_counter
    flags start end_.
Proof. apply hash_many_portable_ref. Qed.

(** C29.  The dispatcher never branches to a kernel that the CPU or the operating system
    does not support or the build does not contain, whatever calls came before: AVX2 only
    with the AVX register state enabled and leaf 7 present, AVX-512 only with the mask and
    ZMM state too, in [blake3_compress_in_place], [blake3_compress_xof], [blake3_hash_many]
    and [blake3_xof_many].  So all six functions of the dispatcher stay the same when the
    kernels that are not supported are taken away, and the SIMD degree it reports is the
    number of lanes of the kernel it would pick. *)
Theorem kernel_choice_supported (b : build) (c : cpu) (g : Z) (K : kernels) : features_cache b c g ->
  let f := (get_cpu_features b c g).1 in
  (forall i, compress_choice b f = Some i -> supports b c false i = true /\ compiled b i = true) /\
  (forall i, hash_many_choice b f = Some i -> supports b c true i = true /\ compiled b i = true) /\
  (xof_many_choice b f = true ->
     supports b c false Isa_avx512 = true /\ compiled b Isa_avx512 = true /\ WIN32 b = false) /\
  dispatched b K f = dispatched b (only_supported b c K) f /\
  dispatch_simd_degree b f =
    match hash_many_choice b f with
    | Some Isa_avx512 => 16
    | Some Isa_avx2 => 8
    | Some Isa_sse41 | Some Isa_sse2 => 4
    | None => if USE_NEON b then 4 else 1
    end.
Proof.
  intros Hg f. split; [|split; [|split; [|split]]].
  - intros i. apply compress_choice_supported. done.
  - intros i. apply hash_many_choice_supported. done.
  - intros E. destruct (xof_many_choice_supported b c g Hg E) as [Hs Hc]. split; [done|]. split; [done|].
    unfold xof_many_choice in E. rewrite !andb_true_iff, !negb_true_iff in E. apply E.
  - apply dispatched_only_supported. done.
  - unfold dispatch_simd_degree, hash_many_choice. destruct (IS_X86 b); [|done].
    cbn [andb]. repeat match goal with |- context [if ?x then _ else _] => destruct x end; done.
Qed.

Lemma kernel_choice_supported_witness :
  let f := (get_cpu_features linux_amd64 haswell UNDEFINED).1 in
  hash_many_choice linux_amd64 f = Some Isa_avx2 /\
  supports linux_amd64 haswell true Isa_avx2 = true /\
  dispatched linux_amd64 no_kernels f =
    dispatched linux_amd64 (only_supported linux_amd64 haswell no_kernels) f.
Proof.
  intros f. destruct (kernel_choice_supported linux_amd64 haswell UNDEFINED no_kernels) as (_ & H & _ & E & _);
    [constructor|].
  split; [reflexivity|]. split; [apply H; reflexivity|exact E].
Defined.
