(* ===== verification/Blake3Stubs.v ===== *)
(** * The OCaml stubs of BLAKE3

    [blake3_stubs.c]: the digest comparison, hashing of a descriptor and of a file,
    and the streaming interface.  A digest is its 16 bytes in memory.  The stubs run
    over the oracle of [Posix]; the streaming ones return the new hasher. *)

From Stdlib Require Import ZArith Lia.
From stdpp Require Import base numbers list strings.
From S2P Require Import Prelude Posix Blake3Impl Blake3Backend Blake3Hasher.
Local Open Scope Z_scope.

Definition BLAKE3_MINI_DIGEST_SIZE : Z := 16.
Definition UNIX_BUFFER_SIZE : Z := 65536.
Definition Double_wosize_bytes : Z := 8.

(** The value of an integer in memory, most significant byte first. *)
Definition be_value (bs : list Z) : Z := le_value (rev bs).

(** [memcpy] into a [uint64_t], on a machine of either byte order. *)
Definition digest_field (big_endian : bool) (digest : list Z) (field : Z) : Z :=
  let bs := ztake 8 (zdrop (field * Double_wosize_bytes) digest) in
  if big_endian then be_value bs else le_value bs.

(** [((x & lo) << k) | ((x & hi) >> k)] on a [uint64_t]. *)
Definition swap_groups (lo hi k x : Z) : Z :=
  Z.lor (u64 (Z.shiftl (Z.land x lo) k)) (Z.shiftr (Z.land x hi) k).

Definition digest_field_for_compare (big_endian : bool) (digest : list Z) (field : Z) : Z :=
  let result := digest_field big_endian digest field in
  if big_endian then result
  else
    let result := swap_groups 0x00ff00ff00ff00ff 0xff00ff00ff00ff00 8 result in
    let result := swap_groups 0x0000ffff0000ffff 0xffff0000ffff0000 16 result in
    Z.lor (u64 (Z.shiftl result 32)) (Z.shiftr result 32).

Definition blake3_mini_digest_equal (big_endian : bool) (left right : list Z) : bool :=
  (digest_field big_endian left 0 =? digest_field big_endian right 0) &&
  (digest_field big_endian left 1 =? digest_field big_endian right 1).

Definition blake3_mini_digest_compare (big_endian : bool) (left right : list Z) : Z :=
  let left_field := digest_field_for_compare big_endian left 0 in
  let right_field := digest_field_for_compare big_endian right 0 in
  let '(left_field, right_field) :=
    if left_field =? right_field then
      (digest_field_for_compare big_endian left 1,
       digest_field_for_compare big_endian right 1)
    else (left_field, right_field) in
  Z.b2z (right_field <? left_field) - Z.b2z (left_field <? right_field).

(** [(uintnat)x] of a signed 64-bit [x]. *)
Definition blake3_mini_check_range (pos len size : Z) : caml unit :=
  if (pos <? 0) || (len <? 0) || (size <? u64 pos) || (u64 (size - u64 pos) <? u64 len)
  then Raise (Invalid_argument "Blake3_mini.feed: invalid range")
  else Value tt.

(** What the data of a [read] is; [0] is the end of the file. *)
Definition read_data (a : answer) : list Z :=
  match a with Bytes bs => bs | _ => [] end.

Section Stubs.
Context {B : Backend} (junk : Z -> list Z).

Definition alloc_hash (hasher : blake3_hasher) : exec (list Z) :=
  blake3_hasher_finalize hasher BLAKE3_MINI_DIGEST_SIZE.

(** One pass of the read loop of [blake3_mini_fd]: the hasher at the end of the
    file, or the error. *)
Definition fd_read_step (fd : Z) (hasher : blake3_hasher) :
  M (blake3_hasher + (blake3_hasher + Z)) :=
  a ← sys "read" [fd; UNIX_BUFFER_SIZE];
  match a with
  | Errno e => mret (if e =? EINTR then inl hasher else inr (inr e))
  | _ =>
      if zlen (read_data a) =? 0 then mret (inr (inl hasher))
      else hasher ← lift (blake3_hasher_update junk hasher (read_data a));
           mret (inl hasher)
  end.

Definition blake3_mini_fd (fd : Z) : M (caml (list Z)) :=
  let hasher := blake3_hasher_init junk in
  r ← loop (fd_read_step fd) hasher;
  match r with
  | inr e => mret (Raise (Unix_error e "read" []))
  | inl hasher =>
      d ← lift (alloc_hash hasher);
      mret (Value d)
  end.

Definition O_RDONLY_CLOEXEC : Z := Z.lor 0 524288.

(** [while (1) { fd = open(...); if (fd != -1 || errno != EINTR) break; }] *)
Definition open_step (_ : unit) : M (unit + (Z + Z)) :=
  a ← sys "open" [O_RDONLY_CLOEXEC];
  match a with
  | Errno e => mret (if e =? EINTR then inl tt else inr (inr e))
  | Ret fd => mret (inr (inl fd))
  | Bytes _ => mret (inr (inl 0))
  end.

(** [while (fstat(fd, &st) == -1) ...]: [st_size] or the error. *)
Definition fstat_step (fd : Z) (_ : unit) : M (unit + (Z + Z)) :=
  a ← sys "fstat" [fd];
  match a with
  | Errno e => mret (if e =? EINTR then inl tt else inr (inr e))
  | Ret size => mret (inr (inl size))
  | Bytes _ => mret (inr (inl 0))
  end.

(** The read loop keeps the hasher also when it ends in an error; [err] is [0] at
    the end of the file. *)
Definition file_read_step (fd : Z) (hasher : blake3_hasher) :
  M (blake3_hasher + (blake3_hasher * Z)) :=
  a ← sys "read" [fd; UNIX_BUFFER_SIZE];
  match a with
  | Errno e => mret (if e =? EINTR then inl hasher else inr (hasher, e))
  | _ =>
      if zlen (read_data a) =? 0 then mret (inr (hasher, 0))
      else hasher ← lift (blake3_hasher_update junk hasher (read_data a));
           mret (inl hasher)
  end.

(** The label [close]: an earlier error is kept. *)
Definition file_close (fd err : Z) (err_op : string) : M (Z * string) :=
  a ← sys "close" [fd];
  match a with
  | Errno e => mret (if err =? 0 then (e, "close"%string) else (err, err_op))
  | _ => mret (err, err_op)
  end.

(** From a successful [open] to the label [done]; [size] is an [intnat]. *)
Definition file_body (fd : Z) (hasher : blake3_hasher) :
  M (Z * string * Z * blake3_hasher) :=
  st ← loop (fstat_step fd) tt;
  match st with
  | inr e =>
      '(err, err_op) ← file_close fd e "fstat";
      mret (err, err_op, 0, hasher)
  | inl st_size =>
      let size := signed 64 st_size in
      '(hasher, err) ← loop (file_read_step fd) hasher;
      '(err, err_op) ← file_close fd err "read";
      mret (err, err_op, size, hasher)
  end.

Definition blake3_mini_file_with_size (windows : bool) (path : list Z) : M (caml (list Z * Z)) :=
  if windows then
    mret (Raise (Failure "blake3_mini_file_with_size is not implemented on Windows"))
  else if negb (check_path path) then mret (Raise (Unix_error ENOENT "open" path)) else
  let hasher := blake3_hasher_init junk in
  o ← loop open_step tt;
  '(err, err_op, size, hasher) ←
    match o with
    | inr e => mret (e, "open"%string, 0, hasher)
    | inl fd => file_body fd hasher
    end;
  if negb (err =? 0) then mret (Raise (Unix_error err err_op path)) else
  v_digest ← lift (alloc_hash hasher);
  mret (Value (v_digest, Val_long size)).

Definition blake3_mini_create : blake3_hasher := blake3_hasher_init junk.

Definition blake3_mini_reset (hasher : blake3_hasher) : blake3_hasher :=
  blake3_hasher_reset hasher.

Definition blake3_mini_digest (hasher : blake3_hasher) : exec (list Z) :=
  alloc_hash hasher.

Definition blake3_mini_feed_string (hasher : blake3_hasher) (s : list Z) (pos len : Z) :
  exec (caml blake3_hasher) :=
  match blake3_mini_check_range pos len (zlen s) with
  | Raise x => Done (Raise x)
  | Value _ =>
      let! bytes := load_range s pos len in
      let! hasher := blake3_hasher_update junk hasher bytes in
      Done (Value hasher)
  end.

(** The bigarray cannot move while the runtime lock is released. *)
Definition blake3_mini_feed_bigstring_unlock (hasher : blake3_hasher) (s : list Z)
  (pos len : Z) : exec (caml blake3_hasher) :=
  match blake3_mini_check_range pos len (zlen s) with
  | Raise x => Done (Raise x)
  | Value _ =>
      let! bytes := load_range s pos len in
      let! hasher := blake3_hasher_update junk hasher bytes in
      Done (Value hasher)
  end.
End Stubs.
