(* ===== verification/Blake3StubsLaws.v ===== *)
(** * The OCaml stubs of BLAKE3: theorems

    Digest comparison is the lexicographic order of the bytes on machines of either
    byte order; hashing a descriptor or a file gives the hash of what was read, retries
    interrupted calls, reports the first error and closes the file; the streaming
    interface checks ranges exactly. *)

From Stdlib Require Import ZArith Lia.
From stdpp Require Import base numbers list list_numbers strings.
From S2P Require Import Prelude Posix Blake3Impl Blake3Backend Blake3Hasher Blake3Spec.
From S2P Require Import Blake3Update Blake3PortableLaws Blake3NeonLaws Blake3Correct Blake3Stubs.
Local Open Scope Z_scope.

(** ** Byte order *)

Definition bytes (bs : list Z) : Prop := Forall (in_width 8) bs.

Lemma le_value_range bs : bytes bs -> 0 <= le_value bs < 256 ^ zlen bs.
Proof.
  induction 1 as [|b bs Hb _ IH]; [done|]. simpl. rewrite zlen_cons.
  pose proof (zlen_nonneg bs). rewrite Z.pow_add_r by lia. destruct Hb. nia.
Qed.

Lemma le_value_app a b : le_value (a ++ b) = le_value a + 256 ^ zlen a * le_value b.
Proof.
  induction a as [|x a IH].
  - simpl. rewrite Z.mul_1_l. done.
  - cbn [le_value app]. rewrite IH, zlen_cons. pose proof (zlen_nonneg a).
    rewrite Z.pow_add_r by lia. nia.
Qed.

Lemma be_value_cons b bs : be_value (b :: bs) = be_value bs + 256 ^ zlen bs * b.
Proof.
  unfold be_value. simpl. rewrite le_value_app. simpl.
  unfold zlen. rewrite length_rev. lia.
Qed.

Lemma be_value_range bs : bytes bs -> 0 <= be_value bs < 256 ^ zlen bs.
Proof.
  intros H. unfold be_value. rewrite <- (rev_involutive bs) at 3.
  replace (zlen (rev (rev bs))) with (zlen (rev bs)) by (unfold zlen; rewrite !length_rev; done).
  apply le_value_range. apply Forall_rev. done.
Qed.

(** The order of OCaml's [compare] on byte strings of one length. *)
Fixpoint byte_compare (a b : list Z) : Z :=
  match a, b with
  | x :: a, y :: b => if x <? y then -1 else if y <? x then 1 else byte_compare a b
  | _, _ => 0
  end.

Lemma be_value_compare a b : bytes a -> bytes b -> length a = length b ->
  byte_compare a b = Z.b2z (be_value b <? be_value a) - Z.b2z (be_value a <? be_value b).
Proof.
  intros Ha. revert b. induction Ha as [|x a Hx Ha IH]; intros b Hb Hlen.
  { destruct b; [done|discriminate Hlen]. }
  destruct b as [|y b]; [discriminate Hlen|]. apply Forall_cons in Hb as [Hy Hb].
  cbn [byte_compare]. rewrite !be_value_cons.
  assert (Hz : zlen a = zlen b) by (unfold zlen; simpl in Hlen; congruence).
  pose proof (be_value_range a Ha). pose proof (be_value_range b Hb). rewrite Hz in *.
  set (p := 256 ^ zlen b) in *.
  destruct (Z.ltb_spec x y); [|destruct (Z.ltb_spec y x)].
  - rewrite (proj2 (Z.ltb_ge _ _)), (proj2 (Z.ltb_lt _ _)) by nia. done.
  - rewrite (proj2 (Z.ltb_lt _ _)), (proj2 (Z.ltb_ge _ _)) by nia. done.
  - assert (x = y) as -> by lia. rewrite IH by (done || (simpl in Hlen; congruence)).
    f_equal; f_equal; apply eq_true_iff_eq; rewrite !Z.ltb_lt; lia.
Qed.

(** ** The byte swap *)

Lemma le_value_testbit bs i : bytes bs -> 0 <= i ->
  Z.testbit (le_value bs) i = Z.testbit (nth (Z.to_nat (i / 8)) bs 0) (i mod 8).
Proof.
  intros Hb. revert i. induction Hb as [|b bs Hb _ IH]; intros i Hi.
  - rewrite !nth_overflow by (simpl; lia). cbn [le_value]. rewrite !Z.testbit_0_l. done.
  - cbn [le_value]. destruct Hb as [Hb0 Hb1]. change (2 ^ 8) with 256 in Hb1.
    pose proof (Z.div_mod i 8 ltac:(lia)). pose proof (Z.mod_pos_bound i 8 ltac:(lia)).
    destruct (Z.lt_ge_cases i 8).
    + rewrite (Z.div_small i 8), (Z.mod_small i 8) by lia. change (Z.to_nat 0) with 0%nat. cbn [nth].
      rewrite <- (Z.mod_pow2_bits_low _ 8) by lia. f_equal.
      change (2 ^ 8) with 256. symmetry. apply (Z.mod_unique _ _ (le_value bs)); lia.
    + replace (Z.to_nat (i / 8)) with (S (Z.to_nat ((i - 8) / 8))).
      2: { replace (i - 8) with (i + (-1) * 8) by lia. rewrite Z.div_add by lia.
           assert (1 <= i / 8) by (apply Z.div_le_lower_bound; lia). lia. }
      replace (i mod 8) with ((i - 8) mod 8).
      2: { replace (i - 8) with (i + (-1) * 8) by lia. apply Z.mod_add. lia. }
      cbn [nth]. rewrite <- IH by lia.
      replace i with (i - 8 + 8) at 1 by lia. rewrite <- Z.div_pow2_bits by lia. f_equal.
      change (2 ^ 8) with 256. symmetry. apply (Z.div_unique _ _ _ b); lia.
Qed.

Lemma le_value_width bs : bytes bs -> length bs = 8%nat -> in_width 64 (le_value bs).
Proof. intros H Hl. pose proof (le_value_range bs H) as Hr. unfold zlen in Hr. rewrite Hl in Hr. exact Hr. Qed.

(** A group swap moves bit [i] to [i] with the group index flipped. *)
Lemma swap_groups_width lo hi k x : 0 <= k -> in_width 64 x -> in_width 64 (swap_groups lo hi k x).
Proof.
  intros Hk Hx. unfold swap_groups. apply in_width_lor; [lia|apply wrap_width; lia|].
  apply shiftr_width; [done|]. destruct (Z.le_gt_cases 0 hi).
  - apply in_width_land; [lia|done|lia].
  - rewrite Z.land_comm. apply testbit_in_width; [lia| |].
    + apply Z.land_nonneg. right. apply Hx.
    + intros i Hi. rewrite Z.land_spec, (in_width_testbit 64 x Hx) by done. apply andb_false_r.
Qed.

(** The masks select, for every bit, the bit whose index differs in [k]. *)
Definition masks_flip (lo hi k : Z) : bool :=
  forallb (fun i =>
    if (k <=? i) && Z.testbit lo (i - k)
    then (Z.lxor i k =? i - k) && negb (Z.testbit hi (i + k))
    else Z.testbit hi (i + k) && (Z.lxor i k =? i + k)) (seqZ 0 64).

Lemma swap_groups_testbit lo hi k x i : 0 < k -> 0 <= i < 64 -> masks_flip lo hi k = true ->
  Z.testbit (swap_groups lo hi k x) i = Z.testbit x (Z.lxor i k).
Proof.
  intros Hk Hi Hm. pose proof (forallb_below _ _ Hm i Hi) as Hc. cbv beta in Hc.
  unfold swap_groups.
  rewrite Z.lor_spec, wrap_testbit, Z.shiftl_spec, Z.shiftr_spec, !Z.land_spec by lia.
  rewrite (proj2 (Z.ltb_lt i 64)) by lia. cbn [andb].
  destruct (Z.leb_spec k i); [|rewrite (Z.testbit_neg_r x (i - k)) by lia].
  - cbn [andb] in Hc. destruct (Z.testbit lo (i - k)); apply andb_true_iff in Hc as [H1 H2].
    + apply Z.eqb_eq in H1. apply negb_true_iff in H2.
      rewrite H1, H2, andb_true_r, andb_false_r, orb_false_r. done.
    + apply Z.eqb_eq in H2. rewrite H1, H2, andb_false_r, andb_true_r. done.
  - cbn [andb] in Hc. apply andb_true_iff in Hc as [H1 H2]. apply Z.eqb_eq in H2.
    rewrite H1, H2, andb_true_r. done.
Qed.

Lemma flip_range i k : 0 <= i < 64 -> 0 <= k < 64 -> 0 <= Z.lxor i k < 64.
Proof. intros Hi Hk. apply (in_width_lxor 6); done. Qed.

Lemma half_swap_testbit r i : in_width 64 r -> 0 <= i < 64 ->
  Z.testbit (Z.lor (u64 (Z.shiftl r 32)) (Z.shiftr r 32)) i = Z.testbit r (Z.lxor i 32).
Proof.
  intros Hr Hi. assert (Hc : forallb (fun i => Z.lxor i 32 =? (if i <? 32 then i + 32 else i - 32))
    (seqZ 0 64) = true) by reflexivity.
  pose proof (forallb_below _ _ Hc i Hi) as E. apply Z.eqb_eq in E. rewrite E.
  rewrite Z.lor_spec, wrap_testbit, Z.shiftl_spec, Z.shiftr_spec by lia.
  rewrite (proj2 (Z.ltb_lt i 64)) by lia. cbn [andb]. destruct (Z.ltb_spec i 32).
  - rewrite (Z.testbit_neg_r r (i - 32)) by lia. done.
  - rewrite (in_width_testbit 64 r Hr (i + 32)), orb_false_r by lia. done.
Qed.

Lemma byte_swap bs : bytes bs -> length bs = 8%nat ->
  let r := le_value bs in
  let r := swap_groups 0x00ff00ff00ff00ff 0xff00ff00ff00ff00 8 r in
  let r := swap_groups 0x0000ffff0000ffff 0xffff0000ffff0000 16 r in
  Z.lor (u64 (Z.shiftl r 32)) (Z.shiftr r 32) = be_value bs.
Proof.
  intros Hb Hl. cbv zeta. set (x := le_value _).
  assert (Hx : in_width 64 x) by (apply le_value_width; done).
  set (r1 := swap_groups _ _ 8 x). assert (H1 : in_width 64 r1) by (apply swap_groups_width; done).
  set (r2 := swap_groups _ _ 16 r1). assert (H2 : in_width 64 r2) by (apply swap_groups_width; done).
  assert (Hbe : in_width 64 (be_value bs))
    by (apply le_value_width; [apply Forall_rev|rewrite length_rev]; done).
  apply Z.bits_inj'. intros i Hi.
  destruct (Z.lt_ge_cases i 64) as [Hlt|Hge].
  2: { rewrite (in_width_testbit 64 _ Hbe) by done. apply (in_width_testbit 64); [|done].
       apply in_width_lor; [lia|apply wrap_width; lia|apply shiftr_width; done]. }
  pose proof (flip_range i 32 ltac:(lia) ltac:(lia)) as F1.
  pose proof (flip_range _ 16 F1 ltac:(lia)) as F2. pose proof (flip_range _ 8 F2 ltac:(lia)) as F3.
  rewrite half_swap_testbit by (done || lia). unfold r2, r1.
  rewrite !swap_groups_testbit by (done || lia). unfold be_value, x.
  rewrite !le_value_testbit by (try (apply Forall_rev); done || lia).
  assert (Hc : forallb (fun i =>
      let j := Z.lxor (Z.lxor (Z.lxor i 32) 16) 8 in
      ((8 - S (Z.to_nat (i / 8)))%nat =? Z.to_nat (j / 8))%nat && (j mod 8 =? i mod 8) &&
      (Z.to_nat (i / 8) <? 8)%nat) (seqZ 0 64) = true) by reflexivity.
  pose proof (forallb_below _ _ Hc i ltac:(lia)) as E. cbv beta zeta in E.
  rewrite !andb_true_iff, Z.eqb_eq, Nat.eqb_eq, Nat.ltb_lt in E. destruct E as [[E1 E2] E3].
  rewrite rev_nth, Hl by lia. rewrite E1, E2. done.
Qed.

(** ** Comparing digests *)

Lemma byte_compare_app a b a' b' : length a = length b ->
  byte_compare (a ++ a') (b ++ b') =
  if byte_compare a b =? 0 then byte_compare a' b' else byte_compare a b.
Proof.
  revert b. induction a as [|x a IH]; intros [|y b] Hl; try discriminate Hl; [done|].
  cbn [byte_compare app]. destruct (x <? y); [done|]. destruct (y <? x); [done|].
  apply IH. simpl in Hl. congruence.
Qed.

Lemma be_value_inj a b : bytes a -> bytes b -> length a = length b ->
  be_value a = be_value b -> a = b.
Proof.
  intros Ha. revert b. induction Ha as [|x a Hx Ha IH]; intros b Hb Hl He.
  { destruct b; [done|discriminate Hl]. }
  destruct b as [|y b]; [discriminate Hl|]. apply Forall_cons in Hb as [Hy Hb].
  rewrite !be_value_cons in He.
  assert (Hz : zlen a = zlen b) by (unfold zlen; simpl in Hl; congruence).
  pose proof (be_value_range a Ha). pose proof (be_value_range b Hb). rewrite Hz in *.
  set (p := 256 ^ zlen b) in *.
  assert (x = y) as -> by nia. f_equal. apply IH; [done|simpl in Hl; congruence|lia].
Qed.

Lemma le_value_inj a b : bytes a -> bytes b -> length a = length b ->
  le_value a = le_value b -> a = b.
Proof.
  intros Ha Hb Hl He. apply rev_inj. apply be_value_inj; [apply Forall_rev; done..| |].
  - rewrite !length_rev. done.
  - unfold be_value. rewrite !rev_involutive. done.
Qed.

(** The two halves of a digest. *)
Definition half (d : list Z) (field : Z) : list Z := ztake 8 (zdrop (field * 8) d).

Lemma half_facts d field : bytes d -> zlen d = 16 -> field = 0 \/ field = 1 ->
  bytes (half d field) /\ length (half d field) = 8%nat.
Proof.
  intros Hb Hl Hf. split; [apply Forall_take, Forall_drop; done|].
  apply Nat2Z.inj. change (zlen (half d field) = 8). unfold half. rewrite zlen_ztake, zlen_zdrop. lia.
Qed.

Lemma halves d : zlen d = 16 -> d = half d 0 ++ half d 1.
Proof.
  intros Hl. unfold half. rewrite zdrop_0 by lia. change (1 * 8) with 8.
  rewrite (ztake_all 8 (zdrop 8 d)) by len. rewrite ztake_zdrop. done.
Qed.

Lemma field_for_compare be d field : bytes d -> zlen d = 16 -> field = 0 \/ field = 1 ->
  digest_field_for_compare be d field = be_value (half d field).
Proof.
  intros Hb Hl Hf. destruct (half_facts d field Hb Hl Hf) as [Hbs H8].
  unfold digest_field_for_compare, digest_field, Double_wosize_bytes. fold (half d field).
  destruct be; [done|]. apply byte_swap; done.
Qed.

Lemma field_inj be a b field : bytes a -> bytes b -> zlen a = 16 -> zlen b = 16 ->
  field = 0 \/ field = 1 -> digest_field be a field = digest_field be b field ->
  half a field = half b field.
Proof.
  intros Ha Hb Hla Hlb Hf E. destruct (half_facts a field Ha Hla Hf), (half_facts b field Hb Hlb Hf).
  unfold digest_field, Double_wosize_bytes in E. fold (half a field) (half b field) in E.
  destruct be; [apply be_value_inj|apply le_value_inj]; done || congruence.
Qed.

(** C28.  On a machine of either byte order, comparing two digests gives the sign of the
    lexicographic comparison of their 16 bytes, although the code compares two 64-bit
    words; and two digests are equal exactly when their bytes are. *)
Theorem digest_compare_correct (big_endian : bool) (left right : list Z) :
  bytes left -> bytes right -> zlen left = BLAKE3_MINI_DIGEST_SIZE ->
  zlen right = BLAKE3_MINI_DIGEST_SIZE ->
  blake3_mini_digest_compare big_endian left right = byte_compare left right /\
  (blake3_mini_digest_equal big_endian left right = true <-> left = right).
Proof.
  intros Hl Hr Ll Lr. split.
  - destruct (half_facts left 0 Hl Ll ltac:(auto)), (half_facts left 1 Hl Ll ltac:(auto)),
      (half_facts right 0 Hr Lr ltac:(auto)), (half_facts right 1 Hr Lr ltac:(auto)).
    unfold blake3_mini_digest_compare. rewrite !field_for_compare by auto.
    replace (byte_compare left right)
      with (byte_compare (half left 0 ++ half left 1) (half right 0 ++ half right 1))
      by (rewrite <- !halves by done; done).
    rewrite byte_compare_app by congruence.
    rewrite !be_value_compare by (done || congruence).
    destruct (Z.eqb_spec (be_value (half left 0)) (be_value (half right 0))) as [->|Hne].
    + rewrite !Z.ltb_irrefl. done.
    + destruct (Z.ltb_spec (be_value (half left 0)) (be_value (half right 0))),
        (Z.ltb_spec (be_value (half right 0)) (be_value (half left 0))); done || lia.
  - unfold blake3_mini_digest_equal. rewrite andb_true_iff, !Z.eqb_eq. split; [|intros ->; done].
    intros [E0 E1]. rewrite (halves left Ll), (halves right Lr).
    f_equal; eapply field_inj; eauto.
Qed.

Lemma digest_compare_correct_witness :
  let a := [0; 1; 2; 3; 4; 5; 6; 7; 8; 9; 10; 11; 12; 13; 14; 200] in
  let b := [0; 1; 2; 3; 4; 5; 6; 7; 8; 9; 10; 11; 12; 13; 15; 0] in
  blake3_mini_digest_compare false a b = byte_compare a b /\
  (blake3_mini_digest_equal false a b = true <-> a = b).
Proof.
  apply (digest_compare_correct false
    [0; 1; 2; 3; 4; 5; 6; 7; 8; 9; 10; 11; 12; 13; 14; 200]
    [0; 1; 2; 3; 4; 5; 6; 7; 8; 9; 10; 11; 12; 13; 15; 0]); try done;
    repeat (apply Forall_cons; split; [split; done|]); apply Forall_nil; done.
Defined.

(** ** Reading to the end of a file *)

(** A [read] that does not end the loop: data, or an interruption. *)
Definition goes_on (a : answer) : Prop :=
  a = Errno EINTR \/ exists bs, a = Bytes bs /\ 0 < zlen bs.

Definition data (reads : list answer) : list Z := concat (map read_data reads).

Section ReadLoop.
Context {B : Backend} {L : BackendLaws B}.
Context (junk : Z -> list Z) (Hjunk : sized junk).
Context {R : Type} (fd : Z) (step : blake3_hasher -> M (blake3_hasher + R)).

(** The passes of the two read loops that go on. *)
Context (Hintr : forall h rest cs, step h (at_ (Errno EINTR :: rest) cs) =
  Done (inl h, at_ rest (cs ++ [Call "read" [fd; UNIX_BUFFER_SIZE]]))).
Context (Hdata : forall h h' bs rest cs, 0 < zlen bs -> blake3_hasher_update junk h bs = Done h' ->
  step h (at_ (Bytes bs :: rest) cs) =
  Done (inl h', at_ rest (cs ++ [Call "read" [fd; UNIX_BUFFER_SIZE]]))).
Context (Hcons : consuming step).

Lemma read_loop reads h m rest cs : hasher_inv IV 0 h m ->
  Forall goes_on reads -> zlen m + zlen (data reads) < 2 ^ 64 ->
  exists h', hasher_inv IV 0 h' (m ++ data reads) /\
    loop step h (at_ (reads ++ rest) cs) =
    loop step h' (at_ rest (cs ++ log "read" [fd; UNIX_BUFFER_SIZE] (length reads))).
Proof.
  revert h m cs. induction reads as [|a reads IH]; intros h m cs Hi HF Hlen.
  { exists h. unfold data. simpl. rewrite !app_nil_r. done. }
  apply Forall_cons in HF as [Ha HF].
  cbn [length]. rewrite log_S.
  destruct Ha as [->|(bs & -> & Hbs)]; cbn [app].
  - rewrite (loop_next _ _ _ _ _ Hcons (Hintr h (reads ++ rest) cs)).
    apply IH; done.
  - change (data (Bytes bs :: reads)) with (bs ++ data reads) in *.
    rewrite zlen_app in Hlen. pose proof (zlen_nonneg (data reads)).
    destruct (blake3_hasher_update_ok junk Hjunk IV 0 IV_width ltac:(done) h m bs Hi)
      as (h1 & E & Hi1); [lia|].
    rewrite (loop_next _ _ _ _ _ Hcons (Hdata h h1 bs (reads ++ rest) cs Hbs E)).
    rewrite app_assoc. apply IH; [done|done|]. rewrite zlen_app. lia.
Qed.
End ReadLoop.

Lemma fd_read_step_consuming {B : Backend} junk fd : consuming (fd_read_step junk fd).
Proof. unfold fd_read_step. consumes. Qed.

Lemma file_read_step_consuming {B : Backend} junk fd : consuming (file_read_step junk fd).
Proof. unfold file_read_step. consumes. Qed.

Lemma open_step_consuming : consuming open_step.
Proof. unfold open_step. consumes. Qed.

Lemma fstat_step_consuming fd : consuming (fstat_step fd).
Proof. unfold fstat_step. consumes. Qed.

Lemma alloc_hash_ok {B : Backend} {L : BackendLaws B} h m : hasher_inv IV 0 h m ->
  alloc_hash h = Done (blake3_spec IV 0 m 0 BLAKE3_MINI_DIGEST_SIZE).
Proof. intros Hi. apply blake3_hasher_finalize_seek_ok; done. Qed.

Lemma nonempty_read bs : 0 < zlen bs -> zlen (read_data (Bytes bs)) =? 0 = false.
Proof. intros. apply Z.eqb_neq. simpl. lia. Qed.

(** C33.  Hashing a descriptor: whatever the sizes of the reads and however often they are
    interrupted, the digest is the BLAKE3 hash of all the bytes read before the end of the
    file; any other error of [read] is raised as [Unix_error] and nothing is hashed. *)
Theorem mini_fd_correct {B : Backend} {L : BackendLaws B} (junk : Z -> list Z) (fd : Z)
  (reads : list answer) (rest : list answer) (cs : list call) :
  sized junk -> Forall goes_on reads -> zlen (data reads) < 2 ^ 64 ->
  let w a := at_ (reads ++ a :: rest) cs in
  let w' := at_ rest (cs ++ log "read" [fd; UNIX_BUFFER_SIZE] (S (length reads))) in
  blake3_mini_fd junk fd (w (Bytes [])) =
    Done (Value (blake3_spec IV 0 (data reads) 0 BLAKE3_MINI_DIGEST_SIZE), w') /\
  (forall e, e <> EINTR -> blake3_mini_fd junk fd (w (Errno e)) =
    Done (Raise (Unix_error e "read" []), w')).
Proof.
  intros Hj HF Hlen w w'.
  assert (Hi0 : hasher_inv IV 0 (blake3_hasher_init junk) []) by (apply init_inv, Hj; done).
  assert (Hloop : forall a, exists h', hasher_inv IV 0 h' (data reads) /\
    loop (fd_read_step junk fd) (blake3_hasher_init junk) (w a) =
    loop (fd_read_step junk fd) h'
      (at_ (a :: rest) (cs ++ log "read" [fd; UNIX_BUFFER_SIZE] (length reads)))).
  { intros a. apply (read_loop junk Hj fd (fd_read_step junk fd)) with (m := []); try done.
    - intros h h' bs r c Hbs E. unfold fd_read_step. rewrite bind_sys, nonempty_read by done.
      cbn [read_data]. unfold mbind, M_bind, lift. rewrite E. done.
    - apply fd_read_step_consuming. }
  unfold w', blake3_mini_fd. rewrite log_snoc. split; [|intros e He].
  - destruct (Hloop (Bytes [])) as (h' & Hi & E).
    erewrite bind_Done; [|rewrite E; apply loop_leave; reflexivity]. cbv iota beta.
    unfold lift, mbind, M_bind. rewrite (alloc_hash_ok _ _ Hi). done.
  - destruct (Hloop (Errno e)) as (h' & Hi & E).
    erewrite bind_Done; [|rewrite E; apply loop_leave; unfold fd_read_step; rewrite bind_sys;
      rewrite (proj2 (Z.eqb_neq e EINTR)) by done; reflexivity]. done.
Qed.

Lemma mini_fd_correct_witness :
  let reads := [Bytes [1; 2]; Errno EINTR; Bytes [3]] in
  let w a := at_ (reads ++ a :: []) [] in
  let w' := at_ [] ([] ++ log "read" [5; UNIX_BUFFER_SIZE] (S (length reads))) in
  blake3_mini_fd (B := portable) zeros 5 (w (Bytes [])) =
    Done (Value (blake3_spec (B := portable) IV 0 (data reads) 0 BLAKE3_MINI_DIGEST_SIZE), w') /\
  (forall e, e <> EINTR -> blake3_mini_fd (B := portable) zeros 5 (w (Errno e)) =
    Done (Raise (Unix_error e "read" []), w')).
Proof.
  apply (mini_fd_correct (B := portable) zeros 5 [Bytes [1; 2]; Errno EINTR; Bytes [3]] [] []).
  - apply sized_zeros.
  - apply Forall_cons. split; [right; eexists; split; [reflexivity|done]|].
    apply Forall_cons. split; [left; done|].
    apply Forall_cons. split; [right; eexists; split; [reflexivity|done]|]. apply Forall_nil. done.
  - done.
Defined.

(** ** Hashing a file *)

Section File.
Context {B : Backend} {L : BackendLaws B} (junk : Z -> list Z) (Hj : sized junk).

Lemma open_loop n a rest cs : (forall e, a = Errno e -> e <> EINTR) ->
  loop open_step tt (at_ (replicate n (Errno EINTR) ++ a :: rest) cs) =
  Done (match a with Errno e => inr e | Ret fd => inl fd | Bytes _ => inl 0 end,
        at_ rest (cs ++ log "open" [O_RDONLY_CLOEXEC] (S n))).
Proof.
  intros Ha. rewrite (retry_loop "open" [O_RDONLY_CLOEXEC]); [|done|apply open_step_consuming].
  rewrite log_snoc. apply loop_leave. unfold open_step. rewrite bind_sys. destruct a; try done.
  rewrite (proj2 (Z.eqb_neq _ _)) by auto. done.
Qed.

Lemma fstat_loop fd n a rest cs : (forall e, a = Errno e -> e <> EINTR) ->
  loop (fstat_step fd) tt (at_ (replicate n (Errno EINTR) ++ a :: rest) cs) =
  Done (match a with Errno e => inr e | Ret size => inl size | Bytes _ => inl 0 end,
        at_ rest (cs ++ log "fstat" [fd] (S n))).
Proof.
  intros Ha. rewrite (retry_loop "fstat" [fd]); [|done|apply fstat_step_consuming].
  rewrite log_snoc. apply loop_leave. unfold fstat_step. rewrite bind_sys. destruct a; try done.
  rewrite (proj2 (Z.eqb_neq _ _)) by auto. done.
Qed.

(** The read loop ends at the end of the file with [err] still [0], or with the error. *)
Lemma file_read_loop fd reads a rest cs : Forall goes_on reads -> zlen (data reads) < 2 ^ 64 ->
  a = Bytes [] \/ (exists e, a = Errno e /\ e <> EINTR) ->
  exists h', hasher_inv IV 0 h' (data reads) /\
    loop (file_read_step junk fd) (blake3_hasher_init junk) (at_ (reads ++ a :: rest) cs) =
    Done (h', match a with Errno e => e | _ => 0 end,
          at_ rest (cs ++ log "read" [fd; UNIX_BUFFER_SIZE] (S (length reads)))).
Proof.
  intros HF Hlen Ha.
  assert (Hi0 : hasher_inv IV 0 (blake3_hasher_init junk) []) by (apply init_inv, Hj; done).
  destruct (read_loop junk Hj fd (file_read_step junk fd)) with (reads := reads) (m := @nil Z)
    (h := blake3_hasher_init junk) (rest := a :: rest) (cs := cs) as (h' & Hi & E); try done.
  - intros h h' bs r c Hbs E. unfold file_read_step. rewrite bind_sys, nonempty_read by done.
    cbn [read_data]. unfold mbind, M_bind, lift. rewrite E. done.
  - apply file_read_step_consuming.
  - exists h'. split; [done|]. rewrite E, log_snoc. apply loop_leave. unfold file_read_step.
    rewrite bind_sys. destruct Ha as [->|(e & -> & He)]; [done|].
    rewrite (proj2 (Z.eqb_neq _ _)) by done. done.
Qed.
End File.

#[local] Arguments signed : simpl never.
#[local] Arguments Val_long : simpl never.

(** C23.  Hashing a file by name, where it is implemented (not on Windows, where it always
    fails): [open], [fstat] and [read] are retried while interrupted; on success the result
    is the BLAKE3 hash of the file's bytes with the size [fstat] gave, which is exact below
    2^62 and loses its highest bit to OCaml's integers from there on; an error of [open],
    [fstat] or [read] is the one reported, even when closing fails too, and an error of
    [close] alone is reported as such. *)
Theorem mini_file_correct {B : Backend} {L : BackendLaws B} (junk : Z -> list Z) (path : list Z)
  (fd size e : Z) (n1 n2 : nat) (reads rest : list answer) (closed : answer) (cs : list call) :
  sized junk -> check_path path = true -> Forall goes_on reads -> zlen (data reads) < 2 ^ 64 ->
  - 2 ^ 63 <= size < 2 ^ 63 -> e <> EINTR -> e <> 0 ->
  let digest := blake3_spec IV 0 (data reads) 0 BLAKE3_MINI_DIGEST_SIZE in
  let opening := replicate n1 (Errno EINTR) in
  let stating := Ret fd :: replicate n2 (Errno EINTR) in
  let run answers := exec_bind (blake3_mini_file_with_size junk false path (at_ answers cs))
                       (fun r => Done r.1) in
  blake3_mini_file_with_size junk true path (at_ rest cs) =
    Done (Raise (Failure "blake3_mini_file_with_size is not implemented on Windows"), at_ rest cs) /\
  (0 <= size < 2 ^ 62 -> Val_long size = size) /\
  run (opening ++ stating ++ Ret size :: reads ++ Bytes [] :: Ret 0 :: rest) =
    Done (Value (digest, Val_long size)) /\
  run (opening ++ Errno e :: rest) = Done (Raise (Unix_error e "open" path)) /\
  run (opening ++ stating ++ Errno e :: closed :: rest) = Done (Raise (Unix_error e "fstat" path)) /\
  run (opening ++ stating ++ Ret size :: reads ++ Errno e :: closed :: rest) =
    Done (Raise (Unix_error e "read" path)) /\
  run (opening ++ stating ++ Ret size :: reads ++ Bytes [] :: Errno e :: rest) =
    Done (Raise (Unix_error e "close" path)).
Proof.
  intros Hj Hp HF Hlen Hsz He He0 digest opening stating run. split; [done|].
  split; [apply Val_long_small|].
  unfold run, opening, stating, blake3_mini_file_with_size. rewrite Hp. cbn [negb].
  assert (Hnz : (e =? 0) = false) by (apply Z.eqb_neq; done).
  unfold mbind, M_bind, file_body, file_close.
  assert (Hopen : forall a rest, loop open_step tt (at_ (replicate n1 (Errno EINTR) ++
      Ret fd :: replicate n2 (Errno EINTR) ++ a :: rest) cs) =
    Done (inl fd, at_ (replicate n2 (Errno EINTR) ++ a :: rest)
      (cs ++ log "open" [O_RDONLY_CLOEXEC] (S n1)))) by (intros; apply open_loop; done).
  assert (Hread : forall a rest' cs', a = Bytes [] \/ (exists e, a = Errno e /\ e <> EINTR) ->
    exists h', hasher_inv IV 0 h' (data reads) /\
    loop (file_read_step junk fd) (blake3_hasher_init junk) (at_ (reads ++ a :: rest') cs') =
    Done (h', match a with Errno e => e | _ => 0 end,
          at_ rest' (cs' ++ log "read" [fd; UNIX_BUFFER_SIZE] (S (length reads)))))
    by (intros; apply file_read_loop; done).
  cbn [app]. rewrite !Hopen. cbv iota beta.
  unfold mbind, M_bind. rewrite !fstat_loop by (intros ? [=]; congruence). cbv iota beta.
  rewrite open_loop by (intros ? [=]; congruence). cbv iota beta.
  repeat split.
  - edestruct (Hread (Bytes [])) as (h' & Hi & ->); [auto|]. cbn -[alloc_hash].
    unfold lift. rewrite (alloc_hash_ok _ _ Hi). cbn. rewrite signed_small by (cbn; lia). done.
  - cbn. rewrite Hnz. done.
  - destruct closed; cbn; rewrite ?Hnz; cbn; rewrite ?Hnz; done.
  - edestruct (Hread (Errno e)) as (h' & Hi & ->); [eauto|].
    destruct closed; cbn; rewrite ?Hnz; cbn; rewrite ?Hnz; done.
  - edestruct (Hread (Bytes [])) as (h' & Hi & ->); [auto|]. cbn. rewrite Hnz. done.
Qed.

Lemma mini_file_correct_witness :
  let reads := [Bytes [104; 105]] in
  let digest := blake3_spec (B := portable) IV 0 (data reads) 0 BLAKE3_MINI_DIGEST_SIZE in
  let opening := replicate 1 (Errno EINTR) in
  let stating := Ret 7 :: replicate 0 (Errno EINTR) in
  let run answers := exec_bind (blake3_mini_file_with_size (B := portable) zeros false [47; 120] (at_ answers []))
                       (fun r => Done r.1) in
  run (opening ++ stating ++ Ret 2 :: reads ++ Bytes [] :: Ret 0 :: []) = Done (Value (digest, 2)) /\
  run (opening ++ stating ++ Errno 13 :: Ret 0 :: []) = Done (Raise (Unix_error 13 "fstat" [47; 120])).
Proof.
  intros reads digest opening stating run.
  destruct (mini_file_correct (B := portable) zeros [47; 120] 7 2 13 1 0 [Bytes [104; 105]] [] (Ret 0) [])
    as (_ & V & H1 & _ & H2 & _); [apply sized_zeros|reflexivity| |reflexivity|lia|discriminate|discriminate|].
  - apply Forall_cons. split; [right; eexists; split; [reflexivity|done]|]. apply Forall_nil. done.
  - split; [rewrite <- (V ltac:(lia)); exact H1|exact H2].
Defined.

Definition not_close (c : call) : Prop := c_name c <> "close"%string.

Lemma file_body_closes {B : Backend} junk fd hasher w r w' :
  file_body junk fd hasher w = Done (r, w') ->
  exists mid, calls w' = calls w ++ mid ++ [Call "close" [fd]] /\ Forall not_close mid.
Proof.
  assert (Hclose : forall err op w r w', file_close fd err op w = Done (r, w') ->
    calls w' = calls w ++ [Call "close" [fd]]).
  { intros err op w0 r0 w0'. unfold file_close, mbind, M_bind, sys.
    destruct (answers w0) as [|a l]; [done|]. destruct a; intros [= _ <-]; done. }
  assert (Hst : emits not_close (loop (fstat_step fd) tt)) by (unfold fstat_step; emits_auto).
  assert (Hrd : emits not_close (loop (file_read_step junk fd) hasher))
    by (unfold file_read_step; emits_auto).
  unfold file_body, mbind, M_bind. destruct (loop (fstat_step fd) tt w) as [[st w1]| |] eqn:E1; try done.
  destruct (Hst _ _ _ E1) as (n1 & C1 & F1). destruct st as [size|e].
  - destruct (loop (file_read_step junk fd) hasher w1) as [[[h2 err] w2]| |] eqn:E2; try done.
    destruct (Hrd _ _ _ E2) as (n2 & C2 & F2).
    destruct (file_close fd err "read" w2) as [[[e3 op3] w3]| |] eqn:E3; try done.
    intros [= _ <-]. exists (n1 ++ n2). rewrite (Hclose _ _ _ _ _ E3), C2, C1, <- !app_assoc.
    split; [done|]. apply Forall_app. done.
  - destruct (file_close fd e "fstat" w1) as [[[e3 op3] w3]| |] eqn:E3; try done.
    intros [= _ <-]. exists n1. rewrite (Hclose _ _ _ _ _ E3), C1, <- app_assoc. done.
Qed.

(** C30.  No descriptor leaks from hashing a file: on every behaviour of the system, if the
    function comes back, the descriptor [open] gave was closed exactly once, as the last
    call, and nothing was closed when [open] failed; on Windows no call is made. *)
Theorem mini_file_closes {B : Backend} (junk : Z -> list Z) (windows : bool) (path : list Z) (w w' : os)
  (r : caml (list Z * Z)) :
  check_path path = true -> blake3_mini_file_with_size junk windows path w = Done (r, w') ->
  exists new, calls w' = calls w ++ new /\
    if windows then new = [] else
    match loop open_step tt w with
    | Done (inl fd, _) => exists mid, new = mid ++ [Call "close" [fd]] /\ Forall not_close mid
    | _ => Forall not_close new
    end.
Proof.
  intros Hp. unfold blake3_mini_file_with_size. rewrite Hp. cbn [negb].
  destruct windows; [intros [= _ <-]; exists []; rewrite app_nil_r; done|].
  assert (Hop : emits not_close (loop open_step tt)) by (unfold open_step; emits_auto).
  unfold mbind, M_bind. destruct (loop open_step tt w) as [[o w1]| |] eqn:E1; try done.
  destruct (Hop _ _ _ E1) as (n1 & C1 & F1). destruct o as [fd|e].
  - destruct (file_body junk fd (blake3_hasher_init junk) w1) as [[[[[err op] size] h] w2]| |] eqn:E2;
      try done.
    destruct (file_body_closes _ _ _ _ _ _ E2) as (mid & C2 & F2). rewrite C1, <- app_assoc in C2.
    assert (Hnew : forall v : os, calls v = calls w2 -> exists new, calls v = calls w ++ new /\
      exists mid, new = mid ++ [Call "close" [fd]] /\ Forall not_close mid).
    { intros v ->. exists (n1 ++ mid ++ [Call "close" [fd]]). split; [done|].
      exists (n1 ++ mid). rewrite <- app_assoc. split; [done|]. apply Forall_app. done. }
    destruct (negb (err =? 0)); [intros [= _ <-]; apply Hnew; done|].
    unfold lift. destruct (alloc_hash h); try done. intros [= _ <-]. apply Hnew. done.
  - cbn -[alloc_hash]. destruct (negb (e =? 0)); [intros [= _ <-]; eauto|].
    unfold lift. destruct (alloc_hash (blake3_hasher_init junk)); try done. intros [= _ <-]. eauto.
Qed.

Lemma mini_file_closes_witness :
  let w := at_ [Ret 9; Ret 0; Bytes []; Errno 5] [] in
  let w' := at_ [] [Call "open" [O_RDONLY_CLOEXEC]; Call "fstat" [9];
                    Call "read" [9; UNIX_BUFFER_SIZE]; Call "close" [9]] in
  exists new, calls w' = calls w ++ new /\
    match loop open_step tt w with
    | Done (inl fd, _) => exists mid, new = mid ++ [Call "close" [fd]] /\ Forall not_close mid
    | _ => Forall not_close new
    end.
Proof.
  apply (mini_file_closes (B := portable) zeros false [120] (at_ [Ret 9; Ret 0; Bytes []; Errno 5] [])
    (at_ [] [Call "open" [O_RDONLY_CLOEXEC]; Call "fstat" [9];
             Call "read" [9; UNIX_BUFFER_SIZE]; Call "close" [9]])
    (Raise (Unix_error 5 "close" [120]))); reflexivity.
Defined.

(** ** The streaming interface *)

(** C34.  Feeding a part of a string or of a bigarray: a range that is not inside it, also
    one whose ends overflow, raises [Invalid_argument] and leaves the hasher alone; a range
    inside it is absorbed, exactly those bytes, and nothing outside is read. *)
Theorem mini_feed_correct {B : Backend} {L : BackendLaws B} (junk : Z -> list Z)
  (h : blake3_hasher) (m s : list Z) (pos len : Z) :
  sized junk -> hasher_inv IV 0 h m -> zlen m + zlen s < 2 ^ 64 ->
  - 2 ^ 63 <= pos < 2 ^ 63 -> - 2 ^ 63 <= len < 2 ^ 63 ->
  (0 <= pos /\ 0 <= len /\ pos + len <= zlen s ->
     exists h', blake3_mini_feed_string junk h s pos len = Done (Value h') /\
       hasher_inv IV 0 h' (m ++ ztake len (zdrop pos s))) /\
  (~ (0 <= pos /\ 0 <= len /\ pos + len <= zlen s) ->
     blake3_mini_feed_string junk h s pos len =
     Done (Raise (Invalid_argument "Blake3_mini.feed: invalid range"))) /\
  blake3_mini_feed_bigstring_unlock junk h s pos len = blake3_mini_feed_string junk h s pos len.
Proof.
  intros Hj Hi Hlen Hpos Hl. pose proof (zlen_nonneg s). pose proof (zlen_nonneg m).
  assert (Hrange : blake3_mini_check_range pos len (zlen s) =
    if decide (0 <= pos /\ 0 <= len /\ pos + len <= zlen s) then Value tt
    else Raise (Invalid_argument "Blake3_mini.feed: invalid range")).
  { unfold blake3_mini_check_range. destruct (Z.ltb_spec pos 0), (Z.ltb_spec len 0); cbn [orb];
      try (rewrite decide_False by lia; done).
    rewrite (wrap_small 64 pos), (wrap_small 64 len) by lia.
    destruct (Z.ltb_spec (zlen s) pos); cbn [orb]; [rewrite decide_False by lia; done|].
    rewrite wrap_small by lia.
    destruct (Z.ltb_spec (zlen s - pos) len); [rewrite decide_False by lia|rewrite decide_True by lia]; done. }
  split; [|split; [|done]]; unfold blake3_mini_feed_string; rewrite Hrange; intros Hin.
  - rewrite decide_True by done. rewrite load_range_ok by lia. cbn [exec_bind].
    destruct (blake3_hasher_update_ok junk Hj IV 0 IV_width ltac:(done) h m
      (ztake len (zdrop pos s)) Hi) as (h' & -> & Hi'); [rewrite zlen_ztake, zlen_zdrop; lia|].
    eauto.
  - rewrite decide_False by done. done.
Qed.

Lemma mini_feed_correct_witness :
  (0 <= 1 /\ 0 <= 2 /\ 1 + 2 <= zlen [7; 8; 9] ->
     exists h', blake3_mini_feed_string (B := portable) zeros (blake3_mini_create zeros) [7; 8; 9] 1 2 = Done (Value h') /\
       hasher_inv (B := portable) IV 0 h' ([] ++ ztake 2 (zdrop 1 [7; 8; 9]))) /\
  (~ (0 <= 1 /\ 0 <= 2 /\ 1 + 2 <= zlen [7; 8; 9]) ->
     blake3_mini_feed_string (B := portable) zeros (blake3_mini_create zeros) [7; 8; 9] 1 2 =
     Done (Raise (Invalid_argument "Blake3_mini.feed: invalid range"))) /\
  blake3_mini_feed_bigstring_unlock (B := portable) zeros (blake3_mini_create zeros) [7; 8; 9] 1 2 =
    blake3_mini_feed_string (B := portable) zeros (blake3_mini_create zeros) [7; 8; 9] 1 2.
Proof.
  apply (mini_feed_correct (B := portable) zeros (blake3_mini_create zeros) [] [7; 8; 9] 1 2); try done.
  - apply sized_zeros.
  - apply init_inv. done.
Defined.
